(** * LAIK: transition execution back ends and container switching

    A shallow embedding of the parts of the LAIK parallel container
    library that move data when a container switches partitioning:

    - [Tcp2]: the text based point-to-point back end (peer table, event
      loop, command handlers, credit based send and receive of slices);
    - [Mpi]: the plan buffers and the two-sweep send/receive schedule of
      the collective back end;
    - [Data]: mappings of a container and [laik_set_partitioning] with
      its local copy and initialisation steps.

    C integers are integers of [Z] with the wrap-around written where the
    C code converts or increments; C strings are values of [string]. *)

From Stdlib Require Import ZArith List String Ascii Bool Lia.
From Stdlib Require Import Floats.
Import ListNotations.
Open Scope Z_scope.

(** * Machine integers *)

Module CInt.

Definition UINT64_MOD : Z := 2 ^ 64.
Definition INT_MAX : Z := 2 ^ 31 - 1.
Definition INT_MIN : Z := - 2 ^ 31.
Definition LONG_MAX : Z := 2 ^ 63 - 1.
Definition LONG_MIN : Z := - 2 ^ 63.

(** Arithmetic on [uint64_t] wraps. *)
Definition u64 (z : Z) : Z := z mod UINT64_MOD.

(** Conversion of an integer value to [int] keeps the low 32 bits. *)
Definition to_int (z : Z) : Z := (z + 2 ^ 31) mod 2 ^ 32 - 2 ^ 31.

Definition is_u64 (z : Z) : Prop := 0 <= z < UINT64_MOD.
Definition is_int (z : Z) : Prop := INT_MIN <= z <= INT_MAX.

(** Conversion of a number written in decimal to [long], as [strtol]
    does it: a number beyond the bounds gives the bound. *)
Definition to_long (z : Z) : Z := Z.max LONG_MIN (Z.min LONG_MAX z).

(** The [int] that [%d] of [sscanf] stores for a number written in
    decimal: the number is converted to a [long], of which the [int]
    keeps the low 32 bits, as the C library of the platform does; C
    itself leaves the result open when the number does not fit an
    [int]. *)
Definition stored_int (z : Z) : Z := to_int (to_long z).

End CInt.

(** * Index space: indexes and slices *)

(** [Laik_Index] is [uint64_t i[3]]. *)
Record Laik_Index : Type := mkIndex { i0 : Z; i1 : Z; i2 : Z }.

Definition set_i0 (idx : Laik_Index) (v : Z) := mkIndex v (i1 idx) (i2 idx).
Definition set_i1 (idx : Laik_Index) (v : Z) := mkIndex (i0 idx) v (i2 idx).
Definition set_i2 (idx : Laik_Index) (v : Z) := mkIndex (i0 idx) (i1 idx) v.

(** A slice [[from, to)] together with [slc->space->dims]. *)
Record Laik_Slice : Type := mkSlice {
  dims : Z;
  from : Laik_Index;
  to : Laik_Index
}.

(** Modelled from the spec: [laik_slice_size] belongs to the index-space
    module of the core, which the back ends only call.  A slice is the
    half-open hyper-rectangle [[from, to)], so its element count is the
    product of the extents of the axes in use, computed in [uint64_t]. *)
Definition laik_slice_size (slc : Laik_Slice) : Z :=
  let s0 := CInt.u64 (i0 (to slc) - i0 (from slc)) in
  if dims slc <=? 1 then s0
  else
    let s1 := CInt.u64 (s0 * CInt.u64 (i1 (to slc) - i1 (from slc))) in
    if dims slc <=? 2 then s1
    else CInt.u64 (s1 * CInt.u64 (i2 (to slc) - i2 (from slc))).

(** The number of indexes of a slice, as a product of integers. *)
Definition slice_volume (slc : Laik_Slice) : Z :=
  let w0 := i0 (to slc) - i0 (from slc) in
  if dims slc <=? 1 then w0
  else
    let w1 := i1 (to slc) - i1 (from slc) in
    if dims slc <=? 2 then w0 * w1
    else w0 * w1 * (i2 (to slc) - i2 (from slc)).

(** Equality of the first [d] coordinates, as [laik_index_isEqual]. *)
Definition index_eq_dims (d : Z) (a b : Laik_Index) : Prop :=
  i0 a = i0 b /\ (2 <= d -> i1 a = i1 b) /\ (3 <= d -> i2 a = i2 b).

(** A slice of dimension 1, 2 or 3 whose axes in use are all non-empty. *)
Definition slice_nonempty (slc : Laik_Slice) : Prop :=
  1 <= dims slc <= 3 /\
  0 <= i0 (from slc) < i0 (to slc) /\ i0 (to slc) < CInt.UINT64_MOD /\
  (2 <= dims slc ->
     0 <= i1 (from slc) < i1 (to slc) /\ i1 (to slc) < CInt.UINT64_MOD) /\
  (3 <= dims slc ->
     0 <= i2 (from slc) < i2 (to slc) /\ i2 (to slc) < CInt.UINT64_MOD).

(** Index traversal over a slice: the incremented index, and whether it
    still lies in the slice. *)
Definition next_lex (slc : Laik_Slice) (idx : Laik_Index) : bool * Laik_Index :=
  let idx := set_i0 idx (CInt.u64 (i0 idx + 1)) in
  if i0 idx <? i0 (to slc) then (true, idx)
  else if dims slc =? 1 then (false, idx)
  else
    let idx := set_i1 idx (CInt.u64 (i1 idx + 1)) in
    let idx := set_i0 idx (i0 (from slc)) in
    if i1 idx <? i1 (to slc) then (true, idx)
    else if dims slc =? 2 then (false, idx)
    else
      let idx := set_i2 idx (CInt.u64 (i2 idx + 1)) in
      let idx := set_i1 idx (i1 (from slc)) in
      if i2 idx <? i2 (to slc) then (true, idx)
      else (false, idx).

(** The indexes of a slice: membership, and position in the lexicographic
    order in which [next_lex] visits them (axis 0 fastest). *)
Definition idx_in (slc : Laik_Slice) (idx : Laik_Index) : Prop :=
  i0 (from slc) <= i0 idx < i0 (to slc) /\
  (2 <= dims slc -> i1 (from slc) <= i1 idx < i1 (to slc)) /\
  (3 <= dims slc -> i2 (from slc) <= i2 idx < i2 (to slc)).

(** An index of the slice whose coordinates on the axes not in use are
    those of [from], as for every index reached from [from]. *)
Definition on_track (slc : Laik_Slice) (idx : Laik_Index) : Prop :=
  idx_in slc idx /\
  (dims slc < 2 -> i1 idx = i1 (from slc)) /\
  (dims slc < 3 -> i2 idx = i2 (from slc)).

Definition lex_rank (slc : Laik_Slice) (idx : Laik_Index) : Z :=
  let w0 := i0 (to slc) - i0 (from slc) in
  let w1 := i1 (to slc) - i1 (from slc) in
  let r0 := i0 idx - i0 (from slc) in
  if dims slc <=? 1 then r0
  else
    let r1 := i1 idx - i1 (from slc) in
    if dims slc <=? 2 then r0 + w0 * r1
    else r0 + w0 * (r1 + w1 * (i2 idx - i2 (from slc))).

(** Where the index stands once the traversal is over: the highest axis in
    use has reached [to], every lower axis is back at [from]. *)
Definition lex_end (slc : Laik_Slice) : Laik_Index :=
  if dims slc =? 1 then
    mkIndex (i0 (to slc)) (i1 (from slc)) (i2 (from slc))
  else if dims slc =? 2 then
    mkIndex (i0 (from slc)) (i1 (to slc)) (i2 (from slc))
  else mkIndex (i0 (from slc)) (i1 (from slc)) (i2 (to slc)).

(** * Strings as the C code reads and writes them *)

Module CStr.

Open Scope string_scope.

Definition code (c : ascii) : Z := Z.of_nat (nat_of_ascii c).

Definition NUL : ascii := ascii_of_nat 0.
Definition NL : ascii := ascii_of_nat 10.
Definition CR : ascii := ascii_of_nat 13.
Definition SP : ascii := ascii_of_nat 32.

Definition is_char (a b : ascii) : bool := (code a =? code b)%Z.

(** The C string stored in a byte sequence: everything before the
    first NUL. *)
Fixpoint cstr (s : string) : string :=
  match s with
  | EmptyString => EmptyString
  | String c r => if is_char c NUL then EmptyString else String c (cstr r)
  end.

(** [s[i]]; the terminating NUL sits at index [strlen s]. *)
Fixpoint char_at_nat (s : string) (i : nat) : ascii :=
  match s, i with
  | EmptyString, _ => NUL
  | String c _, O => c
  | String _ r, S j => char_at_nat r j
  end.
Definition char_at (s : string) (i : Z) : ascii := char_at_nat s (Z.to_nat i).

(** [s + i]. *)
Fixpoint drop_nat (i : nat) (s : string) : string :=
  match i, s with
  | O, _ => s
  | S j, String _ r => drop_nat j r
  | S _, EmptyString => EmptyString
  end.
Definition drop (i : Z) (s : string) : string := drop_nat (Z.to_nat i) s.

Definition strlen (s : string) : Z := Z.of_nat (String.length s).

(** [strncmp(a, b, n) == 0]. *)
Fixpoint strncmp_eq (a b : string) (n : nat) : bool :=
  match n with
  | O => true
  | S m =>
      match a, b with
      | EmptyString, EmptyString => true
      | String x a', String y b' => is_char x y && strncmp_eq a' b' m
      | _, _ => false
      end
  end.

Definition streq (a b : string) : bool := String.eqb a b.

(** [isspace] in the C locale. *)
Definition isspace (c : ascii) : bool :=
  ((code c =? 32) || ((9 <=? code c) && (code c <=? 13)))%Z.

Definition isdigit (c : ascii) : bool :=
  ((48 <=? code c) && (code c <=? 57))%Z.

(** ** Formatted output *)

Definition digit_char (v : Z) : ascii := ascii_of_nat (Z.to_nat (48 + v)).

Fixpoint dec_digits (fuel : nat) (v : Z) (acc : string) : string :=
  match fuel with
  | O => acc
  | S f =>
      let acc := String (digit_char (v mod 10)) acc in
      if (v / 10 =? 0)%Z then acc else dec_digits f (v / 10) acc
  end.

(** [%llu] of a non-negative value, [%d] of any value. *)
Definition fmt_u (v : Z) : string :=
  dec_digits (S (Z.to_nat (Z.log2 v))) v "".
Definition fmt_d (v : Z) : string :=
  if (v <? 0)%Z then String "-" (fmt_u (- v)) else fmt_u v.

(** [%2d]: right-aligned in two columns. *)
Definition fmt_2d (v : Z) : string :=
  let s := fmt_d v in
  if (strlen s <? 2)%Z then String SP s else s.

Definition hex_char (v : Z) : ascii :=
  if (v <? 10)%Z then ascii_of_nat (Z.to_nat (48 + v))
  else ascii_of_nat (Z.to_nat (97 + (v - 10))).

(** [%02x] of a byte. *)
Definition fmt_02x (v : Z) : string :=
  String (hex_char (v / 16)) (String (hex_char (v mod 16)) "").

(** [%s] of a pointer; a null pointer prints as the C library of the
    platform prints it. *)
Definition fmt_s (o : option string) : string :=
  match o with Some s => s | None => "(null)" end.

(** ** Byte buffers *)

(** The first [n] bytes of a buffer; where the buffer was never written
    the bytes read as NUL. *)
Fixpoint take_pad (n : nat) (s : string) : string :=
  match n with
  | O => EmptyString
  | S m =>
      match s with
      | String c r => String c (take_pad m r)
      | EmptyString => String NUL (take_pad m EmptyString)
      end
  end.

(** Bytes [s] stored at offset [pos] of buffer [buf]. *)
Definition buf_write (buf : string) (pos : Z) (s : string) : string :=
  (take_pad (Z.to_nat pos) buf ++ s
   ++ drop_nat (Z.to_nat pos + String.length s) buf)%string.

(** At most [n] leading bytes of [s]. *)
Fixpoint prefix (n : nat) (s : string) : string :=
  match n, s with
  | S m, String c r => String c (prefix m r)
  | _, _ => EmptyString
  end.

(** [len] bytes of [buf] from offset [pos]. *)
Definition buf_sub (buf : string) (pos len : Z) : string :=
  take_pad (Z.to_nat len) (drop pos buf).

(** ** Formatted input: the conversions [sscanf] is called with *)

Inductive Directive : Type :=
| D_s (width : nat)   (* %<width>s *)
| D_d                 (* %d *)
| D_ws                (* white space in the format *)
| D_n.                (* %n *)

Inductive Arg : Type :=
| A_str (s : string)
| A_int (v : Z).

Fixpoint skip_ws (s : string) : string :=
  match s with
  | String c r => if isspace c then skip_ws r else s
  | EmptyString => s
  end.

Fixpoint take_word (w : nat) (s : string) : string * string :=
  match w, s with
  | S w', String c r =>
      if isspace c then (EmptyString, s)
      else let '(a, b) := take_word w' r in (String c a, b)
  | _, _ => (EmptyString, s)
  end.

Fixpoint take_digits (s : string) (acc : Z) : Z * string :=
  match s with
  | String c r =>
      if isdigit c then take_digits r (10 * acc + (code c - 48))%Z
      else (acc, s)
  | EmptyString => (acc, s)
  end.

Definition starts_with_digit (s : string) : bool :=
  match s with String c _ => isdigit c | EmptyString => false end.

(** [%d]: optional sign, then at least one digit; the value is the
    [int] stored for the number read. *)
Definition scan_int (s : string) : option (Z * string) :=
  let '(neg, body) :=
    match s with
    | String c r =>
        if is_char c "-" then (true, r)
        else if is_char c "+" then (false, r) else (false, s)
    | EmptyString => (false, s)
    end in
  if starts_with_digit body then
    let '(v, r) := take_digits body 0 in
    Some (CInt.stored_int (if neg then (- v)%Z else v), r)
  else None.

Definition EOF : Z := (-1)%Z.

(** Result of a failed conversion: the number of assignments made so
    far, or [EOF] when the input ended before the first one. *)
Definition scan_stop (count : Z) (s : string) : Z :=
  match s with
  | EmptyString => if (count =? 0)%Z then EOF else count
  | _ => count
  end.

(** [scan fmt s total count]: [s] is the unread rest of an input of
    length [total]; the result is the return value of [sscanf] with the
    values assigned, in the order of the format ([%n] included). *)
Fixpoint scan (fmt : list Directive) (s : string) (total count : Z)
  : Z * list Arg :=
  match fmt with
  | [] => (count, [])
  | D_ws :: fmt' => scan fmt' (skip_ws s) total count
  | D_n :: fmt' =>
      let '(n, args) := scan fmt' s total count in
      (n, A_int (total - strlen s) :: args)
  | D_s w :: fmt' =>
      let s := skip_ws s in
      match take_word w s with
      | (EmptyString, _) => (scan_stop count s, [])
      | (word, r) =>
          let '(n, args) := scan fmt' r total (count + 1) in
          (n, A_str word :: args)
      end
  | D_d :: fmt' =>
      let s := skip_ws s in
      match scan_int s with
      | None => (scan_stop count s, [])
      | Some (v, r) =>
          let '(n, args) := scan fmt' r total (count + 1) in
          (n, A_int v :: args)
      end
  end.

Definition sscanf (msg : string) (fmt : list Directive) : Z * list Arg :=
  scan fmt msg (strlen msg) 0.

(** Whether a [%<w>s] conversion of [fmt] meets a word of [w] or more
    characters in [s].  It then stores [w] characters and a NUL, and
    every caller passes an array of [w] bytes for it ([char cmd[20]]
    for [%20s], [char l[50], h[50]] for [%50s]): the call writes past
    the end of the array. *)
Fixpoint scan_overflow (fmt : list Directive) (s : string) : bool :=
  match fmt with
  | [] => false
  | D_ws :: fmt' => scan_overflow fmt' (skip_ws s)
  | D_n :: fmt' => scan_overflow fmt' s
  | D_s w :: fmt' =>
      let s := skip_ws s in
      match take_word w s with
      | (EmptyString, _) => false
      | (word, r) => (w <=? String.length word)%nat || scan_overflow fmt' r
      end
  | D_d :: fmt' =>
      let s := skip_ws s in
      match scan_int s with
      | None => false
      | Some (_, r) => scan_overflow fmt' r
      end
  end.

(** The k-th assigned value; a variable that was not assigned is never
    read by the callers. *)
Definition arg_int (k : nat) (args : list Arg) : Z :=
  match nth_error args k with Some (A_int v) => v | _ => 0%Z end.
Definition arg_str (k : nat) (args : list Arg) : string :=
  match nth_error args k with Some (A_str s) => s | _ => EmptyString end.

End CStr.


(** * The point-to-point back end (TCP2) *)

Module Tcp2.

Import CStr.
Open Scope string_scope.
Open Scope Z_scope.
Open Scope list_scope.

Definition MAX_PEERS : Z := 256.
Definition MAX_FDS : Z := 256.
Definition RBUF_LEN : Z := 256.

(** Log levels used by the back end: plain numbers for debug output, and
    the two named levels. *)
Inductive Laik_LogLevel : Type :=
| LL (n : Z)
| LAIK_LL_Warning
| LAIK_LL_Panic.

Inductive Laik_ReductionOperation : Type :=
| LAIK_RO_None
| LAIK_RO_Sum
| LAIK_RO_Prod
| LAIK_RO_Min
| LAIK_RO_Max.

(** What the back end uses of a mapping: [start] (the handle of its memory
    block, [None] for a null pointer), [data->elemsize], the offset
    function of its layout, and [data->type->reduce] applied to one
    element (bytes of the two inputs to the bytes of the result). *)
Record Laik_Mapping : Type := mkMapping {
  start : option Z;
  elemsize : Z;
  layout_offset : Laik_Index -> Z;
  reduce : option (list Z -> list Z -> Laik_ReductionOperation -> list Z)
}.

(** Communicating peer; connected ([fd >= 0]) or not. *)
Record Peer : Type := mkPeer {
  fd : Z;
  port : Z;
  host : option string;
  location : option string;
  rcount : Z;
  relemsize : Z;
  roff : Z;
  rmap : option Laik_Mapping;
  rslc : option Laik_Slice;
  ridx : Laik_Index;
  rro : Laik_ReductionOperation;
  scount : Z;
  selemsize : Z
}.

Definition set_fd (p : Peer) (v : Z) : Peer :=
  mkPeer v (port p) (host p) (location p) (rcount p) (relemsize p) (roff p)
         (rmap p) (rslc p) (ridx p) (rro p) (scount p) (selemsize p).
Definition set_port (p : Peer) (v : Z) : Peer :=
  mkPeer (fd p) v (host p) (location p) (rcount p) (relemsize p) (roff p)
         (rmap p) (rslc p) (ridx p) (rro p) (scount p) (selemsize p).
Definition set_host (p : Peer) (v : option string) : Peer :=
  mkPeer (fd p) (port p) v (location p) (rcount p) (relemsize p) (roff p)
         (rmap p) (rslc p) (ridx p) (rro p) (scount p) (selemsize p).
Definition set_location (p : Peer) (v : option string) : Peer :=
  mkPeer (fd p) (port p) (host p) v (rcount p) (relemsize p) (roff p)
         (rmap p) (rslc p) (ridx p) (rro p) (scount p) (selemsize p).
Definition set_rcount (p : Peer) (v : Z) : Peer :=
  mkPeer (fd p) (port p) (host p) (location p) v (relemsize p) (roff p)
         (rmap p) (rslc p) (ridx p) (rro p) (scount p) (selemsize p).
Definition set_relemsize (p : Peer) (v : Z) : Peer :=
  mkPeer (fd p) (port p) (host p) (location p) (rcount p) v (roff p)
         (rmap p) (rslc p) (ridx p) (rro p) (scount p) (selemsize p).
Definition set_roff (p : Peer) (v : Z) : Peer :=
  mkPeer (fd p) (port p) (host p) (location p) (rcount p) (relemsize p) v
         (rmap p) (rslc p) (ridx p) (rro p) (scount p) (selemsize p).
Definition set_rmap (p : Peer) (v : option Laik_Mapping) : Peer :=
  mkPeer (fd p) (port p) (host p) (location p) (rcount p) (relemsize p) (roff p)
         v (rslc p) (ridx p) (rro p) (scount p) (selemsize p).
Definition set_rslc (p : Peer) (v : option Laik_Slice) : Peer :=
  mkPeer (fd p) (port p) (host p) (location p) (rcount p) (relemsize p) (roff p)
         (rmap p) v (ridx p) (rro p) (scount p) (selemsize p).
Definition set_ridx (p : Peer) (v : Laik_Index) : Peer :=
  mkPeer (fd p) (port p) (host p) (location p) (rcount p) (relemsize p) (roff p)
         (rmap p) (rslc p) v (rro p) (scount p) (selemsize p).
Definition set_rro (p : Peer) (v : Laik_ReductionOperation) : Peer :=
  mkPeer (fd p) (port p) (host p) (location p) (rcount p) (relemsize p) (roff p)
         (rmap p) (rslc p) (ridx p) v (scount p) (selemsize p).
Definition set_scount (p : Peer) (v : Z) : Peer :=
  mkPeer (fd p) (port p) (host p) (location p) (rcount p) (relemsize p) (roff p)
         (rmap p) (rslc p) (ridx p) (rro p) v (selemsize p).
Definition set_selemsize (p : Peer) (v : Z) : Peer :=
  mkPeer (fd p) (port p) (host p) (location p) (rcount p) (relemsize p) (roff p)
         (rmap p) (rslc p) (ridx p) (rro p) (scount p) v.

(** Callbacks registered in the event loop ([loop_cb_t]; [cb_none] is the
    null function pointer). *)
Inductive loop_cb_t : Type :=
| cb_none
| cb_got_bytes
| cb_got_connect.

Definition cb_is_set (c : loop_cb_t) : bool :=
  match c with cb_none => false | _ => true end.

(** Registration of an active descriptor.  [rbuf] holds the bytes in use
    of the receive buffer ([None] once freed); bytes past [rbuf_used] are
    overwritten before they are read. *)
Record FDState : Type := mkFDState {
  fd_lid : Z;
  cb : loop_cb_t;
  rbuf_used : Z;
  rbuf : option string
}.

Definition set_fd_lid (s : FDState) (v : Z) : FDState :=
  mkFDState v (cb s) (rbuf_used s) (rbuf s).
Definition set_cb (s : FDState) (v : loop_cb_t) : FDState :=
  mkFDState (fd_lid s) v (rbuf_used s) (rbuf s).
Definition set_rbuf_used (s : FDState) (v : Z) : FDState :=
  mkFDState (fd_lid s) (cb s) v (rbuf s).
Definition set_rbuf (s : FDState) (v : option string) : FDState :=
  mkFDState (fd_lid s) (cb s) (rbuf_used s) v.

(** Arrays indexed by a small integer. *)
Definition upd {A : Type} (f : Z -> A) (k : Z) (v : A) : Z -> A :=
  fun j => if j =? k then v else f j.

Record InstData : Type := mkInstData {
  mylid : Z;
  my_host : string;
  my_location : string;
  listenfd : Z;
  listenport : Z;
  maxid : Z;
  phase : Z;
  maxfds : Z;
  rset : Z -> bool;
  exit : Z;
  fds : Z -> FDState;
  peers : Z;
  peer : Z -> Peer
}.

Definition set_mylid (d : InstData) (v : Z) : InstData :=
  mkInstData v (my_host d) (my_location d) (listenfd d) (listenport d)
             (maxid d) (phase d) (maxfds d) (rset d) (exit d) (fds d)
             (peers d) (peer d).
Definition set_maxid (d : InstData) (v : Z) : InstData :=
  mkInstData (mylid d) (my_host d) (my_location d) (listenfd d) (listenport d)
             v (phase d) (maxfds d) (rset d) (exit d) (fds d)
             (peers d) (peer d).
Definition set_phase (d : InstData) (v : Z) : InstData :=
  mkInstData (mylid d) (my_host d) (my_location d) (listenfd d) (listenport d)
             (maxid d) v (maxfds d) (rset d) (exit d) (fds d)
             (peers d) (peer d).
Definition set_maxfds (d : InstData) (v : Z) : InstData :=
  mkInstData (mylid d) (my_host d) (my_location d) (listenfd d) (listenport d)
             (maxid d) (phase d) v (rset d) (exit d) (fds d)
             (peers d) (peer d).
Definition set_rset (d : InstData) (v : Z -> bool) : InstData :=
  mkInstData (mylid d) (my_host d) (my_location d) (listenfd d) (listenport d)
             (maxid d) (phase d) (maxfds d) v (exit d) (fds d)
             (peers d) (peer d).
Definition set_exit (d : InstData) (v : Z) : InstData :=
  mkInstData (mylid d) (my_host d) (my_location d) (listenfd d) (listenport d)
             (maxid d) (phase d) (maxfds d) (rset d) v (fds d)
             (peers d) (peer d).
Definition set_fds (d : InstData) (v : Z -> FDState) : InstData :=
  mkInstData (mylid d) (my_host d) (my_location d) (listenfd d) (listenport d)
             (maxid d) (phase d) (maxfds d) (rset d) (exit d) v
             (peers d) (peer d).
Definition set_peers (d : InstData) (v : Z) : InstData :=
  mkInstData (mylid d) (my_host d) (my_location d) (listenfd d) (listenport d)
             (maxid d) (phase d) (maxfds d) (rset d) (exit d) (fds d)
             v (peer d).
Definition set_peer (d : InstData) (v : Z -> Peer) : InstData :=
  mkInstData (mylid d) (my_host d) (my_location d) (listenfd d) (listenport d)
             (maxid d) (phase d) (maxfds d) (rset d) (exit d) (fds d)
             (peers d) v.

(** [d->peer[lid].f = v] and [d->fds[fd].f = v]. *)
Definition upd_peer (d : InstData) (lid : Z) (f : Peer -> Peer) : InstData :=
  set_peer d (upd (peer d) lid (f (peer d lid))).
Definition upd_fds (d : InstData) (k : Z) (f : FDState -> FDState) : InstData :=
  set_fds d (upd (fds d) k (f (fds d k))).

(** ** The process and its environment *)

(** What the process does that is visible outside: log lines (level and
    format string), bytes handed to [write], connections made, descriptors
    closed. *)
Inductive Event : Type :=
| EvLog (lvl : Laik_LogLevel) (fmt : string)
| EvWrite (wfd : Z) (bytes : string)
| EvConnect (chost : option string) (cport : Z) (cfd : Z)
| EvClose (cfd : Z).

(** Result of resolving and connecting to a peer. *)
Inductive DialResult : Type :=
| DialNoHost           (* getaddrinfo fails *)
| DialRefused          (* no address could be connected *)
| DialFd (newfd : Z).  (* connected socket *)

(** State of the process: back-end data, the memory of the mappings (block
    handle, byte offset), the events so far, the descriptors on which
    [write] succeeds, the results the next connection attempts get, and
    the text in [static char str[50]] of [istr].  [panic_returns] is a
    property of the core the back end is linked with: whether its logger
    returns to the caller after a message at panic level. *)
Record World : Type := mkWorld {
  inst : InstData;
  mem : Z -> Z -> Z;
  trace : list Event;
  os_open : Z -> bool;
  dials : list DialResult;
  istr_str : string;
  panic_returns : bool
}.

Definition set_inst (w : World) (d : InstData) : World :=
  mkWorld d (mem w) (trace w) (os_open w) (dials w) (istr_str w)
          (panic_returns w).
Definition set_mem (w : World) (m : Z -> Z -> Z) : World :=
  mkWorld (inst w) m (trace w) (os_open w) (dials w) (istr_str w)
          (panic_returns w).
Definition emit (w : World) (e : Event) : World :=
  mkWorld (inst w) (mem w) (trace w ++ [e]) (os_open w) (dials w) (istr_str w)
          (panic_returns w).
Definition set_os_open (w : World) (o : Z -> bool) : World :=
  mkWorld (inst w) (mem w) (trace w) o (dials w) (istr_str w)
          (panic_returns w).
Definition set_dials (w : World) (l : list DialResult) : World :=
  mkWorld (inst w) (mem w) (trace w) (os_open w) l (istr_str w)
          (panic_returns w).
Definition set_istr_str (w : World) (t : string) : World :=
  mkWorld (inst w) (mem w) (trace w) (os_open w) (dials w) t
          (panic_returns w).

(** How a call ends other than by returning. *)
Inductive stop_reason : Type :=
| AssertFailed   (* a failed [assert] aborts the process *)
| ProcExit       (* [exit(1)] *)
| Blocked        (* waiting in [select] with no further input *)
| Undefined      (* the C code leaves the defined behaviour *)
| OutOfFuel.     (* bound of a loop of the embedding reached *)

Inductive outcome (A : Type) : Type :=
| Ret (a : A) (w : World)
| Stop (r : stop_reason) (w : World).
Arguments Ret {A} a w.
Arguments Stop {A} r w.

Definition M (A : Type) : Type := World -> outcome A.

Definition ret {A : Type} (a : A) : M A := fun w => Ret a w.
Definition bind {A B : Type} (c : M A) (k : A -> M B) : M B :=
  fun w => match c w with
           | Ret a w' => k a w'
           | Stop r w' => Stop r w'
           end.

Declare Scope tcp2_scope.
Delimit Scope tcp2_scope with tcp2.
Notation "x <- c ;; k" := (bind c (fun x => k))
  (at level 61, c at next level, right associativity) : tcp2_scope.
Notation "c ;; k" := (bind c (fun _ => k))
  (at level 61, right associativity) : tcp2_scope.
Open Scope tcp2_scope.

Definition stop {A : Type} (r : stop_reason) : M A := fun w => Stop r w.
Definition get_inst : M InstData := fun w => Ret (inst w) w.
Definition modify_inst (f : InstData -> InstData) : M unit :=
  fun w => Ret tt (set_inst w (f (inst w))).
Definition assert (b : bool) : M unit :=
  if b then ret tt else stop AssertFailed.

(** [laik_log]: the logger belongs to the core and is not part of these
    sources; the embedding records level and format string.  Below panic
    level the caller goes on as its own code says.  At panic level it
    does so only if the logger returns ([panic_returns]); otherwise the
    process ends in the logger. *)
Definition laik_log (lvl : Laik_LogLevel) (fmt : string) : M unit :=
  fun w =>
    match lvl with
    | LAIK_LL_Panic =>
        if panic_returns w then Ret tt (emit w (EvLog lvl fmt))
        else Stop ProcExit (emit w (EvLog lvl fmt))
    | _ => Ret tt (emit w (EvLog lvl fmt))
    end.

(** The two write loops of [send_cmd] on descriptor [wfd]: [write] is
    called on the command until it is written whole or an error is met,
    and on the newline only if no error was met.  The event holds the
    bytes handed to [write]; the result is whether no error was met,
    which is the case for an open descriptor. *)
Definition os_write (wfd : Z) (cmd : string) : M bool :=
  fun w =>
    if os_open w wfd
    then Ret true (emit w (EvWrite wfd (cmd ++ String NL "")%string))
    else Ret false (emit w (EvWrite wfd cmd)).

Definition os_close (cfd : Z) : M unit :=
  fun w => Ret tt (set_os_open (emit w (EvClose cfd)) (upd (os_open w) cfd false)).

(** [getaddrinfo] and the [socket]/[connect] loop of [ensure_conn]. *)
Definition os_dial (h : option string) (p : Z) : M DialResult :=
  fun w =>
    match dials w with
    | DialFd newfd :: rest =>
        if 0 <=? newfd then
          Ret (DialFd newfd)
              (set_os_open (set_dials (emit w (EvConnect h p newfd)) rest)
                           (upd (os_open w) newfd true))
        else Ret DialRefused (set_dials w rest)
    | r :: rest => Ret r (set_dials w rest)
    | [] => Ret DialRefused w
    end.

(** ** Helpers for send and receive of containers *)

(** The text [istr] prints for an index on [dims] axes, each coordinate
    as [unsigned long long]; nothing is printed for any other [dims]. *)
Definition istr_text (dims : Z) (idx : Laik_Index) : option string :=
  if dims =? 1 then Some (fmt_u (CInt.u64 (i0 idx)))
  else if dims =? 2 then
    Some (fmt_u (CInt.u64 (i0 idx)) ++ "/" ++ fmt_u (CInt.u64 (i1 idx)))%string
  else if dims =? 3 then
    Some (fmt_u (CInt.u64 (i0 idx)) ++ "/" ++ fmt_u (CInt.u64 (i1 idx))
            ++ "/" ++ fmt_u (CInt.u64 (i2 idx)))%string
  else None.

(** [istr]: the index is printed into [static char str[50]] and the
    buffer is returned.  A text of 50 or more characters does not fit
    it; for [dims] outside 1..3 the buffer is returned as the last call
    left it. *)
Definition istr (dims : Z) (idx : Laik_Index) : M string :=
  fun w =>
    match istr_text dims idx with
    | Some t =>
        if 50 <=? strlen t then Stop Undefined w
        else Ret t (set_istr_str w t)
    | None => Ret (istr_str w) w
    end.

(** ** Event loop registrations *)

(** [add_rfd]; the allocation of the receive buffer is taken to succeed. *)
Definition add_rfd (fd : Z) (cb : loop_cb_t) : M unit :=
  assert (fd <? MAX_FDS) ;;
  d <- get_inst ;;
  assert (negb (cb_is_set (Tcp2.cb (fds d fd)))) ;;
  modify_inst (fun d =>
    let d := set_rset d (upd (rset d) fd true) in
    let d := if maxfds d <? fd then set_maxfds d fd else d in
    set_fds d (upd (fds d) fd (mkFDState (-1) cb 0 (Some "")))).

(** [while(!FD_ISSET(d->maxfds, &d->rset)) d->maxfds--;] looking at most
    at the descriptors [m, m-1, ..., m-n]; [None] when none of them is
    set, where the C loop goes on below the set. *)
Fixpoint lower_maxfds (n : nat) (rset : Z -> bool) (m : Z) : option Z :=
  if rset m then Some m
  else match n with
       | O => None
       | S k => lower_maxfds k rset (m - 1)
       end.

Definition rm_rfd (fd : Z) : M unit :=
  assert (fd <? MAX_FDS) ;;
  d <- get_inst ;;
  assert (cb_is_set (cb (fds d fd))) ;;
  modify_inst (fun d => set_rset d (upd (rset d) fd false)) ;;
  d <- get_inst ;;
  (if fd =? maxfds d then
     match lower_maxfds (Z.to_nat (maxfds d)) (rset d) (maxfds d) with
     | Some m => modify_inst (fun d => set_maxfds d m)
     | None => stop Undefined
     end
   else ret tt) ;;
  modify_inst (fun d =>
    upd_fds d fd (fun s => set_rbuf (set_cb s cb_none) None)).

(** ** Connections and commands *)

(** The part of [send_cmd] that follows the choice of the descriptor:
    write [cmd] and then a newline, warn on a write error.  With an empty
    command the C code tests a result it never set. *)
Definition send_cmd_on (fd lid : Z) (cmd : string) : M unit :=
  laik_log (LL 1) "TCP2 Sent cmd '%s' (len %d) to locID %d (FD %d)\n" ;;
  if strlen cmd =? 0 then stop Undefined
  else
    ok <- os_write fd cmd ;;
    if ok then ret tt
    else laik_log LAIK_LL_Warning "TCP2 write error on FD %d: %s\n".

(** Make sure there is an open connection to peer [lid]; if not, connect
    to its listening port and announce [mylid].  The announcement is the
    call [send_cmd(d, lid, msg)]: its [ensure_conn] returns at once, the
    peer having a descriptor by then. *)
Definition ensure_conn (lid : Z) : M unit :=
  assert (lid <? MAX_PEERS) ;;
  d <- get_inst ;;
  if 0 <=? fd (peer d lid) then ret tt
  else
    assert (0 <=? port (peer d lid)) ;;
    r <- os_dial (host (peer d lid)) (port (peer d lid)) ;;
    match r with
    | DialNoHost =>
        laik_log LAIK_LL_Panic "TCP2 host %s not found - getaddrinfo %s" ;;
        stop ProcExit
    | DialRefused =>
        laik_log LAIK_LL_Panic
                 "TCP2 cannot connect to LID %d (host %s, port %d)" ;;
        stop ProcExit
    | DialFd newfd =>
        modify_inst (fun d => upd_peer d lid (fun p => set_fd p newfd)) ;;
        add_rfd newfd cb_got_bytes ;;
        modify_inst (fun d => upd_fds d newfd (fun s => set_fd_lid s lid)) ;;
        laik_log (LL 1) "TCP2 connected to LID %d (host %s, port %d)" ;;
        d <- get_inst ;;
        if 0 <=? mylid d then
          send_cmd_on (fd (peer d lid)) lid ("myid " ++ fmt_d (mylid d))%string
        else ret tt
    end.

(** Send command [cmd] to peer [lid]; a negative [lid] names the
    descriptor [-lid] of a peer without location id. *)
Definition send_cmd (lid : Z) (cmd : string) : M unit :=
  if 0 <=? lid then
    ensure_conn lid ;;
    d <- get_inst ;;
    send_cmd_on (fd (peer d lid)) lid cmd
  else send_cmd_on (- lid) lid cmd.

(** ** The "data" command *)

Definition read_bytes (m : Z -> Z) (off : Z) (n : Z) : list Z :=
  map (fun k => m (off + Z.of_nat k)) (seq 0 (Z.to_nat n)).

Fixpoint write_bytes (m : Z -> Z) (off : Z) (bs : list Z) : Z -> Z :=
  match bs with
  | [] => m
  | b :: r => write_bytes (upd m off b) (off + 1) r
  end.

(** Characters the hex parser lets through its two assertions. *)
Definition is_hex (c : ascii) : bool :=
  ((48 <=? code c) && (code c <=? 102))
  && ((code c <=? 57) || (97 <=? code c)).

Definition hex_val (c : ascii) : Z :=
  if 57 <? code c then code c - 97 + 10 else code c - 48.

(** Conversion of a value to [char]: its low eight bits. *)
Definition to_char (v : Z) : Z := v mod 256.

(** The hex parsing loop of [got_data], reading [s = msg + i] with [l]
    bytes stored in [data_in] and [v] the value of the byte under way.
    [None]: an assertion failed, in the loop or the [assert(l == len)]
    after it. *)
Fixpoint parse_hex (s : string) (len l v : Z) (data_in : list Z)
  : option (list Z) :=
  let at_end :=
    if l <? len then
      if l + 1 =? len then Some (data_in ++ [to_char v]) else None
    else None in
  match s with
  | EmptyString => at_end
  | String c r =>
      if is_char c NUL then at_end
      else if is_char c SP then
        if l <? len then
          if l + 1 =? len then Some (data_in ++ [to_char v])
          else parse_hex r len (l + 1) 0 (data_in ++ [to_char v])
        else None
      else if is_hex c then parse_hex r len l (16 * v + hex_val c) data_in
      else None
  end.

(** [while(msg[i] && (msg[i] == ' ')) i++;] *)
Fixpoint skip_spaces (s : string) : string :=
  match s with
  | String c r => if is_char c SP then skip_spaces r else s
  | EmptyString => s
  end.

(** The hex bytes of a data command: [msg + i], after the position tag
    when there is one.  [None]: the tag is not the position expected
    ([pstr]), which fails an assertion. *)
Definition data_payload (msg : string) (i : Z) (pstr : string)
  : option string :=
  if is_char (char_at msg i) "(" then
    if strncmp_eq (drop i msg) pstr (Z.to_nat (strlen pstr))
    then Some (skip_spaces (drop (i + strlen pstr) msg))
    else None
  else Some (drop i msg).

(** End of [got_data]: one element was stored; count it and advance the
    receive index.  [None]: the assertion
    [inTraversal == (p->roff < p->rcount)] failed. *)
Definition recv_advance (slc : Laik_Slice) (p : Peer) : option Peer :=
  let p := set_roff p (roff p + 1) in
  let '(inTraversal, idx) := next_lex slc (ridx p) in
  let p := set_ridx p idx in
  if Bool.eqb inTraversal (roff p <? rcount p) then Some p else None.

(** Deposit of the received element at [idxPtr = m->start + off *
    relemsize]: plain copy, or reduction with the value in place. *)
Definition store_element (m : Laik_Mapping) (p : Peer) (off : Z)
    (data_in : list Z) (len : Z) : M unit :=
  match start m with
  | None => stop Undefined
  | Some blk =>
      let idxPtr := off * relemsize p in
      match rro p with
      | LAIK_RO_None =>
          fun w => Ret tt (set_mem w (upd (mem w) blk
                                          (write_bytes (mem w blk) idxPtr data_in)))
      | op =>
          match reduce m with
          | None => stop AssertFailed
          | Some red =>
              fun w =>
                let cur := read_bytes (mem w blk) idxPtr len in
                Ret tt (set_mem w (upd (mem w) blk
                          (write_bytes (mem w blk) idxPtr (red cur data_in op))))
          end
      end
  end.

(** "data" command received: [data <len> [(<pos>)] <hexbyte> ...]. *)
Definition got_data (lid : Z) (msg : string) : M unit :=
  (* char cmd[20] *)
  if scan_overflow [D_s 20; D_ws; D_d; D_ws; D_n] msg then stop Undefined
  else
  let '(n, args) := sscanf msg [D_s 20; D_ws; D_d; D_ws; D_n] in
  if n <? 2 then
    laik_log LAIK_LL_Panic "cannot parse data command '%s'"
  else
    let len := arg_int 1 args in
    let i := arg_int 2 args in
    d <- get_inst ;;
    let p := peer d lid in
    if (rcount p =? 0) || (rcount p =? roff p) then
      laik_log LAIK_LL_Warning
               "TCP2 ignoring data from LID %d without send permission"
    else
      (* assume only one element per data command *)
      assert (relemsize p =? len) ;;
      match rmap p, rslc p with
      | None, _ => stop AssertFailed
      | Some m, None => stop Undefined
      | Some m, Some slc =>
          let off := layout_offset m (ridx p) in
          (* position string for check, in char pstr[70] *)
          t <- istr (dims slc) (ridx p) ;;
          let pstr := ("(" ++ fmt_d (roff p) ++ ":" ++ t ++ ")")%string in
          if 70 <=? strlen pstr then stop Undefined
          else
          match data_payload msg i pstr with
          | None => stop AssertFailed
          | Some payload =>
          assert (len <? 100) ;;
          (* parse hex bytes *)
          match parse_hex payload len 0 0 [] with
          | None => stop AssertFailed
          | Some data_in =>
              store_element m p off data_in len ;;
              (if len =? 8 then laik_log (LL 1) " pos %s: in %f res %f\n"
               else ret tt) ;;
              match recv_advance slc p with
              | None => stop AssertFailed
              | Some p' =>
                  modify_inst (fun d => upd_peer d lid (fun _ => p')) ;;
                  laik_log (LL 1) "TCP2 got data, len %d, received %d/%d" ;;
                  if roff p' =? rcount p' then
                    modify_inst (fun d => set_exit d 1)
                  else ret tt
              end
          end
          end
      end.

(** ** Commands *)

(** [body lo; body (lo+1); ...], [n] times: a counting [for] loop. *)
Fixpoint for_range (n : nat) (lo : Z) (body : Z -> M unit) : M unit :=
  match n with
  | O => ret tt
  | S k => body lo ;; for_range k (lo + 1) body
  end.

(** [sprintf(msg, ...)] in a command handler: [msg] lies at offset [msgp]
    of the receive buffer of [fd], and the text is written there, over
    whatever follows the command in the buffer. *)
Definition sprintf_msg (fd msgp : Z) (s : string) : M unit :=
  d <- get_inst ;;
  match rbuf (fds d fd) with
  | None => stop Undefined
  | Some buf =>
      if msgp + strlen s + 1 <=? RBUF_LEN then
        modify_inst (fun d => upd_fds d fd (fun st =>
          set_rbuf st (Some (buf_write buf msgp (s ++ String NUL "")%string))))
      else stop Undefined
  end.

(** [if (lid == -1) lid = -fd;] *)
Definition reply_to (lid fd : Z) : Z := if lid =? -1 then - fd else lid.

Definition fmt_id (lid : Z) (l h : string) (p : Z) : string :=
  ("id " ++ fmt_d lid ++ " " ++ l ++ " " ++ h ++ " " ++ fmt_d p)%string.

(** [register <location> <host> <port>] *)
Definition cmd_register (fd lid msgp : Z) (msg : string) : M unit :=
  d <- get_inst ;;
  (* ignore if not master *)
  if negb (mylid d =? 0) then
    laik_log LAIK_LL_Warning "ignoring register command '%s', not master"
  else if 0 <=? lid then
    laik_log LAIK_LL_Warning
             "cannot re-register; already registered with locID %d"
  else
    (* char cmd[20], l[50], h[50] *)
    if scan_overflow [D_s 20; D_ws; D_s 50; D_ws; D_s 50; D_ws; D_d] msg
    then stop Undefined
    else
    let '(n, args) :=
      sscanf msg [D_s 20; D_ws; D_s 50; D_ws; D_s 50; D_ws; D_d] in
    if n <? 4 then
      laik_log LAIK_LL_Panic "cannot parse register command '%s'"
    else
      let l := arg_str 1 args in
      let h := arg_str 2 args in
      let p := arg_int 3 args in
      let lid := maxid d + 1 in
      modify_inst (fun d => set_maxid d lid) ;;
      assert (0 <=? fd) ;;
      modify_inst (fun d => upd_fds d fd (fun s => set_fd_lid s lid)) ;;
      assert (lid <? MAX_PEERS) ;;
      laik_log (LL 1)
        "TCP2 registered new locID %d: location %s at host %s port %d" ;;
      d <- get_inst ;;
      assert (port (peer d lid) =? -1) ;;
      modify_inst (fun d => upd_peer d lid (fun q =>
        (* first time we use this id for a peer: init receive *)
        set_scount (set_rcount
          (set_port (set_location (set_host (set_fd q fd) (Some h)) (Some l)) p)
          0) 0)) ;;
      (* new registered id to all already registered peers *)
      sprintf_msg fd msgp (fmt_id lid l h p) ;;
      for_range (Z.to_nat lid) 1 (fun i => send_cmd i (fmt_id lid l h p)) ;;
      for_range (Z.to_nat lid) 0 (fun i =>
        d <- get_inst ;;
        let line := fmt_id i (fmt_s (location (peer d i)))
                           (fmt_s (host (peer d i))) (port (peer d i)) in
        sprintf_msg fd msgp line ;;
        send_cmd lid line) ;;
      modify_inst (fun d => set_exit (set_peers d (peers d + 1)) 1).

(** [myid <lid>]: used on re-connection of a peer that must be known. *)
Definition cmd_myid (fd lid : Z) (msg : string) : M unit :=
  (* char cmd[20] *)
  if scan_overflow [D_s 20; D_ws; D_d] msg
  then stop Undefined
  else
  let '(n, args) := sscanf msg [D_s 20; D_ws; D_d] in
  if n <? 2 then laik_log LAIK_LL_Panic "cannot parse myid command '%s'"
  else
    let peerid := arg_int 1 args in
    d <- get_inst ;;
    if 0 <=? lid then
      (* if peer already known, id must be same *)
      if negb (lid =? peerid) then
        laik_log LAIK_LL_Panic
                 "got ID %d from peer already known with locID %d"
      else ret tt
    else if mylid d =? peerid then
      laik_log LAIK_LL_Panic "got ID %d from peer which is my own location ID"
    else
      let lid := peerid in
      assert ((0 <=? lid) && (lid <? MAX_PEERS)) ;;
      assert (lid <=? maxid d) ;;
      modify_inst (fun d => upd_peer d lid (fun q => set_fd q fd)) ;;
      assert (0 <=? fd) ;;
      modify_inst (fun d => upd_fds d fd (fun s => set_fd_lid s lid)) ;;
      (* must already be known, announced by master *)
      d <- get_inst ;;
      assert (match location (peer d lid) with Some _ => true | None => false end) ;;
      assert (match host (peer d lid) with Some _ => true | None => false end) ;;
      assert (0 <=? port (peer d lid)) ;;
      laik_log (LL 1) "TCP2 seen location ID %d (location %s) at FD %d".

Definition cmd_help (fd lid : Z) : M unit :=
  laik_log (LL 1) "TCP2 Sending usage because of help command" ;;
  assert (0 <? fd) ;;
  let lid := reply_to lid fd in
  send_cmd lid "# Usage (first char of command is enough):" ;;
  send_cmd lid "#  data <len> [pos] <hex> ...   : data from a LAIK container" ;;
  send_cmd lid "#  help                         : this help text" ;;
  send_cmd lid "#  id <id> <loc> <host> <port>  : announce location id info" ;;
  send_cmd lid "#  kill                         : ask process to terminate" ;;
  send_cmd lid "#  myid <id>                    : identify your location id" ;;
  send_cmd lid "#  phase <phase>                : announce current phase" ;;
  send_cmd lid "#  quit                         : close connection" ;;
  send_cmd lid "#  register <loc> <host> <port> : request assignment of id" ;;
  send_cmd lid "#  status                       : request status output".

(** kill command - meant for interactive control *)
Definition cmd_kill (fd lid : Z) : M unit :=
  laik_log (LL 1) "TCP2 Exiting because of kill command" ;;
  assert (0 <? fd) ;;
  send_cmd (reply_to lid fd) "# Exiting. Bye" ;;
  stop ProcExit.

(** quit command - meant for interactive control *)
Definition cmd_quit (fd lid : Z) : M unit :=
  laik_log (LL 1) "TCP2 Closing connection because of quit command" ;;
  assert (0 <=? fd) ;;
  os_close fd ;;
  rm_rfd fd ;;
  if 0 <=? lid then modify_inst (fun d => upd_peer d lid (fun q => set_fd q (-1)))
  else ret tt.

Definition cmd_status (fd lid msgp : Z) : M unit :=
  laik_log (LL 1) "TCP2 Sending status becaue of status command" ;;
  assert (0 <? fd) ;;
  let lid := reply_to lid fd in
  d <- get_inst ;;
  let line := ("# My locID is " ++ fmt_d (mylid d))%string in
  sprintf_msg fd msgp line ;;
  send_cmd lid line ;;
  send_cmd lid "# Processes in world:" ;;
  for_range (Z.to_nat (maxid d + 1)) 0 (fun i =>
    d <- get_inst ;;
    let line := ("#  LID " ++ fmt_2d i ++ " loc '"
                   ++ fmt_s (location (peer d i)) ++ "' at "
                   ++ fmt_s (host (peer d i)) ++ ":"
                   ++ fmt_d (port (peer d i)))%string in
    sprintf_msg fd msgp line ;;
    send_cmd lid line).

(** [id <lid> <location> <host> <port>] *)
Definition cmd_id (msg : string) : M unit :=
  d <- get_inst ;;
  (* ignore if master *)
  if mylid d =? 0 then
    laik_log LAIK_LL_Warning "ignoring id command '%s' as master"
  else
    (* char cmd[20], l[50], h[50] *)
    if scan_overflow
         [D_s 20; D_ws; D_d; D_ws; D_s 50; D_ws; D_s 50; D_ws; D_d] msg
    then stop Undefined
    else
    let '(n, args) :=
      sscanf msg [D_s 20; D_ws; D_d; D_ws; D_s 50; D_ws; D_s 50; D_ws; D_d] in
    if n <? 5 then laik_log LAIK_LL_Panic "cannot parse id command '%s'"
    else
      let lid := arg_int 1 args in
      let l := arg_str 2 args in
      let h := arg_str 3 args in
      let p := arg_int 4 args in
      assert ((0 <=? lid) && (lid <? MAX_PEERS)) ;;
      (* is this my location id? *)
      (if (mylid d <? 0) && streq (my_location d) l then
         modify_inst (fun d => set_mylid d lid)
       else ret tt) ;;
      d <- get_inst ;;
      match location (peer d lid) with
      | Some known =>
          (* already known, announced by master *)
          assert (lid <=? maxid d) ;;
          assert (streq known l) ;;
          assert (match host (peer d lid) with
                  | Some kh => streq kh h
                  | None => false
                  end) ;;
          assert (port (peer d lid) =? p)
      | None =>
          modify_inst (fun d => upd_peer d lid (fun q =>
            (* first time we see this peer: init receive *)
            set_scount (set_rcount
              (set_port (set_location (set_host q (Some h)) (Some l)) p) 0) 0)) ;;
          modify_inst (fun d =>
            if negb (lid =? mylid d) then set_peers d (peers d + 1) else d) ;;
          modify_inst (fun d =>
            if maxid d <? lid then set_maxid d lid else d)
      end ;;
      laik_log (LL 1) "TCP2 seen %slocID %d (location %s), active peers %d".

(** [phase <phaseid>] *)
Definition cmd_phase (msg : string) : M unit :=
  d <- get_inst ;;
  (* ignore if master *)
  if mylid d =? 0 then
    laik_log LAIK_LL_Warning "ignoring phase command '%s' as master"
  else
    (* char cmd[20] *)
    if scan_overflow [D_s 20; D_ws; D_d] msg
    then stop Undefined
    else
    let '(n, args) := sscanf msg [D_s 20; D_ws; D_d] in
    if n <? 2 then laik_log LAIK_LL_Panic "cannot parse phase command '%s'"
    else
      laik_log (LL 1) "TCP2 got phase %d" ;;
      modify_inst (fun d => set_exit (set_phase d (arg_int 1 args)) 1).

(** [allowsend <count> <elemsize>] *)
Definition cmd_allowsend (lid : Z) (msg : string) : M unit :=
  (* char cmd[20] *)
  if scan_overflow [D_s 20; D_ws; D_d; D_ws; D_d] msg
  then stop Undefined
  else
  let '(n, args) := sscanf msg [D_s 20; D_ws; D_d; D_ws; D_d] in
  if n <? 3 then laik_log LAIK_LL_Panic "cannot parse allowsend command '%s'"
  else
    let count := arg_int 1 args in
    let esize := arg_int 2 args in
    laik_log (LL 1) "TCP2 got allowsend %d %d" ;;
    d <- get_inst ;;
    assert (scount (peer d lid) =? 0) ;;
    modify_inst (fun d => upd_peer d lid (fun q =>
      set_selemsize (set_scount q count) esize)) ;;
    modify_inst (fun d => set_exit d 1).

(** A command was received from a peer, and is processed.  [msg] is the
    command, lying at offset [msgp] of the receive buffer of [fd]; the
    first character selects the handler. *)
Definition got_cmd (fd msgp : Z) (msg : string) (len : Z) : M unit :=
  d <- get_inst ;;
  let lid := fd_lid (fds d fd) in
  laik_log (LL 1) "TCP2 Got cmd '%s' (len %d) from locID %d (FD %d)\n" ;;
  let c := char_at msg 0 in
  (* first part of commands are accepted without assigned ID *)
  if is_char c "r" then cmd_register fd lid msgp msg
  else if is_char c "m" then cmd_myid fd lid msg
  else if is_char c "h" then cmd_help fd lid
  else if is_char c "k" then cmd_kill fd lid
  else if is_char c "q" then cmd_quit fd lid
  else if is_char c "#" then
    (* accept but ignore comments *)
    laik_log (LL 1) "TCP2 Got comment %s"
  else if is_char c "s" then cmd_status fd lid msgp
  else if lid <? 0 then
    (* ignore if sender unknown *)
    laik_log LAIK_LL_Warning "ignoring command '%s' from unknown sender" ;;
    assert (0 <? fd) ;;
    send_cmd (reply_to lid fd) "# first register, see 'help'"
  (* second part of commands are accepted only with ID assigned by master *)
  else if is_char c "i" then cmd_id msg
  else if is_char c "p" then cmd_phase msg
  else if is_char c "a" then cmd_allowsend lid msg
  else if is_char c "d" then got_data lid msg
  else laik_log LAIK_LL_Warning "TCP2 got from lID %d unknown msg '%s'".

(** ** Receive buffers and the event loop *)

(** [laik_panic]: logs at panic level and never returns. *)
Definition laik_panic (msg : string) : M unit :=
  laik_log LAIK_LL_Panic msg ;; stop ProcExit.

(** The receive buffer of [fd] as [process_rbuf] sees it through its local
    pointer; once the buffer is freed the pointer dangles. *)
Definition get_rbuf (fd : Z) : M string :=
  d <- get_inst ;;
  match rbuf (fds d fd) with
  | Some buf => ret buf
  | None => stop Undefined
  end.

Definition put_rbuf (fd : Z) (buf : string) : M unit :=
  modify_inst (fun d => upd_fds d fd (fun s => set_rbuf s (Some buf))).

(** The scanning loop of [process_rbuf], with [n] bytes left to look at:
    [while(pos2 < used) ...]; the result is [pos1]. *)
Fixpoint process_scan (n : nat) (fd pos1 pos2 : Z) : M Z :=
  match n with
  | O => ret pos1
  | S k =>
      buf <- get_rbuf fd ;;
      (* change CR to whitespace (sent by telnet) *)
      (if is_char (char_at buf pos2) CR
       then put_rbuf fd (buf_write buf pos2 (String SP ""))
       else ret tt) ;;
      buf <- get_rbuf fd ;;
      if is_char (char_at buf pos2) NL then
        put_rbuf fd (buf_write buf pos2 (String NUL "")) ;;
        buf <- get_rbuf fd ;;
        got_cmd fd pos1 (cstr (drop pos1 buf)) (pos2 - pos1) ;;
        process_scan k fd (pos2 + 1) (pos2 + 1)
      else process_scan k fd pos1 (pos2 + 1)
  end.

Definition process_rbuf (fd : Z) : M unit :=
  assert ((0 <=? fd) && (fd <? MAX_FDS)) ;;
  d <- get_inst ;;
  assert (match rbuf (fds d fd) with Some _ => true | None => false end) ;;
  let used := rbuf_used (fds d fd) in
  laik_log (LL 1)
    "TCP2 handle commands in receive buf of FD %d (LID %d, %d bytes)\n" ;;
  pos1 <- process_scan (Z.to_nat used) fd 0 0 ;;
  let pos2 := Z.max used 0 in
  (if 0 <? pos1 then
     (* move the incomplete tail to the front of the buffer *)
     (if pos1 <? pos2 then
        buf <- get_rbuf fd ;;
        put_rbuf fd (buf_sub buf pos1 (pos2 - pos1))
      else ret tt) ;;
     modify_inst (fun d => upd_fds d fd (fun s => set_rbuf_used s (pos2 - pos1)))
   else
     modify_inst (fun d => upd_fds d fd (fun s => set_rbuf_used s used))).

(** What the environment hands to a callback when its descriptor is
    ready: the bytes [read] returns (none at end of file), a read error,
    or the result of [accept]. *)
Inductive FdInput : Type :=
| InRead (bytes : string)
| InReadErr
| InAccept (newfd : Z)
| InAcceptErr.

Definition got_bytes (fd : Z) (inp : FdInput) : M unit :=
  (* use a per-fd receive buffer to not mix partially sent commands *)
  assert ((0 <=? fd) && (fd <? MAX_FDS)) ;;
  d <- get_inst ;;
  let used := rbuf_used (fds d fd) in
  if used =? RBUF_LEN then
    (* buffer not large enough for even 1 command *)
    laik_panic "TCP2 receive buffer too small for 1 command"
  else
    match inp with
    | InRead bytes =>
        let bytes := prefix (Z.to_nat (RBUF_LEN - used)) bytes in
        let len := strlen bytes in
        buf <- get_rbuf fd ;;
        if len =? 0 then
          (* other side closed connection *)
          (* process left-over commands, add NL for last command *)
          put_rbuf fd (buf_write buf used (String NL "")) ;;
          process_rbuf fd ;;
          d <- get_inst ;;
          assert (rbuf_used (fds d fd) =? 0) ;;
          laik_log (LL 1) "TCP2 FD %d closed (peer LID %d)\n" ;;
          os_close fd ;;
          rm_rfd fd
        else
          laik_log (LL 1)
            "TCP2 got_bytes(FD %d, peer LID %d, used %d): read %d bytes (%s)\n" ;;
          put_rbuf fd (buf_write buf used bytes) ;;
          modify_inst (fun d =>
            upd_fds d fd (fun s => set_rbuf_used s (used + len))) ;;
          process_rbuf fd
    | _ =>
        laik_log (LL 1) "TCP2 warning: read error on FD %d: %s\n"
    end.

Definition got_connect (fd : Z) (inp : FdInput) : M unit :=
  match inp with
  | InAccept newfd =>
      if newfd <? 0 then laik_panic "TCP2 Error in accept\n"
      else
        (fun w => Ret tt (set_os_open w (upd (os_open w) newfd true))) ;;
        add_rfd newfd cb_got_bytes ;;
        laik_log (LL 1) "TCP2 Got connection on FD %d from %s\n" ;;
        send_cmd (- newfd) "# Here is LAIK TCP2"
  | _ => laik_panic "TCP2 Error in accept\n"
  end.

(** One return of [select]: the ready descriptors with what they hold, in
    increasing order of descriptor, as the loop visits them. *)
Definition Round : Type := list (Z * FdInput).

(** [select] reports descriptors of the read set only. *)
Definition select_ready (d : InstData) (r : Round) : Round :=
  filter (fun e => rset d (fst e) && (0 <=? fst e) && (fst e <=? maxfds d)) r.

(** [for(int i = 0; i <= d->maxfds; i++) if (FD_ISSET(i, &rset)) ...] *)
Fixpoint run_callbacks (ready : Round) : M unit :=
  match ready with
  | [] => ret tt
  | (i, inp) :: rest =>
      d <- get_inst ;;
      if i <=? maxfds d then
        assert (cb_is_set (cb (fds d i))) ;;
        match cb (fds d i) with
        | cb_got_bytes => got_bytes i inp
        | cb_got_connect => got_connect i inp
        | cb_none => ret tt
        end ;;
        run_callbacks rest
      else ret tt
  end.

(** [while(d->exit == 0) ...] over the returns of [select] the
    environment offers; the rounds not used are returned.  When none is
    left the process stays blocked in [select]. *)
Fixpoint run_loop_from (rounds : list Round) (w : World)
  : outcome (list Round) :=
  if exit (inst w) =? 0 then
    match rounds with
    | [] => Stop Blocked w
    | r :: rest =>
        match run_callbacks (select_ready (inst w) r) w with
        | Ret _ w' => run_loop_from rest w'
        | Stop x w' => Stop x w'
        end
    end
  else Ret rounds w.

Definition run_loop (rounds : list Round) (w : World) : outcome (list Round) :=
  run_loop_from rounds (set_inst w (set_exit (inst w) 0)).

(** [while(cond) run_loop(d);] *)
Fixpoint loop_while (fuel : nat) (cond : InstData -> bool)
    (rounds : list Round) (w : World) : outcome (list Round) :=
  if cond (inst w) then
    match fuel with
    | O => Stop OutOfFuel w
    | S f =>
        match run_loop rounds w with
        | Ret rounds' w' => loop_while f cond rounds' w'
        | Stop x w' => Stop x w'
        end
    end
  else Ret rounds w.

(** ** Sending and receiving slices *)

(** The text [send_data] builds for element [n] with the bytes [bs],
    [t] being the text of its index: ["data <s> (<n>:<t>) <hex> ..."]. *)
Definition data_text (n : Z) (t : string) (s : Z) (bs : list Z) : string :=
  fold_left (fun acc v => (acc ++ " " ++ fmt_02x v)%string) bs
            ("data " ++ fmt_d s ++ " (" ++ fmt_d n ++ ":" ++ t ++ ")")%string.

(** Send data with one element of size [s] at [p] to process [toLID].  The
    command is built in [char str[100]]. *)
Definition send_data (n dims : Z) (idx : Laik_Index) (toLID : Z)
    (bytes : list Z) (s : Z) : M unit :=
  t <- istr dims idx ;;
  let str := data_text n t s bytes in
  if 100 <=? strlen str then stop Undefined
  else
    (if s =? 8 then istr dims idx ;; laik_log (LL 1) " pos %s: %f\n"
     else ret tt) ;;
    send_cmd toLID str.

(** The element loop of [send_slice]: [ecount] elements are sent already
    and [idx] is the next index.  The result is the final [ecount]. *)
Fixpoint send_elems (fuel : nat) (fromMap : Laik_Mapping) (blk : Z)
    (slc : Laik_Slice) (toLID : Z) (idx : Laik_Index) (ecount : Z) : M Z :=
  match fuel with
  | O => stop OutOfFuel
  | S f =>
      let esize := elemsize fromMap in
      let off := layout_offset fromMap idx in
      bytes <- (fun w => Ret (read_bytes (mem w blk) (off * esize) esize) w) ;;
      send_data ecount (dims slc) idx toLID bytes esize ;;
      let ecount := ecount + 1 in
      let '(more, idx') := next_lex slc idx in
      if more then send_elems f fromMap blk slc toLID idx' ecount
      else ret ecount
  end.

(** Send a slice of data from mapping [fromMap] to process [toLID]; if not
    yet allowed to send data, wait.  [rounds] is what the environment
    offers to the event loop; the rounds not used are returned.  The
    element loop is given one step more than the slice has elements: a
    loop going further can only fail the assertion on [ecount]. *)
Definition send_slice (fromMap : Laik_Mapping) (slc : Laik_Slice) (toLID : Z)
    (rounds : list Round) (w : World) : outcome (list Round) :=
  let esize := elemsize fromMap in
  match start fromMap with
  | None => Stop AssertFailed w   (* must be backed by memory *)
  | Some blk =>
      (* we need to wait for right to send data *)
      match loop_while (S (List.length rounds))
                       (fun d => scount (peer d toLID) =? 0) rounds w with
      | Stop x w' => Stop x w'
      | Ret rounds' w1 =>
          let p := peer (inst w1) toLID in
          (assert (scount p =? CInt.to_int (laik_slice_size slc)) ;;
           assert (selemsize p =? esize) ;;
           ecount <- send_elems (S (Z.to_nat (laik_slice_size slc)))
                                fromMap blk slc toLID (from slc) 0 ;;
           assert (ecount =? CInt.to_int (laik_slice_size slc)) ;;
           (* withdraw our right to send further data *)
           modify_inst (fun d => upd_peer d toLID (fun q => set_scount q 0)) ;;
           ret rounds') w1
      end
  end.

(** The receive posted by [recv_slice] in the peer structure, after the
    element count. *)
Definition post_recv (slc : Laik_Slice) (toMap : Laik_Mapping)
    (ro : Laik_ReductionOperation) (p : Peer) : Peer :=
  let p := set_roff p 0 in
  let p := set_relemsize p (elemsize toMap) in
  let p := set_rmap p (Some toMap) in
  let p := set_rslc p (Some slc) in
  let p := set_ridx p (from slc) in
  set_rro p ro.

(** Queue a receive action and run the event loop until all data is
    received; [ro] requests a reduction with the existing value. *)
Definition recv_slice (slc : Laik_Slice) (fromLID : Z) (toMap : Laik_Mapping)
    (ro : Laik_ReductionOperation) (rounds : list Round) (w : World)
  : outcome (list Round) :=
  match
    (assert (match start toMap with Some _ => true | None => false end) ;;
     (* check no data still registered to be received from <fromID> *)
     d <- get_inst ;;
     assert (rcount (peer d fromLID) =? 0) ;;
     (* write outstanding receive info into peer structure *)
     modify_inst (fun d => upd_peer d fromLID (fun p =>
       set_rcount p (CInt.to_int (laik_slice_size slc)))) ;;
     d <- get_inst ;;
     assert (0 <? rcount (peer d fromLID)) ;;
     modify_inst (fun d => upd_peer d fromLID (post_recv slc toMap ro)) ;;
     (* give peer the right to start sending data *)
     d <- get_inst ;;
     send_cmd fromLID ("allowsend " ++ fmt_d (rcount (peer d fromLID)) ++ " "
                         ++ fmt_d (relemsize (peer d fromLID)))%string) w
  with
  | Stop x w' => Stop x w'
  | Ret _ w0 =>
      (* wait until all data received from peer *)
      match loop_while (S (List.length rounds))
              (fun d => roff (peer d fromLID) <? rcount (peer d fromLID))
              rounds w0 with
      | Stop x w' => Stop x w'
      | Ret rounds' w1 =>
          Ret rounds' (set_inst w1 (upd_peer (inst w1) fromLID
                                             (fun p => set_rcount p 0)))
      end
  end.

(** ** Notions used to state properties *)

(** The text of an index of a slice of 1 to 3 axes. *)
Definition index_text (dims : Z) (idx : Laik_Index) : string :=
  match istr_text dims idx with Some t => t | None => "" end.

(** The data command for element [n] at index [idx] with the bytes [bs],
    as [send_data] builds it for 1 to 3 axes. *)
Definition data_cmd (n dims : Z) (idx : Laik_Index) (s : Z) (bs : list Z)
  : string :=
  data_text n (index_text dims idx) s bs.

(** [n] elements accepted one after the other by [got_data]: the steps the
    receive state of a peer goes through. *)
Fixpoint recv_elems (n : nat) (slc : Laik_Slice) (p : Peer) : option Peer :=
  match n with
  | O => Some p
  | S k =>
      match recv_elems k slc p with
      | Some p' => recv_advance slc p'
      | None => None
      end
  end.

(** The peer structure once [recv_slice] has posted its receive. *)
Definition posted (slc : Laik_Slice) (toMap : Laik_Mapping)
    (ro : Laik_ReductionOperation) (p : Peer) : Peer :=
  post_recv slc toMap ro (set_rcount p (CInt.to_int (laik_slice_size slc))).

(** The receive state of a peer as the code keeps it: nothing is due, or
    the elements received so far are part of those due. *)
Definition recv_state_ok (p : Peer) : Prop :=
  rcount p = 0 \/ (0 <= roff p <= rcount p).

(** Outstanding credit: elements are due and not all have arrived. *)
Definition has_credit (p : Peer) : Prop :=
  0 < rcount p /\ roff p < rcount p.

(** The writes of a trace: descriptor and bytes, in order. *)
Fixpoint writes (tr : list Event) : list (Z * string) :=
  match tr with
  | [] => []
  | EvWrite wfd bytes :: r => (wfd, bytes) :: writes r
  | _ :: r => writes r
  end.

(** The first characters that select a command handler. *)
Definition is_verb (c : ascii) : bool :=
  is_char c "r" || is_char c "m" || is_char c "h" || is_char c "k"
  || is_char c "q" || is_char c "#" || is_char c "s" || is_char c "i"
  || is_char c "p" || is_char c "a" || is_char c "d".

(** Number of spaces in a string. *)
Fixpoint count_spaces (s : string) : Z :=
  match s with
  | EmptyString => 0
  | String c r => (if is_char c SP then 1 else 0) + count_spaces r
  end.

(** All characters are hex digits or spaces. *)
Fixpoint hex_or_space (s : string) : bool :=
  match s with
  | EmptyString => true
  | String c r => (is_hex c || is_char c SP) && hex_or_space r
  end.

(** The indexes [next_lex] leads through, [n] of them from [idx] on. *)
Fixpoint walk (n : nat) (slc : Laik_Slice) (idx : Laik_Index)
  : list Laik_Index :=
  match n with
  | O => []
  | S m => idx :: walk m slc (snd (next_lex slc idx))
  end.

(** The data commands for the elements at [idxs], numbered from [k] on,
    each with its newline, as written to descriptor [wfd]: the bytes of an
    element are those of memory block [blk] at the offset the layout of
    [fromMap] gives. *)
Fixpoint data_writes (wfd : Z) (fromMap : Laik_Mapping) (m : Z -> Z)
    (dims k : Z) (idxs : list Laik_Index) : list (Z * string) :=
  match idxs with
  | [] => []
  | idx :: rest =>
      (wfd,
       (data_cmd k dims idx (elemsize fromMap)
          (read_bytes m (layout_offset fromMap idx * elemsize fromMap)
                      (elemsize fromMap))
        ++ String NL "")%string)
      :: data_writes wfd fromMap m dims (k + 1) rest
  end.

(** The wait for send credit in [send_slice]. *)
Definition wait_credit (toLID : Z) (rounds : list Round) (w : World)
  : outcome (list Round) :=
  loop_while (S (List.length rounds))
             (fun d => scount (peer d toLID) =? 0) rounds w.

End Tcp2.

(** * The collective back end (MPI) *)

Module Mpi.

Open Scope string_scope.
Open Scope Z_scope.
Open Scope list_scope.

(** ** Transition plans *)

(** [buf] is the array [char** buf] of the plan: [None] for a null array
    pointer, else the pointer stored at each position ([None] for a null
    or not yet written entry).  The action array is kept by its
    allocation only. *)
Record Laik_TransitionPlan : Type := mkPlan {
  bufCount : Z;
  bufAllocCount : Z;
  buf : option (Z -> option Z);
  actionCount : Z;
  actionAllocCount : Z;
  action : option (Z -> Z);       (* type of each action *)
  sendCount : Z;
  recvCount : Z
}.

Definition LAIK_AT_Invalid : Z := 0.

(** A call ends by returning, or in [laik_panic], which never returns. *)
Inductive result (A : Type) : Type :=
| Returned (a : A) (tp : Laik_TransitionPlan)
| Panic (msg : string).
Arguments Returned {A} a tp.
Arguments Panic {A} msg.

Definition upd {A : Type} (f : Z -> A) (k : Z) (v : A) : Z -> A :=
  fun j => if j =? k then v else f j.

(** [realloc] of an array: the old entries are kept. *)
Definition realloc {A : Type} (old : option (Z -> A)) (fresh : Z -> A)
    (ok : bool) : option (Z -> A) :=
  if ok then Some (match old with Some f => f | None => fresh end) else None.

(** [laik_transplan_appendAction]; [realloc_ok] tells whether the
    [realloc] of the action array succeeds.  The result is the position of
    the new action. *)
Definition laik_transplan_appendAction (tp : Laik_TransitionPlan)
    (realloc_ok : bool) : result Z :=
  let grow := actionCount tp =? actionAllocCount tp in
  let alloc := if grow then (actionCount tp + 20) * 2 else actionAllocCount tp in
  let arr := if grow then realloc (action tp) (fun _ => 0) realloc_ok
             else action tp in
  match grow, arr with
  | true, None =>
      Panic "Out of memory allocating memory for Laik_TransitionPlan"
  | _, _ =>
      let a := actionCount tp in
      let arr' := match arr with
                  | Some f => Some (upd f a LAIK_AT_Invalid)
                  | None => None
                  end in
      Returned a (mkPlan (bufCount tp) (bufAllocCount tp) (buf tp)
                         (actionCount tp + 1) alloc arr'
                         (sendCount tp) (recvCount tp))
  end.

(** [laik_transplan_appendBuf]: allocates a buffer and appends it to the
    list of buffers used for [tp]; returns its position.  [realloc_ok]
    tells whether the [realloc] of the array succeeds, [malloc_res] is the
    pointer [malloc(size)] returns ([None] for a null pointer). *)
Definition laik_transplan_appendBuf (tp : Laik_TransitionPlan) (size : Z)
    (realloc_ok : bool) (malloc_res : option Z) : result Z :=
  let grow := bufCount tp =? bufAllocCount tp in
  let alloc := if grow then (bufCount tp + 20) * 2 else bufAllocCount tp in
  let arr := if grow then realloc (buf tp) (fun _ => None) realloc_ok
             else buf tp in
  match grow, arr with
  | true, None =>
      Panic "Out of memory allocating memory for Laik_TransitionPlan"
  | _, _ =>
      match malloc_res with
      | Some _ =>
          (* if (buf) *)
          Panic "Out of memory allocating memory for Laik_TransitionPlan"
      | None =>
          let bufNo := bufCount tp in
          let arr' := match arr with
                      | Some f => Some (upd f bufNo malloc_res)
                      | None => None
                      end in
          Returned bufNo (mkPlan (bufCount tp + 1) alloc arr'
                                 (actionCount tp) (actionAllocCount tp)
                                 (action tp) (sendCount tp) (recvCount tp))
      end
  end.

(** ** The send/receive schedule of [laik_mpi_exec] *)

Record recvTOp : Type := mkRecv {
  r_slc : Laik_Slice;
  fromTask : Z;
  r_mapNo : Z
}.

Record sendTOp : Type := mkSend {
  s_slc : Laik_Slice;
  toTask : Z;
  s_mapNo : Z
}.

(** The part of a transition the schedule walks. *)
Record Laik_Transition : Type := mkTransition {
  recv : list recvTOp;
  send : list sendTOp
}.

(** Statistics of a switch ([Laik_SwitchStat]). *)
Record Laik_SwitchStat : Type := mkStat {
  st_sendCount : Z;
  st_sentBytes : Z;
  st_recvCount : Z;
  st_receivedBytes : Z
}.

(** Transfers started by the schedule, with the phase they happen in. *)
Inductive Comm : Type :=
| Recv (phase : Z) (op : recvTOp)
| RecvDropped (phase : Z) (op : recvTOp)
| Send (phase : Z) (op : sendTOp).

(** What the schedule uses of a layout when [dims] is not 1: its [pack]
    and [unpack] functions, [None] for a null function pointer.  A
    function is given by what its calls for a slice return one after the
    other, up to the call that takes the index to the end of the slice
    (there is at least one call): for [pack] the number of elements
    packed, for [unpack] the number of elements [MPI_Get_count] reports
    as received, with the number of elements unpacked. *)
Record Laik_Layout : Type := mkLayout {
  pack : option (Laik_Slice -> Z * list Z);
  unpack : option (Laik_Slice -> (Z * Z) * list (Z * Z))
}.

(** State walked through by the schedule: which mappings of the two lists
    have memory ([base != 0]), the layout of each mapping by its number,
    the statistics (if any), and the transfers so far. *)
Record ExecState : Type := mkExec {
  toBase : list bool;
  fromBase : list bool;
  toLayout : Z -> Laik_Layout;
  fromLayout : Z -> Laik_Layout;
  stat : option Laik_SwitchStat;
  comms : list Comm
}.

Definition has_base (l : list bool) (mapNo : Z) : bool :=
  nth (Z.to_nat mapNo) l false.

Fixpoint set_base (l : list bool) (n : nat) : list bool :=
  match l, n with
  | [], _ => []
  | _ :: r, O => true :: r
  | b :: r, S k => b :: set_base r k
  end.

(** Number of elements moved for a slice: directly for one dimension, by
    repeated packing up to the size of the slice otherwise. *)
Definition moved (dims : Z) (slc : Laik_Slice) : Z :=
  if dims =? 1 then CInt.u64 (i0 (to slc) - i0 (from slc))
  else laik_slice_size (mkSlice dims (from slc) (to slc)).

(** The packing loop of a send: [count] elements are sent already and
    [rs] is what the calls of [pack] still to come return.  [None]: the
    assertion [packed > 0] failed. *)
Fixpoint pack_loop (rs : list Z) (count : Z) : option Z :=
  match rs with
  | [] => Some count
  | packed :: rest =>
      if 0 <? packed then pack_loop rest (CInt.u64 (count + packed))
      else None
  end.

(** The unpacking loop of a receive; [None]: the assertion
    [recvCount == unpacked] failed. *)
Fixpoint unpack_loop (rs : list (Z * Z)) (count : Z) : option Z :=
  match rs with
  | [] => Some count
  | (recvCount, unpacked) :: rest =>
      if recvCount =? unpacked
      then unpack_loop rest (CInt.u64 (count + unpacked))
      else None
  end.

(** [count] of a send, the number of elements handed to [MPI_Send]:
    directly for [dims == 1], through the packing loop otherwise.
    [None]: an assertion failed. *)
Definition send_count (dims : Z) (l : Laik_Layout) (slc : Laik_Slice)
  : option Z :=
  if dims =? 1 then Some (CInt.u64 (i0 (to slc) - i0 (from slc)))
  else
    match pack l with
    | None => None         (* the used layout must support packing *)
    | Some f =>
        let size := laik_slice_size (mkSlice dims (from slc) (to slc)) in
        if negb (0 <? size) then None
        else
          match pack_loop (fst (f slc) :: snd (f slc)) 0 with
          | Some count => if count =? size then Some count else None
          | None => None
          end
    end.

(** [count] of a receive into the mapping. *)
Definition recv_count (dims : Z) (l : Laik_Layout) (slc : Laik_Slice)
  : option Z :=
  if dims =? 1 then Some (CInt.u64 (i0 (to slc) - i0 (from slc)))
  else
    match unpack l with
    | None => None         (* the used layout must support unpacking *)
    | Some f =>
        match unpack_loop (fst (f slc) :: snd (f slc)) 0 with
        | Some count =>
            if count =? laik_slice_size (mkSlice dims (from slc) (to slc))
            then Some count else None
        | None => None
        end
    end.

(** Body of the receive loop for one entry, in a phase for peer [task],
    when the transition is executed and not recorded in a plan
    ([record == 0]).  [None]: an assertion failed (or a negative map
    number is used as an array index).  With [mpi_bug > 0] small
    one-dimensional receives go to a dummy buffer and are not counted. *)
Definition recv_step (mpi_bug myid dims elemsize phase task : Z)
    (recvFromLower recvFromHigher : bool) (op : recvTOp) (st : ExecState)
  : option ExecState :=
  if negb (task =? fromTask op) then Some st
  else if recvFromLower && (myid <? task) then Some st
  else if recvFromHigher && (task <? myid) then Some st
  else if myid =? fromTask op then None
  else if negb (r_mapNo op <? Z.of_nat (List.length (toBase st))) then None
  else if r_mapNo op <? 0 then None
  else
    (* space not yet allocated: laik_allocateMap *)
    let tb := if has_base (toBase st) (r_mapNo op) then toBase st
              else set_base (toBase st) (Z.to_nat (r_mapNo op)) in
    if (dims =? 1) && (0 <? mpi_bug)
       && (CInt.u64 (i0 (to (r_slc op)) - i0 (from (r_slc op))) <? 1000) then
      Some (mkExec tb (fromBase st) (toLayout st) (fromLayout st) (stat st)
                   (comms st ++ [RecvDropped phase op]))
    else
      match recv_count dims (toLayout st (r_mapNo op)) (r_slc op) with
      | None => None
      | Some count =>
          let stat' :=
            match stat st with
            | Some ss => Some (mkStat (st_sendCount ss) (st_sentBytes ss)
                                      (st_recvCount ss + 1)
                                      (st_receivedBytes ss + count * elemsize))
            | None => None
            end in
          Some (mkExec tb (fromBase st) (toLayout st) (fromLayout st) stat'
                       (comms st ++ [Recv phase op]))
      end.

(** Body of the send loop for one entry ([record == 0]). *)
Definition send_step (myid dims elemsize phase task : Z)
    (sendToLower sendToHigher : bool) (op : sendTOp) (st : ExecState)
  : option ExecState :=
  if negb (task =? toTask op) then Some st
  else if sendToLower && (myid <? task) then Some st
  else if sendToHigher && (task <? myid) then Some st
  else if myid =? toTask op then None
  else if negb (s_mapNo op <? Z.of_nat (List.length (fromBase st))) then None
  else if s_mapNo op <? 0 then None
  else if negb (has_base (fromBase st) (s_mapNo op)) then None
  else
    match send_count dims (fromLayout st (s_mapNo op)) (s_slc op) with
    | None => None
    | Some count =>
        let stat' :=
          match stat st with
          | Some ss => Some (mkStat (st_sendCount ss + 1)
                                    (st_sentBytes ss + count * elemsize)
                                    (st_recvCount ss) (st_receivedBytes ss))
          | None => None
          end in
        Some (mkExec (toBase st) (fromBase st) (toLayout st) (fromLayout st)
                     stat' (comms st ++ [Send phase op]))
    end.

Fixpoint run_steps {A : Type} (step : A -> ExecState -> option ExecState)
    (ops : list A) (st : ExecState) : option ExecState :=
  match ops with
  | [] => Some st
  | op :: rest =>
      match step op st with
      | Some st' => run_steps step rest st'
      | None => None
      end
  end.

(** One phase: the peer of the phase and the four directions, then all
    receives, then all sends. *)
Definition exec_phase (mpi_bug myid dims elemsize count phase : Z)
    (t : Laik_Transition) (st : ExecState) : option ExecState :=
  let task := if phase <? count then phase else 2 * count - phase - 1 in
  let sendToHigher := phase <? count in
  let recvFromLower := phase <? count in
  let sendToLower := count <=? phase in
  let recvFromHigher := count <=? phase in
  match run_steps (recv_step mpi_bug myid dims elemsize phase task
                             recvFromLower recvFromHigher) (recv t) st with
  | Some st' =>
      run_steps (send_step myid dims elemsize phase task
                           sendToLower sendToHigher) (send t) st'
  | None => None
  end.

(** [for(int phase = 0; phase < 2*count; phase++)], [n] phases from
    [phase] on. *)
Fixpoint exec_phases (n : nat) (mpi_bug myid dims elemsize count phase : Z)
    (t : Laik_Transition) (st : ExecState) : option ExecState :=
  match n with
  | O => Some st
  | S k =>
      match exec_phase mpi_bug myid dims elemsize count phase t st with
      | Some st' =>
          exec_phases k mpi_bug myid dims elemsize count (phase + 1) t st'
      | None => None
      end
  end.

(** The point-to-point part of [laik_mpi_exec] for a task of a group of
    [count] tasks; a task outside the group ([myid < 0]) does nothing. *)
Definition exec_sendrecv (mpi_bug myid dims elemsize count : Z)
    (t : Laik_Transition) (st : ExecState) : option ExecState :=
  if myid <? 0 then Some st
  else exec_phases (Z.to_nat (2 * count)) mpi_bug myid dims elemsize count
                   0 t st.

(** ** Notions used to state properties *)

(** The schedule in the words of its description: the peer of a phase,
    and the entries a task serves in it.  In the first sweep
    ([phase < count]) it receives from the peer when that has a lower
    rank and sends to it when it has a higher rank; in the second sweep
    the other way round. *)
Definition phase_peer (count phase : Z) : Z :=
  if phase <? count then phase else 2 * count - phase - 1.

Definition serves_recv (myid count phase : Z) (op : recvTOp) : bool :=
  (fromTask op =? phase_peer count phase)
  && (if phase <? count then phase_peer count phase <? myid
      else myid <? phase_peer count phase).

Definition serves_send (myid count phase : Z) (op : sendTOp) : bool :=
  (toTask op =? phase_peer count phase)
  && (if phase <? count then myid <? phase_peer count phase
      else phase_peer count phase <? myid).

(** The transfer recorded for a served receive. *)
Definition recv_event (mpi_bug dims phase : Z) (op : recvTOp) : Comm :=
  if (dims =? 1) && (0 <? mpi_bug) && (moved dims (r_slc op) <? 1000)
  then RecvDropped phase op else Recv phase op.

(** A layout packs the slice whole: it has a [pack] function, the slice
    is not empty, every call packs something, and the calls together pack
    as many elements as the slice has. *)
Definition packs_whole (dims : Z) (l : Laik_Layout) (slc : Laik_Slice)
  : Prop :=
  exists f,
    pack l = Some f /\
    (0 < laik_slice_size (mkSlice dims (from slc) (to slc))) /\
    Forall (fun packed => 0 < packed) (fst (f slc) :: snd (f slc)) /\
    (fold_left (fun c packed => CInt.u64 (c + packed))
               (fst (f slc) :: snd (f slc)) 0
     = laik_slice_size (mkSlice dims (from slc) (to slc))).

(** A layout unpacks the slice whole: it has an [unpack] function, every
    call unpacks what was received, and the calls together unpack as many
    elements as the slice has. *)
Definition unpacks_whole (dims : Z) (l : Laik_Layout) (slc : Laik_Slice)
  : Prop :=
  exists f,
    unpack l = Some f /\
    Forall (fun r => fst r = snd r) (fst (f slc) :: snd (f slc)) /\
    (fold_left (fun c r => CInt.u64 (c + snd r))
               (fst (f slc) :: snd (f slc)) 0
     = laik_slice_size (mkSlice dims (from slc) (to slc))).

(** The assertions of the two loops hold for every entry: no entry names
    the task itself as peer, map numbers are in range, the mappings sent
    from have memory, and slices of more than one dimension are packed
    and unpacked whole by the layouts. *)
Definition entries_ok (myid dims : Z) (t : Laik_Transition) (st : ExecState)
  : Prop :=
  (forall op, In op (recv t) ->
     fromTask op <> myid /\
     0 <= r_mapNo op < Z.of_nat (List.length (toBase st)) /\
     (dims = 1 \/ unpacks_whole dims (toLayout st (r_mapNo op)) (r_slc op))) /\
  (forall op, In op (send t) ->
     toTask op <> myid /\
     0 <= s_mapNo op < Z.of_nat (List.length (fromBase st)) /\
     has_base (fromBase st) (s_mapNo op) = true /\
     (dims = 1 \/ packs_whole dims (fromLayout st (s_mapNo op)) (s_slc op))).

End Mpi.

(** * Containers: mappings and switching the partitioning *)

Module Data.

Open Scope Z_scope.
Open Scope list_scope.

Set Warnings "-inexact-float".

Inductive Laik_Type : Type :=
| laik_Char
| laik_Int32
| laik_Int64
| laik_Float
| laik_Double
| laik_other (id : Z).

(** Access behaviours naming a reduction, as found in [initRedOp]. *)
Inductive Laik_AccessBehavior : Type :=
| LAIK_AB_ReadWrite
| LAIK_AB_Sum
| LAIK_AB_Prod
| LAIK_AB_Min
| LAIK_AB_Max.

(** One element of a mapping.  The code of this file reads and writes
    whole elements at element offsets, so memory is kept per element:
    bytes it only copies, a [double] it stored, or the [float] obtained
    from a [double] constant. *)
Inductive cell : Type :=
| Uninit
| Raw (bytes : list Z)
| DoubleVal (v : float)
| FloatOf (v : float).

(** Memory blocks by handle: their elements, and the bytes allocated
    (none when the handle is not allocated). *)
Record Heap : Type := mkHeap {
  cells : Z -> Z -> cell;
  cap : Z -> Z
}.

Definition upd {A : Type} (f : Z -> A) (k : Z) (v : A) : Z -> A :=
  fun j => if j =? k then v else f j.

Record Laik_Mapping : Type := mkMapping {
  data : Z;                 (* the container it belongs to *)
  task : Z;
  count : Z;
  baseIdx : Laik_Index;
  base : option Z           (* handle of the memory, [None] for 0 *)
}.

Record Laik_Transition : Type := mkTransition {
  local : list Laik_Slice;
  init : list (Laik_Slice * Laik_AccessBehavior);   (* init[i], initRedOp[i] *)
  red : list (Laik_Slice * Z);                      (* red[i], redRoot[i] *)
  sendCount : Z;
  recvCount : Z
}.

Definition localCount (t : Laik_Transition) : Z := Z.of_nat (List.length (local t)).
Definition initCount (t : Laik_Transition) : Z := Z.of_nat (List.length (init t)).

(** How a call ends. *)
Inductive outcome (A : Type) : Type :=
| Done (a : A)
| Aborted          (* a failed assertion *)
| Undef.           (* the C code leaves the defined behaviour *)
Arguments Done {A} a.
Arguments Aborted {A}.
Arguments Undef {A}.

Definition obind {A B : Type} (c : outcome A) (k : A -> outcome B) : outcome B :=
  match c with
  | Done a => k a
  | Aborted => Aborted
  | Undef => Undef
  end.

Declare Scope data_scope.
Notation "x <- c ;; k" := (obind c (fun x => k))
  (at level 61, c at next level, right associativity) : data_scope.
Notation "c ;; k" := (obind c (fun _ => k))
  (at level 61, right associativity) : data_scope.
Open Scope data_scope.

Definition assert (b : bool) : outcome unit := if b then Done tt else Aborted.
Definition defined (b : bool) : outcome unit := if b then Done tt else Undef.

(** A partitioning: the dimension of its space and the border of every
    task. *)
Record Laik_Partitioning : Type := mkPartitioning {
  p_dims : Z;
  borders : Z -> Laik_Slice
}.

(** A container.  [myid] is [laik_myid(d->group)] and also
    [inst->myid]; [dims] is [d->space->dims]. *)
Record Laik_Data : Type := mkData {
  id : Z;
  elemsize : Z;
  type : Laik_Type;
  dims : Z;
  myid : Z;
  activePartitioning : option Laik_Partitioning;
  activeMapping : option Laik_Mapping
}.

(** The back end of the instance, reached in C as
    [p->space->inst->backend]: its [execTransition] (a function pointer,
    possibly null) works on the container, the transition and the new
    mapping. *)
Record Laik_Backend : Type := mkBackend {
  execTransition :
    option (Laik_Data -> Laik_Transition -> Laik_Mapping -> Heap ->
            outcome Heap)
}.

(** [memcpy(to + toStart*elemsize, from + fromStart*elemsize, n*elemsize)]
    between two different blocks, in elements. *)
Definition copy_cells (h : Heap) (tb toStart fb fromStart n : Z) : Heap :=
  mkHeap (upd (cells h) tb
              (fun k => if (toStart <=? k) && (k <? toStart + n)
                        then cells h fb (fromStart + (k - toStart))
                        else cells h tb k))
         (cap h).

(** [for (j = lo; j < hi; j++) base[j] = v]. *)
Definition fill_cells (h : Heap) (tb lo hi : Z) (v : cell) : Heap :=
  mkHeap (upd (cells h) tb
              (fun k => if (lo <=? k) && (k <? hi) then v else cells h tb k))
         (cap h).

(** [allocMap]: the mapping of the border of this task; [malloc_res] is
    what the allocation of [count * elemsize] bytes returns.  The new
    block holds no values yet. *)
Definition allocMap (d : Laik_Data) (p : Laik_Partitioning)
    (malloc_res : option Z) (h : Heap) : Laik_Mapping * Heap :=
  let t := myid d in
  let b := borders p t in
  let c3 := if p_dims p =? 3
            then CInt.u64 (1 * CInt.u64 (i2 (to b) - i2 (from b))) else 1 in
  let c2 := if (p_dims p =? 3) || (p_dims p =? 2)
            then CInt.u64 (c3 * CInt.u64 (i1 (to b) - i1 (from b))) else c3 in
  let count := if (p_dims p =? 3) || (p_dims p =? 2) || (p_dims p =? 1)
               then CInt.u64 (c2 * CInt.u64 (i0 (to b) - i0 (from b))) else c2 in
  if count =? 0 then (mkMapping (id d) t count (from b) None, h)
  else
    match malloc_res with
    | Some blk =>
        (mkMapping (id d) t count (from b) (Some blk),
         mkHeap (upd (cells h) blk (fun _ => Uninit))
                (upd (cap h) blk (CInt.u64 (count * elemsize d))))
    | None => (mkMapping (id d) t count (from b) None, h)
    end.

(** [freeMap] *)
Definition freeMap (m : Laik_Mapping) (h : Heap) : Heap :=
  match base m with
  | Some blk => mkHeap (cells h) (upd (cap h) blk 0)
  | None => h
  end.

(** One round of the loop of [copyMap], for the local slice [s]. *)
Definition copy_local (esz : Z) (toMap fromMap : Laik_Mapping) (fb : Z)
    (s : Laik_Slice) (h : Heap) : outcome Heap :=
  let count := CInt.to_int (CInt.u64 (i0 (to s) - i0 (from s))) in
  let fromStart := CInt.u64 (i0 (from s) - i0 (baseIdx fromMap)) in
  let toStart := CInt.u64 (i0 (from s) - i0 (baseIdx toMap)) in
  if 0 <? count then
    match base toMap with
    | None => Undef
    | Some tb =>
        (* count * elemsize is a product of two ints *)
        defined (count * esz <=? CInt.INT_MAX) ;;
        (* both ranges lie in their blocks, which are different *)
        defined (negb (tb =? fb)) ;;
        defined ((fromStart + count) * esz <=? cap h fb) ;;
        defined ((toStart + count) * esz <=? cap h tb) ;;
        Done (copy_cells h tb toStart fb fromStart count)
    end
  else Done h.

Fixpoint copy_locals (esz : Z) (toMap fromMap : Laik_Mapping) (fb : Z)
    (l : list Laik_Slice) (h : Heap) : outcome Heap :=
  match l with
  | [] => Done h
  | s :: rest =>
      h' <- copy_local esz toMap fromMap fb s h ;;
      copy_locals esz toMap fromMap fb rest h'
  end.

(** [copyMap]; [fromMap] is a pointer that may be null. *)
Definition copyMap (d : Laik_Data) (t : Laik_Transition) (toMap : Laik_Mapping)
    (fromMap : option Laik_Mapping) (h : Heap) : outcome Heap :=
  assert (0 <? localCount t) ;;
  match fromMap with
  | None => Undef
  | Some fromMap =>
      assert (data toMap =? data fromMap) ;;
      if count toMap =? 0 then Done h      (* no elements to copy to *)
      else
        match base fromMap with
        | None =>
            (* nothing to copy from *)
            assert (count fromMap =? 0) ;; Done h
        | Some fb =>
            (* only for 1d now *)
            assert (dims d =? 1) ;;
            copy_locals (elemsize d) toMap fromMap fb (local t) h
        end
  end.

(** The value an init entry is filled with. *)
Definition init_value (op : Laik_AccessBehavior) : option float :=
  match op with
  | LAIK_AB_Sum => Some 0.0%float
  | LAIK_AB_Prod => Some 1.0%float
  | LAIK_AB_Min => Some 9e99%float     (* should be largest double val *)
  | LAIK_AB_Max => Some (-9e99)%float  (* should be smallest double val *)
  | _ => None
  end.

(** One round of the loop of [initMap].  The loop variable is an [int]
    starting at [s->from.i[0]], compared with [s->to.i[0]] as an unsigned
    64-bit number, and used as the position in the block as it is. *)
Definition init_entry (d : Laik_Data) (toMap : Laik_Mapping)
    (e : Laik_Slice * Laik_AccessBehavior) (h : Heap) : outcome Heap :=
  let s := fst e in
  let j0 := CInt.to_int (i0 (from s)) in
  let hi := j0 + (i0 (to s) - CInt.u64 j0) in   (* first j that ends the loop *)
  let fill (sz : Z) (mk : float -> cell) :=
    match init_value (snd e) with
    | None => Aborted
    | Some v =>
        if CInt.u64 j0 <? i0 (to s) then
          match base toMap with
          | None => Undef
          | Some tb =>
              defined (hi <=? CInt.INT_MAX) ;;
              defined ((0 <=? j0) && (hi * sz <=? cap h tb)) ;;
              Done (fill_cells h tb j0 hi (mk v))
          end
        else Done h
    end in
  match type d with
  | laik_Double => fill 8 DoubleVal
  | laik_Float => fill 4 FloatOf
  | _ => Aborted
  end.

Fixpoint init_entries (d : Laik_Data) (toMap : Laik_Mapping)
    (l : list (Laik_Slice * Laik_AccessBehavior)) (h : Heap) : outcome Heap :=
  match l with
  | [] => Done h
  | e :: rest =>
      h' <- init_entry d toMap e h ;;
      init_entries d toMap rest h'
  end.

Definition initMap (d : Laik_Data) (t : Laik_Transition) (toMap : Laik_Mapping)
    (h : Heap) : outcome Heap :=
  assert (0 <? initCount t) ;;
  if count toMap =? 0 then Done h     (* no elements to initialize *)
  else
    (* only for 1d now *)
    assert (dims d =? 1) ;;
    init_entries d toMap (init t) h.

(** ** The single task back end *)

Definition single_red (d : Laik_Data) (fromMap toMap : Laik_Mapping)
    (r : Laik_Slice * Z) (h : Heap) : outcome Heap :=
  assert (dims d =? 1) ;;
  let from_ := i0 (from (fst r)) in
  let to_ := i0 (to (fst r)) in
  match base fromMap with
  | None => Aborted
  | Some fb =>
      assert ((snd r =? -1) || (snd r =? myid d)) ;;
      match base toMap with
      | None => Aborted
      | Some tb =>
          assert (from_ <? to_) ;;
          let n := CInt.u64 (to_ - from_) in
          defined (negb (tb =? fb)) ;;
          defined (n * elemsize d <=? cap h fb) ;;
          defined (n * elemsize d <=? cap h tb) ;;
          Done (copy_cells h tb 0 fb 0 n)
      end
  end.

Fixpoint single_reds (d : Laik_Data) (fromMap toMap : Laik_Mapping)
    (l : list (Laik_Slice * Z)) (h : Heap) : outcome Heap :=
  match l with
  | [] => Done h
  | r :: rest =>
      h' <- single_red d fromMap toMap r h ;;
      single_reds d fromMap toMap rest h'
  end.

(** [laik_single_execTransition]; it reads [d->activeMapping->base]
    before anything else. *)
Definition laik_single_execTransition (d : Laik_Data) (t : Laik_Transition)
    (toMap : Laik_Mapping) (h : Heap) : outcome Heap :=
  match activeMapping d with
  | None => Undef
  | Some fromMap =>
      h' <- single_reds d fromMap toMap (red t) h ;;
      (* the single backend should never need to do send/recv actions *)
      assert (recvCount t =? 0) ;;
      assert (sendCount t =? 0) ;;
      Done h'
  end.

(** ** Setting a partitioning *)

Section SetPartitioning.

(** Two functions of the core that are kept abstract: the calculation of
    the borders of a partitioning, and the planner that compares the
    active partitioning with the new one. *)
Variable laik_update_partitioning : Laik_Partitioning -> Laik_Partitioning.
Variable laik_calc_transitionP :
  option Laik_Partitioning -> Laik_Partitioning -> Laik_Transition.

(** Set and enforce partitioning; [backend] is the back end of the
    instance of [p]. *)
Definition laik_set_partitioning (backend : Laik_Backend) (d : Laik_Data)
    (p : Laik_Partitioning) (malloc_res : option Z) (h : Heap)
  : outcome (Laik_Data * Heap) :=
  (* calculate borders *)
  let p := laik_update_partitioning p in
  let '(toMap, h) := allocMap d p malloc_res h in
  (* calculate actions to be done for switching *)
  let t := laik_calc_transitionP (activePartitioning d) p in
  (* let backend do send/recv/reduce actions *)
  match execTransition backend with
  | None => Aborted
  | Some exec =>
      h <- exec d t toMap h ;;
      (* local copy action *)
      h <- (if 0 <? localCount t then copyMap d t toMap (activeMapping d) h
            else Done h) ;;
      (* local init action *)
      h <- (if 0 <? initCount t then initMap d t toMap h else Done h) ;;
      (* free old mapping/partitioning *)
      let h := match activeMapping d with
               | Some m => freeMap m h
               | None => h
               end in
      (* set new mapping/partitioning active *)
      Done (mkData (id d) (elemsize d) (type d) (dims d) (myid d)
                   (Some p) (Some toMap), h)
  end.

End SetPartitioning.

Definition laik_backend_single : Laik_Backend :=
  mkBackend (Some laik_single_execTransition).

(** ** Notions used to state properties *)

(** The largest finite values of the two floating-point types. *)
Definition DBL_MAX : float := 0x1.fffffffffffffp+1023%float.
Definition FLT_MAX : float := 0x1.fffffep+127%float.

(** A one-dimensional slice that is part of what a mapping holds. *)
Definition slice_in_map (s : Laik_Slice) (m : Laik_Mapping) : Prop :=
  0 <= i0 (baseIdx m) <= i0 (from s) /\
  i0 (from s) <= i0 (to s) /\
  i0 (to s) <= i0 (baseIdx m) + count m /\
  i0 (to s) < CInt.UINT64_MOD.

(** A back end that leaves the memory of the active mapping as it is
    while it fills the new mapping. *)
Definition keeps_active_mapping (b : Laik_Backend) : Prop :=
  forall exec d t toMap h h' fromMap fb,
    execTransition b = Some exec ->
    exec d t toMap h = Done h' ->
    activeMapping d = Some fromMap -> base fromMap = Some fb ->
    base toMap <> Some fb ->
    cells h' fb = cells h fb.

End Data.

(** * Notions used in the statements *)

Section Tcp2Notions.

Import Tcp2 CStr.
Open Scope string_scope.
Open Scope Z_scope.
Open Scope list_scope.

Definition data_fmt : list Directive := [D_s 20; D_ws; D_d; D_ws; D_n].

Definition msg_unparsed : string := "cannot parse data command '%s'".

Definition msg_no_permission : string :=
  "TCP2 ignoring data from LID %d without send permission".

(** The test of [got_data] for "no matching receive". *)
Definition no_receive (p : Peer) : bool :=
  (rcount p =? 0) || (rcount p =? roff p).

Definition msg_got_cmd : string :=
  "TCP2 Got cmd '%s' (len %d) from locID %d (FD %d)\n".

(** The command is dropped with one log line at level [lvl]: besides the
    debug line on its arrival and that line nothing happens; back-end
    state, memory and connections are as before. *)
Definition dropped_at (lvl : Laik_LogLevel) (w : World) (r : outcome unit)
  : Prop :=
  exists fmt,
    r = Ret tt (emit (emit w (EvLog (LL 1) msg_got_cmd)) (EvLog lvl fmt)).

(** The first word of a command line has fewer than 20 characters: with
    its NUL it fits the array [char cmd[20]] the handlers read it
    into. *)
Definition verb_fits (msg : string) : Prop :=
  (String.length (fst (take_word 20 (skip_ws msg))) < 20)%nat.

(** What a handler does that reports at panic level and returns: the
    line is logged, and the call returns if the logger does; otherwise
    the process ends in the logger.  Back-end state, memory and
    connections are as before. *)
Definition panic_logged (fmt : string) (w : World) (r : outcome unit)
  : Prop :=
  r = if panic_returns w
      then Ret tt (emit w (EvLog LAIK_LL_Panic fmt))
      else Stop ProcExit (emit w (EvLog LAIK_LL_Panic fmt)).

(** The same for a command taken by [got_cmd], after the debug line on
    its arrival. *)
Definition dropped_at_panic (w : World) (r : outcome unit) : Prop :=
  exists fmt, panic_logged fmt (emit w (EvLog (LL 1) msg_got_cmd)) r.

(** The conversions each command is read with, and how many must work. *)
Definition parse_fails (msg : string) : bool :=
  let c := char_at msg 0 in
  if is_char c "r" then
    fst (sscanf msg [D_s 20; D_ws; D_s 50; D_ws; D_s 50; D_ws; D_d]) <? 4
  else if is_char c "m" then fst (sscanf msg [D_s 20; D_ws; D_d]) <? 2
  else if is_char c "i" then
    fst (sscanf msg [D_s 20; D_ws; D_d; D_ws; D_s 50; D_ws; D_s 50; D_ws; D_d])
    <? 5
  else if is_char c "p" then fst (sscanf msg [D_s 20; D_ws; D_d]) <? 2
  else if is_char c "a" then
    fst (sscanf msg [D_s 20; D_ws; D_d; D_ws; D_d]) <? 3
  else if is_char c "d" then fst (sscanf msg data_fmt) <? 2
  else false.

(** Whether reading the arguments of a command writes past an array: a
    first word of 20 or more characters, or for [register] and [id] a
    location or host of 50 or more. *)
Definition overflows (msg : string) : bool :=
  let c := char_at msg 0 in
  if is_char c "r" then
    scan_overflow [D_s 20; D_ws; D_s 50; D_ws; D_s 50; D_ws; D_d] msg
  else if is_char c "m" then scan_overflow [D_s 20; D_ws; D_d] msg
  else if is_char c "i" then
    scan_overflow
      [D_s 20; D_ws; D_d; D_ws; D_s 50; D_ws; D_s 50; D_ws; D_d] msg
  else if is_char c "p" then scan_overflow [D_s 20; D_ws; D_d] msg
  else if is_char c "a" then scan_overflow [D_s 20; D_ws; D_d; D_ws; D_d] msg
  else if is_char c "d" then scan_overflow data_fmt msg
  else false.

(** Whether the arguments of the command are read at all: [register] only
    by the master from a sender without id, [id] and [phase] only by
    other processes from a registered sender, [allowsend] and [data] only
    from a registered sender. *)
Definition reads_arguments (d : InstData) (lid : Z) (c : ascii) : bool :=
  if is_char c "r" then (mylid d =? 0) && (lid <? 0)
  else if is_char c "m" then true
  else if is_char c "i" then (0 <=? lid) && negb (mylid d =? 0)
  else if is_char c "p" then (0 <=? lid) && negb (mylid d =? 0)
  else if is_char c "a" then 0 <=? lid
  else if is_char c "d" then 0 <=? lid
  else false.

(** What sending a command to a peer connected on an open descriptor
    does: a debug line and the write of the command with its newline.
    Nothing else changes. *)
Definition sent (w w' : World) (wfd : Z) (cmd : string) : Prop :=
  inst w' = inst w /\ mem w' = mem w /\ os_open w' = os_open w /\
  dials w' = dials w /\
  exists tail,
    trace w' = trace w ++ EvLog (LL 1)
                 "TCP2 Sent cmd '%s' (len %d) to locID %d (FD %d)\n"
               :: EvWrite wfd (cmd ++ String NL "")%string :: tail /\
    writes tail = [].

(** The data command of the protocol for element number [n] at index
    [idx] with the bytes [bs], by its description
    [data <len> (<n>:<index>) <hexbyte> ...]: the index is written as its
    coordinates on the axes in use, separated by slashes, and every byte
    as a space and two lower-case hex digits. *)
Definition coordinates (dims : Z) (idx : Laik_Index) : list Z :=
  firstn (Z.to_nat dims) [i0 idx; i1 idx; i2 idx].

Definition coordinates_text (dims : Z) (idx : Laik_Index) : string :=
  String.concat "/" (map fmt_u (coordinates dims idx)).

Definition element_line (n dims : Z) (idx : Laik_Index) (bs : list Z)
  : string :=
  ("data " ++ fmt_d (Z.of_nat (List.length bs))
   ++ " (" ++ fmt_d n ++ ":" ++ coordinates_text dims idx ++ ")"
   ++ String.concat "" (map (fun b => " " ++ fmt_02x b) bs))%string.

(** The lines for the elements at [idxs], numbered from [k] on, each
    with its newline, as written to descriptor [wfd]: the bytes of an
    element are those of the memory block at the offset the layout of
    [fromMap] gives. *)
Fixpoint line_writes (wfd : Z) (fromMap : Laik_Mapping) (m : Z -> Z)
    (dims k : Z) (idxs : list Laik_Index) : list (Z * string) :=
  match idxs with
  | [] => []
  | idx :: rest =>
      (wfd,
       (element_line k dims idx
          (read_bytes m (layout_offset fromMap idx * elemsize fromMap)
                      (elemsize fromMap))
        ++ String NL "")%string)
      :: line_writes wfd fromMap m dims (k + 1) rest
  end.

(** The bytes of an element as [send_data] writes them: each as two hex
    digits after a space. *)
Fixpoint hex_text (bs : list Z) : string :=
  match bs with
  | [] => ""
  | b :: r => (" " ++ fmt_02x b ++ hex_text r)%string
  end.

(** The position tag of a data command: the number of the element and
    its index. *)
Definition pos_tag (n dims : Z) (idx : Laik_Index) : string :=
  "(" ++ fmt_d n ++ ":" ++ index_text dims idx ++ ")".

(** The position tag of element [n] at [idx] is printed within the
    buffers of the receiver: the index has 1 to 3 axes and its text fits
    the 50 bytes of [istr], the tag fits [pstr[70]]. *)
Definition tag_fits (n dims : Z) (idx : Laik_Index) : Prop :=
  1 <= dims <= 3 /\ strlen (index_text dims idx) < 50 /\
  strlen (pos_tag n dims idx) < 70.

(** What [got_data] stores for a received element [bs] where [cur] is
    held: the element itself, or its reduction with [cur]; nothing when a
    reduction is asked for and the type has none. *)
Definition element_value (m : Laik_Mapping) (ro : Laik_ReductionOperation)
    (cur bs : list Z) : option (list Z) :=
  match ro with
  | LAIK_RO_None => Some bs
  | op => match reduce m with
          | Some red => Some (red cur bs op)
          | None => None
          end
  end.

(** The back-end state after an element was accepted from peer [lid]:
    the peer structure has advanced to [p'], and the event loop is told
    to return once the last element is in. *)
Definition element_received (d : InstData) (lid : Z) (p' : Peer) : InstData :=
  let d := upd_peer d lid (fun _ => p') in
  if roff p' =? rcount p' then set_exit d 1 else d.

(** Text without the characters the receive buffer gives a meaning to:
    no NUL, no carriage return, no newline. *)
Fixpoint plain (s : string) : bool :=
  match s with
  | EmptyString => true
  | String c r =>
      negb (is_char c NUL) && negb (is_char c CR) && negb (is_char c NL)
      && plain r
  end.

Definition msg_got_bytes : string :=
  "TCP2 got_bytes(FD %d, peer LID %d, used %d): read %d bytes (%s)\n".

Definition msg_handle : string :=
  "TCP2 handle commands in receive buf of FD %d (LID %d, %d bytes)\n".

(** [w1] is [w] once [got_bytes] has taken the bytes read into the
    receive buffer of [fd] and [process_rbuf] has looked at them: two
    debug lines are logged, the buffer begins with [text] and [used] of
    its bytes are in use; nothing else differs. *)
Definition buffered (fd : Z) (text : string) (used : Z) (w w1 : World)
  : Prop :=
  mem w1 = mem w /\ os_open w1 = os_open w /\ dials w1 = dials w /\
  trace w1 = trace w ++ [EvLog (LL 1) msg_got_bytes; EvLog (LL 1) msg_handle] /\
  inst w1 = set_fds (inst w) (fds (inst w1)) /\
  (forall j, j <> fd -> fds (inst w1) j = fds (inst w) j) /\
  fd_lid (fds (inst w1) fd) = fd_lid (fds (inst w) fd) /\
  cb (fds (inst w1) fd) = cb (fds (inst w) fd) /\
  rbuf_used (fds (inst w1) fd) = used /\
  exists tail, rbuf (fds (inst w1) fd) = Some (text ++ tail)%string.

(** Every descriptor of the read set is among those [select] is asked
    to watch. *)
Definition rset_bounded (d : InstData) : Prop :=
  forall k, rset d k = true -> k <= maxfds d.

(** Descriptor [rfd] is the connection to peer [lid], watched by the
    event loop, with nothing in its receive buffer. *)
Definition fd_ready (rfd lid : Z) (d : InstData) : Prop :=
  0 <= rfd < MAX_FDS /\ rfd <= maxfds d /\ rset d rfd = true /\
  fd_lid (fds d rfd) = lid /\ cb (fds d rfd) = cb_got_bytes /\
  rbuf_used (fds d rfd) = 0 /\ exists buf, rbuf (fds d rfd) = Some buf.

(** The block of the receiving mapping once the elements at [idxs] have
    been copied to it, one after the other, from the block [ms] of the
    sending mapping: each element goes from the place the layout of
    [fromMap] gives its index to the place the layout of [toMap] gives
    it. *)
Fixpoint transfer (fromMap toMap : Laik_Mapping) (ms mr : Z -> Z)
    (idxs : list Laik_Index) : Z -> Z :=
  match idxs with
  | [] => mr
  | idx :: rest =>
      transfer fromMap toMap ms
        (write_bytes mr (layout_offset toMap idx * elemsize toMap)
           (read_bytes ms (layout_offset fromMap idx * elemsize fromMap)
                       (elemsize fromMap)))
        rest
  end.

(** The environment of a receiver: the writes of a sender arrive on
    descriptor [rfd], each in a read of its own. *)
Definition arriving (rfd : Z) (ws : list (Z * string)) : list Round :=
  map (fun wr => [(rfd, InRead (snd wr))]) ws.

(** The receive posted by [recv_slice] for the slice [slc] from peer
    [lid] into [toMap], with [done] elements received and [idx] the index
    of the element due. *)
Definition receiving (slc : Laik_Slice) (toMap : Laik_Mapping) (lid : Z)
    (done : Z) (idx : Laik_Index) (d : InstData) : Prop :=
  let p := peer d lid in
  rmap p = Some toMap /\ rslc p = Some slc /\ rro p = LAIK_RO_None /\
  relemsize p = elemsize toMap /\ rcount p = slice_volume slc /\
  roff p = done /\ ridx p = idx /\
  on_track slc idx /\ lex_rank slc idx = done.

(** Values a byte of memory can have. *)
Definition is_byte (b : Z) : Prop := 0 <= b < 256.

(** The first characters of the commands taken from any descriptor,
    registered or not. *)
Definition open_verb (c : ascii) : bool :=
  is_char c "r" || is_char c "m" || is_char c "h" || is_char c "k"
  || is_char c "q" || is_char c "#" || is_char c "s".

Definition msg_first_register : string := "# first register, see 'help'".

(** A text [%s] reads back whole: not empty and without white space. *)
Fixpoint no_space (s : string) : bool :=
  match s with
  | EmptyString => true
  | String c r => negb (isspace c) && no_space r
  end.

Definition word (s : string) : Prop :=
  s <> "" /\ no_space s = true /\ strlen s <= 50.

(** The entry of a peer once its id line was taken. *)
Definition announced (q : Peer) (l h : string) (p : Z) : Peer :=
  set_scount (set_rcount
    (set_port (set_location (set_host q (Some h)) (Some l)) p) 0) 0.

(** The command by which a process asks the master for an id, as
    [laik_init_tcp2] writes it. *)
Definition register_cmd (l h : string) (p : Z) : string :=
  "register " ++ l ++ " " ++ h ++ " " ++ fmt_d p.

(** The id line for peer [i] as the master prints it from its table. *)
Definition id_line (d : InstData) (i : Z) : string :=
  fmt_id i (fmt_s (location (peer d i))) (fmt_s (host (peer d i)))
         (port (peer d i)).

(** The values of a counting loop: [lo, lo+1, ...], [n] of them. *)
Definition range (lo : Z) (n : nat) : list Z :=
  map (fun k => lo + Z.of_nat k) (seq 0 n).

(** Only the receive buffer of [fd] has changed between two states. *)
Definition same_but_rbuf (fd : Z) (d d' : InstData) : Prop :=
  d' = set_fds d (fds d') /\
  (forall k, k <> fd -> fds d' k = fds d k) /\
  fd_lid (fds d' fd) = fd_lid (fds d fd) /\
  cb (fds d' fd) = cb (fds d fd) /\
  rbuf_used (fds d' fd) = rbuf_used (fds d fd) /\
  (rbuf (fds d fd) = None <-> rbuf (fds d' fd) = None).

End Tcp2Notions.

Definition msg_sent : String.string :=
  "TCP2 Sent cmd '%s' (len %d) to locID %d (FD %d)\n"%string.

Definition msg_oom : String.string :=
  "Out of memory allocating memory for Laik_TransitionPlan"%string.

Section MpiNotions.

Import Mpi.
Open Scope Z_scope.
Open Scope list_scope.

(** The transfers of one phase, as the two loops start them. *)
Definition phase_comms (mpi_bug myid dims count : Z) (t : Laik_Transition)
    (phase : Z) : list Comm :=
  map (recv_event mpi_bug dims phase)
      (filter (serves_recv myid count phase) (recv t))
  ++ map (Send phase) (filter (serves_send myid count phase) (send t)).

(** The entries sent, and the entries received into the mapping, among
    the transfers [l]. *)
Fixpoint sends_of (l : list Comm) : list sendTOp :=
  match l with
  | [] => []
  | Send _ op :: r => op :: sends_of r
  | _ :: r => sends_of r
  end.

Fixpoint recvs_of (l : list Comm) : list recvTOp :=
  match l with
  | [] => []
  | Recv _ op :: r => op :: recvs_of r
  | _ :: r => recvs_of r
  end.

Definition elems_sent (dims : Z) (l : list sendTOp) : Z :=
  fold_right (fun op a => moved dims (s_slc op) + a) 0 l.

Definition elems_received (dims : Z) (l : list recvTOp) : Z :=
  fold_right (fun op a => moved dims (r_slc op) + a) 0 l.

(** The statistics [s1] are [s0] with the transfers [done] counted:
    every send and every receive into the mapping, with its bytes. *)
Definition stat_counts (dims elemsize : Z) (s0 s1 : option Laik_SwitchStat)
    (done : list Comm) : Prop :=
  match s0, s1 with
  | Some a, Some b =>
      st_sendCount b = st_sendCount a + Z.of_nat (List.length (sends_of done)) /\
      st_sentBytes b
        = st_sentBytes a + elems_sent dims (sends_of done) * elemsize /\
      st_recvCount b = st_recvCount a + Z.of_nat (List.length (recvs_of done)) /\
      st_receivedBytes b
        = st_receivedBytes a + elems_received dims (recvs_of done) * elemsize
  | None, None => True
  | _, _ => False
  end.

(** The phase in which a task sends to a peer, and the phase in which it
    receives from a peer: the rank of the peer in the first sweep (sends
    to a higher rank, receives from a lower rank), its mirror image in
    the second sweep otherwise. *)
Definition send_phase (myid count peer : Z) : Z :=
  if myid <? peer then peer else 2 * count - 1 - peer.

Definition recv_phase (myid count peer : Z) : Z :=
  if peer <? myid then peer else 2 * count - 1 - peer.

End MpiNotions.

Section DataNotions.

Import Data.

(** A local slice as the planner gives it: it lies in the old and in the
    new mapping, and its element count fits an [int]. *)
Definition local_ok (toMap fromMap : Laik_Mapping) (s : Laik_Slice) : Prop :=
  slice_in_map s fromMap /\ slice_in_map s toMap /\
  i0 (to s) - i0 (from s) <= CInt.INT_MAX.

(** The places of the block of the new mapping an init entry writes: the
    values the loop variable of [initMap] takes. *)
Definition init_writes (e : Laik_Slice * Laik_AccessBehavior) (k : Z) : Prop :=
  let j0 := CInt.to_int (i0 (from (fst e))) in
  j0 <= k < j0 + (i0 (to (fst e)) - CInt.u64 j0).

(** The element an init entry stores: the value for its reduction as a
    [double] or as a [float], by the type of the container. *)
Definition init_cell (ty : Laik_Type) (op : Laik_AccessBehavior)
  : option cell :=
  match ty, init_value op with
  | laik_Double, Some v => Some (DoubleVal v)
  | laik_Float, Some v => Some (FloatOf v)
  | _, _ => None
  end.

(** The number of elements the single task back end copies for a
    reduction entry. *)
Definition red_count (r : Laik_Slice * Z) : Z :=
  CInt.u64 (i0 (to (fst r)) - i0 (from (fst r))).

End DataNotions.

(** * Example configurations *)

(** A master process (location id 0) listening on descriptor 3, with one
    registered peer, location id 1, connected on descriptor 5. *)

Definition ex_map : Tcp2.Laik_Mapping :=
  Tcp2.mkMapping (Some 0) 1 (fun idx => i0 idx + 2 * i1 idx) None.

Definition ex_peer_none : Tcp2.Peer :=
  Tcp2.mkPeer (-1) (-1) None None 0 0 0 None None (mkIndex 0 0 0)
              Tcp2.LAIK_RO_None 0 0.

Definition ex_peer_home : Tcp2.Peer :=
  Tcp2.mkPeer (-1) 7777 (Some "node0"%string) (Some "node0:10"%string)
              0 0 0 None None (mkIndex 0 0 0) Tcp2.LAIK_RO_None 0 0.

Definition ex_peer : Tcp2.Peer :=
  Tcp2.mkPeer 5 4000 (Some "node1"%string) (Some "node1:11"%string)
              0 0 0 None None (mkIndex 0 0 0) Tcp2.LAIK_RO_None 0 0.

(** Peer 1 as the master knows it while no connection to it is open. *)
Definition ex_peer_away : Tcp2.Peer :=
  Tcp2.mkPeer (-1) 4000 (Some "node1"%string) (Some "node1:11"%string)
              0 0 0 None None (mkIndex 0 0 0) Tcp2.LAIK_RO_None 0 0.

Definition ex_slice_1d : Laik_Slice :=
  mkSlice 1 (mkIndex 0 0 0) (mkIndex 2 0 0).

Definition ex_slice_2d : Laik_Slice :=
  mkSlice 2 (mkIndex 0 0 0) (mkIndex 2 3 0).

Definition ex_fds : Z -> Tcp2.FDState :=
  Tcp2.upd (Tcp2.upd (fun _ => Tcp2.mkFDState (-1) Tcp2.cb_none 0 None)
                     3 (Tcp2.mkFDState (-1) Tcp2.cb_got_connect 0 (Some ""%string)))
           5 (Tcp2.mkFDState 1 Tcp2.cb_got_bytes 0 (Some ""%string)).

Definition ex_inst (p1 : Tcp2.Peer) : Tcp2.InstData :=
  Tcp2.mkInstData 0 "node0"%string "node0:10"%string 3 7777 1 0 5
    (fun k => (k =? 3) || (k =? 5)) 0 ex_fds 1
    (Tcp2.upd (Tcp2.upd (fun _ => ex_peer_none) 0 ex_peer_home) 1 p1).

(** All memory holds the byte 7; descriptor 5 is open; a further
    connection attempt would get descriptor 6; [istr] was not called
    yet; the logger returns after a message at panic level. *)
Definition ex_world_with (p1 : Tcp2.Peer) : Tcp2.World :=
  Tcp2.mkWorld (ex_inst p1) (fun _ _ => 7) [] (fun k => k =? 5)
               [Tcp2.DialFd 6] ""%string true.

(** Nothing is due from peer 1, and nothing may be sent to it. *)
Definition ex_world : Tcp2.World := ex_world_with ex_peer.

(** The same process linked with a logger that does not return after a
    message at panic level. *)
Definition ex_world_strict : Tcp2.World :=
  Tcp2.mkWorld (Tcp2.inst ex_world) (Tcp2.mem ex_world) []
               (Tcp2.os_open ex_world) (Tcp2.dials ex_world) ""%string false.

(** A receive of the slice [0,2) is posted for peer 1. *)
Definition ex_world_recv : Tcp2.World :=
  ex_world_with (Tcp2.posted ex_slice_1d ex_map Tcp2.LAIK_RO_None ex_peer).

(** The example with the beginning of a command, "da", held in the
    receive buffer of descriptor 5. *)
Definition ex_world_partial : Tcp2.World :=
  Tcp2.set_inst ex_world
    (Tcp2.upd_fds (Tcp2.inst ex_world) 5 (fun s =>
       Tcp2.set_rbuf_used (Tcp2.set_rbuf s (Some "da"%string)) 2)).

(** The example after a connection was accepted on descriptor 6, from
    a peer that has not said who it is. *)
Definition ex_world_unreg : Tcp2.World :=
  Tcp2.set_os_open
    (Tcp2.set_inst ex_world
       (Tcp2.set_maxfds
          (Tcp2.set_rset
             (Tcp2.upd_fds (Tcp2.inst ex_world) 6 (fun _ =>
                Tcp2.mkFDState (-1) Tcp2.cb_got_bytes 0 (Some ""%string)))
             (fun k => (k =? 3) || (k =? 5) || (k =? 6)))
          6))
    (fun k => (k =? 5) || (k =? 6)).

(** Peer 1 is known but has no connection, and a connection from a peer
    that has not said who it is was accepted on descriptor 6. *)
Definition ex_world_back : Tcp2.World :=
  Tcp2.set_inst ex_world_unreg
    (Tcp2.upd_peer (Tcp2.inst ex_world_unreg) 1 (fun _ => ex_peer_away)).

(** A process that is not the master: it has location id 1, waits for
    its first phase, and the master (peer 0) is connected on descriptor
    5. *)
Definition ex_world_worker : Tcp2.World :=
  Tcp2.mkWorld
    (Tcp2.mkInstData 1 "node1"%string "node1:11"%string 3 4000 1 (-1) 5
       (fun k => (k =? 3) || (k =? 5)) 0
       (Tcp2.upd ex_fds 5
          (Tcp2.mkFDState 0 Tcp2.cb_got_bytes 0 (Some ""%string)))
       1
       (Tcp2.upd (Tcp2.upd (fun _ => ex_peer_none) 0
                    (Tcp2.set_fd ex_peer_home 5))
                 1 ex_peer_away))
    (fun _ _ => 7) [] (fun k => k =? 5) [] ""%string true.

(** The grant "allowsend 2 1" arriving from peer 1 on descriptor 5. *)
Definition ex_grant : list Tcp2.Round :=
  [[(5, Tcp2.InRead ("allowsend 2 1" ++ String.String CStr.NL "")%string)]].

(** A layout without pack and unpack functions, as one-dimensional
    transfers need none. *)
Definition ex_layout : Mpi.Laik_Layout := Mpi.mkLayout None None.

(** An exchange among three tasks, seen from task 1: it receives [0,4)
    from task 0 and [8,12) from task 2, and sends [4,6) to task 0 and
    [6,8) to task 2. *)
Definition ex_slice (a b : Z) : Laik_Slice :=
  mkSlice 1 (mkIndex a 0 0) (mkIndex b 0 0).

Definition ex_transition : Mpi.Laik_Transition :=
  Mpi.mkTransition
    [Mpi.mkRecv (ex_slice 0 4) 0 0; Mpi.mkRecv (ex_slice 8 12) 2 0]
    [Mpi.mkSend (ex_slice 4 6) 0 0; Mpi.mkSend (ex_slice 6 8) 2 0].

Definition ex_exec : Mpi.ExecState :=
  Mpi.mkExec [false] [true] (fun _ => ex_layout) (fun _ => ex_layout) None [].

(** The same with statistics switched on. *)
Definition ex_exec_stat : Mpi.ExecState :=
  Mpi.mkExec [false] [true] (fun _ => ex_layout) (fun _ => ex_layout)
             (Some (Mpi.mkStat 0 0 0 0)) [].

(** The plan [laik_transplan_new] returns. *)
Definition ex_plan : Mpi.Laik_TransitionPlan :=
  Mpi.mkPlan 0 0 None 0 0 None 0 0.

(** A container of doubles over [0,8) on a single task: the active
    partitioning gives the task [0,4), kept in block 1 with the values
    10, 11, 12, 13; the new partitioning gives it [0,6), with the planner
    reporting [0,4) as local and [4,6) as to be initialized for a sum. *)
Definition ex_old_map : Data.Laik_Mapping :=
  Data.mkMapping 0 0 4 (mkIndex 0 0 0) (Some 1).

Definition ex_borders (a b : Z) : Data.Laik_Partitioning :=
  Data.mkPartitioning 1 (fun _ => ex_slice a b).

Definition ex_data : Data.Laik_Data :=
  Data.mkData 0 8 Data.laik_Double 1 0 (Some (ex_borders 0 4)) (Some ex_old_map).

Definition ex_heap : Data.Heap :=
  Data.mkHeap (fun blk k => if blk =? 1 then Data.Raw [10 + k] else Data.Uninit)
              (fun blk => if blk =? 1 then 32 else 0).

Definition ex_local : Data.Laik_Transition :=
  Data.mkTransition [ex_slice 0 4] [(ex_slice 4 6, Data.LAIK_AB_Sum)] [] 0 0.

Definition ex_set_partitioning : Data.outcome (Data.Laik_Data * Data.Heap) :=
  Data.laik_set_partitioning (fun p => p) (fun _ _ => ex_local)
    Data.laik_backend_single ex_data (ex_borders 0 6) (Some 2) ex_heap.

(** The same container switched to [2,6), with [2,4) local and [4,6) to
    be initialized. *)
Definition ex_local_off : Data.Laik_Transition :=
  Data.mkTransition [ex_slice 2 4] [(ex_slice 4 6, Data.LAIK_AB_Sum)] [] 0 0.

Definition ex_set_partitioning_off
  : Data.outcome (Data.Laik_Data * Data.Heap) :=
  Data.laik_set_partitioning (fun p => p) (fun _ _ => ex_local_off)
    Data.laik_backend_single ex_data (ex_borders 2 6) (Some 2) ex_heap.

(** The container with [4,8) as the share of the task, kept in block 1
    from the base index 4 on (the values 10, 11, 12, 13), switched to
    [2,8): the planner reports [4,8) as local and [2,4) as to be
    initialized for a sum. *)
Definition ex_grow_map : Data.Laik_Mapping :=
  Data.mkMapping 0 0 4 (mkIndex 4 0 0) (Some 1).

Definition ex_grow_data : Data.Laik_Data :=
  Data.mkData 0 8 Data.laik_Double 1 0 (Some (ex_borders 4 8))
              (Some ex_grow_map).

Definition ex_grow : Data.Laik_Transition :=
  Data.mkTransition [ex_slice 4 8] [(ex_slice 2 4, Data.LAIK_AB_Sum)] [] 0 0.

Definition ex_set_partitioning_grow
  : Data.outcome (Data.Laik_Data * Data.Heap) :=
  Data.laik_set_partitioning (fun p => p) (fun _ _ => ex_grow)
    Data.laik_backend_single ex_grow_data (ex_borders 2 8) (Some 2) ex_heap.

Section InitExamples.

Import Data.

(** A container of doubles whose mapping of [0,4) is block 1, and an
    init entry for [0,2). *)
Definition ex_init_map : Laik_Mapping := mkMapping 0 0 4 (mkIndex 0 0 0) (Some 1).

Definition ex_init (op : Laik_AccessBehavior) : Laik_Transition :=
  mkTransition [] [(ex_slice 0 2, op)] [] 0 0.

Definition ex_init_heap : Heap :=
  mkHeap (fun _ _ => Uninit) (fun blk => if blk =? 1 then 32 else 0).

(** A mapping of [4,10) and an init entry for [4,6). *)
Definition ex_init_map_off : Laik_Mapping :=
  mkMapping 0 0 6 (mkIndex 4 0 0) (Some 1).

Definition ex_init_heap_off : Heap :=
  mkHeap (fun _ _ => Uninit) (fun blk => if blk =? 1 then 48 else 0).

Definition ex_init_off : Laik_Transition :=
  mkTransition [] [(ex_slice 4 6, LAIK_AB_Sum)] [] 0 0.

(** A reduction over [2,4) with every task as root, into a new mapping
    kept in block 2. *)
Definition ex_red : Laik_Transition :=
  mkTransition [] [] [(ex_slice 2 4, -1)] 0 0.

Definition ex_red_map : Laik_Mapping := mkMapping 0 0 4 (mkIndex 0 0 0) (Some 2).

Definition ex_red_heap : Heap :=
  mkHeap (fun blk k => if blk =? 1 then Raw [10 + k] else Uninit)
         (fun blk => if (blk =? 1) || (blk =? 2) then 32 else 0).

End InitExamples.

(** * Properties *)

(** ** Machine integers and index traversal *)

Ltac clia := unfold CInt.UINT64_MOD, CInt.INT_MAX, CInt.INT_MIN in *; lia.

Ltac idx_simpl :=
  unfold set_i0, set_i1, set_i2 in *; cbn [i0 i1 i2 fst snd] in *.

Ltac idx_lia := repeat split; intros; idx_simpl; lia.

Section IndexFacts.

Lemma u64_id z : CInt.is_u64 z -> CInt.u64 z = z.
Proof. unfold CInt.is_u64, CInt.u64; intros; now apply Z.mod_small. Qed.

Lemma to_int_id z : CInt.is_int z -> CInt.to_int z = z.
Proof.
  unfold CInt.is_int, CInt.to_int, CInt.INT_MIN, CInt.INT_MAX; intros.
  rewrite Z.mod_small; lia.
Qed.

Lemma u64_small z : 0 <= z < CInt.UINT64_MOD -> CInt.u64 z = z.
Proof. intros; now apply u64_id. Qed.

Lemma int_max_lt_u64 : CInt.INT_MAX < CInt.UINT64_MOD.
Proof. unfold CInt.INT_MAX, CInt.UINT64_MOD; lia. Qed.

(** Positions in mixed radix. *)
Lemma radix2 w0 w1 r0 r1 :
  0 <= r0 < w0 -> 0 <= r1 < w1 -> 0 <= r0 + w0 * r1 < w0 * w1.
Proof.
  intros H0 H1.
  assert (w0 * r1 <= w0 * (w1 - 1)) by (apply Z.mul_le_mono_nonneg_l; lia).
  assert (0 <= w0 * r1) by (apply Z.mul_nonneg_nonneg; lia).
  lia.
Qed.

Lemma radix3 w0 w1 w2 r0 r1 r2 :
  0 <= r0 < w0 -> 0 <= r1 < w1 -> 0 <= r2 < w2 ->
  0 <= r0 + w0 * (r1 + w1 * r2) < w0 * w1 * w2.
Proof.
  intros H0 H1 H2.
  pose proof (radix2 w1 w2 r1 r2 H1 H2) as H12.
  pose proof (radix2 w0 (w1 * w2) r0 (r1 + w1 * r2) H0 H12). lia.
Qed.

Lemma mul_le_grow a b : 0 <= a -> 1 <= b -> a <= a * b.
Proof.
  intros. assert (a * 1 <= a * b) by (apply Z.mul_le_mono_nonneg_l; lia). lia.
Qed.

(** The three shapes of a non-empty slice. *)
Lemma slice_nonempty_cases slc :
  slice_nonempty slc ->
  (dims slc = 1 \/ dims slc = 2 \/ dims slc = 3) /\
  0 <= i0 (from slc) < i0 (to slc) /\ i0 (to slc) < CInt.UINT64_MOD /\
  (dims slc = 2 \/ dims slc = 3 ->
     0 <= i1 (from slc) < i1 (to slc) /\ i1 (to slc) < CInt.UINT64_MOD) /\
  (dims slc = 3 ->
     0 <= i2 (from slc) < i2 (to slc) /\ i2 (to slc) < CInt.UINT64_MOD).
Proof.
  intros (Hd & H0 & Ht0 & H1 & H2).
  repeat split; try lia; try (apply H1; lia); apply H2; lia.
Qed.

Lemma slice_volume_pos slc : slice_nonempty slc -> 0 < slice_volume slc.
Proof.
  intros H; apply slice_nonempty_cases in H.
  destruct H as (Hd & H0 & _ & H1 & H2). unfold slice_volume.
  destruct Hd as [D|[D|D]]; rewrite D;
    cbn [Z.leb Z.compare Pos.compare Pos.compare_cont].
  - lia.
  - specialize (H1 (or_introl D)). apply Z.mul_pos_pos; lia.
  - specialize (H1 (or_intror D)); specialize (H2 D).
    repeat apply Z.mul_pos_pos; lia.
Qed.

Lemma laik_slice_size_volume slc :
  slice_nonempty slc -> slice_volume slc < CInt.UINT64_MOD ->
  laik_slice_size slc = slice_volume slc.
Proof.
  intros H; apply slice_nonempty_cases in H.
  destruct H as (Hd & H0 & Ht0 & H1 & H2).
  unfold slice_volume, laik_slice_size.
  destruct Hd as [D|[D|D]]; rewrite D;
    cbn [Z.leb Z.compare Pos.compare Pos.compare_cont]; intros Hv.
  - apply u64_small; lia.
  - specialize (H1 (or_introl D)).
    rewrite (u64_small (i0 (to slc) - i0 (from slc))) by lia.
    rewrite (u64_small (i1 (to slc) - i1 (from slc))) by lia.
    apply u64_small. split; [|lia]. apply Z.mul_nonneg_nonneg; lia.
  - specialize (H1 (or_intror D)); specialize (H2 D).
    rewrite (u64_small (i0 (to slc) - i0 (from slc))) by lia.
    rewrite (u64_small (i1 (to slc) - i1 (from slc))) by lia.
    rewrite (u64_small (i2 (to slc) - i2 (from slc))) by lia.
    set (w0 := i0 (to slc) - i0 (from slc)) in *.
    set (w1 := i1 (to slc) - i1 (from slc)) in *.
    set (w2 := i2 (to slc) - i2 (from slc)) in *.
    assert (0 <= w0 * w1) by (apply Z.mul_nonneg_nonneg; lia).
    pose proof (mul_le_grow (w0 * w1) w2 ltac:(lia) ltac:(lia)).
    rewrite (u64_small (w0 * w1)) by lia.
    apply u64_small. lia.
Qed.

Lemma from_on_track slc : slice_nonempty slc -> on_track slc (from slc).
Proof.
  unfold slice_nonempty, on_track, idx_in; intros (Hd & H0 & _ & H1 & H2).
  repeat split; try lia; intros Hx;
    try (specialize (H1 Hx)); try (specialize (H2 Hx)); lia.
Qed.

Lemma lex_rank_from slc : lex_rank slc (from slc) = 0.
Proof.
  unfold lex_rank.
  destruct (dims slc <=? 1); [lia|].
  rewrite !Z.sub_diag, Z.mul_0_r, Z.add_0_r, Z.mul_0_r.
  destruct (dims slc <=? 2); lia.
Qed.

Lemma lex_rank_bounds slc idx :
  slice_nonempty slc -> idx_in slc idx ->
  0 <= lex_rank slc idx < slice_volume slc.
Proof.
  intros H; apply slice_nonempty_cases in H.
  destruct H as (Hd & H0 & _ & H1 & H2).
  unfold idx_in, lex_rank, slice_volume. intros (I0 & I1 & I2).
  destruct Hd as [D|[D|D]]; rewrite D in *;
    cbn [Z.leb Z.compare Pos.compare Pos.compare_cont].
  - lia.
  - specialize (H1 (or_introl eq_refl)); specialize (I1 ltac:(lia)).
    apply radix2; lia.
  - specialize (H1 (or_intror eq_refl)); specialize (I1 ltac:(lia)).
    specialize (H2 eq_refl); specialize (I2 ltac:(lia)).
    apply radix3; lia.
Qed.

(** One step of the traversal from an index of the slice: it succeeds
    exactly when the index was not the last one in lexicographic order,
    and then leads to the next one; from the last one it leads to
    [lex_end]. *)
Lemma next_lex_step slc idx :
  slice_nonempty slc -> on_track slc idx ->
  fst (next_lex slc idx) = (lex_rank slc idx + 1 <? slice_volume slc) /\
  (fst (next_lex slc idx) = true ->
     on_track slc (snd (next_lex slc idx)) /\
     lex_rank slc (snd (next_lex slc idx)) = lex_rank slc idx + 1) /\
  (fst (next_lex slc idx) = false -> snd (next_lex slc idx) = lex_end slc).
Proof.
  intros Hne Hon.
  pose proof (lex_rank_bounds slc idx Hne (proj1 Hon)) as Hb.
  revert Hb.
  apply slice_nonempty_cases in Hne.
  destruct Hne as (Hd & H0 & Ht0 & H1 & H2).
  destruct Hon as ((I0 & I1 & I2) & K1 & K2).
  unfold next_lex, lex_rank, slice_volume, lex_end, on_track, idx_in.
  destruct idx as [a b c]; cbn [i0 i1 i2 set_i0 set_i1 set_i2] in *.
  rewrite (u64_small (a + 1)) by lia.
  destruct Hd as [D|[D|D]]; rewrite D in *; cbn [Z.leb Z.eqb Z.compare Pos.compare Pos.compare_cont Pos.eqb].
  - (* one dimension *)
    specialize (K1 ltac:(lia)); specialize (K2 ltac:(lia)).
    destruct (Z.ltb_spec (a + 1) (i0 (to slc))); cbn [fst snd]; intros Hb.
    + split; [symmetry; apply Z.ltb_lt; lia|].
      split; [intros _|discriminate]. idx_lia.
    + split; [symmetry; apply Z.ltb_ge; lia|].
      split; [discriminate|intros _]. idx_simpl; f_equal; lia.
  - (* two dimensions *)
    specialize (H1 (or_introl eq_refl)); specialize (I1 ltac:(lia)).
    specialize (K2 ltac:(lia)). clear K1 I2 H2.
    set (w0 := i0 (to slc) - i0 (from slc)) in *.
    set (w1 := i1 (to slc) - i1 (from slc)) in *.
    destruct (Z.ltb_spec (a + 1) (i0 (to slc))); cbn [fst snd]; intros Hb.
    + pose proof (radix2 w0 w1 (a + 1 - i0 (from slc)) (b - i1 (from slc))
                         ltac:(lia) ltac:(lia)).
      split; [symmetry; apply Z.ltb_lt; lia|].
      split; [intros _|discriminate]. idx_lia.
    + rewrite (u64_small (b + 1)) by lia.
      destruct (Z.ltb_spec (b + 1) (i1 (to slc))); cbn [fst snd].
      * pose proof (radix2 w0 w1 0 (b + 1 - i1 (from slc))
                           ltac:(lia) ltac:(lia)).
        split; [symmetry; apply Z.ltb_lt; lia|].
        split; [intros _|discriminate]. idx_lia.
      * assert (a = i0 (to slc) - 1) by lia.
        assert (b = i1 (to slc) - 1) by lia. subst a b.
        split; [symmetry; apply Z.ltb_ge; unfold w0, w1; lia|].
        split; [discriminate|intros _]. idx_simpl; f_equal; lia.
  - (* three dimensions *)
    specialize (H1 (or_intror eq_refl)); specialize (I1 ltac:(lia)).
    specialize (H2 eq_refl); specialize (I2 ltac:(lia)). clear K1 K2.
    set (w0 := i0 (to slc) - i0 (from slc)) in *.
    set (w1 := i1 (to slc) - i1 (from slc)) in *.
    set (w2 := i2 (to slc) - i2 (from slc)) in *.
    destruct (Z.ltb_spec (a + 1) (i0 (to slc))); cbn [fst snd]; intros Hb.
    + pose proof (radix3 w0 w1 w2 (a + 1 - i0 (from slc)) (b - i1 (from slc))
                         (c - i2 (from slc)) ltac:(lia) ltac:(lia) ltac:(lia)).
      split; [symmetry; apply Z.ltb_lt; lia|].
      split; [intros _|discriminate]. idx_lia.
    + rewrite (u64_small (b + 1)) by lia.
      destruct (Z.ltb_spec (b + 1) (i1 (to slc))); cbn [fst snd].
      * pose proof (radix3 w0 w1 w2 0 (b + 1 - i1 (from slc))
                           (c - i2 (from slc)) ltac:(lia) ltac:(lia) ltac:(lia)).
        assert (a = i0 (to slc) - 1) by lia. subst a.
        split; [symmetry; apply Z.ltb_lt; unfold w0 in *; lia|].
        split; [intros _|discriminate].
        unfold w0 in *; idx_lia.
      * rewrite (u64_small (c + 1)) by lia.
        assert (a = i0 (to slc) - 1) by lia.
        assert (b = i1 (to slc) - 1) by lia. subst a b.
        destruct (Z.ltb_spec (c + 1) (i2 (to slc))); cbn [fst snd].
        -- pose proof (radix3 w0 w1 w2 0 0 (c + 1 - i2 (from slc))
                              ltac:(lia) ltac:(lia) ltac:(lia)).
           split; [symmetry; apply Z.ltb_lt; unfold w0, w1 in *; lia|].
           split; [intros _|discriminate].
           unfold w0, w1 in *; idx_lia.
        -- assert (c = i2 (to slc) - 1) by lia. subst c.
           split; [symmetry; apply Z.ltb_ge; unfold w0, w1, w2; lia|].
           split; [discriminate|intros _]. idx_simpl; f_equal; lia.
Qed.

End IndexFacts.

(** ** The receive traversal of [recv_slice] *)

Section RecvTraversal.

Import Tcp2.

Variable slc : Laik_Slice.
Hypothesis slc_nonempty : slice_nonempty slc.
Hypothesis slc_fits : slice_volume slc <= CInt.INT_MAX.

Lemma rcount_posted toMap ro p0 :
  rcount (posted slc toMap ro p0) = slice_volume slc.
Proof.
  unfold posted, post_recv; cbn.
  pose proof (slice_volume_pos slc slc_nonempty).
  rewrite laik_slice_size_volume by (auto; clia).
  apply to_int_id. unfold CInt.is_int. clia.
Qed.

(** The receive state after [n] elements, as long as elements are due. *)
Lemma recv_elems_state toMap ro p0 (n : nat) :
  Z.of_nat n < slice_volume slc ->
  exists pk,
    recv_elems n slc (posted slc toMap ro p0) = Some pk /\
    roff pk = Z.of_nat n /\
    rcount pk = slice_volume slc /\
    on_track slc (ridx pk) /\
    lex_rank slc (ridx pk) = Z.of_nat n.
Proof.
  induction n as [|n IH]; intros Hn.
  - exists (posted slc toMap ro p0). cbn [recv_elems].
    split; [reflexivity|]. split; [reflexivity|].
    split; [apply rcount_posted|].
    split; [apply (from_on_track slc slc_nonempty)|apply lex_rank_from].
  - destruct IH as (pk & E & Ro & Rc & Tr & Rk); [lia|].
    cbn [recv_elems]. rewrite E. unfold recv_advance.
    destruct (next_lex_step slc (ridx pk) slc_nonempty Tr) as (B & St & _).
    cbn [ridx set_roff roff rcount set_ridx].
    destruct (next_lex slc (ridx pk)) as [b idx'] eqn:N. cbn [fst snd] in *.
    cbn [ridx set_roff roff rcount set_ridx].
    rewrite Ro, Rc, B, Rk.
    rewrite Bool.eqb_reflx.
    assert (Bt : b = true) by (rewrite B, Rk; apply Z.ltb_lt; lia).
    destruct (St Bt) as (Tr' & Rk').
    eexists; split; [reflexivity|]. cbn.
    split; [lia|]. split; [lia|]. split; [exact Tr'|lia].
Qed.

End RecvTraversal.

(** C4 (amended).  For every non-empty slice of dimension 1, 2 or 3 with
    at most [INT_MAX] elements, the receive traversal of [recv_slice]
    ([ridx] set to [slc.from], advanced by [next_lex] once per accepted
    element) is exhausted after exactly [rcount = |slc|] elements:
    [next_lex] returns false iff [roff] has reached [rcount].  At that
    point [ridx] has reached [slc.to] on the highest axis in use and is
    back at [slc.from] on every lower axis; it equals [slc.to] for
    dimension 1 only. *)
Theorem recv_traversal_exhausted :
  forall (slc : Laik_Slice) (toMap : Tcp2.Laik_Mapping)
         (ro : Tcp2.Laik_ReductionOperation) (p0 : Tcp2.Peer),
    slice_nonempty slc ->
    slice_volume slc <= CInt.INT_MAX ->
    let p := Tcp2.posted slc toMap ro p0 in
    Tcp2.rcount p = laik_slice_size slc /\
    Tcp2.roff p = 0 /\ Tcp2.ridx p = from slc /\
    (forall k, 0 <= k < Tcp2.rcount p ->
       exists pk,
         Tcp2.recv_elems (Z.to_nat k) slc p = Some pk /\
         Tcp2.roff pk = k /\ Tcp2.rcount pk = Tcp2.rcount p /\
         idx_in slc (Tcp2.ridx pk) /\ lex_rank slc (Tcp2.ridx pk) = k /\
         (fst (next_lex slc (Tcp2.ridx pk)) = false <->
          Tcp2.roff pk + 1 = Tcp2.rcount p)) /\
    (exists pe,
       Tcp2.recv_elems (Z.to_nat (Tcp2.rcount p)) slc p = Some pe /\
       Tcp2.roff pe = Tcp2.rcount p /\
       Tcp2.ridx pe = lex_end slc /\
       (dims slc = 1 -> index_eq_dims 1 (Tcp2.ridx pe) (to slc))).
Proof.
  intros slc toMap ro p0 Hne Hfit p.
  pose proof (slice_volume_pos slc Hne) as Hpos.
  assert (Hrc : Tcp2.rcount p = slice_volume slc)
    by (apply rcount_posted; auto).
  assert (Hstate : forall k, 0 <= k < Tcp2.rcount p ->
     exists pk,
       Tcp2.recv_elems (Z.to_nat k) slc p = Some pk /\
       Tcp2.roff pk = k /\ Tcp2.rcount pk = Tcp2.rcount p /\
       on_track slc (Tcp2.ridx pk) /\ lex_rank slc (Tcp2.ridx pk) = k).
  { intros k Hk.
    destruct (recv_elems_state slc Hne Hfit toMap ro p0 (Z.to_nat k))
      as (pk & E & Ro & Rc & Tr & Rk); [lia|].
    exists pk. rewrite Z2Nat.id in * by lia.
    split; [exact E|]. split; [exact Ro|]. split; [lia|].
    split; [exact Tr|exact Rk]. }
  split; [|split; [reflexivity|split; [reflexivity|split]]].
  - rewrite Hrc. symmetry. apply laik_slice_size_volume; auto. clia.
  - intros k Hk. destruct (Hstate k Hk) as (pk & E & Ro & Rc & Tr & Rk).
    exists pk.
    split; [exact E|]. split; [exact Ro|]. split; [exact Rc|].
    split; [exact (proj1 Tr)|]. split; [exact Rk|]. split.
    + intros F. destruct (next_lex_step slc _ Hne Tr) as (B & _).
      rewrite B, Rk in F. apply Z.ltb_ge in F. lia.
    + intros F. destruct (next_lex_step slc _ Hne Tr) as (B & _).
      rewrite B, Rk. apply Z.ltb_ge. lia.
  - destruct (Hstate (Tcp2.rcount p - 1)) as (pk & E & Ro & Rc & Tr & Rk);
      [lia|].
    replace (Z.to_nat (Tcp2.rcount p))
      with (S (Z.to_nat (Tcp2.rcount p - 1))) by lia.
    cbn [Tcp2.recv_elems]. rewrite E. unfold Tcp2.recv_advance.
    destruct (next_lex_step slc _ Hne Tr) as (B & _ & En).
    cbn [Tcp2.ridx Tcp2.set_roff Tcp2.roff Tcp2.rcount Tcp2.set_ridx].
    destruct (next_lex slc (Tcp2.ridx pk)) as [b idx'] eqn:N.
    cbn [fst snd] in *.
    cbn [Tcp2.ridx Tcp2.set_roff Tcp2.roff Tcp2.rcount Tcp2.set_ridx].
    assert (Bf : b = false) by (rewrite B, Rk; apply Z.ltb_ge; lia).
    rewrite Ro, Rc, Bf.
    replace (Tcp2.rcount p - 1 + 1 <? Tcp2.rcount p) with false
      by (symmetry; apply Z.ltb_ge; lia).
    cbn [Bool.eqb]. eexists; split; [reflexivity|]. cbn.
    split; [lia|]. split; [apply En; auto|].
    intros D1. rewrite (En Bf). unfold lex_end. rewrite D1. cbn.
    unfold index_eq_dims. cbn. split; [reflexivity|]. split; lia.
Qed.

Lemma ex_slice_2d_nonempty : slice_nonempty ex_slice_2d.
Proof. unfold slice_nonempty, ex_slice_2d; cbn. clia. Qed.

(** The theorem at a 2 x 3 slice. *)
Lemma recv_traversal_exhausted_witness :
  slice_nonempty ex_slice_2d /\
  slice_volume ex_slice_2d <= CInt.INT_MAX /\
  exists pe,
    Tcp2.recv_elems 6 ex_slice_2d
      (Tcp2.posted ex_slice_2d ex_map Tcp2.LAIK_RO_None ex_peer) = Some pe /\
    Tcp2.roff pe = 6 /\ Tcp2.ridx pe = mkIndex 0 3 0.
Proof.
  split; [exact ex_slice_2d_nonempty|].
  split; [vm_compute; discriminate|].
  destruct (recv_traversal_exhausted ex_slice_2d ex_map Tcp2.LAIK_RO_None
              ex_peer ex_slice_2d_nonempty ltac:(vm_compute; discriminate))
    as (_ & _ & _ & _ & pe & E & Ro & Ri & _).
  exists pe. split; [exact E|]. split; [exact Ro|exact Ri].
Defined.

(** C4, as stated, fails in two dimensions: after the four elements of
    the slice [0,2) x [0,2) the traversal is over, with [ridx] at (0,2)
    and not at [slc.to] = (2,2). *)
Lemma recv_traversal_end_is_not_to :
  let slc := mkSlice 2 (mkIndex 0 0 0) (mkIndex 2 2 0) in
  let p := Tcp2.posted slc ex_map Tcp2.LAIK_RO_None ex_peer in
  slice_nonempty slc /\
  exists pe,
    Tcp2.recv_elems (Z.to_nat (Tcp2.rcount p)) slc p = Some pe /\
    Tcp2.roff pe = Tcp2.rcount p /\
    Tcp2.ridx pe = mkIndex 0 2 0 /\
    ~ index_eq_dims (dims slc) (Tcp2.ridx pe) (to slc).
Proof.
  cbv zeta. split.
  - unfold slice_nonempty; cbn. clia.
  - eexists. split; [vm_compute; reflexivity|].
    split; [reflexivity|]. split; [reflexivity|].
    unfold index_eq_dims; cbn. intros (H & _). discriminate.
Qed.

(** ** The data command *)

Section DataCommand.

Import Tcp2 CStr.
Open Scope string_scope.
Open Scope Z_scope.

Lemma no_receive_credit p :
  recv_state_ok p -> (no_receive p = false <-> has_credit p).
Proof.
  unfold recv_state_ok, no_receive, has_credit. intros Hok.
  rewrite Bool.orb_false_iff, !Z.eqb_neq. lia.
Qed.

(** Conversions other than [%s] store no text. *)
Lemma scan_overflow_numbers fmt :
  Forall (fun d => forall k, d <> D_s k) fmt ->
  forall s, scan_overflow fmt s = false.
Proof.
  induction 1 as [|d fmt Hd _ IH]; intros s; [reflexivity|].
  destruct d as [k| | |]; cbn [scan_overflow].
  - now destruct (Hd k).
  - destruct (scan_int (skip_ws s)) as [[v r]|]; [apply IH|reflexivity].
  - apply IH.
  - apply IH.
Qed.

(** A command whose first word fits [cmd[20]] is read without leaving the
    array when no further text is converted. *)
Lemma verb_fits_overflow fmt msg :
  verb_fits msg ->
  Forall (fun d => forall k, d <> D_s k) fmt ->
  scan_overflow (D_s 20 :: fmt) msg = false.
Proof.
  unfold verb_fits. intros Hv Hf. cbn [scan_overflow].
  destruct (take_word 20 (skip_ws msg)) as [wd r]. cbn [fst] in Hv.
  destruct wd as [|c wd]; [reflexivity|].
  apply Bool.orb_false_iff. split.
  - apply Nat.leb_gt. exact Hv.
  - now apply scan_overflow_numbers.
Qed.

Lemma data_fmt_fits msg : verb_fits msg -> scan_overflow data_fmt msg = false.
Proof.
  intros Hv. apply verb_fits_overflow; [exact Hv|].
  repeat constructor; discriminate.
Qed.

(** A first word of 20 or more characters is written past the end of
    [cmd[20]]. *)
Lemma got_data_long_verb lid msg w :
  scan_overflow data_fmt msg = true ->
  got_data lid msg w = Stop Undefined w.
Proof. intros H. unfold got_data. fold data_fmt. now rewrite H. Qed.

(** A data command that does not parse is logged at panic level and
    left. *)
Lemma got_data_unparsed lid msg w :
  scan_overflow data_fmt msg = false ->
  fst (sscanf msg data_fmt) < 2 ->
  panic_logged msg_unparsed w (got_data lid msg w).
Proof.
  intros Hv Hn. unfold got_data. fold data_fmt.
  rewrite Hv.
  destruct (sscanf msg data_fmt) as [n args]. cbn [fst] in Hn.
  apply Z.ltb_lt in Hn. rewrite Hn. reflexivity.
Qed.

(** A data command that parses but meets no receive is logged at warning
    level and left. *)
Lemma got_data_no_receive lid msg w :
  scan_overflow data_fmt msg = false ->
  2 <= fst (sscanf msg data_fmt) ->
  no_receive (peer (inst w) lid) = true ->
  got_data lid msg w =
    Ret tt (emit w (EvLog LAIK_LL_Warning msg_no_permission)).
Proof.
  intros Hv Hn Hc. unfold got_data. fold data_fmt.
  rewrite Hv.
  destruct (sscanf msg data_fmt) as [n args]. cbn [fst] in Hn.
  apply Z.ltb_ge in Hn. rewrite Hn.
  unfold bind, get_inst. unfold no_receive in Hc. rewrite Hc. reflexivity.
Qed.

(** Without a receive the command leaves one log line and nothing
    else. *)
Lemma got_data_dropped lid msg w :
  scan_overflow data_fmt msg = false ->
  no_receive (peer (inst w) lid) = true ->
  exists lvl fmt,
    got_data lid msg w = Ret tt (emit w (EvLog lvl fmt)) \/
    got_data lid msg w = Stop ProcExit (emit w (EvLog lvl fmt)) /\
    lvl = LAIK_LL_Panic /\ panic_returns w = false.
Proof.
  intros Hv Hc. destruct (Z.lt_ge_cases (fst (sscanf msg data_fmt)) 2).
  - exists LAIK_LL_Panic, msg_unparsed.
    pose proof (got_data_unparsed lid msg w Hv H) as P.
    unfold panic_logged in P. rewrite P.
    destruct (panic_returns w); [left; reflexivity|right; auto].
  - exists LAIK_LL_Warning, msg_no_permission. left.
    apply got_data_no_receive; auto.
Qed.

End DataCommand.


Section DataAccepted.

Import Tcp2 CStr.
Open Scope string_scope.
Open Scope Z_scope.

Lemma hex_not_nul c : is_hex c || is_char c SP = true -> is_char c NUL = false.
Proof.
  unfold is_hex, is_char. change (code SP) with 32. change (code NUL) with 0.
  intros H. apply Z.eqb_neq. intros E. rewrite E in H. discriminate.
Qed.

(** A character that is neither a hex digit nor a space, met before [len]
    bytes are complete, fails an assertion of the hex parser. *)
Lemma parse_hex_bad pre : forall len l v data_in c rest,
  hex_or_space pre = true ->
  l + count_spaces pre < len ->
  is_hex c = false -> is_char c SP = false -> is_char c NUL = false ->
  parse_hex (pre ++ String c rest) len l v data_in = None.
Proof.
  induction pre as [|a pre IH]; intros len l v data_in c rest Hp Hl Hc Hs Hn.
  - cbn [append parse_hex]. rewrite Hn, Hs, Hc. reflexivity.
  - cbn [hex_or_space count_spaces] in *. apply andb_true_iff in Hp.
    destruct Hp as [Ha Hp]. cbn [append parse_hex].
    rewrite (hex_not_nul a Ha).
    assert (0 <= count_spaces pre).
    { clear. induction pre as [|x pre IH]; cbn [count_spaces]; [lia|].
      destruct (is_char x SP); lia. }
    destruct (is_char a SP) eqn:Sa.
    + replace (l <? len) with true by (symmetry; apply Z.ltb_lt; lia).
      replace (l + 1 =? len) with false by (symmetry; apply Z.eqb_neq; lia).
      apply IH; auto. lia.
    + cbn [orb] in Ha. rewrite Bool.orb_false_r in Ha. rewrite Ha.
      apply IH; auto.
Qed.

(** A payload of hex digits and spaces that ends before the last byte
    has begun fails an assertion of the hex parser. *)
Lemma parse_hex_short pre : forall len l v data_in,
  hex_or_space pre = true ->
  l + count_spaces pre + 1 < len ->
  parse_hex pre len l v data_in = None.
Proof.
  induction pre as [|a pre IH]; intros len l v data_in Hp Hl.
  - cbn [count_spaces] in Hl. cbn [parse_hex].
    replace (l <? len) with true by (symmetry; apply Z.ltb_lt; lia).
    replace (l + 1 =? len) with false by (symmetry; apply Z.eqb_neq; lia).
    reflexivity.
  - cbn [hex_or_space count_spaces] in *. apply andb_true_iff in Hp.
    destruct Hp as [Ha Hp]. cbn [parse_hex].
    rewrite (hex_not_nul a Ha).
    assert (0 <= count_spaces pre).
    { clear. induction pre as [|x pre IH]; cbn [count_spaces]; [lia|].
      destruct (is_char x SP); lia. }
    destruct (is_char a SP) eqn:Sa.
    + replace (l <? len) with true by (symmetry; apply Z.ltb_lt; lia).
      replace (l + 1 =? len) with false by (symmetry; apply Z.eqb_neq; lia).
      apply IH; auto. lia.
    + cbn [orb] in Ha. rewrite Bool.orb_false_r in Ha. rewrite Ha.
      apply IH; auto.
Qed.

Variable lid : Z.
Variable msg : string.
Variable w : World.
Variable m : Laik_Mapping.
Variable slc : Laik_Slice.

Let p := peer (inst w) lid.
Let len := arg_int 1 (snd (sscanf msg data_fmt)).
Let pos := arg_int 2 (snd (sscanf msg data_fmt)).

Hypothesis fits : verb_fits msg.
Hypothesis parsed : 2 <= fst (sscanf msg data_fmt).
Hypothesis receive : no_receive p = false.
Hypothesis has_map : rmap p = Some m.
Hypothesis has_slc : rslc p = Some slc.

(** The first steps of [got_data] when a receive is outstanding. *)
Lemma got_data_checks :
  got_data lid msg w =
    if relemsize p =? len then
      match istr (dims slc) (ridx p) w with
      | Stop r w1 => Stop r w1
      | Ret t w1 =>
          let pstr := ("(" ++ fmt_d (roff p) ++ ":" ++ t ++ ")")%string in
          if 70 <=? strlen pstr then Stop Undefined w1
          else
            match data_payload msg pos pstr with
            | None => Stop AssertFailed w1
            | Some payload =>
                if len <? 100 then
                  match parse_hex payload len 0 0 [] with
                  | None => Stop AssertFailed w1
                  | Some data_in =>
                      (store_element m p (layout_offset m (ridx p)) data_in len ;;
                       (if len =? 8
                        then laik_log (LL 1) " pos %s: in %f res %f\n"
                        else ret tt) ;;
                       match recv_advance slc p with
                       | None => stop AssertFailed
                       | Some p' =>
                           modify_inst (fun d => upd_peer d lid (fun _ => p')) ;;
                           laik_log (LL 1)
                             "TCP2 got data, len %d, received %d/%d" ;;
                           if roff p' =? rcount p' then
                             modify_inst (fun d => set_exit d 1)
                           else ret tt
                       end) w1
                  end
                else Stop AssertFailed w1
            end
      end
    else Stop AssertFailed w.
Proof.
  unfold got_data. fold data_fmt. rewrite (data_fmt_fits msg fits).
  subst len pos p.
  destruct (sscanf msg data_fmt) as [n args]. cbn [fst snd] in *.
  apply Z.ltb_ge in parsed. rewrite parsed.
  unfold bind at 1. unfold get_inst at 1.
  unfold no_receive in receive. rewrite receive.
  unfold bind at 1.
  destruct (relemsize (peer (inst w) lid) =? arg_int 1 args); cbn [assert];
    [|reflexivity].
  unfold ret at 1. rewrite has_map, has_slc.
  unfold bind at 1.
  destruct (istr (dims slc) (ridx (peer (inst w) lid)) w) as [t w1|r w1];
    [|reflexivity].
  cbv zeta.
  destruct (70 <=? strlen _); [reflexivity|].
  destruct (data_payload msg _ _); [|reflexivity].
  unfold bind at 1.
  destruct (arg_int 1 args <? 100); cbn [assert]; [|reflexivity].
  unfold ret at 1.
  destruct (parse_hex _ _ _ _ _); reflexivity.
Qed.

End DataAccepted.

Section DataSteps.

Import Tcp2 CStr.

Lemma store_element_inst m p off data_in len w r :
  store_element m p off data_in len w = r ->
  match r with
  | Ret _ w1 => inst w1 = inst w /\ trace w1 = trace w
  | Stop _ w1 => w1 = w
  end.
Proof.
  intros <-. unfold store_element.
  destruct (start m); [|reflexivity].
  destruct (rro p); try (split; reflexivity);
    (destruct (reduce m); [split; reflexivity|reflexivity]).
Qed.

Lemma recv_advance_roff slc p p' :
  recv_advance slc p = Some p' ->
  roff p' = roff p + 1 /\ rcount p' = rcount p.
Proof.
  unfold recv_advance. cbn [ridx set_roff].
  destruct (next_lex slc (ridx p)) as [b idx].
  destruct (Bool.eqb _ _); [|discriminate].
  intros E. injection E as <-. split; reflexivity.
Qed.

Lemma upd_same {A} (f : Z -> A) k v : upd f k v k = v.
Proof. unfold upd. now rewrite Z.eqb_refl. Qed.

Lemma upd_other {A} (f : Z -> A) k v j : j <> k -> upd f k v j = f j.
Proof. unfold upd. intros H. apply Z.eqb_neq in H. now rewrite H. Qed.

End DataSteps.

(** C10 (amended).  While a receive from peer [lid] is outstanding, the
    data path accepts only data commands that carry exactly one element,
    whose byte length equals the expected element size and is strictly
    less than 100; the length is the number as [sscanf] stores it in an
    [int].  A data command with a length different from the element size
    of the outstanding receive, with a length of 100 bytes or more, with
    a character that is neither a lower-case hex digit nor a separating
    space before its [len]-th byte is complete, or with a payload that
    ends before its last byte has begun, makes the receiver terminate by
    a failed assertion instead of dropping the command.  Characters after
    the [len]-th byte are not looked at.  The command is one whose first
    word fits [cmd[20]], and [t] is the index text [istr] returns for the
    position tag, which fits [pstr[70]]. *)
Theorem got_data_asserts_element_format :
  forall (lid : Z) (msg : String.string) (w : Tcp2.World)
         (m : Tcp2.Laik_Mapping) (slc : Laik_Slice)
         (t : String.string) (w1 : Tcp2.World),
    let p := Tcp2.peer (Tcp2.inst w) lid in
    let len := CStr.arg_int 1 (snd (CStr.sscanf msg data_fmt)) in
    let pos := CStr.arg_int 2 (snd (CStr.sscanf msg data_fmt)) in
    let pstr := ("(" ++ CStr.fmt_d (Tcp2.roff p) ++ ":" ++ t ++ ")")%string in
    let failed := exists w',
      Tcp2.got_data lid msg w = Tcp2.Stop Tcp2.AssertFailed w' /\
      Tcp2.inst w' = Tcp2.inst w /\ Tcp2.mem w' = Tcp2.mem w /\
      Tcp2.trace w' = Tcp2.trace w in
    verb_fits msg ->
    2 <= fst (CStr.sscanf msg data_fmt) ->
    no_receive p = false ->
    Tcp2.rmap p = Some m ->
    Tcp2.rslc p = Some slc ->
    Tcp2.istr (dims slc) (Tcp2.ridx p) w = Tcp2.Ret t w1 ->
    CStr.strlen pstr < 70 ->
    (forall w',
       Tcp2.got_data lid msg w = Tcp2.Ret tt w' ->
       len = Tcp2.relemsize p /\ len < 100 /\
       Tcp2.roff (Tcp2.peer (Tcp2.inst w') lid) = Tcp2.roff p + 1 /\
       exists payload data_in,
         Tcp2.data_payload msg pos pstr = Some payload /\
         Tcp2.parse_hex payload len 0 0 [] = Some data_in) /\
    (len <> Tcp2.relemsize p ->
       Tcp2.got_data lid msg w = Tcp2.Stop Tcp2.AssertFailed w) /\
    (100 <= len -> failed) /\
    (forall payload pre c rest,
       Tcp2.data_payload msg pos pstr = Some payload ->
       payload = (pre ++ String.String c rest)%string ->
       Tcp2.hex_or_space pre = true ->
       Tcp2.count_spaces pre < len ->
       Tcp2.is_hex c = false ->
       CStr.is_char c CStr.SP = false ->
       CStr.is_char c CStr.NUL = false ->
       failed) /\
    (forall payload,
       Tcp2.data_payload msg pos pstr = Some payload ->
       Tcp2.hex_or_space payload = true ->
       Tcp2.count_spaces payload + 1 < len ->
       failed).
Proof.
  intros lid msg w m slc t w1 p len pos pstr failed Hv Hn Hc Hm Hs Ht Hp70.
  pose proof (got_data_checks lid msg w m slc Hv Hn Hc Hm Hs) as G.
  fold p len pos in G. rewrite Ht in G. cbv zeta in G. fold pstr in G.
  apply Z.leb_gt in Hp70. rewrite Hp70 in G.
  assert (W1 : Tcp2.inst w1 = Tcp2.inst w /\ Tcp2.mem w1 = Tcp2.mem w /\
               Tcp2.trace w1 = Tcp2.trace w).
  { unfold Tcp2.istr in Ht.
    destruct (Tcp2.istr_text (dims slc) (Tcp2.ridx p)) as [t'|].
    - destruct (50 <=? CStr.strlen t'); [discriminate|].
      injection Ht as _ <-. repeat split.
    - injection Ht as _ <-. repeat split. }
  assert (F1 : Tcp2.got_data lid msg w = Tcp2.Stop Tcp2.AssertFailed w1 ->
               failed).
  { intros E. exists w1. split; [exact E|exact W1]. }
  assert (F0 : Tcp2.got_data lid msg w = Tcp2.Stop Tcp2.AssertFailed w ->
               failed).
  { intros E. exists w. split; [exact E|repeat split]. }
  split; [|split; [|split; [|split]]].
  - intros w' E. rewrite G in E.
    destruct (Z.eqb_spec (Tcp2.relemsize p) len) as [El|]; [|discriminate].
    destruct (Tcp2.data_payload msg pos pstr) as [payload|]; [|discriminate].
    destruct (Z.ltb_spec len 100) as [L100|]; [|discriminate].
    destruct (Tcp2.parse_hex payload len 0 0 []) as [data_in|] eqn:Ph;
      [|discriminate].
    split; [auto|]. split; [auto|]. split; [|eauto].
    unfold Tcp2.bind at 1 in E.
    destruct (Tcp2.store_element m p _ data_in len w1) as [[] w2|] eqn:St;
      [|discriminate].
    apply store_element_inst in St. destruct St as [Si _].
    unfold Tcp2.bind at 1 in E.
    assert (Hlog : exists w3, Tcp2.inst w3 = Tcp2.inst w /\
       (if len =? 8 then Tcp2.laik_log (Tcp2.LL 1) " pos %s: in %f res %f\n"
        else Tcp2.ret tt) w2 = Tcp2.Ret tt w3).
    { destruct W1 as [Wi _].
      destruct (len =? 8); eexists; (split; [|reflexivity]);
        cbn; congruence. }
    destruct Hlog as (w3 & Si3 & El3). rewrite El3 in E.
    destruct (Tcp2.recv_advance slc p) as [p'|] eqn:Ra; [|discriminate].
    apply recv_advance_roff in Ra. destruct Ra as [Ro _].
    unfold Tcp2.bind, Tcp2.modify_inst, Tcp2.laik_log in E.
    destruct (Tcp2.roff p' =? Tcp2.rcount p'); injection E as <-; cbn;
      rewrite upd_same; exact Ro.
  - intros Hne. rewrite G.
    destruct (Z.eqb_spec (Tcp2.relemsize p) len); [congruence|reflexivity].
  - intros Hge.
    destruct (Tcp2.relemsize p =? len) eqn:El;
      [apply F1|apply F0]; rewrite G; [|reflexivity].
    destruct (Tcp2.data_payload msg pos pstr); [|reflexivity].
    destruct (Z.ltb_spec len 100); [lia|reflexivity].
  - intros payload pre c rest Hp -> Hpre Hcnt Hc1 Hc2 Hc3.
    destruct (Tcp2.relemsize p =? len) eqn:El;
      [apply F1|apply F0]; rewrite G; [|reflexivity].
    rewrite Hp.
    destruct (len <? 100); [|reflexivity].
    rewrite parse_hex_bad; auto.
  - intros payload Hp Hpre Hcnt.
    destruct (Tcp2.relemsize p =? len) eqn:El;
      [apply F1|apply F0]; rewrite G; [|reflexivity].
    rewrite Hp.
    destruct (len <? 100); [|reflexivity].
    rewrite parse_hex_short; auto.
Qed.

(** Witnesses of the two theorems on the data command. *)


(** With a receive of one-byte elements posted, a data command of two
    bytes fails an assertion. *)
Lemma got_data_asserts_element_format_witness :
  Tcp2.got_data 1 "data 2 (0:0) 0a 0b" ex_world_recv =
    Tcp2.Stop Tcp2.AssertFailed ex_world_recv.
Proof.
  destruct (got_data_asserts_element_format 1 "data 2 (0:0) 0a 0b"
              ex_world_recv ex_map ex_slice_1d "0"
              (Tcp2.set_istr_str ex_world_recv "0")) as (_ & Hlen & _).
  - vm_compute. lia.
  - vm_compute. discriminate.
  - reflexivity.
  - reflexivity.
  - reflexivity.
  - reflexivity.
  - vm_compute. reflexivity.
  - apply Hlen. vm_compute. discriminate.
Defined.

(** C10, as stated, fails for characters after the last byte: with a
    receive of one-byte elements posted, the command "data 1 00 zz" is
    accepted and its byte stored, although 'z' is no hex digit. *)
Lemma got_data_ignores_trailing_characters :
  Tcp2.is_hex "z" = false /\
  no_receive (Tcp2.peer (Tcp2.inst ex_world_recv) 1) = false /\
  exists w',
    Tcp2.got_data 1 "data 1 00 zz" ex_world_recv = Tcp2.Ret tt w' /\
    Tcp2.roff (Tcp2.peer (Tcp2.inst w') 1) = 1 /\
    Tcp2.mem w' 0 0 = 0 /\ Tcp2.mem ex_world_recv 0 0 = 7.
Proof.
  split; [reflexivity|]. split; [reflexivity|].
  eexists. split; [vm_compute; reflexivity|].
  split; [reflexivity|]. split; reflexivity.
Qed.


(** A payload that ends where its last byte should begin is accepted as
    well: "data 1" stores the byte 0. *)
Lemma got_data_accepts_missing_last_byte :
  exists w',
    Tcp2.got_data 1 "data 1" ex_world_recv = Tcp2.Ret tt w' /\
    Tcp2.roff (Tcp2.peer (Tcp2.inst w') 1) = 1 /\
    Tcp2.mem w' 0 0 = 0 /\ Tcp2.mem ex_world_recv 0 0 = 7.
Proof.
  eexists. split; [vm_compute; reflexivity|].
  split; [reflexivity|]. split; reflexivity.
Qed.

(** ** Protocol errors in the command handler *)

Section ProtocolErrors.

Import Tcp2 CStr.
Open Scope string_scope.
Open Scope Z_scope.

Lemma got_cmd_dispatch fd msgp msg len w :
  got_cmd fd msgp msg len w =
    (let lid := fd_lid (fds (inst w) fd) in
     let c := char_at msg 0 in
     if is_char c "r" then cmd_register fd lid msgp msg
     else if is_char c "m" then cmd_myid fd lid msg
     else if is_char c "h" then cmd_help fd lid
     else if is_char c "k" then cmd_kill fd lid
     else if is_char c "q" then cmd_quit fd lid
     else if is_char c "#" then laik_log (LL 1) "TCP2 Got comment %s"
     else if is_char c "s" then cmd_status fd lid msgp
     else if lid <? 0 then
       laik_log LAIK_LL_Warning "ignoring command '%s' from unknown sender" ;;
       assert (0 <? fd) ;;
       send_cmd (reply_to lid fd) "# first register, see 'help'"
     else if is_char c "i" then cmd_id msg
     else if is_char c "p" then cmd_phase msg
     else if is_char c "a" then cmd_allowsend lid msg
     else if is_char c "d" then got_data lid msg
     else laik_log LAIK_LL_Warning "TCP2 got from lID %d unknown msg '%s'")
      (emit w (EvLog (LL 1) msg_got_cmd)).
Proof. reflexivity. Qed.

(** A character selects one handler only. *)
Lemma is_char_other c a b :
  is_char c a = true -> code a <> code b -> is_char c b = false.
Proof.
  unfold is_char. intros H Hab. apply Z.eqb_eq in H. apply Z.eqb_neq. lia.
Qed.

Ltac other_char H :=
  rewrite ?(is_char_other _ _ "r" H), ?(is_char_other _ _ "m" H),
    ?(is_char_other _ _ "h" H), ?(is_char_other _ _ "k" H),
    ?(is_char_other _ _ "q" H), ?(is_char_other _ _ "#" H),
    ?(is_char_other _ _ "s" H), ?(is_char_other _ _ "i" H),
    ?(is_char_other _ _ "p" H), ?(is_char_other _ _ "a" H),
    ?(is_char_other _ _ "d" H) by (vm_compute; discriminate).

Variables (fd msgp len : Z) (msg : string) (w : World).

Let d := inst w.
Let lid := fd_lid (fds d fd).
Let c := char_at msg 0.

(** An unknown verb from a registered peer. *)
Lemma got_cmd_unknown :
  0 <= lid -> is_verb c = false ->
  dropped_at LAIK_LL_Warning w (got_cmd fd msgp msg len w).
Proof.
  intros Hl Hv. rewrite got_cmd_dispatch. cbv zeta. fold d lid c.
  unfold is_verb in Hv.
  repeat match goal with
         | H : (_ || _)%bool = false |- _ =>
             apply Bool.orb_false_elim in H; destruct H
         end.
  repeat match goal with H : is_char c _ = false |- _ => rewrite H; clear H end.
  replace (lid <? 0) with false by (symmetry; apply Z.ltb_ge; lia).
  eexists. reflexivity.
Qed.

(** A data command from a registered peer that has no credit. *)
Lemma got_cmd_data_no_credit :
  0 <= lid -> is_char c "d" = true ->
  overflows msg = false ->
  2 <= fst (sscanf msg data_fmt) ->
  no_receive (peer d lid) = true ->
  dropped_at LAIK_LL_Warning w (got_cmd fd msgp msg len w).
Proof.
  intros Hl Hc Ho Hn Hr. rewrite got_cmd_dispatch. cbv zeta. fold d lid c.
  unfold overflows in Ho. fold c in Ho. other_char Hc. rewrite Hc.
  revert Ho. other_char Hc. rewrite Hc. intros Ho.
  replace (lid <? 0) with false by (symmetry; apply Z.ltb_ge; lia).
  rewrite got_data_no_receive; auto. eexists. reflexivity.
Qed.

(** A register command from a peer that is registered already. *)
Lemma got_cmd_reregister :
  0 <= lid -> is_char c "r" = true ->
  dropped_at LAIK_LL_Warning w (got_cmd fd msgp msg len w).
Proof.
  intros Hl Hc. rewrite got_cmd_dispatch. cbv zeta. fold d lid c.
  rewrite Hc. unfold cmd_register, bind, get_inst. cbn [inst emit].
  fold d. destruct (mylid d =? 0); cbn [negb].
  - replace (0 <=? lid) with true by (symmetry; apply Z.leb_le; lia).
    eexists. reflexivity.
  - eexists. reflexivity.
Qed.

(** A command whose arguments are read and do not parse. *)
Lemma got_cmd_malformed :
  reads_arguments d lid c = true -> overflows msg = false ->
  parse_fails msg = true ->
  dropped_at_panic w (got_cmd fd msgp msg len w).
Proof.
  unfold reads_arguments, parse_fails, overflows. fold c.
  intros Hr Ho Hp. rewrite got_cmd_dispatch. cbv zeta. fold d lid c.
  unfold dropped_at_panic, panic_logged.
  destruct (is_char c "r") eqn:Cr.
  { apply andb_true_iff in Hr. destruct Hr as [Hm Hl].
    unfold cmd_register, bind, get_inst. cbn [inst emit]. fold d.
    rewrite Hm. cbn [negb]. apply Z.ltb_lt in Hl.
    replace (0 <=? lid) with false by (symmetry; apply Z.leb_gt; lia).
    rewrite Ho.
    destruct (sscanf msg _) as [n args]. cbn [fst] in Hp. rewrite Hp.
    eexists. reflexivity. }
  destruct (is_char c "m") eqn:Cm.
  { unfold cmd_myid. rewrite Ho.
    destruct (sscanf msg _) as [n args]. cbn [fst] in Hp.
    rewrite Hp. eexists. reflexivity. }
  destruct (is_char c "i") eqn:Ci.
  { other_char Ci. apply andb_true_iff in Hr. destruct Hr as [Hl Hm].
    apply Z.leb_le in Hl.
    replace (lid <? 0) with false by (symmetry; apply Z.ltb_ge; lia).
    unfold cmd_id, bind, get_inst. cbn [inst emit]. fold d.
    apply negb_true_iff in Hm. rewrite Hm. rewrite Ho.
    destruct (sscanf msg _) as [n args]. cbn [fst] in Hp. rewrite Hp.
    eexists. reflexivity. }
  destruct (is_char c "p") eqn:Cp.
  { other_char Cp. apply andb_true_iff in Hr. destruct Hr as [Hl Hm].
    apply Z.leb_le in Hl.
    replace (lid <? 0) with false by (symmetry; apply Z.ltb_ge; lia).
    unfold cmd_phase, bind, get_inst. cbn [inst emit]. fold d.
    apply negb_true_iff in Hm. rewrite Hm. rewrite Ho.
    destruct (sscanf msg _) as [n args]. cbn [fst] in Hp. rewrite Hp.
    eexists. reflexivity. }
  destruct (is_char c "a") eqn:Ca.
  { other_char Ca. apply Z.leb_le in Hr.
    replace (lid <? 0) with false by (symmetry; apply Z.ltb_ge; lia).
    unfold cmd_allowsend. rewrite Ho. destruct (sscanf msg _) as [n args].
    cbn [fst] in Hp. rewrite Hp. eexists. reflexivity. }
  destruct (is_char c "d") eqn:Cd; [|discriminate].
  other_char Cd. apply Z.leb_le in Hr.
  replace (lid <? 0) with false by (symmetry; apply Z.ltb_ge; lia).
  apply Z.ltb_lt in Hp.
  exists msg_unparsed. apply got_data_unparsed; auto.
Qed.

(** A command that writes past an array while its arguments are read. *)
Lemma got_cmd_overflow :
  reads_arguments d lid c = true -> overflows msg = true ->
  got_cmd fd msgp msg len w
  = Stop Undefined (emit w (EvLog (LL 1) msg_got_cmd)).
Proof.
  unfold reads_arguments, overflows. fold c.
  intros Hr Ho. rewrite got_cmd_dispatch. cbv zeta. fold d lid c.
  destruct (is_char c "r") eqn:Cr.
  { apply andb_true_iff in Hr. destruct Hr as [Hm Hl].
    unfold cmd_register, bind, get_inst. cbn [inst emit]. fold d.
    rewrite Hm. cbn [negb]. apply Z.ltb_lt in Hl.
    replace (0 <=? lid) with false by (symmetry; apply Z.leb_gt; lia).
    rewrite Ho. reflexivity. }
  destruct (is_char c "m") eqn:Cm.
  { unfold cmd_myid. rewrite Ho. reflexivity. }
  destruct (is_char c "i") eqn:Ci.
  { other_char Ci. apply andb_true_iff in Hr. destruct Hr as [Hl Hm].
    apply Z.leb_le in Hl.
    replace (lid <? 0) with false by (symmetry; apply Z.ltb_ge; lia).
    unfold cmd_id, bind, get_inst. cbn [inst emit]. fold d.
    apply negb_true_iff in Hm. rewrite Hm. rewrite Ho. reflexivity. }
  destruct (is_char c "p") eqn:Cp.
  { other_char Cp. apply andb_true_iff in Hr. destruct Hr as [Hl Hm].
    apply Z.leb_le in Hl.
    replace (lid <? 0) with false by (symmetry; apply Z.ltb_ge; lia).
    unfold cmd_phase, bind, get_inst. cbn [inst emit]. fold d.
    apply negb_true_iff in Hm. rewrite Hm. rewrite Ho. reflexivity. }
  destruct (is_char c "a") eqn:Ca.
  { other_char Ca. apply Z.leb_le in Hr.
    replace (lid <? 0) with false by (symmetry; apply Z.ltb_ge; lia).
    unfold cmd_allowsend. rewrite Ho. reflexivity. }
  destruct (is_char c "d") eqn:Cd; [|discriminate].
  other_char Cd. apply Z.leb_le in Hr.
  replace (lid <? 0) with false by (symmetry; apply Z.ltb_ge; lia).
  apply got_data_long_verb. exact Ho.
Qed.

End ProtocolErrors.

(** C7 (amended).  In the point-to-point backend an unknown verb from a
    registered peer, a data command without credit and a re-registration
    are logged at warning level, the offending command is dropped and the
    connection stays open: back-end state, mapped memory and descriptors
    are unchanged and the handler returns.  A malformed command line (one
    whose arguments are read and do not parse) is reported at panic
    level, not at warning level, and nothing else happens; the handler
    returns after it only if the logger returns at that level, otherwise
    the process ends in the logger.  Where arguments are read, the
    command line is one whose words fit the arrays they are read into. *)
Theorem protocol_errors_are_dropped :
  forall (fd msgp len : Z) (msg : String.string) (w : Tcp2.World),
    let d := Tcp2.inst w in
    let lid := Tcp2.fd_lid (Tcp2.fds d fd) in
    let c := CStr.char_at msg 0 in
    (0 <= lid -> Tcp2.is_verb c = false ->
       dropped_at Tcp2.LAIK_LL_Warning w (Tcp2.got_cmd fd msgp msg len w)) /\
    (0 <= lid -> CStr.is_char c "d" = true ->
       overflows msg = false ->
       2 <= fst (CStr.sscanf msg data_fmt) ->
       ~ Tcp2.has_credit (Tcp2.peer d lid) ->
       Tcp2.recv_state_ok (Tcp2.peer d lid) ->
       dropped_at Tcp2.LAIK_LL_Warning w (Tcp2.got_cmd fd msgp msg len w)) /\
    (0 <= lid -> CStr.is_char c "r" = true ->
       dropped_at Tcp2.LAIK_LL_Warning w (Tcp2.got_cmd fd msgp msg len w)) /\
    (reads_arguments d lid c = true -> overflows msg = false ->
       parse_fails msg = true ->
       dropped_at_panic w (Tcp2.got_cmd fd msgp msg len w)).
Proof.
  intros fd msgp len msg w d lid c.
  split; [|split; [|split]].
  - apply got_cmd_unknown.
  - intros Hl Hc Ho Hn Hno Hok. apply got_cmd_data_no_credit; auto.
    destruct (no_receive (Tcp2.peer d lid)) eqn:E; [exact E|].
    exfalso. apply Hno. apply (no_receive_credit _ Hok). exact E.
  - apply got_cmd_reregister.
  - apply got_cmd_malformed.
Qed.

(** The theorem for the four kinds of input, at peer 1 on descriptor 5 of
    the example: an unknown verb, data without credit, a register command,
    and a data command without length. *)
Lemma protocol_errors_are_dropped_witness :
  dropped_at Tcp2.LAIK_LL_Warning ex_world
             (Tcp2.got_cmd 5 0 "exchange" 8 ex_world) /\
  dropped_at Tcp2.LAIK_LL_Warning ex_world
             (Tcp2.got_cmd 5 0 "data 1 (0:0) 0a" 15 ex_world) /\
  dropped_at Tcp2.LAIK_LL_Warning ex_world
             (Tcp2.got_cmd 5 0 "register node1:11 node1 4000" 28 ex_world) /\
  dropped_at_panic ex_world (Tcp2.got_cmd 5 0 "data" 4 ex_world).
Proof.
  split; [|split; [|split]].
  - destruct (protocol_errors_are_dropped 5 0 8 "exchange" ex_world)
      as (H & _).
    apply H.
    + vm_compute. discriminate.
    + reflexivity.
  - destruct (protocol_errors_are_dropped 5 0 15 "data 1 (0:0) 0a" ex_world)
      as (_ & H & _).
    apply H.
    + vm_compute. discriminate.
    + reflexivity.
    + reflexivity.
    + vm_compute. discriminate.
    + intros [Hc _]. vm_compute in Hc. discriminate Hc.
    + left. reflexivity.
  - destruct (protocol_errors_are_dropped 5 0 28
                "register node1:11 node1 4000" ex_world) as (_ & _ & H & _).
    apply H.
    + vm_compute. discriminate.
    + reflexivity.
  - destruct (protocol_errors_are_dropped 5 0 4 "data" ex_world)
      as (_ & _ & _ & H).
    apply H.
    + reflexivity.
    + reflexivity.
    + reflexivity.
Defined.

(** C7, as stated, fails for a malformed command line: a data command
    without length from a registered peer is logged at panic level, and
    no line at warning level is logged for it.  With a logger that does
    not return at that level the process ends there. *)
Lemma malformed_data_is_logged_at_panic :
  (exists w',
     Tcp2.got_cmd 5 0 "data" 4 ex_world = Tcp2.Ret tt w' /\
     Tcp2.trace w' =
       [Tcp2.EvLog (Tcp2.LL 1) msg_got_cmd;
        Tcp2.EvLog Tcp2.LAIK_LL_Panic msg_unparsed] /\
     ~ (exists fmt,
          In (Tcp2.EvLog Tcp2.LAIK_LL_Warning fmt) (Tcp2.trace w'))) /\
  (exists w',
     Tcp2.got_cmd 5 0 "data" 4 ex_world_strict
     = Tcp2.Stop Tcp2.ProcExit w' /\
     Tcp2.trace w' =
       [Tcp2.EvLog (Tcp2.LL 1) msg_got_cmd;
        Tcp2.EvLog Tcp2.LAIK_LL_Panic msg_unparsed]).
Proof.
  split.
  - eexists. split; [vm_compute; reflexivity|].
    split; [reflexivity|].
    intros (fmt & [H|[H|[]]]); discriminate H.
  - eexists. split; [vm_compute; reflexivity|]. reflexivity.
Qed.

(** ** Sending a slice *)

Section StringFacts.

Open Scope string_scope.

Lemma append_assoc (a b c : string) : (a ++ b) ++ c = a ++ (b ++ c).
Proof. induction a as [|x a IH]; cbn [append]; [reflexivity|now rewrite IH]. Qed.

Lemma append_nil_r (a : string) : a ++ "" = a.
Proof. induction a as [|x a IH]; cbn [append]; [reflexivity|now rewrite IH]. Qed.

End StringFacts.

Section SendFacts.

Import Tcp2 CStr.
Open Scope string_scope.
Open Scope Z_scope.
Open Scope list_scope.

(** [laik_panic] ends the process, whether or not the logger returns. *)
Lemma laik_panic_exits msg w :
  laik_panic msg w = Stop ProcExit (emit w (EvLog LAIK_LL_Panic msg)).
Proof.
  unfold laik_panic, bind, laik_log. destruct (panic_returns w); reflexivity.
Qed.

Lemma writes_app a b : writes (a ++ b) = writes a ++ writes b.
Proof.
  induction a as [|e a IH]; [reflexivity|].
  cbn [app writes]. destruct e; rewrite IH; reflexivity.
Qed.

(** With a descriptor recorded for the peer, [ensure_conn] returns at
    once: no connection is made. *)
Lemma ensure_conn_connected lid w :
  lid < MAX_PEERS -> 0 <= fd (peer (inst w) lid) ->
  ensure_conn lid w = Ret tt w.
Proof.
  intros Hl Hf. unfold ensure_conn, bind, assert, get_inst.
  replace (lid <? MAX_PEERS) with true by (symmetry; apply Z.ltb_lt; lia).
  unfold ret.
  replace (0 <=? fd (peer (inst w) lid)) with true
    by (symmetry; apply Z.leb_le; lia).
  reflexivity.
Qed.

(** A command sent to a connected peer: what is handed to [write] is the
    command with its newline when the descriptor is open, and the
    command alone when the write fails. *)
Lemma send_cmd_handed lid cmd w :
  0 <= lid < MAX_PEERS -> 0 <= fd (peer (inst w) lid) -> 0 < strlen cmd ->
  exists w', send_cmd lid cmd w = Ret tt w' /\
    inst w' = inst w /\ mem w' = mem w /\ os_open w' = os_open w /\
    dials w' = dials w /\ istr_str w' = istr_str w /\
    panic_returns w' = panic_returns w /\
    writes (trace w') =
      writes (trace w)
      ++ [(fd (peer (inst w) lid),
           if os_open w (fd (peer (inst w) lid))
           then (cmd ++ String NL "")%string else cmd)].
Proof.
  intros Hl Hf Hc. unfold send_cmd.
  replace (0 <=? lid) with true by (symmetry; apply Z.leb_le; lia).
  unfold bind at 1. rewrite ensure_conn_connected by lia.
  unfold bind at 1. unfold get_inst. unfold send_cmd_on.
  unfold bind at 1. unfold laik_log.
  replace (strlen cmd =? 0) with false by (symmetry; apply Z.eqb_neq; lia).
  unfold bind, os_write. cbn [os_open emit].
  destruct (os_open w (fd (peer (inst w) lid))); cbn.
  - eexists. split; [reflexivity|]. cbn.
    repeat (split; [reflexivity|]).
    rewrite !writes_app. cbn. rewrite app_nil_r. reflexivity.
  - eexists. split; [reflexivity|]. cbn.
    repeat (split; [reflexivity|]).
    rewrite !writes_app. cbn. rewrite !app_nil_r. reflexivity.
Qed.

Lemma send_cmd_connected lid cmd w :
  0 <= lid < MAX_PEERS -> 0 <= fd (peer (inst w) lid) -> 0 < strlen cmd ->
  os_open w (fd (peer (inst w) lid)) = true ->
  exists w', send_cmd lid cmd w = Ret tt w' /\
             sent w w' (fd (peer (inst w) lid)) cmd.
Proof.
  intros Hl Hf Hc Ho. unfold send_cmd.
  replace (0 <=? lid) with true by (symmetry; apply Z.leb_le; lia).
  unfold bind at 1. rewrite ensure_conn_connected by lia.
  unfold bind at 1. unfold get_inst. unfold send_cmd_on.
  unfold bind at 1. unfold laik_log.
  replace (strlen cmd =? 0) with false by (symmetry; apply Z.eqb_neq; lia).
  unfold bind, os_write. cbn [os_open emit]. rewrite Ho. cbn.
  eexists. split; [reflexivity|]. unfold sent; cbn.
  repeat (split; [reflexivity|]).
  exists []. rewrite <- app_assoc. split; reflexivity.
Qed.

Lemma strlen_append a b : strlen (a ++ b)%string = strlen a + strlen b.
Proof.
  unfold strlen. induction a as [|c a IH]; cbn [append String.length].
  - lia.
  - rewrite !Nat2Z.inj_succ. lia.
Qed.

Lemma data_cmd_nonempty n dims idx s bs : 0 < strlen (data_cmd n dims idx s bs).
Proof.
  unfold data_cmd, data_text.
  assert (H : forall l init, strlen init <=
            strlen (fold_left
                      (fun acc v => (acc ++ " " ++ fmt_02x v)%string) l init)).
  { induction l as [|b l IH]; intros init; cbn [fold_left]; [lia|].
    etransitivity; [|apply IH]. rewrite strlen_append.
    unfold strlen. lia. }
  eapply Z.lt_le_trans; [|apply H].
  rewrite strlen_append. unfold strlen at 1. cbn [String.length].
  unfold strlen. lia.
Qed.

End SendFacts.

Section EventLoopFacts.

Import Tcp2.

(** Every return of the event loop uses up input of the environment. *)
Lemma run_loop_from_shorter rounds : forall w r' w',
  run_loop_from rounds w = Ret r' w' ->
  (List.length r' <= List.length rounds)%nat /\
  (exit (inst w) = 0 -> (List.length r' < List.length rounds)%nat).
Proof.
  induction rounds as [|r rest IH]; intros w r' w' E; cbn [run_loop_from] in E.
  - destruct (Z.eqb_spec (exit (inst w)) 0) as [E0|E0]; [discriminate|].
    injection E as <- <-. split; [lia|]. intros; contradiction.
  - destruct (Z.eqb_spec (exit (inst w)) 0) as [E0|E0].
    + destruct (run_callbacks _ w) as [[] w1|]; [|discriminate].
      apply IH in E. cbn [List.length]. split; intros; lia.
    + injection E as <- <-. split; [lia|]. intros; contradiction.
Qed.

Lemma run_loop_shorter rounds w r' w' :
  run_loop rounds w = Ret r' w' ->
  (List.length r' < List.length rounds)%nat.
Proof.
  unfold run_loop. intros E. apply run_loop_from_shorter in E.
  apply E. reflexivity.
Qed.

(** The bound given to a waiting loop is never reached, and any larger
    bound gives the same result. *)
Lemma loop_while_fuel cond fuel1 : forall fuel2 rounds w,
  (List.length rounds < fuel1)%nat -> (List.length rounds < fuel2)%nat ->
  loop_while fuel1 cond rounds w = loop_while fuel2 cond rounds w.
Proof.
  induction fuel1 as [|f1 IH]; intros fuel2 rounds w H1 H2; [lia|].
  destruct fuel2 as [|f2]; [lia|]. cbn [loop_while].
  destruct (cond (inst w)); [|reflexivity].
  destruct (run_loop rounds w) as [r' w'|] eqn:E; [|reflexivity].
  apply run_loop_shorter in E. apply IH; lia.
Qed.

Lemma loop_while_S cond f rounds w :
  loop_while (S f) cond rounds w =
    if cond (inst w) then
      match run_loop rounds w with
      | Ret rounds' w' => loop_while f cond rounds' w'
      | Stop x w' => Stop x w'
      end
    else Ret rounds w.
Proof. reflexivity. Qed.

(** The wait for credit: no loop when credit is there; else the event
    loop runs once more and the wait goes on. *)
Lemma wait_credit_ready toLID rounds w :
  scount (peer (inst w) toLID) <> 0 ->
  wait_credit toLID rounds w = Ret rounds w.
Proof.
  intros H. unfold wait_credit. cbn [loop_while].
  apply Z.eqb_neq in H. rewrite H. reflexivity.
Qed.

Lemma wait_credit_blocked toLID rounds w :
  scount (peer (inst w) toLID) = 0 ->
  wait_credit toLID rounds w =
    match run_loop rounds w with
    | Ret rounds' w' => wait_credit toLID rounds' w'
    | Stop x w' => Stop x w'
    end.
Proof.
  intros H. unfold wait_credit. rewrite loop_while_S.
  apply Z.eqb_eq in H. rewrite H.
  destruct (run_loop rounds w) as [r' w'|] eqn:E; [|reflexivity].
  apply run_loop_shorter in E. apply loop_while_fuel; lia.
Qed.

Lemma wait_credit_done toLID rounds w rounds' w1 :
  wait_credit toLID rounds w = Ret rounds' w1 ->
  scount (peer (inst w1) toLID) <> 0.
Proof.
  unfold wait_credit. generalize (S (List.length rounds)) as fuel.
  intros fuel; revert rounds w.
  induction fuel as [|f IH]; intros rounds w E; cbn [loop_while] in E.
  - destruct (Z.eqb_spec (scount (peer (inst w) toLID)) 0); [discriminate|].
    injection E as <- <-. assumption.
  - destruct (Z.eqb_spec (scount (peer (inst w) toLID)) 0).
    + destruct (run_loop rounds w) as [r' w'|]; [|discriminate].
      eapply IH; eauto.
    + injection E as <- <-. assumption.
Qed.

End EventLoopFacts.
Section SendElements.

Import Tcp2 CStr.
Open Scope Z_scope.
Open Scope list_scope.

Variable fromMap : Laik_Mapping.
Variable blk : Z.
Variable slc : Laik_Slice.
Variable toLID : Z.

Hypothesis slc_nonempty : slice_nonempty slc.
Hypothesis lid_ok : 0 <= toLID < MAX_PEERS.
Hypothesis esize_ok : 0 <= elemsize fromMap.

(** The text of every index of the slice fits the buffer of [istr]. *)
Hypothesis idx_fit :
  forall idx, idx_in slc idx -> strlen (coordinates_text (dims slc) idx) < 50.

(** Every data command of the slice fits the buffer it is built in. *)
Hypothesis cmds_fit :
  forall k idx bytes,
    0 <= k < slice_volume slc -> idx_in slc idx ->
    List.length bytes = Z.to_nat (elemsize fromMap) ->
    strlen (element_line k (dims slc) idx bytes) < 100.

Lemma read_bytes_length m off n : List.length (read_bytes m off n) = Z.to_nat n.
Proof. unfold read_bytes. now rewrite length_map, length_seq. Qed.

Lemma concat_empty_cons (x : string) (xs : list string) :
  String.concat "" (x :: xs) = (x ++ String.concat "" xs)%string.
Proof.
  destruct xs as [|y xs]; cbn [String.concat].
  - now rewrite append_nil_r.
  - reflexivity.
Qed.

(** The loop of [send_data] appends the hex text of the bytes. *)
Lemma fold_hex (bs : list Z) : forall init,
  fold_left (fun acc v => (acc ++ " " ++ fmt_02x v)%string) bs init
  = (init ++ String.concat ""
               (map (fun b => (" " ++ fmt_02x b)%string) bs))%string.
Proof.
  induction bs as [|b bs IH]; intros init.
  - cbn. now rewrite append_nil_r.
  - cbn [fold_left map]. rewrite IH, concat_empty_cons.
    now rewrite append_assoc.
Qed.

(** For an index of the slice [istr] prints the coordinates on the axes
    in use. *)
Lemma istr_text_coordinates idx :
  idx_in slc idx ->
  istr_text (dims slc) idx = Some (coordinates_text (dims slc) idx).
Proof.
  intros (H0 & H1 & H2).
  destruct slc_nonempty as (Hd & B0 & T0 & B1 & B2).
  unfold istr_text, coordinates_text, coordinates.
  assert (E0 : CInt.u64 (i0 idx) = i0 idx) by (apply u64_small; lia).
  assert (D : dims slc = 1 \/ dims slc = 2 \/ dims slc = 3) by lia.
  destruct D as [D | [D | D]]; rewrite D; cbn [Z.eqb Pos.eqb Z.to_nat].
  - rewrite E0. reflexivity.
  - assert (E1 : CInt.u64 (i1 idx) = i1 idx)
      by (apply u64_small; specialize (H1 ltac:(lia));
          specialize (B1 ltac:(lia)); lia).
    rewrite E0, E1. reflexivity.
  - assert (E1 : CInt.u64 (i1 idx) = i1 idx)
      by (apply u64_small; specialize (H1 ltac:(lia));
          specialize (B1 ltac:(lia)); lia).
    assert (E2 : CInt.u64 (i2 idx) = i2 idx)
      by (apply u64_small; specialize (H2 ltac:(lia));
          specialize (B2 ltac:(lia)); lia).
    rewrite E0, E1, E2. reflexivity.
Qed.

Lemma index_text_coordinates idx :
  idx_in slc idx -> index_text (dims slc) idx = coordinates_text (dims slc) idx.
Proof.
  intros H. unfold index_text. now rewrite istr_text_coordinates.
Qed.

(** The call of [istr] for an index of the slice. *)
Lemma istr_in_slice idx w :
  idx_in slc idx ->
  istr (dims slc) idx w
  = Ret (coordinates_text (dims slc) idx)
        (set_istr_str w (coordinates_text (dims slc) idx)).
Proof.
  intros H. unfold istr. rewrite istr_text_coordinates by exact H.
  replace (50 <=? strlen _) with false
    by (symmetry; apply Z.leb_gt; apply idx_fit; exact H).
  reflexivity.
Qed.

(** The text [send_data] builds is the data command of the protocol. *)
Lemma data_text_line k idx bytes :
  List.length bytes = Z.to_nat (elemsize fromMap) ->
  data_text k (coordinates_text (dims slc) idx) (elemsize fromMap) bytes
  = element_line k (dims slc) idx bytes.
Proof.
  intros Hb. unfold data_text, element_line. rewrite fold_hex.
  rewrite Hb, Z2Nat.id by exact esize_ok.
  rewrite !append_assoc. reflexivity.
Qed.

(** One element: its data command is written to the descriptor of the
    peer, and nothing else changes. *)
Lemma send_data_connected k idx w :
  0 <= k < slice_volume slc -> idx_in slc idx ->
  0 <= fd (peer (inst w) toLID) ->
  os_open w (fd (peer (inst w) toLID)) = true ->
  let bytes := read_bytes (mem w blk)
                 (layout_offset fromMap idx * elemsize fromMap)
                 (elemsize fromMap) in
  exists w',
    send_data k (dims slc) idx toLID bytes (elemsize fromMap) w = Ret tt w' /\
    inst w' = inst w /\ mem w' = mem w /\ os_open w' = os_open w /\
    dials w' = dials w /\
    writes (trace w') =
      writes (trace w)
      ++ [(fd (peer (inst w) toLID),
           (element_line k (dims slc) idx bytes ++ String NL "")%string)].
Proof.
  intros Hk Hi Hf Ho bytes. unfold send_data.
  unfold bind at 1. rewrite istr_in_slice by exact Hi.
  rewrite data_text_line by apply read_bytes_length.
  pose proof (cmds_fit k idx bytes Hk Hi (read_bytes_length _ _ _)) as Hfit.
  replace (100 <=? strlen _) with false by (symmetry; apply Z.leb_gt; lia).
  set (wi := set_istr_str w (coordinates_text (dims slc) idx)).
  unfold bind at 1.
  set (w0 := if elemsize fromMap =? 8
             then emit wi (EvLog (LL 1) " pos %s: %f\n") else wi).
  assert (E0 : (if elemsize fromMap =? 8
                then istr (dims slc) idx ;; laik_log (LL 1) " pos %s: %f\n"
                else ret tt) wi
               = Ret tt w0).
  { subst w0. destruct (elemsize fromMap =? 8); [|reflexivity].
    unfold bind. rewrite istr_in_slice by exact Hi. reflexivity. }
  rewrite E0.
  assert (I0 : inst w0 = inst w /\ mem w0 = mem w /\ os_open w0 = os_open w
               /\ dials w0 = dials w /\ writes (trace w0) = writes (trace w)).
  { subst w0 wi. destruct (elemsize fromMap =? 8); cbn.
    - rewrite writes_app. cbn. rewrite app_nil_r. repeat split.
    - repeat split. }
  destruct I0 as (Ii & Im & Io & Id & Iw).
  destruct (send_cmd_connected toLID (element_line k (dims slc) idx bytes) w0)
    as (w' & E & Si & Sm & So & Sd & tail & St & Sw).
  - exact lid_ok.
  - rewrite Ii. exact Hf.
  - unfold element_line. rewrite strlen_append. unfold strlen.
    cbn [String.length]. lia.
  - rewrite Ii, Io. exact Ho.
  - exists w'. split; [exact E|].
    rewrite Si, Sm, So, Sd, Ii, Im, Io, Id. repeat (split; [reflexivity|]).
    rewrite St, writes_app. cbn [writes]. rewrite Sw, Iw, Ii. reflexivity.
Qed.

(** The element loop from an index of the slice with [n] elements to go:
    it sends the data commands of the indexes [next_lex] leads through,
    numbered by their position, and ends with all elements counted. *)
Lemma send_elems_walk (n : nat) : forall fuel idx k w,
  (n < fuel)%nat ->
  on_track slc idx -> lex_rank slc idx = k ->
  k + Z.of_nat (S n) = slice_volume slc ->
  0 <= fd (peer (inst w) toLID) ->
  os_open w (fd (peer (inst w) toLID)) = true ->
  exists w',
    send_elems fuel fromMap blk slc toLID idx k w
      = Ret (slice_volume slc) w' /\
    inst w' = inst w /\ mem w' = mem w /\ os_open w' = os_open w /\
    dials w' = dials w /\
    writes (trace w') =
      writes (trace w)
      ++ line_writes (fd (peer (inst w) toLID)) fromMap (mem w blk)
                     (dims slc) k (walk (S n) slc idx).
Proof.
  induction n as [|n IH]; intros fuel idx k w Hfuel Ht Hr Hv Hf Ho;
    (destruct fuel as [|fuel]; [lia|]); cbn [send_elems].
  - pose proof (lex_rank_bounds slc idx slc_nonempty (proj1 Ht)) as Hb.
    unfold bind at 1. unfold bind at 1.
    destruct (send_data_connected k idx w) as (w1 & E & Si & Sm & So & Sd & Sw);
      [lia|exact (proj1 Ht)|exact Hf|exact Ho|].
    cbv zeta in E. rewrite E.
    destruct (next_lex_step slc idx slc_nonempty Ht) as (B & _).
    assert (Hm : fst (next_lex slc idx) = false)
      by (rewrite B; apply Z.ltb_ge; lia).
    clear B.
    destruct (next_lex slc idx) as [more idx'] eqn:N. cbn [fst snd] in Hm.
    subst more.
    exists w1. unfold ret.
    replace (k + 1) with (slice_volume slc) by lia.
    split; [reflexivity|]. repeat (split; [assumption|]).
    rewrite Sw. cbn [walk line_writes]. reflexivity.
  - pose proof (lex_rank_bounds slc idx slc_nonempty (proj1 Ht)) as Hb.
    unfold bind at 1. unfold bind at 1.
    destruct (send_data_connected k idx w) as (w1 & E & Si & Sm & So & Sd & Sw);
      [lia|exact (proj1 Ht)|exact Hf|exact Ho|].
    cbv zeta in E. rewrite E.
    destruct (next_lex_step slc idx slc_nonempty Ht) as (B & St & _).
    assert (Hm : fst (next_lex slc idx) = true)
      by (rewrite B; apply Z.ltb_lt; lia).
    clear B. destruct (St Hm) as (Ht' & Hr'). clear St.
    cbn [walk]. fold (walk (S n) slc (snd (next_lex slc idx))).
    destruct (next_lex slc idx) as [more idx'] eqn:N. cbn [fst snd] in *.
    subst more.
    destruct (IH fuel idx' (k + 1) w1) as (w2 & E2 & Si2 & Sm2 & So2 & Sd2 & Sw2);
      [lia|exact Ht'|lia|lia|rewrite Si; exact Hf|rewrite So, Si; exact Ho|].
    exists w2. split; [exact E2|].
    rewrite Si2, Sm2, So2, Sd2. repeat (split; [assumption|]).
    rewrite Sw2, Sw, Si, Sm. cbn [line_writes]. rewrite <- app_assoc.
    reflexivity.
Qed.

(** The indexes [next_lex] leads through from an index of the slice are
    indexes of the slice, in lexicographic order without gaps. *)
Lemma walk_rank (n : nat) : forall idx k j,
  on_track slc idx -> lex_rank slc idx = k ->
  k + Z.of_nat n <= slice_volume slc ->
  (j < n)%nat ->
  idx_in slc (nth j (walk n slc idx) (from slc)) /\
  lex_rank slc (nth j (walk n slc idx) (from slc)) = k + Z.of_nat j.
Proof.
  induction n as [|n IH]; intros idx k j Ht Hr Hv Hj; [lia|].
  cbn [walk]. destruct j as [|j]; cbn [nth].
  - split; [exact (proj1 Ht)|lia].
  - destruct (next_lex_step slc idx slc_nonempty Ht) as (B & St & _).
    assert (Bt : fst (next_lex slc idx) = true)
      by (rewrite B; apply Z.ltb_lt; lia).
    destruct (St Bt) as (Ht' & Hr').
    destruct (IH (snd (next_lex slc idx)) (k + 1) j Ht' ltac:(lia) ltac:(lia)
                 ltac:(lia)) as (I1 & I2).
    split; [exact I1|lia].
Qed.

Lemma walk_length n idx : List.length (walk n slc idx) = n.
Proof. revert idx; induction n as [|n IH]; intros; cbn; auto. Qed.

End SendElements.

Section LineWrites.

Import Tcp2 CStr.
Open Scope Z_scope.
Open Scope list_scope.

Lemma line_writes_length wfd fromMap m dims idxs : forall k,
  List.length (line_writes wfd fromMap m dims k idxs) = List.length idxs.
Proof.
  induction idxs as [|idx idxs IH]; intros k; cbn [line_writes List.length];
    [reflexivity|now rewrite IH].
Qed.

(** The [j]-th of the lines is the line of the [j]-th index, with the
    number [k + j]. *)
Lemma line_writes_nth wfd fromMap m dims idxs d0 : forall k j,
  (j < List.length idxs)%nat ->
  nth j (line_writes wfd fromMap m dims k idxs) (0, ""%string)
  = (wfd,
     (element_line (k + Z.of_nat j) dims (nth j idxs d0)
        (read_bytes m (layout_offset fromMap (nth j idxs d0)
                       * elemsize fromMap) (elemsize fromMap))
      ++ String NL "")%string).
Proof.
  induction idxs as [|idx idxs IH]; intros k j Hj; cbn [List.length] in Hj;
    [lia|].
  cbn [line_writes]. destruct j as [|j]; cbn [nth].
  - now rewrite Z.add_0_r.
  - rewrite IH by lia.
    replace (k + 1 + Z.of_nat j) with (k + Z.of_nat (S j)) by lia.
    reflexivity.
Qed.

End LineWrites.
Lemma ex_slice_1d_nonempty : slice_nonempty ex_slice_1d.
Proof. unfold slice_nonempty, ex_slice_1d; cbn. clia. Qed.

Lemma ex_idx_fit :
  forall idx,
    idx_in ex_slice_1d idx ->
    CStr.strlen (coordinates_text (dims ex_slice_1d) idx) < 50.
Proof.
  intros [a b c] (Ha & _). cbn in Ha.
  assert (Ea : a = 0 \/ a = 1) by lia.
  destruct Ea as [-> | ->]; vm_compute; reflexivity.
Qed.

Lemma ex_cmds_fit :
  forall k idx bytes,
    0 <= k < slice_volume ex_slice_1d -> idx_in ex_slice_1d idx ->
    List.length bytes = Z.to_nat (Tcp2.elemsize ex_map) ->
    CStr.strlen (element_line k (dims ex_slice_1d) idx bytes) < 100.
Proof.
  intros k [a b c] bytes Hk (Ha & _) Hb. cbn in Hk, Ha, Hb.
  destruct bytes as [|x [|y bytes]]; try discriminate Hb.
  assert (Ek : k = 0 \/ k = 1) by lia.
  assert (Ea : a = 0 \/ a = 1) by lia.
  destruct Ek as [-> | ->], Ea as [-> | ->]; vm_compute; reflexivity.
Qed.


(** The same run, computed: what is written to descriptor 5. *)
Example send_slice_example_writes :
  exists w2,
    Tcp2.send_slice ex_map ex_slice_1d 1 ex_grant ex_world = Tcp2.Ret [] w2 /\
    Tcp2.writes (Tcp2.trace w2) =
      [(5, ("data 1 (0:0) 07" ++ String.String CStr.NL "")%string);
       (5, ("data 1 (1:1) 07" ++ String.String CStr.NL "")%string)].
Proof. eexists. split; vm_compute; reflexivity. Qed.

(** Without a grant the sender stays blocked in the event loop and writes
    nothing. *)
Example send_slice_example_blocked :
  exists w',
    Tcp2.send_slice ex_map ex_slice_1d 1 [] ex_world
      = Tcp2.Stop Tcp2.Blocked w' /\
    Tcp2.writes (Tcp2.trace w') = [].
Proof. eexists. split; vm_compute; reflexivity. Qed.

(** ** Dropped connections *)

(** C9 (failing input).  Peer 1 is connected on descriptor 5 and the read
    on that descriptor returns end-of-file.  [got_bytes] closes the
    descriptor and removes it from the event loop, and the peer-table
    entry survives; but the entry still names descriptor 5.  At the next
    send [ensure_conn] therefore takes the peer for connected: no
    connection is made (the connection the environment offers is left
    unused), and the command is written to the closed descriptor, where
    the write fails: no newline follows, and a warning is logged. *)
Theorem dropped_connection_is_not_redialed :
  exists w1 w2,
    Tcp2.got_bytes 5 (Tcp2.InRead "") ex_world = Tcp2.Ret tt w1 /\
    (* closed and out of the event loop *)
    In (Tcp2.EvClose 5) (Tcp2.trace w1) /\
    Tcp2.os_open w1 5 = false /\
    Tcp2.rset (Tcp2.inst w1) 5 = false /\
    Tcp2.cb (Tcp2.fds (Tcp2.inst w1) 5) = Tcp2.cb_none /\
    (* the entry survives, descriptor included *)
    Tcp2.peer (Tcp2.inst w1) 1 = Tcp2.peer (Tcp2.inst ex_world) 1 /\
    Tcp2.fd (Tcp2.peer (Tcp2.inst w1) 1) = 5 /\
    (* the next send *)
    Tcp2.ensure_conn 1 w1 = Tcp2.Ret tt w1 /\
    Tcp2.send_cmd 1 "phase 0" w1 = Tcp2.Ret tt w2 /\
    Tcp2.trace w2 =
      Tcp2.trace w1
      ++ [Tcp2.EvLog (Tcp2.LL 1) msg_sent;
          Tcp2.EvWrite 5 "phase 0"%string;
          Tcp2.EvLog Tcp2.LAIK_LL_Warning
                     "TCP2 write error on FD %d: %s\n"%string] /\
    Tcp2.dials w2 = [Tcp2.DialFd 6].
Proof.
  eexists. eexists.
  split; [vm_compute; reflexivity|].
  split; [cbn; auto|].
  split; [reflexivity|]. split; [reflexivity|]. split; [reflexivity|].
  split; [reflexivity|]. split; [reflexivity|].
  split; [vm_compute; reflexivity|].
  split; [vm_compute; reflexivity|].
  split; reflexivity.
Qed.

(** The sibling path: when the peer ends the connection with a quit
    command, the handler also resets the descriptor of the entry, and the
    next send connects again before the command is written. *)
Lemma quit_connection_is_redialed :
  exists w1 w2,
    Tcp2.got_bytes 5 (Tcp2.InRead ("quit" ++ String.String CStr.NL "")%string)
                   ex_world = Tcp2.Ret tt w1 /\
    In (Tcp2.EvClose 5) (Tcp2.trace w1) /\
    Tcp2.fd (Tcp2.peer (Tcp2.inst w1) 1) = -1 /\
    Tcp2.send_cmd 1 "phase 0" w1 = Tcp2.Ret tt w2 /\
    Tcp2.fd (Tcp2.peer (Tcp2.inst w2) 1) = 6 /\
    Tcp2.writes (Tcp2.trace w2) =
      [(6, ("myid 0" ++ String.String CStr.NL "")%string);
       (6, ("phase 0" ++ String.String CStr.NL "")%string)] /\
    In (Tcp2.EvConnect (Some "node1"%string) 4000 6) (Tcp2.trace w2).
Proof.
  eexists. eexists.
  split; [vm_compute; reflexivity|].
  split; [cbn; auto 10|].
  split; [reflexivity|].
  split; [vm_compute; reflexivity|].
  split; [reflexivity|]. split; [reflexivity|].
  cbn; auto 20.
Qed.

(** * Text written and text read *)

(** ** Decimal numbers: [%d] written and [%d] read *)

Section Decimal.

Import CStr.
Open Scope string_scope.
Open Scope Z_scope.

Lemma code_digit_char v : 0 <= v <= 9 -> code (digit_char v) = 48 + v.
Proof.
  intros H. unfold code, digit_char.
  rewrite nat_ascii_embedding by lia. lia.
Qed.

Lemma isdigit_digit_char v : 0 <= v <= 9 -> isdigit (digit_char v) = true.
Proof.
  intros H. unfold isdigit. rewrite code_digit_char by exact H.
  apply andb_true_iff. split; apply Z.leb_le; lia.
Qed.

Lemma dec_digits_acc f : forall v acc,
  dec_digits f v acc = dec_digits f v "" ++ acc.
Proof.
  induction f as [|f IH]; intros v acc; cbn [dec_digits]; [reflexivity|].
  destruct (v / 10 =? 0); [reflexivity|].
  rewrite (IH _ (String _ acc)), (IH _ (String _ "")).
  rewrite append_assoc. reflexivity.
Qed.

(** Reading back the digits [dec_digits] writes. *)
Lemma take_digits_dec f : forall v acc a,
  0 <= v < 10 ^ Z.of_nat f ->
  exists k, 0 <= k /\
    take_digits (dec_digits f v acc) a = take_digits acc (a * 10 ^ k + v).
Proof.
  induction f as [|f IH]; intros v acc a Hv.
  - cbn [dec_digits]. exists 0. split; [lia|]. f_equal. cbn in Hv. lia.
  - cbn [dec_digits].
    assert (Hm : 0 <= v mod 10 <= 9) by (pose proof (Z.mod_pos_bound v 10); lia).
    assert (Hd : 0 <= v / 10 < 10 ^ Z.of_nat f).
    { split; [apply Z.div_pos; lia|].
      apply Z.div_lt_upper_bound; [lia|].
      rewrite Nat2Z.inj_succ, Z.pow_succ_r in Hv by lia. lia. }
    destruct (Z.eqb_spec (v / 10) 0) as [E|E].
    + exists 1. split; [lia|]. cbn [take_digits].
      rewrite isdigit_digit_char, code_digit_char by exact Hm.
      f_equal. pose proof (Z.div_mod v 10). lia.
    + destruct (IH (v / 10) (String (digit_char (v mod 10)) acc) a Hd)
        as (k & Hk & ->).
      exists (k + 1). split; [lia|]. cbn [take_digits].
      rewrite isdigit_digit_char, code_digit_char by exact Hm.
      f_equal. rewrite Z.pow_add_r by lia.
      pose proof (Z.div_mod v 10). lia.
Qed.

Lemma fmt_u_fuel v : 0 <= v -> v < 10 ^ Z.of_nat (S (Z.to_nat (Z.log2 v))).
Proof.
  intros H. destruct (Z.eq_dec v 0) as [->|]; [cbn; lia|].
  pose proof (Z.log2_nonneg v).
  rewrite Nat2Z.inj_succ, Z2Nat.id by lia.
  pose proof (Z.log2_spec v ltac:(lia)) as [_ L].
  assert (2 ^ Z.succ (Z.log2 v) <= 10 ^ Z.succ (Z.log2 v))
    by (apply Z.pow_le_mono_l; lia).
  lia.
Qed.

(** The first character [dec_digits] writes is a digit. *)
Lemma dec_digits_head f v acc :
  0 <= v -> starts_with_digit (dec_digits (S f) v acc) = true.
Proof.
  revert v acc. induction f as [|f IH]; intros v acc Hv.
  - cbn [dec_digits].
    assert (Hm : 0 <= v mod 10 <= 9) by (pose proof (Z.mod_pos_bound v 10); lia).
    destruct (v / 10 =? 0); cbn [starts_with_digit];
      apply isdigit_digit_char; exact Hm.
  - change (dec_digits (S (S f)) v acc) with
      (let acc' := String (digit_char (v mod 10)) acc in
       if v / 10 =? 0 then acc' else dec_digits (S f) (v / 10) acc').
    cbv zeta.
    assert (Hm : 0 <= v mod 10 <= 9) by (pose proof (Z.mod_pos_bound v 10); lia).
    destruct (v / 10 =? 0).
    + cbn [starts_with_digit]. apply isdigit_digit_char; exact Hm.
    + apply IH. apply Z.div_pos; lia.
Qed.

Lemma starts_with_digit_app a b :
  starts_with_digit a = true -> starts_with_digit (a ++ b) = true.
Proof. destruct a; [discriminate|]. cbn. auto. Qed.

Lemma starts_with_digit_sign a :
  starts_with_digit a = true ->
  match a with
  | String c _ => is_char c "-" = false /\ is_char c "+" = false
  | EmptyString => False
  end.
Proof.
  destruct a as [|c r]; [discriminate|]. cbn [starts_with_digit].
  unfold isdigit, is_char. change (code "-") with 45. change (code "+") with 43.
  intros H. apply andb_true_iff in H. destruct H as [H1 H2].
  apply Z.leb_le in H1. split; apply Z.eqb_neq; lia.
Qed.

Lemma take_digits_stop rest a :
  starts_with_digit rest = false -> take_digits rest a = (a, rest).
Proof.
  destruct rest as [|c r]; [reflexivity|]. cbn. intros ->. reflexivity.
Qed.

Lemma scan_int_unsigned s :
  starts_with_digit s = true ->
  scan_int s = Some (CInt.stored_int (fst (take_digits s 0)),
                     snd (take_digits s 0)).
Proof.
  intros H. pose proof (starts_with_digit_sign s H) as Hs.
  unfold scan_int. destruct s as [|c r]; [destruct Hs|].
  destruct Hs as [-> ->]. rewrite H.
  destruct (take_digits (String c r) 0). reflexivity.
Qed.

Lemma scan_int_minus s :
  starts_with_digit s = true ->
  scan_int (String "-" s)
  = Some (CInt.stored_int (- fst (take_digits s 0)),
          snd (take_digits s 0)).
Proof.
  intros H. unfold scan_int.
  replace (is_char "-" "-") with true by reflexivity.
  rewrite H. destruct (take_digits s 0). reflexivity.
Qed.

Lemma take_digits_fmt_u v rest :
  0 <= v -> starts_with_digit rest = false ->
  take_digits (fmt_u v ++ rest) 0 = (v, rest) /\
  starts_with_digit (fmt_u v ++ rest) = true.
Proof.
  intros Hv Hr. unfold fmt_u. rewrite <- dec_digits_acc. split.
  - destruct (take_digits_dec _ v rest 0 (conj Hv (fmt_u_fuel v Hv)))
      as (k & _ & ->).
    rewrite take_digits_stop by exact Hr. f_equal; lia.
  - apply dec_digits_head. exact Hv.
Qed.

(** A number written with [%d] and followed by something that is not a
    digit is read by [%d] as the [int] its low 32 bits make. *)
Lemma scan_int_fmt_d_stored v rest :
  starts_with_digit rest = false ->
  scan_int (fmt_d v ++ rest) = Some (CInt.stored_int v, rest).
Proof.
  intros Hr. unfold fmt_d.
  destruct (Z.ltb_spec v 0) as [Hv|Hv].
  - cbn [append].
    destruct (take_digits_fmt_u (- v) rest ltac:(lia) Hr) as [T H].
    rewrite scan_int_minus by exact H. rewrite T. cbn [fst snd].
    do 3 f_equal. lia.
  - destruct (take_digits_fmt_u v rest Hv Hr) as [T H].
    rewrite scan_int_unsigned by exact H. rewrite T. reflexivity.
Qed.

(** The value of an [int] is kept on the way to a [long] and back. *)
Lemma stored_int_id v : CInt.is_int v -> CInt.stored_int v = v.
Proof.
  intros H. unfold CInt.stored_int, CInt.to_long.
  assert (B : CInt.LONG_MIN <= v <= CInt.LONG_MAX).
  { unfold CInt.is_int, CInt.INT_MIN, CInt.INT_MAX in H.
    unfold CInt.LONG_MIN, CInt.LONG_MAX. lia. }
  rewrite Z.min_r, Z.max_r by lia. now apply to_int_id.
Qed.

(** What [%d] stores, in numbers: the value, brought into the range of
    [long], taken modulo [2^32] into the range of [int]; an [int] is
    stored as it is. *)
Lemma stored_int_value v :
  (CInt.is_int v -> CInt.stored_int v = v) /\
  CInt.stored_int v
  = (Z.max (- 2 ^ 63) (Z.min (2 ^ 63 - 1) v) + 2 ^ 31) mod 2 ^ 32 - 2 ^ 31.
Proof. split; [apply stored_int_id|reflexivity]. Qed.

(** An [int] written with [%d] and followed by something that is not a
    digit is read back by [%d]. *)
Lemma scan_int_fmt_d v rest :
  CInt.is_int v ->
  starts_with_digit rest = false ->
  scan_int (fmt_d v ++ rest) = Some (v, rest).
Proof.
  intros Hi Hr. rewrite scan_int_fmt_d_stored by exact Hr.
  now rewrite stored_int_id.
Qed.

(** The number of digits written. *)
Lemma dec_digits_length f : forall v acc k,
  0 <= v < 10 ^ Z.of_nat k -> (1 <= k)%nat ->
  (String.length (dec_digits f v acc) <= k + String.length acc)%nat.
Proof.
  induction f as [|f IH]; intros v acc k Hv Hk; cbn [dec_digits]; [lia|].
  destruct (Z.eqb_spec (v / 10) 0) as [E|E]; [cbn [String.length]; lia|].
  assert (H10 : 10 <= v).
  { destruct (Z.lt_ge_cases v 10) as [L|L]; [|exact L].
    exfalso. apply E. apply Z.div_small. lia. }
  destruct k as [|[|k]]; [lia| |].
  - change (10 ^ Z.of_nat 1) with 10 in Hv. lia.
  - specialize (IH (v / 10) (String (digit_char (v mod 10)) acc) (S k)).
    cbn [String.length] in IH.
    assert (Hd : 0 <= v / 10 < 10 ^ Z.of_nat (S k)).
    { split; [apply Z.div_pos; lia|].
      apply Z.div_lt_upper_bound; [lia|].
      rewrite (Nat2Z.inj_succ (S k)), Z.pow_succ_r in Hv by lia. lia. }
    specialize (IH Hd ltac:(lia)). lia.
Qed.

(** A non-negative [int] is written with at most ten digits. *)
Lemma strlen_fmt_d_int v :
  0 <= v <= CInt.INT_MAX -> strlen (fmt_d v) <= 10.
Proof.
  intros H. unfold fmt_d.
  replace (v <? 0) with false by (symmetry; apply Z.ltb_ge; lia).
  unfold fmt_u, strlen.
  pose proof (dec_digits_length (S (Z.to_nat (Z.log2 v))) v "" 10) as L.
  cbn [String.length] in L.
  assert (Hv : 0 <= v < 10 ^ Z.of_nat 10).
  { unfold CInt.INT_MAX in H. change (10 ^ Z.of_nat 10) with 10000000000.
    lia. }
  specialize (L Hv ltac:(lia)). lia.
Qed.

Lemma fmt_d_starts_nonspace v :
  match fmt_d v with
  | String c _ => isspace c = false
  | EmptyString => False
  end.
Proof.
  unfold fmt_d. destruct (Z.ltb_spec v 0) as [Hv|Hv]; [reflexivity|].
  unfold fmt_u.
  pose proof (dec_digits_head (Z.to_nat (Z.log2 v)) v "" Hv) as Hh.
  destruct (dec_digits _ v "") as [|c r]; [discriminate|].
  cbn [starts_with_digit] in Hh. unfold isdigit in Hh. unfold isspace.
  apply andb_true_iff in Hh. destruct Hh as [H1 H2]. apply Z.leb_le in H1.
  apply Bool.orb_false_iff. split; [apply Z.eqb_neq; lia|].
  apply Bool.andb_false_iff. right. apply Z.leb_gt. lia.
Qed.

End Decimal.

(** ** Hex bytes: [%02x] written and the parsing loop of [got_data] *)

Section HexBytes.

Import Tcp2 CStr.
Open Scope string_scope.
Open Scope Z_scope.
Open Scope list_scope.

Lemma hex_char_ok d :
  0 <= d < 16 ->
  is_hex (hex_char d) = true /\ hex_val (hex_char d) = d /\
  is_char (hex_char d) NUL = false /\ is_char (hex_char d) SP = false.
Proof.
  intros H.
  assert (Hc : d = 0 \/ d = 1 \/ d = 2 \/ d = 3 \/ d = 4 \/ d = 5 \/ d = 6
               \/ d = 7 \/ d = 8 \/ d = 9 \/ d = 10 \/ d = 11 \/ d = 12
               \/ d = 13 \/ d = 14 \/ d = 15) by lia.
  repeat (destruct Hc as [->|Hc]; [vm_compute; auto|]).
  subst d. vm_compute. auto.
Qed.

(** The text [send_data] appends for the bytes of an element. *)
Lemma data_cmd_hex_text bs : forall acc,
  fold_left (fun acc v => (acc ++ " " ++ fmt_02x v)%string) bs acc
  = (acc ++ hex_text bs)%string.
Proof.
  induction bs as [|b r IH]; intros acc; cbn [fold_left hex_text].
  - symmetry. apply append_nil_r.
  - rewrite IH. rewrite !append_assoc. reflexivity.
Qed.

(** The parsing loop on the digits of one byte. *)
Lemma parse_hex_byte b rest len l data_in :
  is_byte b ->
  parse_hex (fmt_02x b ++ rest) len l 0 data_in
  = parse_hex rest len l b data_in.
Proof.
  intros Hb. unfold is_byte in Hb. unfold fmt_02x. cbn [append].
  assert (H1 : 0 <= b / 16 < 16)
    by (split; [apply Z.div_pos; lia|apply Z.div_lt_upper_bound; lia]).
  assert (H2 : 0 <= b mod 16 < 16) by (apply Z.mod_pos_bound; lia).
  destruct (hex_char_ok _ H1) as (A1 & A2 & A3 & A4).
  destruct (hex_char_ok _ H2) as (B1 & B2 & B3 & B4).
  cbn [parse_hex]. rewrite A3, A4, A1, B3, B4, B1, A2, B2.
  f_equal. pose proof (Z.div_mod b 16). lia.
Qed.

(** Round trip of the bytes of an element: what the sender writes after
    the first space is read back by the parsing loop. *)
Lemma parse_hex_text : forall r b len l data_in,
  is_byte b -> Forall is_byte r ->
  len = l + 1 + Z.of_nat (List.length r) ->
  parse_hex (fmt_02x b ++ hex_text r) len l 0 data_in
  = Some (data_in ++ b :: r).
Proof.
  induction r as [|b' r IH]; intros b len l data_in Hb Hr Hlen.
  - rewrite parse_hex_byte by exact Hb. cbn [hex_text parse_hex].
    cbn [List.length] in Hlen.
    replace (l <? len) with true by (symmetry; apply Z.ltb_lt; lia).
    replace (l + 1 =? len) with true by (symmetry; apply Z.eqb_eq; lia).
    unfold to_char. rewrite Z.mod_small by exact Hb. reflexivity.
  - rewrite parse_hex_byte by exact Hb. cbn [hex_text append parse_hex].
    cbn [List.length] in Hlen.
    replace (is_char " " NUL) with false by reflexivity.
    replace (is_char " " SP) with true by reflexivity.
    replace (l <? len) with true by (symmetry; apply Z.ltb_lt; lia).
    replace (l + 1 =? len) with false by (symmetry; apply Z.eqb_neq; lia).
    inversion Hr as [|? ? Hb' Hr']; subst.
    rewrite IH; [|exact Hb'|exact Hr'|lia].
    unfold to_char. rewrite Z.mod_small by exact Hb.
    rewrite <- app_assoc. reflexivity.
Qed.

End HexBytes.

(** ** A data command at the receiver *)

Ltac str_norm :=
  repeat first [rewrite append_assoc | progress cbn [append]].

Section DataCommandText.

Import Tcp2 CStr.
Open Scope string_scope.
Open Scope Z_scope.

Lemma is_char_refl c : is_char c c = true.
Proof. apply Z.eqb_refl. Qed.

Lemma skip_ws_stop s :
  match s with String c _ => isspace c = false | EmptyString => True end ->
  skip_ws s = s.
Proof. destruct s as [|c r]; [reflexivity|]. cbn. intros ->. reflexivity. Qed.

Lemma drop_app a b : drop (strlen a) (a ++ b) = b.
Proof.
  unfold drop, strlen. rewrite Nat2Z.id.
  induction a as [|c a IH]; cbn; [reflexivity|exact IH].
Qed.

Lemma char_at_app a c b : char_at (a ++ String c b) (strlen a) = c.
Proof.
  unfold char_at, strlen. rewrite Nat2Z.id.
  induction a as [|x a IH]; cbn; [reflexivity|exact IH].
Qed.

Lemma strncmp_eq_prefix a b :
  strncmp_eq (a ++ b) a (String.length a) = true.
Proof.
  induction a as [|c a IH]; cbn; [destruct b; reflexivity|].
  rewrite is_char_refl, IH. reflexivity.
Qed.

Lemma strlen_nonneg s : 0 <= strlen s.
Proof. unfold strlen. lia. Qed.

Lemma data_cmd_text n dims idx s bs :
  data_cmd n dims idx s bs
  = "data " ++ fmt_d s ++ " " ++ pos_tag n dims idx ++ hex_text bs.
Proof.
  unfold data_cmd, data_text, pos_tag. rewrite data_cmd_hex_text.
  str_norm. reflexivity.
Qed.

(** The conversions of [sscanf], one at a time. *)
Lemma scan_word w fmt s total c word r :
  skip_ws s = s -> take_word w s = (word, r) -> word <> "" ->
  scan (D_s w :: fmt) s total c
  = (fst (scan fmt r total (c + 1)),
     A_str word :: snd (scan fmt r total (c + 1))).
Proof.
  intros Hs Hw Hne. cbn [scan]. rewrite Hs, Hw.
  destruct word; [congruence|]. destruct (scan fmt r total (c + 1)).
  reflexivity.
Qed.

Lemma scan_number fmt s total c v r :
  scan_int (skip_ws s) = Some (v, r) ->
  scan (D_d :: fmt) s total c
  = (fst (scan fmt r total (c + 1)),
     A_int v :: snd (scan fmt r total (c + 1))).
Proof.
  intros Hi. cbn [scan]. rewrite Hi.
  destruct (scan fmt r total (c + 1)). reflexivity.
Qed.

Lemma skip_ws_space s : skip_ws (String " " s) = skip_ws s.
Proof. reflexivity. Qed.

Lemma skip_ws_fmt_d v rest : skip_ws (fmt_d v ++ rest) = fmt_d v ++ rest.
Proof.
  apply skip_ws_stop. pose proof (fmt_d_starts_nonspace v) as H.
  destruct (fmt_d v); [destruct H|exact H].
Qed.

(** What [sscanf] reads from a data command as [send_data] writes it:
    the verb, the length, and the position of the tag. *)
Lemma sscanf_data_cmd n dims idx s bs :
  CInt.is_int s ->
  sscanf (data_cmd n dims idx s bs) data_fmt
  = (2, [A_str "data"; A_int s; A_int (strlen ("data " ++ fmt_d s ++ " "))]).
Proof.
  intros Hs.
  rewrite data_cmd_text. unfold sscanf, data_fmt.
  set (rest := pos_tag n dims idx ++ hex_text bs).
  assert (Hrest : rest = String "(" (fmt_d n ++ ":" ++ index_text dims idx
                                      ++ ")" ++ hex_text bs)).
  { unfold rest, pos_tag. str_norm. reflexivity. }
  set (total := strlen ("data " ++ fmt_d s ++ " " ++ rest)).
  rewrite (scan_word 20 _ _ total 0 "data" (" " ++ fmt_d s ++ " " ++ rest));
    [|reflexivity|reflexivity|discriminate].
  cbn [scan]. change (" " ++ fmt_d s ++ " " ++ rest)
    with (String " " (fmt_d s ++ " " ++ rest)).
  rewrite skip_ws_space, !skip_ws_fmt_d.
  rewrite scan_int_fmt_d by (exact Hs || reflexivity).
  change (" " ++ rest) with (String " " rest). rewrite skip_ws_space.
  rewrite (skip_ws_stop rest) by (rewrite Hrest; reflexivity).
  cbn [fst snd].
  replace (total - strlen rest) with (strlen ("data " ++ fmt_d s ++ " "));
    [reflexivity|].
  unfold total. rewrite !strlen_append. lia.
Qed.

(** The first word of a data command is [data]. *)
Lemma data_cmd_verb_fits n dims idx s bs :
  verb_fits (data_cmd n dims idx s bs).
Proof.
  unfold verb_fits. rewrite data_cmd_text.
  change (fst (take_word 20 (skip_ws ("data " ++ fmt_d s ++ " "
                                      ++ pos_tag n dims idx ++ hex_text bs))))
    with "data".
  cbn. lia.
Qed.

(** The call of [istr] for a tag that fits. *)
Lemma istr_fits n dims idx w :
  tag_fits n dims idx ->
  istr dims idx w
  = Ret (index_text dims idx) (set_istr_str w (index_text dims idx)).
Proof.
  intros (Hd & Hi & _). unfold istr. unfold index_text in *.
  destruct (istr_text dims idx) as [t|] eqn:E.
  - replace (50 <=? strlen t) with false by (symmetry; apply Z.leb_gt; lia).
    reflexivity.
  - exfalso. unfold istr_text in E.
    destruct (Z.eqb_spec dims 1); [discriminate|].
    destruct (Z.eqb_spec dims 2); [discriminate|].
    destruct (Z.eqb_spec dims 3); [discriminate|]. lia.
Qed.

(** The tag of an element whose number is a non-negative [int] fits
    [pstr[70]] when the text of its index fits the buffer of [istr]. *)
Lemma tag_fits_int n dims idx :
  0 <= n <= CInt.INT_MAX -> 1 <= dims <= 3 ->
  strlen (index_text dims idx) < 50 ->
  tag_fits n dims idx.
Proof.
  intros Hn Hd Hi. split; [exact Hd|]. split; [exact Hi|].
  unfold pos_tag. rewrite !strlen_append.
  pose proof (strlen_fmt_d_int n Hn).
  unfold strlen at 1 3 5. cbn [String.length]. lia.
Qed.

Lemma skip_spaces_hex_text b r :
  is_byte b -> skip_spaces (hex_text (b :: r)) = fmt_02x b ++ hex_text r.
Proof.
  intros Hb. cbn [hex_text append].
  change (skip_spaces (String " " (fmt_02x b ++ hex_text r)))
    with (skip_spaces (fmt_02x b ++ hex_text r)).
  unfold fmt_02x. cbn [append skip_spaces].
  assert (H1 : 0 <= b / 16 < 16).
  { unfold is_byte in Hb.
    split; [apply Z.div_pos; lia|apply Z.div_lt_upper_bound; lia]. }
  destruct (hex_char_ok _ H1) as (_ & _ & _ & ->). reflexivity.
Qed.

(** The payload [got_data] finds in a data command whose tag names the
    position expected. *)
Lemma data_payload_data_cmd n dims idx s bs :
  data_payload (data_cmd n dims idx s bs)
               (strlen ("data " ++ fmt_d s ++ " ")) (pos_tag n dims idx)
  = Some (skip_spaces (hex_text bs)).
Proof.
  rewrite data_cmd_text. unfold data_payload.
  set (hd := "data " ++ fmt_d s ++ " ").
  replace ("data " ++ fmt_d s ++ " " ++ pos_tag n dims idx ++ hex_text bs)
    with (hd ++ pos_tag n dims idx ++ hex_text bs)
    by (unfold hd; str_norm; reflexivity).
  assert (Ht : pos_tag n dims idx ++ hex_text bs
               = String "(" (fmt_d n ++ ":" ++ index_text dims idx ++ ")"
                               ++ hex_text bs)).
  { unfold pos_tag. str_norm. reflexivity. }
  rewrite Ht at 1. rewrite char_at_app.
  replace (is_char "(" "(") with true by reflexivity.
  rewrite drop_app. unfold strlen at 1. rewrite Nat2Z.id.
  rewrite strncmp_eq_prefix.
  rewrite <- strlen_append, <- append_assoc, drop_app. reflexivity.
Qed.

End DataCommandText.

(** ** One element, from the sender's command to the receiver's memory *)

Section ElementReceived.

Import Tcp2 CStr.
Open Scope Z_scope.

Variable lid : Z.
Variable w : World.
Variable m : Laik_Mapping.
Variable slc : Laik_Slice.
Variable blk : Z.
Variable bs v : list Z.
Variable p' : Peer.

Let p := peer (inst w) lid.
Let len := Z.of_nat (List.length bs).
Let off := layout_offset m (ridx p) * relemsize p.
Let msg := data_cmd (roff p) (dims slc) (ridx p) len bs.

Hypothesis has_map : rmap p = Some m.
Hypothesis has_slc : rslc p = Some slc.
Hypothesis has_mem : start m = Some blk.
Hypothesis credit : has_credit p.
Hypothesis size_ok : relemsize p = len.
Hypothesis size_pos : 0 < len < 100.
Hypothesis tag_ok : tag_fits (roff p) (dims slc) (ridx p).
Hypothesis bytes_ok : Forall is_byte bs.
Hypothesis advance : recv_advance slc p = Some p'.
Hypothesis value :
  element_value m (rro p) (read_bytes (mem w blk) off len) bs = Some v.

Ltac elem_done :=
  split; [reflexivity|]; split; [reflexivity|];
  split; [cbn [trace emit set_inst set_mem]; rewrite ?writes_app;
          cbn [writes]; rewrite ?app_nil_r; reflexivity|];
  split; reflexivity.

Lemma got_data_element :
  exists w',
    got_data lid msg w = Ret tt w' /\
    mem w' = upd (mem w) blk (write_bytes (mem w blk) off v) /\
    inst w' = element_received (inst w) lid p' /\
    writes (trace w') = writes (trace w) /\
    os_open w' = os_open w /\ dials w' = dials w.
Proof.
  assert (Hno : no_receive p = false).
  { unfold no_receive. destruct credit as [C1 C2].
    apply Bool.orb_false_iff. split; apply Z.eqb_neq; lia. }
  assert (Hlen : CInt.is_int len).
  { unfold CInt.is_int, CInt.INT_MIN, CInt.INT_MAX. lia. }
  assert (Hscan : sscanf msg data_fmt
                  = (2, [A_str "data"; A_int len;
                         A_int (strlen ("data " ++ fmt_d len ++ " "))]))
    by (apply sscanf_data_cmd; exact Hlen).
  pose proof (got_data_checks lid msg w m slc) as G.
  rewrite Hscan in G. cbn [fst snd] in G.
  specialize (G (data_cmd_verb_fits _ _ _ _ _) ltac:(lia) Hno has_map has_slc).
  change (arg_int 1 _) with len in G.
  change (arg_int 2 [A_str "data"; A_int len;
                     A_int (strlen ("data " ++ fmt_d len ++ " "))])
    with (strlen ("data " ++ fmt_d len ++ " ")) in G.
  fold p in G.
  rewrite (istr_fits _ _ _ w tag_ok) in G. cbv zeta in G.
  change ("(" ++ fmt_d (roff p) ++ ":" ++ index_text (dims slc) (ridx p)
              ++ ")")%string
    with (pos_tag (roff p) (dims slc) (ridx p)) in G.
  replace (70 <=? strlen (pos_tag (roff p) (dims slc) (ridx p))) with false
    in G by (symmetry; apply Z.leb_gt; apply tag_ok).
  unfold msg in G at 2. rewrite data_payload_data_cmd in G.
  replace (relemsize p =? len) with true in G
    by (symmetry; apply Z.eqb_eq; exact size_ok).
  replace (len <? 100) with true in G by (symmetry; apply Z.ltb_lt; lia).
  destruct bs as [|b r] eqn:Ebs; [cbn in len; subst len; lia|].
  inversion bytes_ok as [|? ? Hb Hr]; subst.
  rewrite skip_spaces_hex_text in G by exact Hb.
  rewrite (parse_hex_text r b len 0 []) in G;
    [|exact Hb|exact Hr|subst len; cbn [List.length]; lia].
  cbn [app] in G. rewrite G. clear G.
  unfold store_element. rewrite has_mem.
  unfold element_value in value. fold off.
  fold p. rewrite advance.
  unfold element_received.
  destruct (rro p) eqn:Ero.
  1:{ injection value as <-.
      unfold bind, modify_inst, laik_log, ret.
      destruct (len =? 8); destruct (roff p' =? rcount p');
        eexists; (split; [reflexivity|]); elem_done. }
  all: destruct (reduce m) as [red|]; [|discriminate];
    injection value as <-;
    unfold bind, modify_inst, laik_log, ret;
    destruct (len =? 8); destruct (roff p' =? rcount p');
    eexists; (split; [reflexivity|]); elem_done.
Qed.

End ElementReceived.


(** The bytes of an element survive the way through the text of a data
    command: the hex digits [send_data] writes for a non-empty sequence
    of bytes are read back as the same bytes by the parsing loop of
    [got_data].  An element of no bytes cannot be transferred: the loop
    fails its assertion [l < len]. *)
Theorem hex_bytes_round_trip :
  forall bs : list Z,
    Forall is_byte bs ->
    (bs <> [] ->
     Tcp2.parse_hex (Tcp2.skip_spaces (hex_text bs))
                    (Z.of_nat (List.length bs)) 0 0 [] = Some bs) /\
    (bs = [] ->
     Tcp2.parse_hex (Tcp2.skip_spaces (hex_text bs))
                    (Z.of_nat (List.length bs)) 0 0 [] = None).
Proof.
  intros bs Hb. split.
  - intros Hne. destruct bs as [|b r]; [congruence|].
    inversion Hb as [|? ? H1 H2]; subst.
    rewrite skip_spaces_hex_text by exact H1.
    rewrite (parse_hex_text r b _ 0 []); auto.
    cbn [List.length]. lia.
  - intros ->. reflexivity.
Qed.

Lemma hex_bytes_round_trip_witness :
  Tcp2.parse_hex "00 7f ff" 3 0 0 [] = Some [0; 127; 255].
Proof.
  assert (Hb : Forall is_byte [0; 127; 255])
    by (repeat constructor; unfold is_byte; lia).
  destruct (hex_bytes_round_trip [0; 127; 255] Hb) as [H _].
  apply H. discriminate.
Defined.

(** A data command as [send_data] builds it for element number [roff]
    at index [ridx], received while the receive posted for the peer is
    at that element, is accepted by [got_data]: the bytes of the element
    (or their reduction with the value held) are stored at the place the
    layout of the receiving mapping gives the index, the receive advances
    by one element, and the event loop is told to return when this was
    the last one.  Nothing is written to a descriptor.  The position
    tag is one that fits the buffers it is printed in. *)
Theorem got_data_accepts_sent_element :
  forall (lid : Z) (w : Tcp2.World) (m : Tcp2.Laik_Mapping)
         (slc : Laik_Slice) (blk : Z) (bs v : list Z) (p' : Tcp2.Peer),
    let p := Tcp2.peer (Tcp2.inst w) lid in
    let len := Z.of_nat (List.length bs) in
    let off := Tcp2.layout_offset m (Tcp2.ridx p) * Tcp2.relemsize p in
    Tcp2.rmap p = Some m ->
    Tcp2.rslc p = Some slc ->
    Tcp2.start m = Some blk ->
    Tcp2.has_credit p ->
    Tcp2.relemsize p = len ->
    0 < len < 100 ->
    tag_fits (Tcp2.roff p) (dims slc) (Tcp2.ridx p) ->
    Forall is_byte bs ->
    Tcp2.recv_advance slc p = Some p' ->
    element_value m (Tcp2.rro p) (Tcp2.read_bytes (Tcp2.mem w blk) off len) bs
      = Some v ->
    exists w',
      Tcp2.got_data lid
        (Tcp2.data_cmd (Tcp2.roff p) (dims slc) (Tcp2.ridx p) len bs) w
        = Tcp2.Ret tt w' /\
      Tcp2.mem w' =
        Tcp2.upd (Tcp2.mem w) blk (Tcp2.write_bytes (Tcp2.mem w blk) off v) /\
      Tcp2.inst w' = element_received (Tcp2.inst w) lid p' /\
      Tcp2.writes (Tcp2.trace w') = Tcp2.writes (Tcp2.trace w) /\
      Tcp2.os_open w' = Tcp2.os_open w /\ Tcp2.dials w' = Tcp2.dials w.
Proof.
  intros lid w m slc blk bs v p' p len off Hm Hs Hb Hc Hsz Hl Ht Hby Ha Hv.
  apply (got_data_element lid w m slc blk bs v p'); assumption.
Qed.

(** The theorem for the first element of the receive posted in the
    example: the command "data 1 (0:0) 2a" stores the byte 42. *)
Lemma got_data_accepts_sent_element_witness :
  exists w',
    Tcp2.got_data 1 "data 1 (0:0) 2a" ex_world_recv = Tcp2.Ret tt w' /\
    Tcp2.mem w' 0 0 = 42 /\
    Tcp2.roff (Tcp2.peer (Tcp2.inst w') 1) = 1.
Proof.
  destruct (got_data_accepts_sent_element 1 ex_world_recv ex_map ex_slice_1d
              0 [42] [42]
              (Tcp2.set_ridx
                 (Tcp2.set_roff
                    (Tcp2.posted ex_slice_1d ex_map Tcp2.LAIK_RO_None ex_peer) 1)
                 (mkIndex 1 0 0)))
    as (w' & E & Hm & Hi & _).
  - reflexivity.
  - reflexivity.
  - reflexivity.
  - split; vm_compute; reflexivity.
  - reflexivity.
  - cbn. lia.
  - unfold tag_fits. vm_compute. repeat split; discriminate.
  - repeat constructor; unfold is_byte; lia.
  - vm_compute. reflexivity.
  - reflexivity.
  - exists w'. split; [exact E|]. split.
    + rewrite Hm. reflexivity.
    + rewrite Hi. reflexivity.
Defined.

(** * The receive buffer *)

Section BufferText.

Import Tcp2 CStr.
Open Scope string_scope.
Open Scope Z_scope.

Lemma take_pad_app a b : take_pad (String.length a) (a ++ b) = a.
Proof. induction a as [|c a IH]; cbn; [reflexivity|now rewrite IH]. Qed.

Lemma drop_nat_app a b : drop_nat (String.length a) (a ++ b) = b.
Proof. induction a as [|c a IH]; cbn; [reflexivity|exact IH]. Qed.

Lemma drop_nat_add n : forall k s, drop_nat (n + k) s = drop_nat k (drop_nat n s).
Proof.
  induction n as [|n IH]; intros k s; [reflexivity|].
  destruct s as [|c s]; cbn [Nat.add drop_nat].
  - destruct k; reflexivity.
  - apply IH.
Qed.

Lemma length_append a b :
  String.length (a ++ b) = (String.length a + String.length b)%nat.
Proof. induction a as [|c a IH]; cbn; [reflexivity|now rewrite IH]. Qed.

(** Bytes written right after a text the buffer begins with. *)
Lemma buf_write_after a tail s :
  buf_write (a ++ tail) (strlen a) s
  = a ++ s ++ drop_nat (String.length s) tail.
Proof.
  unfold buf_write, strlen. rewrite Nat2Z.id, take_pad_app.
  rewrite drop_nat_add, drop_nat_app. reflexivity.
Qed.

Lemma char_at_nat_app_l a : forall b k,
  (k < String.length a)%nat -> char_at_nat (a ++ b) k = char_at_nat a k.
Proof.
  induction a as [|c a IH]; intros b k Hk; cbn in Hk; [lia|].
  destruct k; cbn; [reflexivity|]. apply IH. lia.
Qed.

Lemma plain_app a b : plain (a ++ b) = plain a && plain b.
Proof.
  induction a as [|c a IH]; cbn [append plain]; [reflexivity|].
  rewrite IH, !Bool.andb_assoc. reflexivity.
Qed.

Lemma plain_char_at s : forall k,
  plain s = true -> (k < String.length s)%nat ->
  is_char (char_at_nat s k) NUL = false /\
  is_char (char_at_nat s k) CR = false /\
  is_char (char_at_nat s k) NL = false.
Proof.
  induction s as [|c s IH]; intros k Hp Hk; cbn in Hk; [lia|].
  cbn [plain] in Hp. apply andb_true_iff in Hp. destruct Hp as [Hp Hs].
  apply andb_true_iff in Hp. destruct Hp as [Hp H3].
  apply andb_true_iff in Hp. destruct Hp as [H1 H2].
  destruct k; cbn [char_at_nat].
  - rewrite Bool.negb_true_iff in H1, H2, H3. auto.
  - apply IH; [exact Hs|lia].
Qed.

(** The C string at the start of a buffer that holds a plain text and
    then a NUL. *)
Lemma cstr_plain a b : plain a = true -> cstr (a ++ String NUL b) = a.
Proof.
  induction a as [|c a IH]; intros Hp; cbn [append cstr].
  - reflexivity.
  - cbn [plain] in Hp. apply andb_true_iff in Hp. destruct Hp as [Hp Hs].
    apply andb_true_iff in Hp. destruct Hp as [Hp _].
    apply andb_true_iff in Hp. destruct Hp as [H1 _].
    rewrite Bool.negb_true_iff in H1. rewrite H1, IH by exact Hs.
    reflexivity.
Qed.

Lemma prefix_all n : forall s,
  (String.length s <= n)%nat -> prefix n s = s.
Proof.
  induction n as [|n IH]; intros s H; destruct s as [|c s]; cbn in *;
    try reflexivity; [lia|]. rewrite IH by lia. reflexivity.
Qed.

End BufferText.

Section BufferScan.

Import Tcp2 CStr.
Open Scope string_scope.
Open Scope Z_scope.

Lemma get_rbuf_some fd w buf :
  rbuf (fds (inst w) fd) = Some buf -> get_rbuf fd w = Ret buf w.
Proof. intros H. unfold get_rbuf, bind, get_inst. rewrite H. reflexivity. Qed.

(** The scanning loop passes over characters that are neither carriage
    return nor newline. *)
Lemma process_scan_plain fd buf pos1 : forall n k pos2 w,
  rbuf (fds (inst w) fd) = Some buf ->
  0 <= pos2 ->
  (forall j, (j < n)%nat ->
     is_char (char_at buf (pos2 + Z.of_nat j)) CR = false /\
     is_char (char_at buf (pos2 + Z.of_nat j)) NL = false) ->
  process_scan (n + k) fd pos1 pos2 w
  = process_scan k fd pos1 (pos2 + Z.of_nat n) w.
Proof.
  induction n as [|n IH]; intros k pos2 w Hb Hp Hc.
  - cbn [Nat.add]. f_equal. lia.
  - cbn [Nat.add process_scan].
    destruct (Hc O ltac:(lia)) as [C1 C2].
    rewrite Z.add_0_r in C1, C2.
    unfold bind at 1. rewrite (get_rbuf_some fd w buf Hb).
    rewrite C1. unfold bind at 1. unfold ret at 1.
    unfold bind at 1. rewrite (get_rbuf_some fd w buf Hb).
    rewrite C2. rewrite IH; [f_equal; lia|exact Hb|lia|].
    intros j Hj. specialize (Hc (S j) ltac:(lia)).
    replace (pos2 + 1 + Z.of_nat j) with (pos2 + Z.of_nat (S j)) by lia.
    exact Hc.
Qed.

(** At a newline the loop ends the command with a NUL and hands it to
    [got_cmd]. *)
Lemma process_scan_newline fd buf pos1 pos2 k w :
  rbuf (fds (inst w) fd) = Some buf ->
  is_char (char_at buf pos2) NL = true ->
  process_scan (S k) fd pos1 pos2 w
  = (got_cmd fd pos1
       (cstr (drop pos1 (buf_write buf pos2 (String NUL "")))) (pos2 - pos1) ;;
     process_scan k fd (pos2 + 1) (pos2 + 1))
      (set_inst w (upd_fds (inst w) fd (fun s =>
         set_rbuf s (Some (buf_write buf pos2 (String NUL "")))))).
Proof.
  intros Hb Hn. cbn [process_scan].
  assert (Hcr : is_char (char_at buf pos2) CR = false).
  { unfold is_char in *. apply Z.eqb_eq in Hn. apply Z.eqb_neq.
    rewrite Hn. discriminate. }
  unfold bind at 1. rewrite (get_rbuf_some fd w buf Hb).
  rewrite Hcr. unfold bind at 1. unfold ret at 1.
  unfold bind at 1. rewrite (get_rbuf_some fd w buf Hb).
  rewrite Hn. unfold bind at 1. unfold put_rbuf at 1, modify_inst at 1.
  unfold bind at 1.
  rewrite (get_rbuf_some fd _ (buf_write buf pos2 (String NUL ""))).
  - reflexivity.
  - cbn. rewrite upd_same. reflexivity.
Qed.

End BufferScan.

Section BufferLine.

Import Tcp2 CStr.
Open Scope string_scope.
Open Scope Z_scope.

Variable fd : Z.
Variable w : World.
Variables part tail : string.

Hypothesis fd_ok : 0 <= fd < MAX_FDS.
Hypothesis has_buf : rbuf (fds (inst w) fd) = Some (part ++ tail).
Hypothesis used_part : rbuf_used (fds (inst w) fd) = strlen part.
Hypothesis part_plain : plain part = true.

Lemma fd_ok_b : (0 <=? fd) && (fd <? MAX_FDS) = true.
Proof. apply andb_true_iff. split; [apply Z.leb_le|apply Z.ltb_lt]; lia. Qed.

(** The steps of [got_bytes] up to the scanning loop, for bytes that fit
    the buffer. *)
Lemma got_bytes_scan bytes :
  bytes <> "" -> strlen part + strlen bytes <= RBUF_LEN ->
  got_bytes fd (InRead bytes) w
  = (pos1 <- process_scan (Z.to_nat (strlen part + strlen bytes)) fd 0 0 ;;
     let used := strlen part + strlen bytes in
     let pos2 := Z.max used 0 in
     if 0 <? pos1 then
       (if pos1 <? pos2 then
          buf <- get_rbuf fd ;;
          put_rbuf fd (buf_sub buf pos1 (pos2 - pos1))
        else ret tt) ;;
       modify_inst (fun d =>
         upd_fds d fd (fun s => set_rbuf_used s (pos2 - pos1)))
     else
       modify_inst (fun d => upd_fds d fd (fun s => set_rbuf_used s used)))
      (emit
         (set_inst (emit w (EvLog (LL 1) msg_got_bytes))
            (upd_fds
               (upd_fds (inst w) fd (fun s =>
                  set_rbuf s (Some (part ++ bytes
                                      ++ drop_nat (String.length bytes) tail))))
               fd (fun s => set_rbuf_used s (strlen part + strlen bytes))))
         (EvLog (LL 1) msg_handle)).
Proof.
  intros Hne Hfit.
  assert (Hlen : 0 < strlen bytes).
  { destruct bytes; [congruence|]. unfold strlen. cbn. lia. }
  unfold got_bytes. rewrite fd_ok_b. cbn [assert].
  unfold bind at 1. unfold ret at 1. unfold bind at 1. unfold get_inst at 1.
  rewrite used_part.
  replace (strlen part =? RBUF_LEN) with false
    by (symmetry; apply Z.eqb_neq; lia).
  rewrite prefix_all by (unfold strlen in *; lia).
  unfold bind at 1. rewrite (get_rbuf_some fd w _ has_buf).
  replace (strlen bytes =? 0) with false by (symmetry; apply Z.eqb_neq; lia).
  unfold bind at 1. unfold laik_log at 1.
  unfold bind at 1. unfold put_rbuf at 1, modify_inst at 1.
  unfold bind at 1. unfold modify_inst at 1.
  rewrite buf_write_after.
  unfold process_rbuf. rewrite fd_ok_b. cbn [assert].
  unfold bind at 1. unfold ret at 1. unfold bind at 1. unfold get_inst at 1.
  cbn [inst set_inst emit fds upd_fds set_fds rbuf rbuf_used set_rbuf
       set_rbuf_used].
  rewrite !upd_same. cbn [rbuf rbuf_used set_rbuf set_rbuf_used assert].
  unfold bind at 1. unfold ret at 1.
  unfold bind at 1. unfold laik_log at 1.
  reflexivity.
Qed.

Lemma strlen_length s : strlen s = Z.of_nat (String.length s).
Proof. reflexivity. Qed.

Lemma plain_scan text rest j :
  plain text = true -> (j < String.length text)%nat ->
  is_char (char_at (text ++ rest) (0 + Z.of_nat j)) CR = false /\
  is_char (char_at (text ++ rest) (0 + Z.of_nat j)) NL = false.
Proof.
  intros Hp Hj. unfold char_at. rewrite Z.add_0_l, Nat2Z.id.
  rewrite char_at_nat_app_l by exact Hj.
  destruct (plain_char_at text j Hp Hj) as (_ & H2 & H3). auto.
Qed.

(** Bytes without a newline are kept in the buffer; no command is
    handed on. *)
Lemma got_bytes_fragment_buffered frag :
  frag <> "" -> plain frag = true ->
  strlen part + strlen frag <= RBUF_LEN ->
  exists w',
    got_bytes fd (InRead frag) w = Ret tt w' /\
    buffered fd (part ++ frag) (strlen part + strlen frag) w w'.
Proof.
  intros Hne Hp Hfit. rewrite got_bytes_scan by assumption.
  set (W := emit _ (EvLog (LL 1) msg_handle)).
  assert (HW : rbuf (fds (inst W) fd)
               = Some ((part ++ frag) ++ drop_nat (String.length frag) tail)).
  { unfold W. cbn. rewrite !upd_same. cbn. rewrite append_assoc.
    reflexivity. }
  replace (Z.to_nat (strlen part + strlen frag))
    with (String.length (part ++ frag) + 0)%nat
    by (rewrite length_append; unfold strlen; lia).
  unfold bind at 1.
  rewrite (process_scan_plain fd _ 0 _ 0 0 W HW); [|lia|].
  2:{ intros j Hj. apply plain_scan; [|exact Hj].
      rewrite plain_app, part_plain, Hp. reflexivity. }
  cbn [process_scan]. unfold ret at 1. cbv zeta.
  replace (0 <? 0) with false by reflexivity.
  unfold modify_inst. eexists. split; [reflexivity|].
  unfold buffered, W. cbn.
  split; [reflexivity|]. split; [reflexivity|]. split; [reflexivity|].
  split; [rewrite <- app_assoc; reflexivity|]. split; [reflexivity|].
  split; [intros j Hj; rewrite !upd_other by exact Hj; reflexivity|].
  rewrite !upd_same. cbn.
  split; [reflexivity|]. split; [reflexivity|]. split; [reflexivity|].
  eexists. rewrite append_assoc. reflexivity.
Qed.

(** Bytes that end a command with a newline: the command, with what the
    buffer held of it before, is handed to [got_cmd], and the buffer is
    empty afterwards. *)
Lemma got_bytes_line_buffered more :
  plain more = true ->
  strlen part + strlen more + 1 <= RBUF_LEN ->
  exists w1,
    buffered fd (part ++ more ++ String NUL "")
             (strlen part + strlen more + 1) w w1 /\
    got_bytes fd (InRead (more ++ String NL "")) w
    = (got_cmd fd 0 (part ++ more) (strlen part + strlen more) ;;
       modify_inst (fun d => upd_fds d fd (fun s => set_rbuf_used s 0))) w1.
Proof.
  intros Hp Hfit.
  assert (Hl : strlen (more ++ String NL "") = strlen more + 1).
  { rewrite strlen_append. reflexivity. }
  rewrite got_bytes_scan; [|destruct more; discriminate|lia].
  set (W := emit _ (EvLog (LL 1) msg_handle)).
  set (tail' := drop_nat (String.length (more ++ String NL "")) tail).
  assert (HW : rbuf (fds (inst W) fd)
               = Some ((part ++ more) ++ String NL tail')).
  { unfold W. cbn. rewrite !upd_same. cbn. fold tail'.
    rewrite !append_assoc. reflexivity. }
  replace (Z.to_nat (strlen part + strlen (more ++ String NL "")))
    with (String.length (part ++ more) + 1)%nat
    by (rewrite Hl, length_append; unfold strlen; lia).
  unfold bind at 1.
  rewrite (process_scan_plain fd _ 0 _ 1 0 W HW); [|lia|].
  2:{ intros j Hj. apply plain_scan; [|exact Hj].
      rewrite plain_app, part_plain, Hp. reflexivity. }
  rewrite Z.add_0_l, <- strlen_length.
  rewrite (process_scan_newline fd _ 0 _ 0 W HW)
    by (rewrite char_at_app; reflexivity).
  rewrite buf_write_after. cbn [String.length drop_nat append].
  replace (drop 0 ((part ++ more) ++ String NUL tail'))
    with ((part ++ more) ++ String NUL tail') by reflexivity.
  rewrite cstr_plain by (rewrite plain_app, part_plain, Hp; reflexivity).
  rewrite Z.sub_0_r, strlen_append.
  set (W1 := set_inst W _).
  exists W1. split.
  - unfold buffered, W1, W. cbn.
    split; [reflexivity|]. split; [reflexivity|]. split; [reflexivity|].
    split; [rewrite <- app_assoc; reflexivity|]. split; [reflexivity|].
    split; [intros j Hj; rewrite !upd_other by exact Hj; reflexivity|].
    rewrite !upd_same. cbn.
    split; [reflexivity|]. split; [reflexivity|].
    split; [rewrite strlen_append; unfold strlen; cbn [String.length]; lia|].
    exists tail'. str_norm. reflexivity.
  - unfold bind.
    destruct (got_cmd fd 0 (part ++ more) (strlen part + strlen more) W1)
      as [[] w2|x w2]; [|reflexivity].
    cbn [process_scan]. unfold ret at 1. rewrite Hl.
    replace (0 <? strlen part + strlen more + 1) with true
      by (symmetry; apply Z.ltb_lt; pose proof (strlen_nonneg part);
          pose proof (strlen_nonneg more); lia).
    rewrite Z.max_l
      by (pose proof (strlen_nonneg part); pose proof (strlen_nonneg more); lia).
    replace (strlen part + (strlen more + 1))
      with (strlen part + strlen more + 1) by lia.
    rewrite Z.ltb_irrefl. unfold ret at 1. rewrite Z.sub_diag. reflexivity.
Qed.

(** [process_rbuf] on a buffer without a newline. *)
Lemma process_rbuf_plain W text rest :
  rbuf (fds (inst W) fd) = Some (text ++ rest) ->
  rbuf_used (fds (inst W) fd) = strlen text ->
  plain text = true ->
  process_rbuf fd W
  = Ret tt (set_inst (emit W (EvLog (LL 1) msg_handle))
              (upd_fds (inst W) fd (fun s => set_rbuf_used s (strlen text)))).
Proof.
  intros HW HU Hp. unfold process_rbuf. rewrite fd_ok_b. cbn [assert].
  unfold bind at 1. unfold ret at 1. unfold bind at 1. unfold get_inst at 1.
  rewrite HW, HU. cbn [assert].
  unfold bind at 1. unfold ret at 1.
  unfold bind at 1. unfold laik_log at 1.
  set (W2 := emit W _).
  assert (HW2 : rbuf (fds (inst W2) fd) = Some (text ++ rest)) by exact HW.
  replace (Z.to_nat (strlen text)) with (String.length text + 0)%nat
    by (unfold strlen; lia).
  unfold bind at 1.
  rewrite (process_scan_plain fd _ 0 _ 0 0 W2 HW2); [|lia|].
  2:{ intros j Hj. apply plain_scan; [exact Hp|exact Hj]. }
  cbn [process_scan]. unfold ret at 1.
  replace (0 <? 0) with false by reflexivity.
  reflexivity.
Qed.

(** End of file while the buffer holds the beginning of a command. *)
Lemma got_bytes_eof_partial :
  part <> "" -> strlen part < RBUF_LEN ->
  exists w', got_bytes fd (InRead "") w = Stop AssertFailed w'.
Proof.
  intros Hne Hfit.
  assert (Hlen : 0 < strlen part).
  { destruct part; [congruence|]. unfold strlen. cbn. lia. }
  unfold got_bytes. rewrite fd_ok_b. cbn [assert].
  unfold bind at 1. unfold ret at 1. unfold bind at 1. unfold get_inst at 1.
  rewrite used_part.
  replace (strlen part =? RBUF_LEN) with false
    by (symmetry; apply Z.eqb_neq; lia).
  replace (prefix (Z.to_nat (RBUF_LEN - strlen part)) "") with ""
    by (destruct (Z.to_nat (RBUF_LEN - strlen part)); reflexivity).
  replace (strlen "" =? 0) with true by reflexivity.
  unfold bind at 1. rewrite (get_rbuf_some fd w _ has_buf).
  unfold bind at 1. unfold put_rbuf at 1, modify_inst at 1.
  rewrite buf_write_after. cbn [String.length append].
  set (W := set_inst w _).
  assert (HW : rbuf (fds (inst W) fd)
               = Some (part ++ String NL (drop_nat 1 tail))).
  { unfold W. cbn. rewrite upd_same. reflexivity. }
  assert (HU : rbuf_used (fds (inst W) fd) = strlen part).
  { unfold W. cbn. rewrite upd_same. exact used_part. }
  unfold bind at 1.
  rewrite (process_rbuf_plain W part _ HW HU part_plain).
  unfold bind at 1. unfold get_inst at 1.
  cbn [inst set_inst fds upd_fds set_fds]. rewrite upd_same.
  cbn [rbuf_used set_rbuf_used].
  replace (strlen part =? 0) with false by (symmetry; apply Z.eqb_neq; lia).
  cbn [assert]. unfold bind, stop. eexists. reflexivity.
Qed.

End BufferLine.



(** * Registrations in the event loop *)

Section Registrations.

Import Tcp2 CStr.
Open Scope Z_scope.

Lemma lower_maxfds_some n : forall rs m m',
  lower_maxfds n rs m = Some m' ->
  rs m' = true /\ m' <= m /\ forall k, m' < k <= m -> rs k = false.
Proof.
  induction n as [|n IH]; intros rs m m' H; cbn [lower_maxfds] in H;
    destruct (rs m) eqn:E.
  - injection H as <-. split; [exact E|]. split; [lia|]. intros k Hk. lia.
  - discriminate.
  - injection H as <-. split; [exact E|]. split; [lia|]. intros k Hk. lia.
  - destruct (IH rs (m - 1) m' H) as (H1 & H2 & H3).
    split; [exact H1|]. split; [lia|]. intros k Hk.
    destruct (Z.eq_dec k m) as [->|]; [exact E|]. apply H3. lia.
Qed.

Lemma lower_maxfds_found n : forall rs m k,
  rs k = true -> m - Z.of_nat n <= k <= m ->
  exists m', lower_maxfds n rs m = Some m'.
Proof.
  induction n as [|n IH]; intros rs m k Hk Hr; cbn [lower_maxfds].
  - replace m with k by lia. rewrite Hk. eauto.
  - destruct (rs m) eqn:E; [eauto|].
    apply (IH rs (m - 1) k Hk).
    destruct (Z.eq_dec k m) as [->|]; [congruence|lia].
Qed.

Lemma add_rfd_ret fd c w :
  fd < MAX_FDS -> cb (fds (inst w) fd) = cb_none ->
  add_rfd fd c w
  = Ret tt (set_inst w
      (let d := set_rset (inst w) (upd (rset (inst w)) fd true) in
       let d := if maxfds d <? fd then set_maxfds d fd else d in
       set_fds d (upd (fds d) fd (mkFDState (-1) c 0 (Some ""%string))))).
Proof.
  intros H1 H2. unfold add_rfd.
  replace (fd <? MAX_FDS) with true by (symmetry; apply Z.ltb_lt; lia).
  cbn [assert]. unfold bind at 1. unfold ret at 1.
  unfold bind at 1. unfold get_inst at 1. rewrite H2. cbn [cb_is_set negb assert].
  unfold bind at 1. unfold ret at 1. reflexivity.
Qed.

Lemma add_rfd_stop fd c w :
  ~ (fd < MAX_FDS /\ cb (fds (inst w) fd) = cb_none) ->
  add_rfd fd c w = Stop AssertFailed w.
Proof.
  intros H. unfold add_rfd.
  destruct (Z.ltb_spec fd MAX_FDS) as [H1|H1]; cbn [assert]; [|reflexivity].
  unfold bind at 1. unfold ret at 1.
  unfold bind at 1. unfold get_inst at 1.
  destruct (cb (fds (inst w) fd)) eqn:E; try reflexivity.
  exfalso. apply H. split; [exact H1|reflexivity].
Qed.

(** What [rm_rfd] does once its assertions hold; [m] is the value of
    [maxfds] its loop ends with. *)
Lemma rm_rfd_run fd w :
  fd < MAX_FDS -> cb_is_set (cb (fds (inst w) fd)) = true ->
  let d1 := set_rset (inst w) (upd (rset (inst w)) fd false) in
  rm_rfd fd w =
    if fd =? maxfds (inst w) then
      match lower_maxfds (Z.to_nat (maxfds d1)) (rset d1) (maxfds d1) with
      | Some m =>
          Ret tt (set_inst w (upd_fds (set_maxfds d1 m) fd (fun s =>
                    set_rbuf (set_cb s cb_none) None)))
      | None => Stop Undefined (set_inst w d1)
      end
    else
      Ret tt (set_inst w (upd_fds d1 fd (fun s =>
                set_rbuf (set_cb s cb_none) None))).
Proof.
  intros H1 H2 d1. unfold rm_rfd.
  replace (fd <? MAX_FDS) with true by (symmetry; apply Z.ltb_lt; lia).
  cbn [assert]. unfold bind at 1. unfold ret at 1.
  unfold bind at 1. unfold get_inst at 1. rewrite H2. cbn [assert].
  unfold bind at 1. unfold ret at 1.
  unfold bind at 1. unfold modify_inst at 1.
  unfold bind at 1. unfold get_inst at 1.
  cbn [inst set_inst]. fold d1.
  change (maxfds d1) with (maxfds (inst w)).
  destruct (fd =? maxfds (inst w)).
  - unfold bind at 1.
    destruct (lower_maxfds _ _ _) as [m|]; [|reflexivity].
    reflexivity.
  - reflexivity.
Qed.

(** [rm_rfd] of a registered descriptor that is not the only one up to
    [maxfds]: what it leaves behind. *)
Lemma rm_rfd_effect fd w :
  fd < MAX_FDS -> cb_is_set (cb (fds (inst w) fd)) = true ->
  fd <> maxfds (inst w) \/
    (exists k, 0 <= k < fd /\ rset (inst w) k = true) ->
  exists w',
    rm_rfd fd w = Ret tt w' /\
    trace w' = trace w /\ mem w' = mem w /\ os_open w' = os_open w /\
    dials w' = dials w /\
    rset (inst w') fd = false /\
    cb (fds (inst w') fd) = cb_none /\
    rbuf (fds (inst w') fd) = None /\
    peer (inst w') = peer (inst w) /\
    exit (inst w') = exit (inst w) /\
    (forall k, k <> fd ->
       rset (inst w') k = rset (inst w) k /\
       fds (inst w') k = fds (inst w) k).
Proof.
  intros H1 H2 H3. rewrite (rm_rfd_run fd w H1 H2). cbv zeta.
  cbn [maxfds set_rset rset].
  assert (Hdone : forall m,
    let w' := set_inst w (upd_fds (set_maxfds
                (set_rset (inst w) (upd (rset (inst w)) fd false)) m) fd
                (fun s => set_rbuf (set_cb s cb_none) None)) in
    trace w' = trace w /\ mem w' = mem w /\ os_open w' = os_open w /\
    dials w' = dials w /\
    rset (inst w') fd = false /\
    cb (fds (inst w') fd) = cb_none /\
    rbuf (fds (inst w') fd) = None /\
    peer (inst w') = peer (inst w) /\
    exit (inst w') = exit (inst w) /\
    (forall k, k <> fd ->
       rset (inst w') k = rset (inst w) k /\
       fds (inst w') k = fds (inst w) k)).
  { intros m. unfold upd_fds. cbn.
    split; [reflexivity|]. split; [reflexivity|]. split; [reflexivity|].
    split; [reflexivity|]. split; [apply upd_same|]. rewrite !upd_same. cbn.
    split; [reflexivity|]. split; [reflexivity|]. split; [reflexivity|].
    split; [reflexivity|].
    intros k Hk. rewrite !upd_other by exact Hk. split; reflexivity. }
  destruct (Z.eqb_spec fd (maxfds (inst w))) as [Em|Em].
  - destruct H3 as [H3|(k & Hk & Hs)]; [contradiction|].
    destruct (lower_maxfds_found (Z.to_nat (maxfds (inst w)))
                (upd (rset (inst w)) fd false) (maxfds (inst w)) k)
      as (m & ->).
    + rewrite upd_other by lia. exact Hs.
    + lia.
    + eexists. split; [reflexivity|]. apply Hdone.
  - eexists. split; [reflexivity|].
    exact (Hdone (maxfds (inst w))).
Qed.

End Registrations.

(** [add_rfd] and [rm_rfd] keep every descriptor of the read set within
    [maxfds], the bound [select] is called with.  [add_rfd] registers a
    descriptor that has no callback yet, with an empty receive buffer and
    no peer; [rm_rfd] takes a registered descriptor out of the read set
    and frees its buffer.  When the descriptor was [maxfds], [rm_rfd]
    lowers [maxfds] to the next descriptor of the read set below it, the
    highest one still in the set; otherwise [maxfds] stays.  [rm_rfd]
    returns whenever the descriptor is not the highest one or a lower one
    is still in the set.  Other descriptors and the peer table are not
    touched. *)
Theorem rfd_keeps_read_set_bounded :
  forall (fd : Z) (w : Tcp2.World),
    rset_bounded (Tcp2.inst w) ->
    (forall c,
       fd < Tcp2.MAX_FDS -> Tcp2.cb (Tcp2.fds (Tcp2.inst w) fd) = Tcp2.cb_none ->
       exists w',
         Tcp2.add_rfd fd c w = Tcp2.Ret tt w' /\
         rset_bounded (Tcp2.inst w') /\
         Tcp2.maxfds (Tcp2.inst w') = Z.max (Tcp2.maxfds (Tcp2.inst w)) fd /\
         Tcp2.rset (Tcp2.inst w') fd = true /\
         Tcp2.fds (Tcp2.inst w') fd
           = Tcp2.mkFDState (-1) c 0 (Some ""%string) /\
         (forall k, k <> fd ->
            Tcp2.rset (Tcp2.inst w') k = Tcp2.rset (Tcp2.inst w) k /\
            Tcp2.fds (Tcp2.inst w') k = Tcp2.fds (Tcp2.inst w) k) /\
         Tcp2.peer (Tcp2.inst w') = Tcp2.peer (Tcp2.inst w)) /\
    (forall w',
       Tcp2.rm_rfd fd w = Tcp2.Ret tt w' ->
       rset_bounded (Tcp2.inst w') /\
       Tcp2.rset (Tcp2.inst w') fd = false /\
       Tcp2.cb (Tcp2.fds (Tcp2.inst w') fd) = Tcp2.cb_none /\
       Tcp2.rbuf (Tcp2.fds (Tcp2.inst w') fd) = None /\
       (forall k, k <> fd ->
          Tcp2.rset (Tcp2.inst w') k = Tcp2.rset (Tcp2.inst w) k /\
          Tcp2.fds (Tcp2.inst w') k = Tcp2.fds (Tcp2.inst w) k) /\
       Tcp2.peer (Tcp2.inst w') = Tcp2.peer (Tcp2.inst w) /\
       (fd <> Tcp2.maxfds (Tcp2.inst w) ->
          Tcp2.maxfds (Tcp2.inst w') = Tcp2.maxfds (Tcp2.inst w)) /\
       (fd = Tcp2.maxfds (Tcp2.inst w) ->
          Tcp2.maxfds (Tcp2.inst w') < fd /\
          Tcp2.rset (Tcp2.inst w) (Tcp2.maxfds (Tcp2.inst w')) = true /\
          forall k, Tcp2.maxfds (Tcp2.inst w') < k < fd ->
                    Tcp2.rset (Tcp2.inst w) k = false)) /\
    (fd < Tcp2.MAX_FDS ->
     Tcp2.cb_is_set (Tcp2.cb (Tcp2.fds (Tcp2.inst w) fd)) = true ->
     fd <> Tcp2.maxfds (Tcp2.inst w) \/
       (exists k, 0 <= k < fd /\ Tcp2.rset (Tcp2.inst w) k = true) ->
     exists w', Tcp2.rm_rfd fd w = Tcp2.Ret tt w').
Proof.
  intros fd w Hb. split; [|split].
  - intros c H1 H2. rewrite add_rfd_ret by assumption.
    eexists. split; [reflexivity|]. cbn [Tcp2.inst Tcp2.set_inst].
    cbv zeta. cbn [Tcp2.maxfds Tcp2.set_rset Tcp2.rset].
    destruct (Z.ltb_spec (Tcp2.maxfds (Tcp2.inst w)) fd) as [L|L];
      cbn [Tcp2.maxfds Tcp2.rset Tcp2.fds Tcp2.peer Tcp2.set_fds
           Tcp2.set_maxfds Tcp2.set_rset].
    + split.
      { intros k Hk. cbn in Hk. unfold Tcp2.upd in Hk. cbn.
        destruct (Z.eqb_spec k fd); [lia|]. apply Hb in Hk. lia. }
      split; [lia|]. split; [apply upd_same|]. split; [apply upd_same|].
      split; [|reflexivity].
      intros k Hk. rewrite !upd_other by exact Hk. split; reflexivity.
    + split.
      { intros k Hk. cbn in Hk. unfold Tcp2.upd in Hk. cbn.
        destruct (Z.eqb_spec k fd); [lia|]. apply Hb in Hk. exact Hk. }
      split; [lia|]. split; [apply upd_same|]. split; [apply upd_same|].
      split; [|reflexivity].
      intros k Hk. rewrite !upd_other by exact Hk. split; reflexivity.
  - intros w' E.
    destruct (Z.ltb_spec fd Tcp2.MAX_FDS) as [H1|H1].
    2:{ unfold Tcp2.rm_rfd in E.
        replace (fd <? Tcp2.MAX_FDS) with false in E
          by (symmetry; apply Z.ltb_ge; lia).
        discriminate E. }
    destruct (Tcp2.cb_is_set (Tcp2.cb (Tcp2.fds (Tcp2.inst w) fd))) eqn:H2.
    2:{ unfold Tcp2.rm_rfd in E.
        replace (fd <? Tcp2.MAX_FDS) with true in E
          by (symmetry; apply Z.ltb_lt; lia).
        cbn [Tcp2.assert] in E. unfold Tcp2.bind at 1 in E.
        unfold Tcp2.ret at 1 in E. unfold Tcp2.bind at 1 in E.
        unfold Tcp2.get_inst at 1 in E. rewrite H2 in E. discriminate E. }
    rewrite (rm_rfd_run fd w H1 H2) in E. cbv zeta in E.
    cbn [Tcp2.maxfds Tcp2.set_rset Tcp2.rset] in E.
    destruct (Z.eqb_spec fd (Tcp2.maxfds (Tcp2.inst w))) as [Em|Em].
    + destruct (Tcp2.lower_maxfds _ _ _) as [m|] eqn:L; [|discriminate].
      apply lower_maxfds_some in L. destruct L as (L1 & L2 & L3).
      injection E as <-. unfold rset_bounded, Tcp2.upd_fds. cbn.
      split.
      { intros k Hk. unfold Tcp2.upd in Hk.
        destruct (Z.eqb_spec k fd) as [Ek|Hne]; [discriminate|].
        pose proof (Hb k Hk) as Hle.
        destruct (Z.le_gt_cases k m) as [|Hgt]; [assumption|].
        specialize (L3 k ltac:(lia)). unfold Tcp2.upd in L3.
        destruct (Z.eqb_spec k fd); congruence. }
      split; [apply upd_same|]. rewrite !upd_same. cbn.
      split; [reflexivity|]. split; [reflexivity|].
      split; [intros k Hk; rewrite !upd_other by exact Hk;
              split; reflexivity|].
      split; [reflexivity|]. split; [intros Hne; contradiction|].
      intros _.
      assert (Hm : m <> fd).
      { intros ->. rewrite upd_same in L1. discriminate. }
      split; [lia|]. split.
      * rewrite upd_other in L1 by exact Hm. exact L1.
      * intros k Hk. specialize (L3 k ltac:(lia)).
        rewrite upd_other in L3 by lia. exact L3.
    + injection E as <-. unfold rset_bounded, Tcp2.upd_fds. cbn.
      split.
      { intros k Hk. unfold Tcp2.upd in Hk.
        destruct (Z.eqb_spec k fd) as [Ek|Hne]; [discriminate|].
        exact (Hb k Hk). }
      split; [apply upd_same|]. rewrite !upd_same. cbn.
      split; [reflexivity|]. split; [reflexivity|].
      split; [intros k Hk; rewrite !upd_other by exact Hk;
              split; reflexivity|].
      split; [reflexivity|]. split; [reflexivity|].
      intros Hne; contradiction.
  - intros H1 H2 H3. rewrite (rm_rfd_run fd w H1 H2). cbv zeta.
    cbn [Tcp2.maxfds Tcp2.set_rset Tcp2.rset].
    destruct (Z.eqb_spec fd (Tcp2.maxfds (Tcp2.inst w))) as [Em|Em];
      [|eauto].
    destruct H3 as [H3|(k & Hk & Hs)]; [contradiction|].
    destruct (lower_maxfds_found (Z.to_nat (Tcp2.maxfds (Tcp2.inst w)))
                (Tcp2.upd (Tcp2.rset (Tcp2.inst w)) fd false)
                (Tcp2.maxfds (Tcp2.inst w)) k) as (m & ->).
    + rewrite upd_other by lia. exact Hs.
    + lia.
    + eauto.
Qed.


Lemma ex_rset_bounded : rset_bounded (Tcp2.inst ex_world).
Proof.
  intros k Hk. cbn in Hk. cbn.
  destruct (Z.eqb_spec k 3); [lia|]. destruct (Z.eqb_spec k 5); [lia|].
  discriminate Hk.
Qed.

(** In the example, with the descriptors 3 and 5 registered: a new
    descriptor 6 raises [maxfds] to 6, and the removal of descriptor 5
    lowers it below 5, to a descriptor of the set. *)
Lemma rfd_keeps_read_set_bounded_witness :
  (exists w',
     Tcp2.add_rfd 6 Tcp2.cb_got_bytes ex_world = Tcp2.Ret tt w' /\
     rset_bounded (Tcp2.inst w') /\
     Tcp2.maxfds (Tcp2.inst w') = 6) /\
  (exists w',
     Tcp2.rm_rfd 5 ex_world = Tcp2.Ret tt w' /\
     Tcp2.maxfds (Tcp2.inst w') < 5 /\
     Tcp2.rset (Tcp2.inst ex_world) (Tcp2.maxfds (Tcp2.inst w')) = true).
Proof.
  destruct (rfd_keeps_read_set_bounded 6 ex_world ex_rset_bounded) as (H & _).
  destruct (rfd_keeps_read_set_bounded 5 ex_world ex_rset_bounded)
    as (_ & Hr & Ht).
  split.
  - destruct (H Tcp2.cb_got_bytes ltac:(unfold Tcp2.MAX_FDS; lia) eq_refl)
      as (w' & E & Hb & Hm & _).
    exists w'. split; [exact E|]. split; [exact Hb|]. rewrite Hm. reflexivity.
  - destruct Ht as (w' & E).
    + unfold Tcp2.MAX_FDS. lia.
    + reflexivity.
    + right. exists 3. split; [lia|reflexivity].
    + exists w'. split; [exact E|].
      destruct (Hr w' E) as (_ & _ & _ & _ & _ & _ & _ & Hm).
      destruct (Hm eq_refl) as (M1 & M2 & _). split; assumption.
Defined.

(** Removing the highest descriptor, 5, lowers [maxfds] to the next one
    in the set, 3. *)
Example rm_rfd_example :
  exists w',
    Tcp2.rm_rfd 5 ex_world = Tcp2.Ret tt w' /\
    Tcp2.maxfds (Tcp2.inst w') = 3.
Proof. eexists. split; vm_compute; reflexivity. Qed.

Section EndOfFile.

Import Tcp2 CStr.
Open Scope string_scope.
Open Scope Z_scope.

Variable fd : Z.
Variable w : World.
Variable buf : string.

Hypothesis fd_ok : 0 <= fd < MAX_FDS.
Hypothesis has_buf : rbuf (fds (inst w) fd) = Some buf.
Hypothesis used_none : rbuf_used (fds (inst w) fd) = 0.
Hypothesis registered : cb_is_set (cb (fds (inst w) fd)) = true.
Hypothesis not_last :
  fd <> maxfds (inst w) \/ exists k, 0 <= k < fd /\ rset (inst w) k = true.

(** The steps of [got_bytes] at end of file, up to the removal of the
    descriptor. *)
Lemma got_bytes_eof_steps :
  exists w1,
    got_bytes fd (InRead "") w = rm_rfd fd w1 /\
    trace w1 = (trace w ++ [EvLog (LL 1) msg_handle;
                            EvLog (LL 1) "TCP2 FD %d closed (peer LID %d)\n";
                            EvClose fd])%list /\
    mem w1 = mem w /\ dials w1 = dials w /\
    os_open w1 = upd (os_open w) fd false /\
    inst w1 = set_fds (inst w) (fds (inst w1)) /\
    (forall k, k <> fd -> fds (inst w1) k = fds (inst w) k) /\
    cb (fds (inst w1) fd) = cb (fds (inst w) fd).
Proof.
  unfold got_bytes.
  replace ((0 <=? fd) && (fd <? MAX_FDS)) with true
    by (symmetry; apply andb_true_iff;
        split; [apply Z.leb_le|apply Z.ltb_lt]; lia).
  cbn [assert]. unfold bind at 1. unfold ret at 1.
  unfold bind at 1. unfold get_inst at 1. rewrite used_none.
  replace (0 =? RBUF_LEN) with false by reflexivity.
  replace (prefix (Z.to_nat (RBUF_LEN - 0)) "") with "" by reflexivity.
  replace (strlen "" =? 0) with true by reflexivity.
  unfold bind at 1. rewrite (get_rbuf_some fd w _ has_buf).
  unfold bind at 1. unfold put_rbuf at 1, modify_inst at 1.
  set (W := set_inst w _).
  assert (HW : rbuf (fds (inst W) fd)
               = Some ("" ++ buf_write buf 0 (String NL ""))).
  { unfold W. cbn. rewrite upd_same. reflexivity. }
  assert (HU : rbuf_used (fds (inst W) fd) = strlen "").
  { unfold W. cbn. rewrite upd_same. exact used_none. }
  unfold bind at 1.
  rewrite (process_rbuf_plain fd fd_ok W "" _ HW HU eq_refl).
  unfold bind at 1. unfold get_inst at 1.
  cbn [inst set_inst fds upd_fds set_fds]. rewrite upd_same.
  cbn [rbuf_used set_rbuf_used strlen String.length Z.of_nat].
  replace (0 =? 0) with true by reflexivity. cbn [assert].
  unfold bind at 1. unfold ret at 1.
  unfold bind at 1. unfold laik_log at 1.
  unfold bind at 1. unfold os_close at 1.
  eexists. split; [reflexivity|]. unfold W. cbn.
  split; [rewrite <- !app_assoc; reflexivity|].
  split; [reflexivity|]. split; [reflexivity|]. split; [reflexivity|].
  split; [reflexivity|].
  split; [intros k Hk; rewrite !upd_other by exact Hk; reflexivity|].
  rewrite !upd_same. reflexivity.
Qed.

End EndOfFile.





(** The same read, computed: "data" is a data command that does not
    parse. *)
Example got_bytes_line_example :
  exists w',
    Tcp2.got_bytes 5 (Tcp2.InRead ("ta" ++ String.String CStr.NL "")%string)
                   ex_world_partial = Tcp2.Ret tt w' /\
    In (Tcp2.EvLog Tcp2.LAIK_LL_Panic msg_unparsed) (Tcp2.trace w') /\
    Tcp2.rbuf_used (Tcp2.fds (Tcp2.inst w') 5) = 0.
Proof.
  eexists. split; [vm_compute; reflexivity|].
  split; [cbn; auto 10|reflexivity].
Qed.

(** When the peer closes the connection while the buffer holds the
    beginning of a command, the newline [got_bytes] puts behind it lies
    outside the bytes in use: [process_rbuf] does not see it, the command
    stays in the buffer, and the assertion that the buffer is empty
    fails. *)
Theorem got_bytes_eof_aborts_on_partial_command :
  forall (fd : Z) (w : Tcp2.World) (part tail : String.string),
    0 <= fd < Tcp2.MAX_FDS ->
    Tcp2.rbuf (Tcp2.fds (Tcp2.inst w) fd) = Some (part ++ tail)%string ->
    Tcp2.rbuf_used (Tcp2.fds (Tcp2.inst w) fd) = CStr.strlen part ->
    plain part = true ->
    part <> ""%string ->
    CStr.strlen part < Tcp2.RBUF_LEN ->
    exists w',
      Tcp2.got_bytes fd (Tcp2.InRead "") w = Tcp2.Stop Tcp2.AssertFailed w'.
Proof.
  intros fd w part tail Hfd Hb Hu Hp Hne Hfit.
  apply (got_bytes_eof_partial fd w part tail); assumption.
Qed.

Lemma got_bytes_eof_aborts_on_partial_command_witness :
  exists w',
    Tcp2.got_bytes 5 (Tcp2.InRead "") ex_world_partial
    = Tcp2.Stop Tcp2.AssertFailed w'.
Proof.
  apply (got_bytes_eof_aborts_on_partial_command 5 ex_world_partial "da" "").
  - unfold Tcp2.MAX_FDS; lia.
  - reflexivity.
  - reflexivity.
  - reflexivity.
  - discriminate.
  - vm_compute. reflexivity.
Defined.

(** At end of file with an empty buffer the descriptor is closed and
    taken out of the event loop, and its buffer is freed; nothing is
    written, and the peer table is left as it is: an entry that names the
    descriptor goes on naming it. *)
Theorem got_bytes_eof_leaves_peer_table :
  forall (fd : Z) (w : Tcp2.World) (buf : String.string),
    0 <= fd < Tcp2.MAX_FDS ->
    Tcp2.rbuf (Tcp2.fds (Tcp2.inst w) fd) = Some buf ->
    Tcp2.rbuf_used (Tcp2.fds (Tcp2.inst w) fd) = 0 ->
    Tcp2.cb_is_set (Tcp2.cb (Tcp2.fds (Tcp2.inst w) fd)) = true ->
    fd <> Tcp2.maxfds (Tcp2.inst w) \/
      (exists k, 0 <= k < fd /\ Tcp2.rset (Tcp2.inst w) k = true) ->
    exists w',
      Tcp2.got_bytes fd (Tcp2.InRead "") w = Tcp2.Ret tt w' /\
      In (Tcp2.EvClose fd) (Tcp2.trace w') /\
      Tcp2.writes (Tcp2.trace w') = Tcp2.writes (Tcp2.trace w) /\
      Tcp2.os_open w' fd = false /\
      Tcp2.rset (Tcp2.inst w') fd = false /\
      Tcp2.cb (Tcp2.fds (Tcp2.inst w') fd) = Tcp2.cb_none /\
      Tcp2.rbuf (Tcp2.fds (Tcp2.inst w') fd) = None /\
      Tcp2.peer (Tcp2.inst w') = Tcp2.peer (Tcp2.inst w).
Proof.
  intros fd w buf Hfd Hb Hu Hc Hl.
  destruct (got_bytes_eof_steps fd w buf Hfd Hb Hu)
    as (w1 & E & Ht & Hm & Hd & Ho & Hi & Hk & Hcb).
  assert (Hmax : Tcp2.maxfds (Tcp2.inst w1) = Tcp2.maxfds (Tcp2.inst w))
    by (rewrite Hi; reflexivity).
  assert (Hrs : Tcp2.rset (Tcp2.inst w1) = Tcp2.rset (Tcp2.inst w))
    by (rewrite Hi; reflexivity).
  assert (Hpe : Tcp2.peer (Tcp2.inst w1) = Tcp2.peer (Tcp2.inst w))
    by (rewrite Hi; reflexivity).
  destruct (rm_rfd_effect fd w1) as (w' & R & Rt & _ & Ro & _ & Rs & Rc & Rb & Rp & _).
  - lia.
  - rewrite Hcb. exact Hc.
  - rewrite Hmax, Hrs. exact Hl.
  - exists w'. split; [rewrite E; exact R|].
    split; [rewrite Rt, Ht; apply in_or_app; right; cbn; auto|].
    split; [rewrite Rt, Ht, writes_app; cbn; apply app_nil_r|].
    split; [rewrite Ro, Ho; apply upd_same|].
    split; [exact Rs|]. split; [exact Rc|]. split; [exact Rb|].
    rewrite Rp. exact Hpe.
Qed.

Lemma got_bytes_eof_leaves_peer_table_witness :
  exists w',
    Tcp2.got_bytes 5 (Tcp2.InRead "") ex_world = Tcp2.Ret tt w' /\
    Tcp2.fd (Tcp2.peer (Tcp2.inst w') 1) = 5 /\
    Tcp2.os_open w' 5 = false.
Proof.
  destruct (got_bytes_eof_leaves_peer_table 5 ex_world ""
              ltac:(unfold Tcp2.MAX_FDS; lia) eq_refl eq_refl eq_refl)
    as (w' & E & _ & _ & Ho & _ & _ & _ & Hp).
  - right. exists 3. split; [lia|reflexivity].
  - exists w'. split; [exact E|]. split; [rewrite Hp; reflexivity|exact Ho].
Defined.

(** * Receiving a slice *)

Section DataCommandPlain.

Import Tcp2 CStr.
Open Scope string_scope.
Open Scope Z_scope.

Lemma plain_digit v : 0 <= v <= 9 ->
  negb (is_char (digit_char v) NUL) && negb (is_char (digit_char v) CR)
  && negb (is_char (digit_char v) NL) = true.
Proof.
  intros H. unfold is_char. rewrite code_digit_char by exact H.
  change (code NUL) with 0. change (code CR) with 13. change (code NL) with 10.
  repeat (apply andb_true_iff; split); apply Bool.negb_true_iff, Z.eqb_neq; lia.
Qed.

Lemma plain_dec_digits f : forall v acc,
  plain acc = true -> plain (dec_digits f v acc) = true.
Proof.
  induction f as [|f IH]; intros v acc Ha; cbn [dec_digits]; [exact Ha|].
  assert (Hm : 0 <= v mod 10 <= 9) by (pose proof (Z.mod_pos_bound v 10); lia).
  assert (Hp : plain (String (digit_char (v mod 10)) acc) = true).
  { cbn [plain]. rewrite plain_digit by exact Hm. exact Ha. }
  destruct (v / 10 =? 0); [exact Hp|]. apply IH. exact Hp.
Qed.

Lemma plain_fmt_u v : plain (fmt_u v) = true.
Proof. apply plain_dec_digits. reflexivity. Qed.

Lemma plain_fmt_d v : plain (fmt_d v) = true.
Proof.
  unfold fmt_d. destruct (v <? 0); [|apply plain_fmt_u].
  cbn [plain]. rewrite plain_fmt_u. reflexivity.
Qed.

Lemma plain_index_text dims idx : plain (index_text dims idx) = true.
Proof.
  unfold index_text, istr_text.
  destruct (dims =? 1); [apply plain_fmt_u|].
  destruct (dims =? 2).
  { rewrite !plain_app, !plain_fmt_u. reflexivity. }
  destruct (dims =? 3); [|reflexivity].
  rewrite !plain_app, !plain_fmt_u. reflexivity.
Qed.

Lemma plain_hex_char d : 0 <= d < 16 ->
  negb (is_char (hex_char d) NUL) && negb (is_char (hex_char d) CR)
  && negb (is_char (hex_char d) NL) = true.
Proof.
  intros H.
  assert (Hc : d = 0 \/ d = 1 \/ d = 2 \/ d = 3 \/ d = 4 \/ d = 5 \/ d = 6
               \/ d = 7 \/ d = 8 \/ d = 9 \/ d = 10 \/ d = 11 \/ d = 12
               \/ d = 13 \/ d = 14 \/ d = 15) by lia.
  repeat (destruct Hc as [->|Hc]; [reflexivity|]).
  subst d. reflexivity.
Qed.

Lemma plain_hex_text bs : Forall is_byte bs -> plain (hex_text bs) = true.
Proof.
  induction 1 as [|b r Hb Hr IH]; [reflexivity|].
  cbn [hex_text append]. unfold fmt_02x. cbn [append plain]. unfold is_byte in Hb.
  rewrite (plain_hex_char (b / 16))
    by (split; [apply Z.div_pos; lia|apply Z.div_lt_upper_bound; lia]).
  rewrite (plain_hex_char (b mod 16)) by (apply Z.mod_pos_bound; lia).
  rewrite IH. reflexivity.
Qed.

(** A data command holds none of the characters that end a line or a
    C string. *)
Lemma plain_data_cmd n dims idx s bs :
  Forall is_byte bs -> plain (data_cmd n dims idx s bs) = true.
Proof.
  intros Hb. rewrite data_cmd_text. unfold pos_tag.
  rewrite !plain_app, !plain_fmt_d, plain_index_text, plain_hex_text
    by exact Hb.
  reflexivity.
Qed.

Lemma data_cmd_verb n dims idx s bs :
  char_at (data_cmd n dims idx s bs) 0 = "d"%char.
Proof. rewrite data_cmd_text. reflexivity. Qed.

Lemma strlen_hex_text bs : strlen (hex_text bs) = 3 * Z.of_nat (List.length bs).
Proof.
  induction bs as [|b r IH]; [reflexivity|].
  cbn [hex_text]. rewrite !strlen_append, IH. unfold fmt_02x.
  cbn [List.length]. unfold strlen at 1 2. cbn [String.length]. lia.
Qed.

Lemma data_cmd_longer n dims idx s bs :
  3 * Z.of_nat (List.length bs) < strlen (data_cmd n dims idx s bs).
Proof.
  rewrite data_cmd_text, !strlen_append, strlen_hex_text.
  pose proof (strlen_nonneg (fmt_d s)).
  pose proof (strlen_nonneg (pos_tag n dims idx)).
  unfold strlen at 1 3. cbn [String.length]. lia.
Qed.

Lemma read_bytes_bytes m off n :
  (forall k, is_byte (m k)) -> Forall is_byte (read_bytes m off n).
Proof.
  intros H. unfold read_bytes. apply Forall_forall. intros b Hb.
  apply in_map_iff in Hb. destruct Hb as (k & <- & _). apply H.
Qed.

End DataCommandPlain.

Section RecvRound.

Import Tcp2 CStr.
Open Scope string_scope.
Open Scope Z_scope.

Variables lid rfd : Z.
Variable toMap : Laik_Mapping.
Variable slc : Laik_Slice.
Variable blk : Z.
Variable w : World.
Variable bs : list Z.
Variable p' : Peer.

Let p := peer (inst w) lid.
Let len := Z.of_nat (List.length bs).
Let off := layout_offset toMap (ridx p) * relemsize p.
Let cmd := data_cmd (roff p) (dims slc) (ridx p) len bs.

Hypothesis lid_ok : 0 <= lid.
Hypothesis ready : fd_ready rfd lid (inst w).
Hypothesis has_map : rmap p = Some toMap.
Hypothesis has_slc : rslc p = Some slc.
Hypothesis has_mem : start toMap = Some blk.
Hypothesis plain_copy : rro p = LAIK_RO_None.
Hypothesis credit : has_credit p.
Hypothesis size_ok : relemsize p = len.
Hypothesis size_pos : 0 < len < 100.
Hypothesis tag_ok : tag_fits (roff p) (dims slc) (ridx p).
Hypothesis bytes_ok : Forall is_byte bs.
Hypothesis advance : recv_advance slc p = Some p'.
Hypothesis cmd_fits : strlen cmd + 1 <= RBUF_LEN.

(** One return of [select] with the data command of the element due:
    from the event loop to memory. *)
Lemma recv_round :
  exists w3,
    run_callbacks
      (select_ready (inst w) [(rfd, InRead (cmd ++ String NL ""))]) w
    = Ret tt w3 /\
    peer (inst w3) lid = p' /\
    (forall j, j <> lid -> peer (inst w3) j = peer (inst w) j) /\
    mem w3 blk = write_bytes (mem w blk) off bs /\
    (forall b, b <> blk -> mem w3 b = mem w b) /\
    writes (trace w3) = writes (trace w) /\
    exit (inst w3) = (if roff p' =? rcount p' then 1 else exit (inst w)) /\
    fd_ready rfd lid (inst w3) /\
    os_open w3 = os_open w /\ dials w3 = dials w.
Proof.
  destruct ready as (Hfd & Hmax & Hset & Hl & Hcb & Hused & buf & Hbuf).
  (* the descriptor is reported and its callback called *)
  unfold select_ready. cbn [filter fst].
  rewrite Hset.
  replace (0 <=? rfd) with true by (symmetry; apply Z.leb_le; lia).
  replace (rfd <=? maxfds (inst w)) with true
    by (symmetry; apply Z.leb_le; lia).
  cbn [andb run_callbacks].
  unfold bind at 1. unfold get_inst at 1.
  replace (rfd <=? maxfds (inst w)) with true
    by (symmetry; apply Z.leb_le; lia).
  rewrite Hcb. cbn [cb_is_set assert].
  unfold bind at 1. unfold bind at 1. unfold ret at 1.
  (* the line is handed to got_cmd *)
  assert (Hplain : plain cmd = true) by (apply plain_data_cmd; exact bytes_ok).
  destruct (got_bytes_line_buffered rfd w "" buf Hfd Hbuf Hused eq_refl cmd
              Hplain ltac:(exact cmd_fits))
    as (w1 & B & E).
  rewrite E. clear E. cbn [append].
  change (strlen "" + strlen cmd) with (strlen cmd).
  destruct B as (Bm & Bo & Bd & Bt & Bi & Bk & Bl & Bc & Bu & tail & Bb).
  assert (Hp1 : peer (inst w1) = peer (inst w)) by (rewrite Bi; reflexivity).
  unfold bind at 1. rewrite got_cmd_dispatch. cbv zeta. rewrite Bl, Hl.
  assert (Hv : char_at cmd 0 = "d"%char) by apply data_cmd_verb.
  rewrite Hv.
  replace (is_char "d" "r") with false by reflexivity.
  replace (is_char "d" "m") with false by reflexivity.
  replace (is_char "d" "h") with false by reflexivity.
  replace (is_char "d" "k") with false by reflexivity.
  replace (is_char "d" "q") with false by reflexivity.
  replace (is_char "d" "#") with false by reflexivity.
  replace (is_char "d" "s") with false by reflexivity.
  replace (is_char "d" "i") with false by reflexivity.
  replace (is_char "d" "p") with false by reflexivity.
  replace (is_char "d" "a") with false by reflexivity.
  replace (is_char "d" "d") with true by reflexivity.
  replace (lid <? 0) with false by (symmetry; apply Z.ltb_ge; lia).
  (* the element is stored *)
  set (w1e := emit w1 (EvLog (LL 1) msg_got_cmd)).
  assert (Hpe : peer (inst w1e) lid = p) by (unfold w1e; cbn; rewrite Hp1; reflexivity).
  pose proof (got_data_element lid w1e toMap slc blk bs bs p') as G.
  cbv zeta in G. rewrite Hpe in G. fold len off cmd in G.
  destruct G as (w2 & G & Gm & Gi & Gt & Go & Gd); auto.
  { rewrite plain_copy. reflexivity. }
  rewrite G. unfold modify_inst at 1. unfold ret at 1.
  eexists. split; [reflexivity|].
  cbn [inst set_inst mem trace os_open dials].
  rewrite Gi. unfold element_received, upd_fds.
  assert (Hexit : exit (inst w1e) = exit (inst w))
    by (unfold w1e; cbn; rewrite Bi; reflexivity).
  assert (Hrs : rset (inst w1e) = rset (inst w))
    by (unfold w1e; cbn; rewrite Bi; reflexivity).
  assert (Hmx : maxfds (inst w1e) = maxfds (inst w))
    by (unfold w1e; cbn; rewrite Bi; reflexivity).
  assert (Hpp : peer (inst w1e) = peer (inst w))
    by (unfold w1e; cbn; exact Hp1).
  assert (Hfs : fds (inst w1e) = fds (inst w1)) by reflexivity.
  assert (Hme : mem w1e = mem w) by (unfold w1e; cbn; exact Bm).
  destruct (roff p' =? rcount p');
    cbn [peer exit rset maxfds fds set_fds set_exit upd_peer set_peer];
    (split; [rewrite upd_same; reflexivity|]);
    (split; [intros j Hj; rewrite upd_other by exact Hj; rewrite Hpp;
             reflexivity|]);
    (split; [rewrite Gm, Hme; rewrite upd_same; reflexivity|]);
    (split; [intros b Hb; rewrite Gm, Hme; apply upd_other; exact Hb|]);
    (split; [rewrite Gt; unfold w1e; cbn [trace emit]; rewrite Bt;
             rewrite !writes_app; cbn [writes]; rewrite !app_nil_r;
             reflexivity|]);
    (split; [try reflexivity; exact Hexit|]);
    (split; [|split; [rewrite Go; exact Bo|rewrite Gd; exact Bd]]);
    unfold fd_ready;
    cbn [peer exit rset maxfds fds set_fds set_exit upd_peer set_peer];
    rewrite Hrs, Hmx, Hfs, upd_same;
    cbn [fd_lid cb rbuf_used rbuf set_rbuf_used];
    (split; [exact Hfd|]); (split; [exact Hmax|]); (split; [exact Hset|]);
    (split; [rewrite Bl; exact Hl|]); (split; [rewrite Bc; exact Hcb|]);
    (split; [reflexivity|]); eexists; exact Bb.
Qed.

End RecvRound.

Section RecvLoop.

Import Tcp2 CStr.
Open Scope string_scope.
Open Scope Z_scope.
Open Scope list_scope.

Variables lid rfd wfd : Z.
Variables toMap fromMap : Laik_Mapping.
Variable slc : Laik_Slice.
Variable blk : Z.
Variable ms : Z -> Z.

Let n := slice_volume slc.
Let e := elemsize fromMap.

Hypothesis slc_nonempty : slice_nonempty slc.
Hypothesis slc_fits : n <= CInt.INT_MAX.
Hypothesis idx_fit :
  forall idx, idx_in slc idx -> strlen (coordinates_text (dims slc) idx) < 50.
Hypothesis lid_ok : 0 <= lid.
Hypothesis has_mem : start toMap = Some blk.
Hypothesis same_size : elemsize toMap = e.
Hypothesis size_pos : 0 < e.
Hypothesis bytes_ok : forall k, is_byte (ms k).
Hypothesis cmds_fit :
  forall k idx,
    0 <= k < n -> idx_in slc idx ->
    strlen (data_cmd k (dims slc) idx e
              (read_bytes ms (layout_offset fromMap idx * e) e)) < 100.

Lemma run_loop_from_exit rounds w :
  exit (inst w) <> 0 -> run_loop_from rounds w = Ret rounds w.
Proof.
  intros H. apply Z.eqb_neq in H.
  destruct rounds; cbn [run_loop_from]; rewrite H; reflexivity.
Qed.

(** The event loop with the data commands of the elements still due
    arriving one by one: it returns when the last one is stored. *)
Lemma recv_loop (k : nat) : forall idx w rest,
  (1 <= k)%nat -> Z.of_nat k <= n ->
  receiving slc toMap lid (n - Z.of_nat k) idx (inst w) ->
  fd_ready rfd lid (inst w) ->
  exit (inst w) = 0 ->
  exists w',
    run_loop_from
      (arriving rfd (data_writes wfd fromMap ms (dims slc) (n - Z.of_nat k)
                                 (walk k slc idx)) ++ rest) w
    = Ret rest w' /\
    mem w' blk = transfer fromMap toMap ms (mem w blk) (walk k slc idx) /\
    (forall b, b <> blk -> mem w' b = mem w b) /\
    writes (trace w') = writes (trace w) /\
    (forall j, j <> lid -> peer (inst w') j = peer (inst w) j) /\
    peer (inst w') lid
      = set_ridx (set_roff (peer (inst w) lid) n) (lex_end slc) /\
    exit (inst w') = 1 /\
    fd_ready rfd lid (inst w') /\
    os_open w' = os_open w /\ dials w' = dials w.
Proof.
  induction k as [|k IH]; intros idx w rest Hk Hn Hr Hf He; [lia|].
  destruct Hr as (Rm & Rs & Ro & Re & Rc & Rf & Ri & Rt & Rk).
  cbn [walk data_writes arriving map app snd].
  cbn [run_loop_from]. rewrite He. cbn [Z.eqb].
  set (p := peer (inst w) lid) in *.
  set (bs := read_bytes ms (layout_offset fromMap idx * e) e).
  assert (Hlen : Z.of_nat (List.length bs) = e)
    by (unfold bs; rewrite read_bytes_length; lia).
  assert (Hin : idx_in slc idx) by exact (proj1 Rt).
  pose proof (cmds_fit (n - Z.of_nat (S k)) idx ltac:(lia) Hin) as Hfit.
  fold bs in Hfit.
  pose proof (data_cmd_longer (n - Z.of_nat (S k)) (dims slc) idx e bs) as Hlong.
  rewrite Hlen in Hlong.
  (* the peer structure after this element *)
  destruct (next_lex_step slc idx slc_nonempty Rt) as (B & St & En).
  set (p' := set_ridx (set_roff p (roff p + 1)) (snd (next_lex slc idx))).
  assert (Hadv : recv_advance slc p = Some p').
  { unfold recv_advance. cbn [ridx set_roff roff rcount]. rewrite Ri.
    destruct (next_lex slc idx) as [b idx'] eqn:N. cbn [fst snd] in *.
    cbn [roff rcount set_ridx set_roff]. rewrite Rf, Rc, B, Rk.
    fold n. rewrite Bool.eqb_reflx. unfold p'. rewrite Rf. reflexivity. }
  destruct (recv_round lid rfd toMap slc blk w bs p' lid_ok Hf)
    as (w3 & E & Pl & Po & Mb & Mo & Wr & Ex & Fr & Oo & Dd);
    fold p; try assumption.
  { split; [rewrite Rc; fold n; lia|rewrite Rf, Rc; fold n; lia]. }
  { rewrite Re, same_size. symmetry. exact Hlen. }
  { rewrite Hlen. lia. }
  { rewrite Rf, Ri. apply tag_fits_int.
    - lia.
    - exact (proj1 slc_nonempty).
    - rewrite (index_text_coordinates slc slc_nonempty idx Hin).
      apply idx_fit. exact Hin. }
  { unfold bs. apply read_bytes_bytes. exact bytes_ok. }
  { rewrite Rf, Ri, Hlen. unfold RBUF_LEN. lia. }
  fold p in E. rewrite Rf, Ri, Hlen in E. fold e bs in E |- *.
  rewrite E.
  fold p in Mb. rewrite Ri, Re, same_size in Mb.
  assert (Hro : roff p' = n - Z.of_nat k)
    by (unfold p'; cbn [roff set_ridx set_roff]; rewrite Rf; lia).
  assert (Hrc : rcount p' = n) by (unfold p'; cbn; exact Rc).
  rewrite Hro, Hrc in Ex.
  destruct k as [|k].
  - (* the last element *)
    replace (n - Z.of_nat 0 =? n) with true in Ex
      by (symmetry; apply Z.eqb_eq; lia).
    cbn [walk data_writes arriving map app transfer].
    rewrite run_loop_from_exit by lia.
    exists w3. split; [reflexivity|].
    split; [rewrite Mb, same_size; reflexivity|].
    split; [exact Mo|]. split; [exact Wr|]. split; [exact Po|].
    split.
    { rewrite Pl. unfold p'. rewrite Rf.
      assert (Bf : fst (next_lex slc idx) = false)
        by (rewrite B, Rk; fold n; apply Z.ltb_ge; lia).
      rewrite (En Bf). cbn [set_roff set_ridx fd port host location rcount
        relemsize roff rmap rslc ridx rro scount selemsize].
      replace (n - Z.of_nat 1 + 1) with n by lia. reflexivity. }
    split; [exact Ex|]. split; [exact Fr|]. split; [exact Oo|exact Dd].
  - (* more elements are due *)
    replace (n - Z.of_nat (S k) =? n) with false in Ex
      by (symmetry; apply Z.eqb_neq; lia).
    assert (Bt : fst (next_lex slc idx) = true)
      by (rewrite B, Rk; fold n; apply Z.ltb_lt; lia).
    destruct (St Bt) as (Tr' & Rk').
    destruct (IH (snd (next_lex slc idx)) w3 rest)
      as (w' & E' & M' & Mo' & W' & Po' & Pl' & Ex' & Fr' & Oo' & Dd').
    + lia.
    + lia.
    + unfold receiving. rewrite Pl. unfold p'.
      cbn [set_roff set_ridx fd port host location rcount
        relemsize roff rmap rslc ridx rro scount selemsize].
      fold p.
      split; [exact Rm|]. split; [exact Rs|]. split; [exact Ro|].
      split; [exact Re|]. split; [exact Rc|].
      split; [rewrite Rf; lia|]. split; [reflexivity|].
      split; [exact Tr'|]. rewrite Rk', Rk. lia.
    + exact Fr.
    + rewrite Ex. exact He.
    + replace (n - Z.of_nat (S (S k)) + 1) with (n - Z.of_nat (S k)) by lia.
      exists w'. split; [exact E'|].
      split.
      { rewrite M', Mb. cbn [transfer]. rewrite same_size. reflexivity. }
      split; [intros b Hb; rewrite Mo', Mo by exact Hb; reflexivity|].
      split; [rewrite W'; exact Wr|].
      split; [intros j Hj; rewrite Po', Po by exact Hj; reflexivity|].
      split.
      { rewrite Pl', Pl. unfold p'. reflexivity. }
      split; [exact Ex'|]. split; [exact Fr'|].
      split; [rewrite Oo'; exact Oo|rewrite Dd'; exact Dd].
Qed.

End RecvLoop.

Section Transfer.

Import Tcp2.
Open Scope Z_scope.
Open Scope list_scope.

Lemma write_bytes_at bs : forall m off k,
  write_bytes m off bs k =
    if (off <=? k) && (k <? off + Z.of_nat (List.length bs))
    then nth (Z.to_nat (k - off)) bs 0 else m k.
Proof.
  induction bs as [|b r IH]; intros m off k; cbn [write_bytes List.length].
  - destruct (Z.leb_spec off k); destruct (Z.ltb_spec k (off + Z.of_nat 0));
      cbn [andb]; try reflexivity; lia.
  - rewrite IH. unfold upd.
    destruct (Z.eq_dec k off) as [->|Hne].
    + replace (off + 1 <=? off) with false by (symmetry; apply Z.leb_gt; lia).
      rewrite Z.eqb_refl, Z.leb_refl, Z.sub_diag. cbn [andb].
      replace (off <? off + Z.of_nat (S (List.length r))) with true
        by (symmetry; apply Z.ltb_lt; lia).
      reflexivity.
    + replace (k =? off) with false by (symmetry; apply Z.eqb_neq; lia).
      destruct (Z.leb_spec (off + 1) k); destruct (Z.leb_spec off k);
        try lia; cbn [andb]; [|reflexivity].
      replace (k <? off + Z.of_nat (S (List.length r)))
        with (k <? off + 1 + Z.of_nat (List.length r))
        by (apply Bool.eq_true_iff_eq; rewrite !Z.ltb_lt; lia).
      destruct (k <? off + 1 + Z.of_nat (List.length r)); [|reflexivity].
      replace (Z.to_nat (k - off)) with (S (Z.to_nat (k - (off + 1)))) by lia.
      reflexivity.
Qed.

Lemma read_bytes_nth m off n j :
  0 <= j < n -> nth (Z.to_nat j) (read_bytes m off n) 0 = m (off + j).
Proof.
  intros H. unfold read_bytes.
  rewrite (nth_indep _ 0 ((fun k => m (off + Z.of_nat k)) O))
    by (rewrite length_map, length_seq; lia).
  rewrite (map_nth (fun k => m (off + Z.of_nat k))).
  rewrite seq_nth by lia. f_equal. lia.
Qed.

Variables fromMap toMap : Laik_Mapping.
Variable ms : Z -> Z.

Let e := elemsize fromMap.
Hypothesis same_size : elemsize toMap = e.
Hypothesis size_pos : 0 < e.

(** Places outside the elements of [idxs] keep their bytes. *)
Lemma transfer_other idxs : forall mr k,
  (forall idx, In idx idxs ->
     ~ (layout_offset toMap idx * e <= k < layout_offset toMap idx * e + e)) ->
  transfer fromMap toMap ms mr idxs k = mr k.
Proof.
  induction idxs as [|a r IH]; intros mr k H; cbn [transfer]; [reflexivity|].
  rewrite IH by (intros idx Hi; apply H; right; exact Hi).
  rewrite write_bytes_at, read_bytes_length, same_size. fold e.
  rewrite Z2Nat.id by lia.
  specialize (H a (or_introl eq_refl)).
  destruct (Z.leb_spec (layout_offset toMap a * e) k);
    destruct (Z.ltb_spec k (layout_offset toMap a * e + e));
    cbn [andb]; try reflexivity; lia.
Qed.

(** With elements that do not share a place in the receiving mapping,
    every element of the list arrives: byte for byte it is the element the
    sender holds for the index. *)
Lemma transfer_element idxs : forall mr i b,
  (forall i j, (i < List.length idxs)%nat -> (j < List.length idxs)%nat ->
     i <> j ->
     layout_offset toMap (nth i idxs (mkIndex 0 0 0))
     <> layout_offset toMap (nth j idxs (mkIndex 0 0 0))) ->
  (i < List.length idxs)%nat -> 0 <= b < e ->
  transfer fromMap toMap ms mr idxs
    (layout_offset toMap (nth i idxs (mkIndex 0 0 0)) * e + b)
  = ms (layout_offset fromMap (nth i idxs (mkIndex 0 0 0)) * e + b).
Proof.
  induction idxs as [|a r IH]; intros mr i b Hd Hi Hb; cbn [List.length] in Hi;
    [lia|].
  cbn [transfer]. destruct i as [|i]; cbn [nth].
  - rewrite transfer_other.
    + rewrite write_bytes_at, read_bytes_length, same_size. fold e.
      rewrite Z2Nat.id by lia.
      replace ((layout_offset toMap a * e <=? layout_offset toMap a * e + b)
               && (layout_offset toMap a * e + b
                   <? layout_offset toMap a * e + e)) with true
        by (symmetry; apply andb_true_iff;
            split; [apply Z.leb_le|apply Z.ltb_lt]; lia).
      replace (layout_offset toMap a * e + b - layout_offset toMap a * e)
        with b by lia.
      apply read_bytes_nth. exact Hb.
    + intros idx Hin. apply In_nth with (d := mkIndex 0 0 0) in Hin.
      destruct Hin as (j & Hj & <-).
      specialize (Hd O (S j) ltac:(cbn; lia) ltac:(cbn; lia) ltac:(lia)).
      cbn [nth] in Hd. nia.
  - apply IH; [|lia|exact Hb].
    intros x y Hx Hy Hxy.
    apply (Hd (S x) (S y)); cbn [List.length]; lia.
Qed.

End Transfer.

Section RecvSlice.

Import Tcp2 CStr.
Open Scope string_scope.
Open Scope Z_scope.
Open Scope list_scope.

Variables lid rfd wfd : Z.
Variables toMap fromMap : Laik_Mapping.
Variable slc : Laik_Slice.
Variable blk : Z.
Variable ms : Z -> Z.
Variable w : World.
Variable rest : list Round.

Let n := slice_volume slc.
Let e := elemsize fromMap.
Let idxs := walk (Z.to_nat n) slc (from slc).

Hypothesis slc_nonempty : slice_nonempty slc.
Hypothesis slc_fits : n <= CInt.INT_MAX.
Hypothesis idx_fit :
  forall idx, idx_in slc idx -> strlen (coordinates_text (dims slc) idx) < 50.
Hypothesis lid_ok : 0 <= lid < MAX_PEERS.
Hypothesis has_mem : start toMap = Some blk.
Hypothesis same_size : elemsize toMap = e.
Hypothesis size_pos : 0 < e.
Hypothesis bytes_ok : forall k, is_byte (ms k).
Hypothesis cmds_fit :
  forall k idx,
    0 <= k < n -> idx_in slc idx ->
    strlen (data_cmd k (dims slc) idx e
              (read_bytes ms (layout_offset fromMap idx * e) e)) < 100.
Hypothesis none_due : rcount (peer (inst w) lid) = 0.
Hypothesis connected : fd (peer (inst w) lid) = rfd.
Hypothesis ready : fd_ready rfd lid (inst w).

Lemma recv_slice_run :
  exists w',
    recv_slice slc lid toMap LAIK_RO_None
      (arriving rfd (data_writes wfd fromMap ms (dims slc) 0 idxs) ++ rest) w
    = Ret rest w' /\
    mem w' blk = transfer fromMap toMap ms (mem w blk) idxs /\
    (forall b, b <> blk -> mem w' b = mem w b) /\
    writes (trace w') =
      writes (trace w)
      ++ [(rfd,
           if os_open w rfd
           then ("allowsend " ++ fmt_d n ++ " " ++ fmt_d e
                   ++ String NL "")%string
           else ("allowsend " ++ fmt_d n ++ " " ++ fmt_d e)%string)] /\
    rcount (peer (inst w') lid) = 0 /\
    (forall j, j <> lid -> peer (inst w') j = peer (inst w) j).
Proof.
  pose proof (slice_volume_pos slc slc_nonempty) as Hpos. fold n in Hpos.
  assert (Hsize : CInt.to_int (laik_slice_size slc) = n).
  { rewrite laik_slice_size_volume by (auto; fold n; clia).
    apply to_int_id. unfold CInt.is_int. fold n. clia. }
  destruct ready as (Hfd & Hmax & Hset & Hl & Hcb & Hused & buf & Hbuf).
  unfold recv_slice. rewrite has_mem. cbn [assert].
  unfold bind at 1. unfold ret at 1.
  unfold bind at 1. unfold get_inst at 1.
  rewrite none_due. cbn [Z.eqb assert].
  unfold bind at 1. unfold ret at 1.
  unfold bind at 1. unfold modify_inst at 1.
  unfold bind at 1. unfold get_inst at 1.
  cbn [inst set_inst peer upd_peer set_peer]. rewrite upd_same.
  cbn [rcount set_rcount]. rewrite Hsize.
  replace (0 <? n) with true by (symmetry; apply Z.ltb_lt; lia).
  cbn [assert]. unfold bind at 1. unfold ret at 1.
  unfold bind at 1. unfold modify_inst at 1.
  unfold bind at 1. unfold get_inst at 1.
  cbn [inst set_inst peer upd_peer set_peer]. rewrite !upd_same.
  replace (rcount (post_recv slc toMap LAIK_RO_None
                     (set_rcount (peer (inst w) lid) n))) with n by reflexivity.
  replace (relemsize (post_recv slc toMap LAIK_RO_None
                        (set_rcount (peer (inst w) lid) n))) with e
    by (symmetry; exact same_size).
  set (wp := set_inst (set_inst w _) _).
  set (pp := post_recv slc toMap LAIK_RO_None
               (set_rcount (peer (inst w) lid) n)).
  assert (Hpp : peer (inst wp) lid = pp).
  { unfold wp. cbn [inst set_inst peer upd_peer set_peer].
    rewrite !upd_same. reflexivity. }
  (* the grant *)
  destruct (send_cmd_handed lid
              ("allowsend " ++ fmt_d n ++ " " ++ fmt_d e)%string wp)
    as (w0 & S0 & Si & Sm & So & Sd & _ & _ & Sw).
  { exact lid_ok. }
  { rewrite Hpp. unfold pp. cbn. rewrite connected. lia. }
  { rewrite strlen_append.
    pose proof (strlen_nonneg (fmt_d n ++ " " ++ fmt_d e)%string).
    unfold strlen at 1. cbn [String.length]. lia. }
  rewrite S0.
  assert (Hfdp : fd (peer (inst wp) lid) = rfd).
  { rewrite Hpp. unfold pp. cbn. exact connected. }
  rewrite Hfdp in Sw.
  assert (Hiw : inst w0 = inst wp) by exact Si.
  assert (Hpw : peer (inst w0) lid = pp) by (rewrite Hiw; exact Hpp).
  (* the wait *)
  rewrite loop_while_S.
  rewrite Hpw.
  replace (roff pp <? rcount pp) with true
    by (unfold pp; cbn; symmetry; apply Z.ltb_lt; lia).
  unfold run_loop.
  set (w0' := set_inst w0 (set_exit (inst w0) 0)).
  assert (Hrecv : receiving slc toMap lid (n - Z.of_nat (Z.to_nat n))
                            (from slc) (inst w0')).
  { unfold receiving, w0'. cbn [inst set_inst peer set_exit]. rewrite Hpw.
    unfold pp. cbn.
    split; [reflexivity|]. split; [reflexivity|]. split; [reflexivity|].
    split; [reflexivity|]. split; [reflexivity|]. split; [lia|].
    split; [reflexivity|].
    split; [apply from_on_track; exact slc_nonempty|].
    rewrite lex_rank_from. lia. }
  assert (Hready : fd_ready rfd lid (inst w0')).
  { unfold fd_ready, w0'. cbn [inst set_inst set_exit maxfds rset fds].
    rewrite Hiw. unfold wp.
    cbn [inst set_inst upd_peer set_peer maxfds rset fds].
    split; [exact Hfd|]. split; [exact Hmax|]. split; [exact Hset|].
    split; [exact Hl|]. split; [exact Hcb|]. split; [exact Hused|].
    exists buf. exact Hbuf. }
  destruct (recv_loop lid rfd wfd toMap fromMap slc blk ms slc_nonempty
              slc_fits idx_fit
              (proj1 lid_ok) has_mem same_size size_pos bytes_ok cmds_fit
              (Z.to_nat n) (from slc) w0' rest)
    as (w1 & E1 & M1 & Mo1 & W1 & Po1 & Pl1 & Ex1 & _ & _ & _); auto.
  { lia. }
  { fold n. lia. }
  fold n in E1, M1, Pl1.
  replace (n - Z.of_nat (Z.to_nat n)) with 0 in E1 by lia.
  fold idxs in E1, M1. rewrite E1.
  (* all elements are in: the loop is left *)
  assert (Hdone : (roff (peer (inst w1) lid) <? rcount (peer (inst w1) lid))
                  = false).
  { rewrite Pl1. unfold w0'. cbn [inst set_inst peer set_exit]. rewrite Hpw.
    unfold pp. cbn. fold n. apply Z.ltb_irrefl. }
  destruct (List.length _) as [|f]; cbn [loop_while]; rewrite Hdone.
  all: eexists; (split; [reflexivity|]);
    cbn [inst set_inst mem trace peer upd_peer set_peer];
    (split; [rewrite M1; unfold w0'; cbn [mem set_inst]; rewrite Sm;
             reflexivity|]);
    (split; [intros b Hb; rewrite Mo1 by exact Hb; unfold w0';
             cbn [mem set_inst]; rewrite Sm; reflexivity|]);
    (split; [rewrite W1; unfold w0'; cbn [trace set_inst]; rewrite Sw;
             unfold wp; cbn [trace set_inst os_open];
             destruct (os_open w rfd); str_norm; reflexivity|]);
    (split; [rewrite upd_same; reflexivity|]);
    intros j Hj; rewrite upd_other by exact Hj; rewrite Po1 by exact Hj;
    unfold w0'; cbn [inst set_inst peer set_exit]; rewrite Hiw; unfold wp;
    cbn [inst set_inst peer upd_peer set_peer];
    rewrite !upd_other by exact Hj; reflexivity.
Qed.

End RecvSlice.

(** What [send_slice] sends, [recv_slice] receives.  A receiver with
    nothing due from peer [lid], connected to it on descriptor [rfd],
    posts the receive of the slice and writes the grant
    "allowsend <count> <elemsize>" to the peer (without its newline if
    the descriptor is not open for writing); then, with the data
    commands [send_slice] writes for the slice arriving on the descriptor
    (each in a read of its own), [recv_slice] returns once the last
    element is stored, with nothing due any more.  The block of the
    receiving mapping then holds every element the sender read, at the
    place the receiving layout gives its index; other blocks, other peers
    and the environment's further input are untouched.  The index texts
    of the slice are taken to fit the buffer of [istr]. *)
Theorem recv_slice_receives_sent_slice :
  forall (lid rfd wfd : Z) (toMap fromMap : Tcp2.Laik_Mapping)
         (slc : Laik_Slice) (blk : Z) (ms : Z -> Z) (w : Tcp2.World)
         (rest : list Tcp2.Round),
    let n := slice_volume slc in
    let e := Tcp2.elemsize fromMap in
    let idxs := Tcp2.walk (Z.to_nat n) slc (from slc) in
    slice_nonempty slc ->
    n <= CInt.INT_MAX ->
    (forall idx,
       idx_in slc idx -> CStr.strlen (coordinates_text (dims slc) idx) < 50) ->
    0 <= lid < Tcp2.MAX_PEERS ->
    Tcp2.start toMap = Some blk ->
    Tcp2.elemsize toMap = e ->
    0 < e ->
    (forall k, is_byte (ms k)) ->
    (forall k idx bytes,
       0 <= k < n -> idx_in slc idx ->
       List.length bytes = Z.to_nat e ->
       CStr.strlen (Tcp2.data_cmd k (dims slc) idx e bytes) < 100) ->
    Tcp2.rcount (Tcp2.peer (Tcp2.inst w) lid) = 0 ->
    Tcp2.fd (Tcp2.peer (Tcp2.inst w) lid) = rfd ->
    fd_ready rfd lid (Tcp2.inst w) ->
    exists w',
      Tcp2.recv_slice slc lid toMap Tcp2.LAIK_RO_None
        (arriving rfd (Tcp2.data_writes wfd fromMap ms (dims slc) 0 idxs)
         ++ rest) w
      = Tcp2.Ret rest w' /\
      Tcp2.writes (Tcp2.trace w') =
        Tcp2.writes (Tcp2.trace w)
        ++ [(rfd,
             if Tcp2.os_open w rfd
             then ("allowsend " ++ CStr.fmt_d n ++ " " ++ CStr.fmt_d e
                     ++ String.String CStr.NL "")%string
             else ("allowsend " ++ CStr.fmt_d n ++ " " ++ CStr.fmt_d e)%string)]
      /\
      Tcp2.rcount (Tcp2.peer (Tcp2.inst w') lid) = 0 /\
      (forall j, j <> lid ->
         Tcp2.peer (Tcp2.inst w') j = Tcp2.peer (Tcp2.inst w) j) /\
      (forall b, b <> blk -> Tcp2.mem w' b = Tcp2.mem w b) /\
      Tcp2.mem w' blk = transfer fromMap toMap ms (Tcp2.mem w blk) idxs /\
      ((forall i j, (i < Z.to_nat n)%nat -> (j < Z.to_nat n)%nat -> i <> j ->
          Tcp2.layout_offset toMap (nth i idxs (mkIndex 0 0 0))
          <> Tcp2.layout_offset toMap (nth j idxs (mkIndex 0 0 0))) ->
       forall i b, (i < Z.to_nat n)%nat -> 0 <= b < e ->
         Tcp2.mem w' blk
           (Tcp2.layout_offset toMap (nth i idxs (mkIndex 0 0 0)) * e + b)
         = ms (Tcp2.layout_offset fromMap (nth i idxs (mkIndex 0 0 0)) * e
               + b)).
Proof.
  intros lid rfd wfd toMap fromMap slc blk ms w rest n e idxs
         Hne Hfit Hidx Hlid Hmem Hsz He Hby Hcmd Hdue Hconn Hready.
  destruct (recv_slice_run lid rfd wfd toMap fromMap slc blk ms w rest)
    as (w' & E & M & Mo & W & R & P); auto.
  { intros k idx Hk Hi. apply Hcmd; auto. apply read_bytes_length. }
  exists w'. split; [exact E|]. split; [exact W|]. split; [exact R|].
  split; [exact P|]. split; [exact Mo|]. split; [exact M|].
  intros Hinj i b Hi Hb. rewrite M.
  apply transfer_element; auto.
  - unfold idxs in *. rewrite walk_length. exact Hinj.
  - unfold idxs. rewrite walk_length. exact Hi.
Qed.

Lemma ex_ready : fd_ready 5 1 (Tcp2.inst ex_world).
Proof.
  unfold fd_ready. cbn. unfold Tcp2.MAX_FDS.
  split; [lia|]. split; [lia|]. split; [reflexivity|].
  split; [reflexivity|]. split; [reflexivity|]. split; [reflexivity|].
  eexists. reflexivity.
Qed.

Lemma ex_data_cmds_fit :
  forall k idx bytes,
    0 <= k < slice_volume ex_slice_1d -> idx_in ex_slice_1d idx ->
    List.length bytes = Z.to_nat (Tcp2.elemsize ex_map) ->
    CStr.strlen (Tcp2.data_cmd k (dims ex_slice_1d) idx
                               (Tcp2.elemsize ex_map) bytes) < 100.
Proof.
  intros k [a b c] bytes Hk (Ha & _) Hb. cbn in Hk, Ha, Hb.
  destruct bytes as [|x [|y bytes]]; try discriminate Hb.
  assert (Ek : k = 0 \/ k = 1) by lia.
  assert (Ea : a = 0 \/ a = 1) by lia.
  destruct Ek as [-> | ->], Ea as [-> | ->]; vm_compute; reflexivity.
Qed.

(** The theorem in the example: the two elements of the slice [0,2),
    one byte each, arrive from peer 1 on descriptor 5. *)
Lemma recv_slice_receives_sent_slice_witness :
  exists w',
    Tcp2.recv_slice ex_slice_1d 1 ex_map Tcp2.LAIK_RO_None
      [[(5, Tcp2.InRead ("data 1 (0:0) 07" ++ String.String CStr.NL "")%string)];
       [(5, Tcp2.InRead ("data 1 (1:1) 07" ++ String.String CStr.NL "")%string)]]
      ex_world
    = Tcp2.Ret [] w' /\
    Tcp2.rcount (Tcp2.peer (Tcp2.inst w') 1) = 0.
Proof.
  destruct (recv_slice_receives_sent_slice 1 5 5 ex_map ex_map ex_slice_1d 0
              (fun _ => 7) ex_world [] ex_slice_1d_nonempty
              ltac:(vm_compute; discriminate) ex_idx_fit
              ltac:(unfold Tcp2.MAX_PEERS; lia) eq_refl eq_refl
              ltac:(cbn; lia) ltac:(intros k; unfold is_byte; lia)
              ex_data_cmds_fit eq_refl eq_refl ex_ready)
    as (w' & E & _ & R & _).
  exists w'. split; [exact E|exact R].
Defined.

(** The same run, computed: the grant is written, and both bytes are in
    memory. *)
Example recv_slice_example :
  exists w',
    Tcp2.recv_slice ex_slice_1d 1 ex_map Tcp2.LAIK_RO_None
      [[(5, Tcp2.InRead ("data 1 (0:0) 2a" ++ String.String CStr.NL "")%string)];
       [(5, Tcp2.InRead ("data 1 (1:1) 2b" ++ String.String CStr.NL "")%string)]]
      ex_world
    = Tcp2.Ret [] w' /\
    Tcp2.writes (Tcp2.trace w')
      = [(5, ("allowsend 2 1" ++ String.String CStr.NL "")%string)] /\
    Tcp2.mem w' 0 0 = 42 /\ Tcp2.mem w' 0 1 = 43 /\ Tcp2.mem w' 0 2 = 7.
Proof. eexists. split; [vm_compute; reflexivity|]. repeat split. Qed.

(** * Commands between registered peers *)

Ltac verb_is H :=
  rewrite ?(is_char_other _ _ "r" H), ?(is_char_other _ _ "m" H),
    ?(is_char_other _ _ "h" H), ?(is_char_other _ _ "k" H),
    ?(is_char_other _ _ "q" H), ?(is_char_other _ _ "#" H),
    ?(is_char_other _ _ "s" H), ?(is_char_other _ _ "i" H),
    ?(is_char_other _ _ "p" H), ?(is_char_other _ _ "a" H),
    ?(is_char_other _ _ "d" H) by (vm_compute; discriminate);
  rewrite ?H.

Section Grant.

Import Tcp2 CStr.
Open Scope string_scope.
Open Scope Z_scope.

(** What [sscanf] reads from a grant as [recv_slice] writes it. *)
Lemma sscanf_allowsend c e :
  sscanf ("allowsend " ++ fmt_d c ++ " " ++ fmt_d e)
         [D_s 20; D_ws; D_d; D_ws; D_d]
  = (3, [A_str "allowsend"; A_int (CInt.stored_int c);
         A_int (CInt.stored_int e)]).
Proof.
  unfold sscanf.
  set (total := strlen _).
  rewrite (scan_word 20 _ _ total 0 "allowsend"
             (" " ++ fmt_d c ++ " " ++ fmt_d e));
    [|reflexivity|reflexivity|discriminate].
  cbn [scan]. change (" " ++ fmt_d c ++ " " ++ fmt_d e)
    with (String " " (fmt_d c ++ " " ++ fmt_d e)).
  rewrite skip_ws_space, !skip_ws_fmt_d.
  rewrite scan_int_fmt_d_stored by reflexivity.
  change (" " ++ fmt_d e) with (String " " (fmt_d e)).
  rewrite skip_ws_space.
  rewrite <- (append_nil_r (fmt_d e)).
  rewrite !skip_ws_fmt_d. rewrite scan_int_fmt_d_stored by reflexivity.
  reflexivity.
Qed.

(** The word [allowsend] fits [cmd[20]]. *)
Lemma allowsend_fits rest :
  scan_overflow [D_s 20; D_ws; D_d; D_ws; D_d] ("allowsend " ++ rest) = false.
Proof.
  apply verb_fits_overflow; [|repeat constructor; discriminate].
  unfold verb_fits.
  change (fst (take_word 20 (skip_ws ("allowsend " ++ rest))))
    with "allowsend".
  cbn. lia.
Qed.

End Grant.

(** The grant [recv_slice] writes, "allowsend <count> <elemsize>",
    received from a registered peer to which nothing may be sent yet,
    gives that credit: [scount] and [selemsize] of the peer are set to
    the two numbers as [sscanf] stores them in [int] variables (the
    numbers themselves when they are [int]s; in general the low 32 bits
    of the number as a [long]), and the event loop is told to return (which ends the
    wait of [send_slice]); memory is not touched and nothing is written.
    A grant that arrives while credit is still held fails the assertion
    [scount == 0]. *)
Theorem allowsend_grants_credit :
  forall (fd msgp len c e : Z) (w : Tcp2.World),
    let lid := Tcp2.fd_lid (Tcp2.fds (Tcp2.inst w) fd) in
    let msg := ("allowsend " ++ CStr.fmt_d c ++ " " ++ CStr.fmt_d e)%string in
    0 <= lid ->
    (Tcp2.scount (Tcp2.peer (Tcp2.inst w) lid) = 0 ->
     exists w',
       Tcp2.got_cmd fd msgp msg len w = Tcp2.Ret tt w' /\
       Tcp2.inst w' =
         Tcp2.set_exit
           (Tcp2.upd_peer (Tcp2.inst w) lid (fun q =>
              Tcp2.set_selemsize (Tcp2.set_scount q (CInt.stored_int c))
                                 (CInt.stored_int e))) 1 /\
       Tcp2.mem w' = Tcp2.mem w /\
       Tcp2.writes (Tcp2.trace w') = Tcp2.writes (Tcp2.trace w)) /\
    (Tcp2.scount (Tcp2.peer (Tcp2.inst w) lid) <> 0 ->
     exists w',
       Tcp2.got_cmd fd msgp msg len w = Tcp2.Stop Tcp2.AssertFailed w' /\
       Tcp2.inst w' = Tcp2.inst w) /\
    (forall z,
       (CInt.is_int z -> CInt.stored_int z = z) /\
       CInt.stored_int z
       = (Z.max (- 2 ^ 63) (Z.min (2 ^ 63 - 1) z) + 2 ^ 31) mod 2 ^ 32
         - 2 ^ 31).
Proof.
  intros fd msgp len c e w lid msg Hl.
  assert (Hc : CStr.is_char (CStr.char_at msg 0) "a" = true) by reflexivity.
  assert (G : Tcp2.got_cmd fd msgp msg len w
              = Tcp2.cmd_allowsend lid msg
                  (Tcp2.emit w (Tcp2.EvLog (Tcp2.LL 1) msg_got_cmd))).
  { rewrite got_cmd_dispatch. cbv zeta. fold lid. verb_is Hc.
    replace (lid <? 0) with false by (symmetry; apply Z.ltb_ge; lia).
    reflexivity. }
  rewrite G. unfold Tcp2.cmd_allowsend, msg.
  rewrite allowsend_fits.
  rewrite sscanf_allowsend. cbn [Z.ltb Z.compare Pos.compare Pos.compare_cont].
  change (CStr.arg_int 1 _) with (CInt.stored_int c).
  change (CStr.arg_int 2 _) with (CInt.stored_int e).
  split; [|split; [|apply stored_int_value]]; intros Hs;
    unfold Tcp2.bind at 1; unfold Tcp2.laik_log at 1;
    unfold Tcp2.bind at 1; unfold Tcp2.get_inst at 1;
    cbn [Tcp2.inst Tcp2.emit].
  - rewrite Hs. cbn [Z.eqb Tcp2.assert].
    unfold Tcp2.bind, Tcp2.ret, Tcp2.modify_inst.
    eexists. split; [reflexivity|]. cbn.
    split; [reflexivity|]. split; [reflexivity|].
    rewrite !writes_app. cbn. rewrite !app_nil_r. reflexivity.
  - apply Z.eqb_neq in Hs. rewrite Hs. cbn [Tcp2.assert].
    unfold Tcp2.bind, Tcp2.stop. eexists. split; reflexivity.
Qed.

(** The grant "allowsend 2 1" from peer 1 of the example. *)
Lemma allowsend_grants_credit_witness :
  exists w',
    Tcp2.got_cmd 5 0 "allowsend 2 1" 13 ex_world = Tcp2.Ret tt w' /\
    Tcp2.scount (Tcp2.peer (Tcp2.inst w') 1) = 2 /\
    Tcp2.selemsize (Tcp2.peer (Tcp2.inst w') 1) = 1 /\
    Tcp2.exit (Tcp2.inst w') = 1.
Proof.
  destruct (allowsend_grants_credit 5 0 13 2 1 ex_world ltac:(cbn; lia))
    as (H & _).
  destruct (H eq_refl) as (w' & E & Hi & _).
  exists w'. split; [exact E|]. rewrite Hi. repeat split.
Defined.

(** A count beyond the range of [int] is taken by its low 32 bits:
    "allowsend 4294967297 1" grants one element. *)
Example allowsend_wraps :
  exists w',
    Tcp2.got_cmd 5 0 "allowsend 4294967297 1" 22 ex_world = Tcp2.Ret tt w' /\
    Tcp2.scount (Tcp2.peer (Tcp2.inst w') 1) = 1.
Proof. eexists. split; [vm_compute; reflexivity|reflexivity]. Qed.

(** A command from a descriptor whose peer has no location id yet, other
    than the commands open to everybody (register, myid, help, kill,
    quit, status and comments), is not carried out: the sender gets the
    line "# first register, see 'help'" on its descriptor (without the
    newline if the write fails), and the back-end state and the memory
    of the mappings stay as they are.  In particular no id, phase, grant
    or data is taken from such a peer. *)
Theorem got_cmd_refuses_unregistered :
  forall (fd msgp len : Z) (msg : string) (w : Tcp2.World),
    Tcp2.fd_lid (Tcp2.fds (Tcp2.inst w) fd) = -1 ->
    0 < fd ->
    open_verb (CStr.char_at msg 0) = false ->
    exists w',
      Tcp2.got_cmd fd msgp msg len w = Tcp2.Ret tt w' /\
      Tcp2.inst w' = Tcp2.inst w /\
      Tcp2.mem w' = Tcp2.mem w /\
      Tcp2.writes (Tcp2.trace w') =
        Tcp2.writes (Tcp2.trace w)
        ++ [(fd,
             if Tcp2.os_open w fd
             then (msg_first_register ++ String CStr.NL "")%string
             else msg_first_register)].
Proof.
  intros fd msgp len msg w Hl Hfd Hv.
  unfold open_verb in Hv.
  repeat (apply Bool.orb_false_elim in Hv; destruct Hv as (Hv & ?)).
  rewrite got_cmd_dispatch. cbv zeta. rewrite Hl.
  repeat match goal with
         | H : CStr.is_char _ _ = false |- _ => rewrite H; clear H
         end.
  cbn [Z.ltb Z.compare].
  unfold Tcp2.bind at 1. unfold Tcp2.laik_log at 1.
  replace (0 <? fd) with true by (symmetry; apply Z.ltb_lt; lia).
  unfold Tcp2.bind at 1. unfold Tcp2.assert, Tcp2.ret.
  unfold Tcp2.reply_to. cbn [Z.eqb Pos.eqb].
  unfold Tcp2.send_cmd.
  replace (0 <=? - fd) with false by (symmetry; apply Z.leb_gt; lia).
  rewrite Z.opp_involutive.
  unfold Tcp2.send_cmd_on. unfold Tcp2.bind at 1. unfold Tcp2.laik_log at 1.
  change (CStr.strlen "# first register, see 'help'" =? 0) with false.
  cbv iota. unfold Tcp2.bind, Tcp2.os_write.
  cbn [Tcp2.os_open Tcp2.emit].
  destruct (Tcp2.os_open w fd);
    (eexists; split; [reflexivity|]); cbn;
    (split; [reflexivity|]); (split; [reflexivity|]);
    rewrite !writes_app; cbn; rewrite !app_nil_r; reflexivity.
Qed.

(** A data command on the descriptor the example has just accepted. *)
Lemma got_cmd_refuses_unregistered_witness :
  exists w',
    Tcp2.got_cmd 6 0 "data 1 (0:0) 2a" 15 ex_world_unreg = Tcp2.Ret tt w' /\
    Tcp2.inst w' = Tcp2.inst ex_world_unreg /\
    Tcp2.mem w' = Tcp2.mem ex_world_unreg /\
    Tcp2.writes (Tcp2.trace w') =
      Tcp2.writes (Tcp2.trace ex_world_unreg)
      ++ [(6, (msg_first_register ++ String CStr.NL "")%string)].
Proof.
  destruct (got_cmd_refuses_unregistered 6 0 15 "data 1 (0:0) 2a"
              ex_world_unreg) as (w' & E & Hi & Hm & Hw);
    [reflexivity|lia|reflexivity|].
  exists w'. split; [exact E|]. split; [exact Hi|]. split; [exact Hm|].
  exact Hw.
Defined.

(** * Connecting to a peer *)

Section Dial.

Import Tcp2 CStr.
Open Scope string_scope.
Open Scope Z_scope.

Variables (lid newfd : Z) (rest : list DialResult) (w : World).

Hypothesis Hlid : 0 <= lid < MAX_PEERS.
Hypothesis Hnofd : fd (peer (inst w) lid) < 0.
Hypothesis Hport : 0 <= port (peer (inst w) lid).

Let h := host (peer (inst w) lid).
Let p := port (peer (inst w) lid).

(** The connection attempt of [ensure_conn]. *)
Lemma ensure_conn_attempt :
  ensure_conn lid w =
    (r <- os_dial h p ;;
     match r with
     | DialNoHost =>
         laik_log LAIK_LL_Panic "TCP2 host %s not found - getaddrinfo %s" ;;
         stop ProcExit
     | DialRefused =>
         laik_log LAIK_LL_Panic
                  "TCP2 cannot connect to LID %d (host %s, port %d)" ;;
         stop ProcExit
     | DialFd newfd =>
         modify_inst (fun d => upd_peer d lid (fun p => set_fd p newfd)) ;;
         add_rfd newfd cb_got_bytes ;;
         modify_inst (fun d => upd_fds d newfd (fun s => set_fd_lid s lid)) ;;
         laik_log (LL 1) "TCP2 connected to LID %d (host %s, port %d)" ;;
         d <- get_inst ;;
         if 0 <=? mylid d then
           send_cmd_on (fd (peer d lid)) lid ("myid " ++ fmt_d (mylid d))
         else ret tt
     end) w.
Proof.
  unfold ensure_conn. unfold bind at 1.
  replace (lid <? MAX_PEERS) with true by (symmetry; apply Z.ltb_lt; lia).
  unfold assert at 1, ret at 1. unfold bind at 1, get_inst at 1.
  replace (0 <=? fd (peer (inst w) lid)) with false
    by (symmetry; apply Z.leb_gt; lia).
  unfold bind at 1.
  replace (0 <=? port (peer (inst w) lid)) with true
    by (symmetry; apply Z.leb_le; lia).
  reflexivity.
Qed.

(** No connection: the process exits, nothing was written. *)
Lemma ensure_conn_fails :
  (dials w = [] \/ dials w = DialRefused :: rest \/
   dials w = DialNoHost :: rest \/
   (dials w = DialFd newfd :: rest /\ newfd < 0)) ->
  exists w', ensure_conn lid w = Stop ProcExit w' /\
             inst w' = inst w /\ mem w' = mem w /\
             writes (trace w') = writes (trace w).
Proof.
  intros H. rewrite ensure_conn_attempt.
  unfold bind at 1, os_dial.
  destruct H as [E|[E|[E|(E & Hn)]]]; rewrite E;
    try (replace (0 <=? newfd) with false by (symmetry; apply Z.leb_gt; lia));
    unfold bind, laik_log, stop; cbn [panic_returns set_dials];
    destruct (panic_returns w);
    (eexists; split; [reflexivity|]); cbn;
    rewrite writes_app, app_nil_r; auto.
Qed.

Hypothesis Hdial : dials w = DialFd newfd :: rest.
Hypothesis Hnew : 0 <= newfd < MAX_FDS.
Hypothesis Hfree : cb (fds (inst w) newfd) = cb_none.

Lemma strlen_myid n : (strlen ("myid " ++ fmt_d n) =? 0) = false.
Proof.
  apply Z.eqb_neq. rewrite strlen_append.
  pose proof (strlen_nonneg (fmt_d n)). change (strlen "myid ") with 5. lia.
Qed.

(** The connection is made: the state after [ensure_conn]. *)
Lemma ensure_conn_connects :
  exists w1,
    ensure_conn lid w = Ret tt w1 /\
    inst w1 =
      (let d1 := upd_peer (inst w) lid (fun q => set_fd q newfd) in
       let d2 := set_rset d1 (upd (rset d1) newfd true) in
       let d3 := if maxfds d2 <? newfd then set_maxfds d2 newfd else d2 in
       let d4 := set_fds d3 (upd (fds d3) newfd
                                 (mkFDState (-1) cb_got_bytes 0 (Some ""))) in
       upd_fds d4 newfd (fun s => set_fd_lid s lid)) /\
    mem w1 = mem w /\ dials w1 = rest /\
    os_open w1 = upd (os_open w) newfd true /\
    writes (trace w1) =
      (writes (trace w)
       ++ (if 0 <=? mylid (inst w)
           then [(newfd, ("myid " ++ fmt_d (mylid (inst w))
                            ++ String NL "")%string)]
           else []))%list /\
    In (EvConnect h p newfd) (trace w1).
Proof.
  rewrite ensure_conn_attempt.
  unfold bind at 1, os_dial. rewrite Hdial.
  replace (0 <=? newfd) with true by (symmetry; apply Z.leb_le; lia).
  unfold bind at 1, modify_inst at 1.
  unfold bind at 1, add_rfd.
  unfold bind at 1.
  replace (newfd <? MAX_FDS) with true by (symmetry; apply Z.ltb_lt; lia).
  unfold assert at 1, ret at 1. unfold bind at 1, get_inst at 1.
  unfold bind at 1.
  cbn [inst set_inst set_os_open set_dials emit upd_peer set_peer fds].
  rewrite Hfree. cbn [cb_is_set negb assert]. unfold ret at 1.
  unfold modify_inst at 1.
  unfold bind at 1, modify_inst at 1.
  unfold bind at 1, laik_log at 1.
  unfold bind at 1, get_inst at 1.
  cbn [inst set_inst set_os_open set_dials emit upd_peer set_peer fds
       upd_fds set_fds set_rset set_maxfds mylid peer rset maxfds].
  assert (Em : forall (d : InstData) (b : bool),
             mylid (if b then set_maxfds d newfd else d) = mylid d)
    by (intros ? []; reflexivity).
  assert (Ep : forall (d : InstData) (b : bool),
             peer (if b then set_maxfds d newfd else d) = peer d)
    by (intros ? []; reflexivity).
  rewrite !Em, !Ep. unfold upd_peer at 1 2 3.
  cbn [mylid peer set_rset set_peer]. rewrite ?upd_same. cbn [fd set_fd].
  destruct (0 <=? mylid (inst w)).
  - unfold send_cmd_on. unfold bind at 1, laik_log at 1.
    rewrite strlen_myid. unfold bind, os_write.
    cbn [os_open emit set_inst set_os_open set_dials].
    rewrite upd_same. unfold ret.
    eexists. split; [reflexivity|].
    cbn [inst mem dials os_open trace set_inst emit set_os_open set_dials].
    split; [reflexivity|]. split; [reflexivity|]. split; [reflexivity|].
    split; [reflexivity|]. split.
    + rewrite !writes_app. cbn [writes]. rewrite !app_nil_r. str_norm.
      reflexivity.
    + rewrite !in_app_iff. cbn. auto 10.
  - unfold ret. eexists. split; [reflexivity|].
    cbn [inst mem dials os_open trace set_inst emit set_os_open set_dials].
    split; [reflexivity|]. split; [reflexivity|]. split; [reflexivity|].
    split; [reflexivity|]. split.
    + rewrite !writes_app. cbn [writes]. rewrite !app_nil_r. reflexivity.
    + rewrite !in_app_iff. cbn. auto 10.
Qed.

End Dial.

(** Sending a command to a known peer that has no connection (its entry
    holds a port but no descriptor) connects first: [ensure_conn] dials
    the host and port of the entry, records the new descriptor in the
    entry, registers it in the event loop with an empty receive buffer
    and the peer's id, and announces the own id with "myid <id>" (when
    the process has one) before the command itself is written.  Other
    peers and the memory are not touched.  When no connection can be made
    the process exits without having written anything. *)
Theorem send_cmd_connects_first :
  forall (lid : Z) (cmd : string) (w : Tcp2.World),
    0 <= lid < Tcp2.MAX_PEERS ->
    Tcp2.fd (Tcp2.peer (Tcp2.inst w) lid) < 0 ->
    0 <= Tcp2.port (Tcp2.peer (Tcp2.inst w) lid) ->
    0 < CStr.strlen cmd ->
    (forall newfd rest,
       Tcp2.dials w = Tcp2.DialFd newfd :: rest ->
       0 <= newfd < Tcp2.MAX_FDS ->
       Tcp2.cb (Tcp2.fds (Tcp2.inst w) newfd) = Tcp2.cb_none ->
       exists w',
         Tcp2.send_cmd lid cmd w = Tcp2.Ret tt w' /\
         Tcp2.peer (Tcp2.inst w') lid =
           Tcp2.set_fd (Tcp2.peer (Tcp2.inst w) lid) newfd /\
         (forall j, j <> lid ->
            Tcp2.peer (Tcp2.inst w') j = Tcp2.peer (Tcp2.inst w) j) /\
         Tcp2.fds (Tcp2.inst w') newfd =
           Tcp2.mkFDState lid Tcp2.cb_got_bytes 0 (Some ""%string) /\
         (forall j, j <> newfd ->
            Tcp2.fds (Tcp2.inst w') j = Tcp2.fds (Tcp2.inst w) j) /\
         Tcp2.rset (Tcp2.inst w') newfd = true /\
         newfd <= Tcp2.maxfds (Tcp2.inst w') /\
         Tcp2.mem w' = Tcp2.mem w /\
         Tcp2.dials w' = rest /\
         In (Tcp2.EvConnect (Tcp2.host (Tcp2.peer (Tcp2.inst w) lid))
                            (Tcp2.port (Tcp2.peer (Tcp2.inst w) lid)) newfd)
            (Tcp2.trace w') /\
         Tcp2.writes (Tcp2.trace w') =
           Tcp2.writes (Tcp2.trace w)
           ++ (if 0 <=? Tcp2.mylid (Tcp2.inst w)
               then [(newfd, ("myid " ++ CStr.fmt_d (Tcp2.mylid (Tcp2.inst w))
                                ++ String CStr.NL "")%string)]
               else [])
           ++ [(newfd, (cmd ++ String CStr.NL "")%string)]) /\
    (forall newfd rest,
       (Tcp2.dials w = [] \/ Tcp2.dials w = Tcp2.DialRefused :: rest \/
        Tcp2.dials w = Tcp2.DialNoHost :: rest \/
        (Tcp2.dials w = Tcp2.DialFd newfd :: rest /\ newfd < 0)) ->
       exists w',
         Tcp2.send_cmd lid cmd w = Tcp2.Stop Tcp2.ProcExit w' /\
         Tcp2.inst w' = Tcp2.inst w /\ Tcp2.mem w' = Tcp2.mem w /\
         Tcp2.writes (Tcp2.trace w') = Tcp2.writes (Tcp2.trace w)).
Proof.
  intros lid cmd w Hlid Hnofd Hport Hcmd.
  unfold Tcp2.send_cmd.
  replace (0 <=? lid) with true by (symmetry; apply Z.leb_le; lia).
  split.
  - intros newfd rest Hdial Hnew Hfree.
    destruct (ensure_conn_connects lid newfd rest w Hlid Hnofd Hport
                Hdial Hnew Hfree)
      as (w1 & E & Hi & Hm & Hd & Ho & Hw & Hc).
    unfold Tcp2.bind at 1. rewrite E.
    unfold Tcp2.bind at 1, Tcp2.get_inst at 1.
    assert (Hp : Tcp2.peer (Tcp2.inst w1) lid =
                 Tcp2.set_fd (Tcp2.peer (Tcp2.inst w) lid) newfd).
    { rewrite Hi. cbv zeta. unfold Tcp2.upd_fds, Tcp2.upd_peer.
      cbn [Tcp2.peer Tcp2.set_fds Tcp2.set_peer Tcp2.set_rset].
      destruct (_ <? newfd); cbn [Tcp2.peer Tcp2.set_maxfds];
        apply upd_same. }
    rewrite Hp. cbn [Tcp2.fd Tcp2.set_fd].
    unfold Tcp2.send_cmd_on. unfold Tcp2.bind at 1, Tcp2.laik_log at 1.
    replace (CStr.strlen cmd =? 0) with false
      by (symmetry; apply Z.eqb_neq; lia).
    unfold Tcp2.bind, Tcp2.os_write. cbn [Tcp2.os_open Tcp2.emit].
    rewrite Ho, upd_same. unfold Tcp2.ret.
    eexists. split; [reflexivity|].
    cbn [Tcp2.inst Tcp2.mem Tcp2.dials Tcp2.trace Tcp2.emit].
    split; [exact Hp|].
    split.
    { intros j Hj. rewrite Hi. cbv zeta. unfold Tcp2.upd_fds, Tcp2.upd_peer.
      cbn [Tcp2.peer Tcp2.set_fds Tcp2.set_peer Tcp2.set_rset].
      destruct (_ <? newfd); cbn [Tcp2.peer Tcp2.set_maxfds];
        apply upd_other; exact Hj. }
    split.
    { rewrite Hi. cbv zeta. unfold Tcp2.upd_fds.
      cbn [Tcp2.fds Tcp2.set_fds]. rewrite !upd_same. reflexivity. }
    split.
    { intros j Hj. rewrite Hi. cbv zeta. unfold Tcp2.upd_fds, Tcp2.upd_peer.
      cbn [Tcp2.fds Tcp2.set_fds]. rewrite !upd_other by exact Hj.
      destruct (_ <? newfd); reflexivity. }
    split.
    { rewrite Hi. cbv zeta. unfold Tcp2.upd_fds, Tcp2.upd_peer.
      cbn [Tcp2.rset Tcp2.set_fds].
      destruct (_ <? newfd); cbn [Tcp2.rset Tcp2.set_maxfds Tcp2.set_rset];
        apply upd_same. }
    split.
    { rewrite Hi. cbv zeta. unfold Tcp2.upd_fds, Tcp2.upd_peer.
      cbn [Tcp2.maxfds Tcp2.set_fds Tcp2.set_rset Tcp2.set_peer].
      destruct (Z.ltb_spec (Tcp2.maxfds (Tcp2.inst w)) newfd) as [L|L];
        cbn [Tcp2.maxfds Tcp2.set_maxfds Tcp2.set_rset Tcp2.set_peer];
        lia. }
    split; [exact Hm|]. split; [exact Hd|].
    split; [rewrite !in_app_iff; auto|].
    rewrite !writes_app, Hw. cbn [Tcp2.writes]. rewrite <- !app_assoc.
    reflexivity.
  - intros newfd rest H.
    destruct (ensure_conn_fails lid newfd rest w Hlid Hnofd Hport H)
      as (w' & E & Hi & Hm & Hw).
    unfold Tcp2.bind at 1. rewrite E. exists w'. auto.
Qed.

(** Peer 1 of the example without a descriptor: the command goes out on
    the descriptor 6 of the new connection, after "myid 0". *)
Lemma send_cmd_connects_first_witness :
  exists w',
    Tcp2.send_cmd 1 "phase 0" (ex_world_with ex_peer_away) = Tcp2.Ret tt w' /\
    Tcp2.fd (Tcp2.peer (Tcp2.inst w') 1) = 6 /\
    Tcp2.writes (Tcp2.trace w') =
      [(6, ("myid 0" ++ String CStr.NL "")%string);
       (6, ("phase 0" ++ String CStr.NL "")%string)].
Proof.
  destruct (send_cmd_connects_first 1 "phase 0" (ex_world_with ex_peer_away)
              ltac:(unfold Tcp2.MAX_PEERS; lia) ltac:(cbn; lia)
              ltac:(cbn; lia) ltac:(cbn; lia)) as (H & _).
  destruct (H 6 [] eq_refl ltac:(unfold Tcp2.MAX_FDS; lia) eq_refl)
    as (w' & E & Hp & _ & _ & _ & _ & _ & _ & _ & _ & Hw).
  exists w'. split; [exact E|]. split; [rewrite Hp; reflexivity|].
  rewrite Hw. reflexivity.
Defined.

(** * Commands with one number: myid and phase *)

Section OneNumber.

Import Tcp2 CStr.
Open Scope string_scope.
Open Scope Z_scope.

Lemma sscanf_myid n :
  sscanf ("myid " ++ fmt_d n) [D_s 20; D_ws; D_d]
  = (2, [A_str "myid"; A_int (CInt.stored_int n)]).
Proof.
  unfold sscanf. set (total := strlen _).
  rewrite (scan_word 20 _ _ total 0 "myid" (" " ++ fmt_d n));
    [|reflexivity|reflexivity|discriminate].
  cbn [scan]. change (" " ++ fmt_d n) with (String " " (fmt_d n)).
  rewrite skip_ws_space. rewrite <- (append_nil_r (fmt_d n)).
  rewrite !skip_ws_fmt_d. rewrite scan_int_fmt_d_stored by reflexivity.
  reflexivity.
Qed.

Lemma sscanf_phase n :
  sscanf ("phase " ++ fmt_d n) [D_s 20; D_ws; D_d]
  = (2, [A_str "phase"; A_int (CInt.stored_int n)]).
Proof.
  unfold sscanf. set (total := strlen _).
  rewrite (scan_word 20 _ _ total 0 "phase" (" " ++ fmt_d n));
    [|reflexivity|reflexivity|discriminate].
  cbn [scan]. change (" " ++ fmt_d n) with (String " " (fmt_d n)).
  rewrite skip_ws_space. rewrite <- (append_nil_r (fmt_d n)).
  rewrite !skip_ws_fmt_d. rewrite scan_int_fmt_d_stored by reflexivity.
  reflexivity.
Qed.

(** The words [myid] and [phase] fit [cmd[20]]. *)
Lemma myid_fits rest :
  scan_overflow [D_s 20; D_ws; D_d] ("myid " ++ rest) = false.
Proof.
  apply verb_fits_overflow; [|repeat constructor; discriminate].
  unfold verb_fits.
  change (fst (take_word 20 (skip_ws ("myid " ++ rest)))) with "myid".
  cbn. lia.
Qed.

Lemma phase_fits rest :
  scan_overflow [D_s 20; D_ws; D_d] ("phase " ++ rest) = false.
Proof.
  apply verb_fits_overflow; [|repeat constructor; discriminate].
  unfold verb_fits.
  change (fst (take_word 20 (skip_ws ("phase " ++ rest)))) with "phase".
  cbn. lia.
Qed.

Lemma got_cmd_myid fd msgp len n w :
  got_cmd fd msgp ("myid " ++ fmt_d n) len w
  = (d <- get_inst ;;
     let lid := fd_lid (fds (inst w) fd) in
     let k := CInt.stored_int n in
     if 0 <=? lid then
       if negb (lid =? k) then
         laik_log LAIK_LL_Panic
                  "got ID %d from peer already known with locID %d"
       else ret tt
     else if mylid d =? k then
       laik_log LAIK_LL_Panic "got ID %d from peer which is my own location ID"
     else
       assert ((0 <=? k) && (k <? MAX_PEERS)) ;;
       assert (k <=? maxid d) ;;
       modify_inst (fun d => upd_peer d k (fun q => set_fd q fd)) ;;
       assert (0 <=? fd) ;;
       modify_inst (fun d => upd_fds d fd (fun s => set_fd_lid s k)) ;;
       d <- get_inst ;;
       assert (match location (peer d k) with Some _ => true | None => false end) ;;
       assert (match host (peer d k) with Some _ => true | None => false end) ;;
       assert (0 <=? port (peer d k)) ;;
       laik_log (LL 1) "TCP2 seen location ID %d (location %s) at FD %d")
      (emit w (EvLog (LL 1) msg_got_cmd)).
Proof.
  assert (Hc : is_char (char_at ("myid " ++ fmt_d n) 0) "m" = true)
    by reflexivity.
  rewrite got_cmd_dispatch. cbv zeta. verb_is Hc.
  unfold cmd_myid. rewrite myid_fits, sscanf_myid. reflexivity.
Qed.

End OneNumber.

(** The announcement "myid <n>" that [ensure_conn] writes on a new
    connection; the id read is [k], the number as [sscanf] stores it in
    an [int] ([n] itself when it is an [int]; in general the low 32 bits
    of [n] as a [long]).  Arriving on a descriptor
    that has no location id yet: when [k] names a peer the master has
    announced (location, host and port are known) other than the process
    itself, the descriptor and the peer are bound to each other, and
    nothing else changes: no other peer or descriptor, no memory, nothing
    is written.  An announcement of the process's own id is reported at
    panic level and nothing else happens, and so is an id that differs
    from the one the descriptor is already bound to; the id the
    descriptor is bound to is taken without a word. *)
Theorem myid_binds_descriptor :
  forall (fd msgp len n : Z) (w : Tcp2.World),
    let d := Tcp2.inst w in
    let msg := ("myid " ++ CStr.fmt_d n)%string in
    let k := CInt.stored_int n in
    0 <= fd ->
    (Tcp2.fd_lid (Tcp2.fds d fd) < 0 ->
     Tcp2.mylid d <> k ->
     0 <= k < Tcp2.MAX_PEERS -> k <= Tcp2.maxid d ->
     Tcp2.location (Tcp2.peer d k) <> None ->
     Tcp2.host (Tcp2.peer d k) <> None ->
     0 <= Tcp2.port (Tcp2.peer d k) ->
     exists w',
       Tcp2.got_cmd fd msgp msg len w = Tcp2.Ret tt w' /\
       Tcp2.inst w' =
         Tcp2.upd_fds (Tcp2.upd_peer d k (fun q => Tcp2.set_fd q fd)) fd
                      (fun s => Tcp2.set_fd_lid s k) /\
       Tcp2.mem w' = Tcp2.mem w /\
       Tcp2.writes (Tcp2.trace w') = Tcp2.writes (Tcp2.trace w)) /\
    ((Tcp2.fd_lid (Tcp2.fds d fd) < 0 /\ Tcp2.mylid d = k) \/
     (0 <= Tcp2.fd_lid (Tcp2.fds d fd) /\ Tcp2.fd_lid (Tcp2.fds d fd) <> k) ->
     dropped_at_panic w (Tcp2.got_cmd fd msgp msg len w)) /\
    (0 <= Tcp2.fd_lid (Tcp2.fds d fd) -> Tcp2.fd_lid (Tcp2.fds d fd) = k ->
     Tcp2.got_cmd fd msgp msg len w
     = Tcp2.Ret tt (Tcp2.emit w (Tcp2.EvLog (Tcp2.LL 1) msg_got_cmd))) /\
    ((CInt.is_int n -> k = n) /\
     k = (Z.max (- 2 ^ 63) (Z.min (2 ^ 63 - 1) n) + 2 ^ 31) mod 2 ^ 32
         - 2 ^ 31).
Proof.
  intros fd msgp len n w d msg k Hfd. unfold msg.
  rewrite got_cmd_myid. fold d. cbv zeta. fold k.
  split; [|split; [|split; [|apply stored_int_value]]].
  - intros Hl Hme Hn Hmax Hloc Hhost Hport.
    unfold Tcp2.bind at 1, Tcp2.get_inst at 1.
    cbn [Tcp2.inst Tcp2.emit]. fold d.
    replace (0 <=? Tcp2.fd_lid (Tcp2.fds d fd)) with false
      by (symmetry; apply Z.leb_gt; lia).
    replace (Tcp2.mylid d =? k) with false
      by (symmetry; apply Z.eqb_neq; exact Hme).
    replace ((0 <=? k) && (k <? Tcp2.MAX_PEERS))%bool with true
      by (symmetry; apply andb_true_intro; split;
          [apply Z.leb_le|apply Z.ltb_lt]; lia).
    replace (k <=? Tcp2.maxid d) with true by (symmetry; apply Z.leb_le; lia).
    replace (0 <=? fd) with true by (symmetry; apply Z.leb_le; lia).
    unfold Tcp2.bind at 1. unfold Tcp2.assert at 1, Tcp2.ret at 1.
    unfold Tcp2.bind at 1. unfold Tcp2.assert at 1, Tcp2.ret at 1.
    unfold Tcp2.bind at 1. unfold Tcp2.modify_inst at 1.
    unfold Tcp2.bind at 1. unfold Tcp2.assert at 1, Tcp2.ret at 1.
    unfold Tcp2.bind at 1. unfold Tcp2.modify_inst at 1.
    unfold Tcp2.bind at 1. unfold Tcp2.get_inst at 1.
    cbn [Tcp2.inst Tcp2.set_inst Tcp2.emit]. fold d.
    assert (Ep : Tcp2.peer
                   (Tcp2.upd_fds
                      (Tcp2.upd_peer d k (fun q => Tcp2.set_fd q fd)) fd
                      (fun s => Tcp2.set_fd_lid s k)) k
                 = Tcp2.set_fd (Tcp2.peer d k) fd).
    { unfold Tcp2.upd_fds, Tcp2.upd_peer.
      cbn [Tcp2.peer Tcp2.set_fds Tcp2.set_peer]. apply upd_same. }
    rewrite Ep. cbn [Tcp2.location Tcp2.host Tcp2.port Tcp2.set_fd].
    destruct (Tcp2.location (Tcp2.peer d k)); [|congruence].
    destruct (Tcp2.host (Tcp2.peer d k)); [|congruence].
    replace (0 <=? Tcp2.port (Tcp2.peer d k)) with true
      by (symmetry; apply Z.leb_le; lia).
    unfold Tcp2.bind, Tcp2.assert, Tcp2.ret, Tcp2.laik_log.
    eexists. split; [reflexivity|].
    cbn [Tcp2.inst Tcp2.mem Tcp2.trace Tcp2.emit Tcp2.set_inst].
    split; [reflexivity|]. split; [reflexivity|].
    rewrite !writes_app. cbn. rewrite !app_nil_r. reflexivity.
  - intros H. unfold dropped_at_panic, panic_logged.
    unfold Tcp2.bind at 1, Tcp2.get_inst at 1.
    cbn [Tcp2.inst Tcp2.emit]. fold d.
    destruct H as [(Hl & Hme)|(Hl & Hne)].
    + replace (0 <=? Tcp2.fd_lid (Tcp2.fds d fd)) with false
        by (symmetry; apply Z.leb_gt; lia).
      replace (Tcp2.mylid d =? k) with true
        by (symmetry; apply Z.eqb_eq; exact Hme).
      eexists. reflexivity.
    + replace (0 <=? Tcp2.fd_lid (Tcp2.fds d fd)) with true
        by (symmetry; apply Z.leb_le; lia).
      replace (Tcp2.fd_lid (Tcp2.fds d fd) =? k) with false
        by (symmetry; apply Z.eqb_neq; exact Hne).
      eexists. reflexivity.
  - intros Hl Hk.
    unfold Tcp2.bind at 1, Tcp2.get_inst at 1.
    cbn [Tcp2.inst Tcp2.emit]. fold d.
    replace (0 <=? Tcp2.fd_lid (Tcp2.fds d fd)) with true
      by (symmetry; apply Z.leb_le; lia).
    replace (Tcp2.fd_lid (Tcp2.fds d fd) =? k) with true
      by (symmetry; apply Z.eqb_eq; exact Hk).
    reflexivity.
Qed.

(** Peer 1 of the example, known but not connected, comes back on the
    descriptor 6: "myid 1". *)
Lemma myid_binds_descriptor_witness :
  exists w',
    Tcp2.got_cmd 6 0 "myid 1" 6 ex_world_back = Tcp2.Ret tt w' /\
    Tcp2.fd_lid (Tcp2.fds (Tcp2.inst w') 6) = 1 /\
    Tcp2.fd (Tcp2.peer (Tcp2.inst w') 1) = 6.
Proof.
  destruct (myid_binds_descriptor 6 0 6 1 ex_world_back ltac:(lia))
    as (H & _).
  destruct (H ltac:(cbn; lia) ltac:(cbn; lia)
              ltac:(unfold Tcp2.MAX_PEERS; cbn; lia) ltac:(cbn; lia)
              ltac:(cbn; discriminate) ltac:(cbn; discriminate)
              ltac:(cbn; lia))
    as (w' & E & Hi & _).
  exists w'. split; [exact E|]. rewrite Hi. split; reflexivity.
Defined.

(** An id beyond the range of [int] is taken by its low 32 bits: on the
    descriptor of peer 1, "myid 4294967297" is the id 1 and passes. *)
Example myid_wraps :
  Tcp2.got_cmd 5 0 "myid 4294967297" 15 ex_world
  = Tcp2.Ret tt (Tcp2.emit ex_world (Tcp2.EvLog (Tcp2.LL 1) msg_got_cmd)).
Proof. vm_compute. reflexivity. Qed.

(** The command "phase <n>" from a registered peer ends the wait of a
    process that is not the master: the phase is set to the number as
    [sscanf] stores it in an [int] ([n] itself when it is an [int]; in
    general the low 32 bits of [n] as a [long]) and
    the event loop is told to return; nothing else changes and nothing
    is written.  The master ignores the command with a warning. *)
Theorem phase_ends_registration_wait :
  forall (fd msgp len n : Z) (w : Tcp2.World),
    let d := Tcp2.inst w in
    let msg := ("phase " ++ CStr.fmt_d n)%string in
    0 <= Tcp2.fd_lid (Tcp2.fds d fd) ->
    (Tcp2.mylid d <> 0 ->
     exists w',
       Tcp2.got_cmd fd msgp msg len w = Tcp2.Ret tt w' /\
       Tcp2.inst w' = Tcp2.set_exit (Tcp2.set_phase d (CInt.stored_int n)) 1 /\
       Tcp2.mem w' = Tcp2.mem w /\
       Tcp2.writes (Tcp2.trace w') = Tcp2.writes (Tcp2.trace w)) /\
    (Tcp2.mylid d = 0 ->
     dropped_at Tcp2.LAIK_LL_Warning w (Tcp2.got_cmd fd msgp msg len w)) /\
    ((CInt.is_int n -> CInt.stored_int n = n) /\
     CInt.stored_int n
     = (Z.max (- 2 ^ 63) (Z.min (2 ^ 63 - 1) n) + 2 ^ 31) mod 2 ^ 32
       - 2 ^ 31).
Proof.
  intros fd msgp len n w d msg Hl.
  assert (Hc : CStr.is_char (CStr.char_at msg 0) "p" = true) by reflexivity.
  assert (G : Tcp2.got_cmd fd msgp msg len w
              = Tcp2.cmd_phase msg
                  (Tcp2.emit w (Tcp2.EvLog (Tcp2.LL 1) msg_got_cmd))).
  { rewrite got_cmd_dispatch. cbv zeta. verb_is Hc.
    replace (Tcp2.fd_lid (Tcp2.fds (Tcp2.inst w) fd) <? 0) with false
      by (symmetry; apply Z.ltb_ge; exact Hl).
    reflexivity. }
  rewrite G. unfold Tcp2.cmd_phase, msg.
  split; [|split; [|apply stored_int_value]]; intros Hm;
    unfold Tcp2.bind at 1, Tcp2.get_inst at 1; cbn [Tcp2.inst Tcp2.emit];
    fold d.
  - replace (Tcp2.mylid d =? 0) with false
      by (symmetry; apply Z.eqb_neq; exact Hm).
    rewrite phase_fits.
    rewrite sscanf_phase. cbn [Z.ltb Z.compare Pos.compare Pos.compare_cont].
    change (CStr.arg_int 1 _) with (CInt.stored_int n).
    unfold Tcp2.bind, Tcp2.laik_log, Tcp2.modify_inst.
    eexists. split; [reflexivity|].
    cbn [Tcp2.inst Tcp2.mem Tcp2.trace Tcp2.emit Tcp2.set_inst].
    split; [reflexivity|]. split; [reflexivity|].
    rewrite !writes_app. cbn. rewrite !app_nil_r. reflexivity.
  - replace (Tcp2.mylid d =? 0) with true
      by (symmetry; apply Z.eqb_eq; exact Hm).
    eexists. reflexivity.
Qed.

(** A process with location id 1 gets "phase 0" from the master. *)
Lemma phase_ends_registration_wait_witness :
  exists w',
    Tcp2.got_cmd 5 0 "phase 0" 7 ex_world_worker = Tcp2.Ret tt w' /\
    Tcp2.phase (Tcp2.inst w') = 0 /\ Tcp2.exit (Tcp2.inst w') = 1.
Proof.
  destruct (phase_ends_registration_wait 5 0 7 0 ex_world_worker
              ltac:(cbn; lia)) as (H & _).
  destruct (H ltac:(cbn; lia)) as (w' & E & Hi & _).
  exists w'. split; [exact E|]. rewrite Hi. split; reflexivity.
Defined.

(** A phase beyond the range of [int] is taken by its low 32 bits:
    "phase 4294967295" sets the phase to -1, the value that stands for
    "no phase yet". *)
Example phase_wraps :
  exists w',
    Tcp2.got_cmd 5 0 "phase 4294967295" 16 ex_world_worker = Tcp2.Ret tt w' /\
    Tcp2.phase (Tcp2.inst w') = -1.
Proof. eexists. split; [vm_compute; reflexivity|reflexivity]. Qed.

(** * The quit command *)

Section QuitCommand.

Import Tcp2 CStr.
Open Scope string_scope.
Open Scope Z_scope.

Variables (fd msgp len : Z) (msg : string) (W : World).

Hypothesis verb : is_char (char_at msg 0) "q" = true.
Hypothesis fd_ok : 0 <= fd < MAX_FDS.
Hypothesis registered : cb_is_set (cb (fds (inst W) fd)) = true.
Hypothesis not_last :
  fd <> maxfds (inst W) \/ exists k, 0 <= k < fd /\ rset (inst W) k = true.

(** What the handler of quit leaves behind. *)
Lemma got_cmd_quit :
  exists w',
    got_cmd fd msgp msg len W = Ret tt w' /\
    mem w' = mem W /\ dials w' = dials W /\
    os_open w' = upd (os_open W) fd false /\
    trace w' =
      (trace W ++ [EvLog (LL 1) msg_got_cmd;
                   EvLog (LL 1)
                     "TCP2 Closing connection because of quit command";
                   EvClose fd])%list /\
    rset (inst w') fd = false /\
    cb (fds (inst w') fd) = cb_none /\
    rbuf (fds (inst w') fd) = None /\
    (forall k, k <> fd ->
       rset (inst w') k = rset (inst W) k /\
       fds (inst w') k = fds (inst W) k) /\
    exit (inst w') = exit (inst W) /\
    (forall j,
       peer (inst w') j =
         if (0 <=? fd_lid (fds (inst W) fd)) && (j =? fd_lid (fds (inst W) fd))
         then set_fd (peer (inst W) j) (-1) else peer (inst W) j).
Proof.
  rewrite got_cmd_dispatch. cbv zeta. verb_is verb.
  unfold cmd_quit. unfold bind at 1, laik_log at 1.
  replace (0 <=? fd) with true by (symmetry; apply Z.leb_le; lia).
  unfold bind at 1. unfold assert at 1, ret at 1.
  unfold bind at 1, os_close at 1.
  set (W2 := set_os_open _ _).
  destruct (rm_rfd_effect fd W2 ltac:(lia) registered not_last)
    as (w3 & E3 & Ht & Hm & Ho & Hd & Hr & Hc & Hb & Hp & He & Hk).
  unfold bind at 1. rewrite E3.
  destruct (Z.leb_spec 0 (fd_lid (fds (inst W) fd))) as [L|L].
  - unfold modify_inst. eexists. split; [reflexivity|].
    cbn [inst mem dials os_open trace set_inst upd_peer peer set_peer
         rset fds exit].
    rewrite Hm, Hd, Ho, Ht, Hp, He.
    split; [reflexivity|]. split; [reflexivity|]. split; [reflexivity|].
    split; [unfold W2; cbn; rewrite <- !app_assoc; reflexivity|].
    split; [exact Hr|]. split; [exact Hc|]. split; [exact Hb|].
    split; [exact Hk|]. split; [reflexivity|].
    intros j. cbn [andb]. unfold upd.
    destruct (Z.eqb_spec j (fd_lid (fds (inst W) fd))) as [->|]; reflexivity.
  - unfold ret. exists w3. split; [reflexivity|].
    rewrite Hm, Hd, Ho, Ht, Hp, He.
    split; [reflexivity|]. split; [reflexivity|]. split; [reflexivity|].
    split; [unfold W2; cbn; rewrite <- !app_assoc; reflexivity|].
    split; [exact Hr|]. split; [exact Hc|]. split; [exact Hb|].
    split; [exact Hk|]. split; [reflexivity|].
    intros j. reflexivity.
Qed.

End QuitCommand.

Section QuitLine.

Import Tcp2 CStr.
Open Scope string_scope.
Open Scope Z_scope.

Variable fd : Z.
Variable w : World.
Variables part tail : string.

Hypothesis fd_ok : 0 <= fd < MAX_FDS.
Hypothesis has_buf : rbuf (fds (inst w) fd) = Some (part ++ tail).
Hypothesis used_part : rbuf_used (fds (inst w) fd) = strlen part.
Hypothesis part_plain : plain part = true.

(** A read that holds a newline and more: the first command is handed to
    [got_cmd], and the loop goes on with the bytes after it. *)
Lemma got_bytes_line_more more rest :
  plain more = true ->
  strlen part + strlen more + 1 + strlen rest <= RBUF_LEN ->
  exists w1,
    buffered fd (part ++ more ++ String NUL "")
             (strlen part + strlen more + 1 + strlen rest) w w1 /\
    got_bytes fd (InRead (more ++ String NL rest)) w
    = (pos1 <- (got_cmd fd 0 (part ++ more) (strlen part + strlen more) ;;
                process_scan (String.length rest) fd
                  (strlen part + strlen more + 1)
                  (strlen part + strlen more + 1)) ;;
       let used := strlen part + strlen more + 1 + strlen rest in
       let pos2 := Z.max used 0 in
       if 0 <? pos1 then
         (if pos1 <? pos2 then
            buf <- get_rbuf fd ;;
            put_rbuf fd (buf_sub buf pos1 (pos2 - pos1))
          else ret tt) ;;
         modify_inst (fun d =>
           upd_fds d fd (fun s => set_rbuf_used s (pos2 - pos1)))
       else
         modify_inst (fun d => upd_fds d fd (fun s => set_rbuf_used s used)))
        w1.
Proof.
  intros Hp Hfit.
  assert (Hl : strlen (more ++ String NL rest) = strlen more + 1 + strlen rest).
  { rewrite strlen_append. unfold strlen. cbn [String.length]. lia. }
  rewrite (got_bytes_scan fd w part tail fd_ok has_buf used_part);
    [|destruct more; discriminate|lia].
  set (W := emit _ (EvLog (LL 1) msg_handle)).
  set (tail' := drop_nat (String.length (more ++ String NL rest)) tail).
  assert (HW : rbuf (fds (inst W) fd)
               = Some ((part ++ more) ++ String NL (rest ++ tail'))).
  { unfold W. cbn. rewrite !upd_same. cbn. fold tail'.
    str_norm. reflexivity. }
  replace (Z.to_nat (strlen part + strlen (more ++ String NL rest)))
    with (String.length (part ++ more) + S (String.length rest))%nat
    by (rewrite Hl, length_append; unfold strlen; lia).
  unfold bind at 1.
  rewrite (process_scan_plain fd _ 0 _ (S (String.length rest)) 0 W HW);
    [|lia|].
  2:{ intros j Hj. apply plain_scan; [|exact Hj].
      rewrite plain_app, part_plain, Hp. reflexivity. }
  rewrite Z.add_0_l, <- strlen_length.
  rewrite (process_scan_newline fd _ 0 _ _ W HW)
    by (rewrite char_at_app; reflexivity).
  rewrite buf_write_after. cbn [String.length drop_nat append].
  replace (drop 0 ((part ++ more) ++ String NUL (rest ++ tail')))
    with ((part ++ more) ++ String NUL (rest ++ tail')) by reflexivity.
  rewrite cstr_plain by (rewrite plain_app, part_plain, Hp; reflexivity).
  rewrite Z.sub_0_r, strlen_append.
  set (W1 := set_inst W _).
  exists W1. split.
  - unfold buffered, W1, W. cbn.
    split; [reflexivity|]. split; [reflexivity|]. split; [reflexivity|].
    split; [rewrite <- app_assoc; reflexivity|]. split; [reflexivity|].
    split; [intros j Hj; rewrite !upd_other by exact Hj; reflexivity|].
    rewrite !upd_same. cbn.
    split; [reflexivity|]. split; [reflexivity|].
    split; [change (String "010" rest) with (String NL rest); rewrite Hl; lia|].
    exists (rest ++ tail'). str_norm. reflexivity.
  - rewrite Hl.
    replace (strlen part + (strlen more + 1 + strlen rest))
      with (strlen part + strlen more + 1 + strlen rest) by lia.
    reflexivity.
Qed.

Hypothesis registered : cb_is_set (cb (fds (inst w) fd)) = true.
Hypothesis not_last :
  fd <> maxfds (inst w) \/ exists k, 0 <= k < fd /\ rset (inst w) k = true.

(** The handler of quit on the world the line was buffered in. *)
Lemma quit_after_buffering text used w1 msgp msg len :
  buffered fd text used w w1 ->
  is_char (char_at msg 0) "q" = true ->
  exists w2,
    got_cmd fd msgp msg len w1 = Ret tt w2 /\
    mem w2 = mem w /\ dials w2 = dials w /\
    os_open w2 = upd (os_open w) fd false /\
    writes (trace w2) = writes (trace w) /\
    In (EvClose fd) (trace w2) /\
    rset (inst w2) fd = false /\
    cb (fds (inst w2) fd) = cb_none /\
    rbuf (fds (inst w2) fd) = None /\
    (forall k, k <> fd ->
       rset (inst w2) k = rset (inst w) k /\
       fds (inst w2) k = fds (inst w) k) /\
    (forall j,
       peer (inst w2) j =
         if (0 <=? fd_lid (fds (inst w) fd)) && (j =? fd_lid (fds (inst w) fd))
         then set_fd (peer (inst w) j) (-1) else peer (inst w) j).
Proof.
  intros (Bm & Bo & Bd & Bt & Bi & Bk & Bl & Bc & Bu & Bb) Hq.
  assert (Hrs : rset (inst w1) = rset (inst w)) by (rewrite Bi; reflexivity).
  assert (Hmx : maxfds (inst w1) = maxfds (inst w))
    by (rewrite Bi; reflexivity).
  assert (Hpe : peer (inst w1) = peer (inst w)) by (rewrite Bi; reflexivity).
  destruct (got_cmd_quit fd msgp len msg w1 Hq fd_ok)
    as (w2 & E & Hm & Hd & Ho & Ht & Hr & Hc & Hb & Hk & He & Hp).
  { rewrite Bc. exact registered. }
  { rewrite Hmx, Hrs. exact not_last. }
  exists w2. split; [exact E|].
  rewrite Hm, Hd, Ho, Ht, Bm, Bd, Bo, Bt.
  split; [reflexivity|]. split; [reflexivity|]. split; [reflexivity|].
  split; [rewrite !writes_app; cbn; rewrite !app_nil_r; reflexivity|].
  split; [rewrite !in_app_iff; cbn; auto 10|].
  split; [exact Hr|]. split; [exact Hc|]. split; [exact Hb|].
  split.
  - intros k Hk'. destruct (Hk k Hk') as (K1 & K2).
    rewrite K1, K2, Hrs. split; [reflexivity|]. apply Bk. exact Hk'.
  - intros j. rewrite Hp, Bl, Hpe. reflexivity.
Qed.

End QuitLine.





(** * Incoming connections *)

(** A connection accepted on the listening socket gets a registration of
    its own: the new descriptor joins the read set with the callback for
    command bytes, an empty receive buffer and no location id, and the
    greeting "# Here is LAIK TCP2" is written to it; the peer table, the
    other descriptors and the memory stay as they are.  When [accept]
    fails the process exits, and a descriptor beyond the [MAX_FDS]
    registrations the back end has room for fails the assertion of
    [add_rfd]. *)
Theorem got_connect_registers_descriptor :
  forall (fd newfd : Z) (w : Tcp2.World),
    (0 < newfd < Tcp2.MAX_FDS ->
     Tcp2.cb (Tcp2.fds (Tcp2.inst w) newfd) = Tcp2.cb_none ->
     exists w',
       Tcp2.got_connect fd (Tcp2.InAccept newfd) w = Tcp2.Ret tt w' /\
       Tcp2.fds (Tcp2.inst w') newfd
         = Tcp2.mkFDState (-1) Tcp2.cb_got_bytes 0 (Some ""%string) /\
       Tcp2.rset (Tcp2.inst w') newfd = true /\
       Tcp2.maxfds (Tcp2.inst w') = Z.max (Tcp2.maxfds (Tcp2.inst w)) newfd /\
       (forall k, k <> newfd ->
          Tcp2.rset (Tcp2.inst w') k = Tcp2.rset (Tcp2.inst w) k /\
          Tcp2.fds (Tcp2.inst w') k = Tcp2.fds (Tcp2.inst w) k) /\
       Tcp2.peer (Tcp2.inst w') = Tcp2.peer (Tcp2.inst w) /\
       Tcp2.mem w' = Tcp2.mem w /\
       Tcp2.writes (Tcp2.trace w') =
         Tcp2.writes (Tcp2.trace w)
         ++ [(newfd, ("# Here is LAIK TCP2" ++ String CStr.NL "")%string)]) /\
    (newfd < 0 ->
     Tcp2.got_connect fd (Tcp2.InAccept newfd) w
     = Tcp2.Stop Tcp2.ProcExit
         (Tcp2.emit w (Tcp2.EvLog Tcp2.LAIK_LL_Panic
                         "TCP2 Error in accept\n"%string))) /\
    (Tcp2.got_connect fd Tcp2.InAcceptErr w
     = Tcp2.Stop Tcp2.ProcExit
         (Tcp2.emit w (Tcp2.EvLog Tcp2.LAIK_LL_Panic
                         "TCP2 Error in accept\n"%string))) /\
    (Tcp2.MAX_FDS <= newfd ->
     exists w',
       Tcp2.got_connect fd (Tcp2.InAccept newfd) w
       = Tcp2.Stop Tcp2.AssertFailed w' /\
       Tcp2.inst w' = Tcp2.inst w /\
       Tcp2.writes (Tcp2.trace w') = Tcp2.writes (Tcp2.trace w)).
Proof.
  intros fd newfd w. split; [|split; [|split]].
  - intros Hn Hfree. unfold Tcp2.got_connect.
    replace (newfd <? 0) with false by (symmetry; apply Z.ltb_ge; lia).
    unfold Tcp2.bind at 1. unfold Tcp2.bind at 1.
    rewrite add_rfd_ret; [|lia|exact Hfree].
    unfold Tcp2.bind at 1, Tcp2.laik_log at 1.
    unfold Tcp2.send_cmd.
    replace (0 <=? - newfd) with false by (symmetry; apply Z.leb_gt; lia).
    rewrite Z.opp_involutive.
    unfold Tcp2.send_cmd_on. unfold Tcp2.bind at 1, Tcp2.laik_log at 1.
    change (CStr.strlen "# Here is LAIK TCP2" =? 0) with false. cbv iota.
    unfold Tcp2.bind, Tcp2.os_write, Tcp2.ret.
    cbn [Tcp2.os_open Tcp2.emit Tcp2.set_inst Tcp2.set_os_open].
    rewrite upd_same.
    eexists. split; [reflexivity|].
    cbn [Tcp2.inst Tcp2.mem Tcp2.trace Tcp2.emit Tcp2.set_inst
         Tcp2.set_os_open].
    cbv zeta. cbn [Tcp2.maxfds Tcp2.set_rset Tcp2.rset].
    destruct (Z.ltb_spec (Tcp2.maxfds (Tcp2.inst w)) newfd) as [L|L];
      cbn [Tcp2.maxfds Tcp2.rset Tcp2.fds Tcp2.peer Tcp2.set_fds
           Tcp2.set_maxfds Tcp2.set_rset];
      (split; [apply upd_same|]); (split; [apply upd_same|]);
      (split; [lia|]);
      (split; [intros k Hk; rewrite !upd_other by exact Hk;
               split; reflexivity|]);
      (split; [reflexivity|]); (split; [reflexivity|]);
      rewrite !writes_app; cbn; rewrite !app_nil_r; reflexivity.
  - intros Hn. unfold Tcp2.got_connect.
    replace (newfd <? 0) with true by (symmetry; apply Z.ltb_lt; lia).
    apply laik_panic_exits.
  - apply laik_panic_exits.
  - intros Hn. unfold Tcp2.got_connect.
    replace (newfd <? 0) with false
      by (symmetry; apply Z.ltb_ge; unfold Tcp2.MAX_FDS in Hn; lia).
    unfold Tcp2.bind at 1. unfold Tcp2.bind at 1.
    rewrite add_rfd_stop by (intros (H & _); lia).
    eexists. split; [reflexivity|]. split; reflexivity.
Qed.

(** The master of the example accepts a connection on descriptor 6. *)
Lemma got_connect_registers_descriptor_witness :
  exists w',
    Tcp2.got_connect 3 (Tcp2.InAccept 6) ex_world = Tcp2.Ret tt w' /\
    Tcp2.fd_lid (Tcp2.fds (Tcp2.inst w') 6) = -1 /\
    Tcp2.maxfds (Tcp2.inst w') = 6 /\
    Tcp2.writes (Tcp2.trace w') =
      [(6, ("# Here is LAIK TCP2" ++ String CStr.NL "")%string)].
Proof.
  destruct (got_connect_registers_descriptor 3 6 ex_world) as (H & _).
  destruct (H ltac:(unfold Tcp2.MAX_FDS; lia) eq_refl)
    as (w' & E & Hf & _ & Hm & _ & _ & _ & Hw).
  exists w'. split; [exact E|]. rewrite Hf, Hm, Hw. repeat split.
Defined.
(** ** The collective back end *)

Section MpiSchedule.

Import Mpi.

Variables (mpi_bug myid dims elemsize count phase : Z).

Let task := phase_peer count phase.

Lemma set_base_length l n : List.length (set_base l n) = List.length l.
Proof.
  revert n; induction l as [|b l IH]; intros [|n]; cbn; auto.
Qed.

(** The count of a transfer that passes its assertions is the number of
    elements of the slice. *)
Lemma recv_count_moved l slc c :
  recv_count dims l slc = Some c -> c = moved dims slc.
Proof.
  unfold recv_count, moved. destruct (dims =? 1).
  - intros H. injection H as <-. reflexivity.
  - destruct (unpack l) as [f|]; [|discriminate].
    destruct (unpack_loop _ 0) as [k|]; [|discriminate].
    destruct (Z.eqb_spec k (laik_slice_size (mkSlice dims (from slc) (to slc))));
      [|discriminate].
    intros H. injection H as <-. assumption.
Qed.

Lemma send_count_moved l slc c :
  send_count dims l slc = Some c -> c = moved dims slc.
Proof.
  unfold send_count, moved. destruct (dims =? 1).
  - intros H. injection H as <-. reflexivity.
  - destruct (pack l) as [f|]; [|discriminate].
    destruct (negb _); [discriminate|].
    destruct (pack_loop _ 0) as [k|]; [|discriminate].
    destruct (Z.eqb_spec k (laik_slice_size (mkSlice dims (from slc) (to slc))));
      [|discriminate].
    intros H. injection H as <-. assumption.
Qed.

Lemma unpack_loop_whole rs : forall c,
  Forall (fun r => fst r = snd r) rs ->
  unpack_loop rs c = Some (fold_left (fun c r => CInt.u64 (c + snd r)) rs c).
Proof.
  induction rs as [|[a b] rs IH]; intros c H; cbn [unpack_loop fold_left].
  - reflexivity.
  - inversion H as [|x l Hab Hrs]; subst. cbn [fst snd] in Hab. subst b.
    rewrite Z.eqb_refl. apply IH. exact Hrs.
Qed.

Lemma pack_loop_whole rs : forall c,
  Forall (fun packed => 0 < packed) rs ->
  pack_loop rs c = Some (fold_left (fun c packed => CInt.u64 (c + packed)) rs c).
Proof.
  induction rs as [|a rs IH]; intros c H; cbn [pack_loop fold_left].
  - reflexivity.
  - inversion H as [|x l Ha Hrs]; subst.
    replace (0 <? a) with true by (symmetry; apply Z.ltb_lt; exact Ha).
    apply IH. exact Hrs.
Qed.

(** A layout that unpacks (packs) the slice whole passes the assertions
    of the loop. *)
Lemma recv_count_whole l slc :
  dims = 1 \/ unpacks_whole dims l slc ->
  exists c, recv_count dims l slc = Some c.
Proof.
  unfold recv_count. destruct (Z.eqb_spec dims 1) as [|Hd]; [eauto|].
  intros [H|(f & Hf & Hall & Hsum)]; [contradiction|].
  rewrite Hf, (unpack_loop_whole _ 0 Hall), Hsum, Z.eqb_refl. eauto.
Qed.

Lemma send_count_whole l slc :
  dims = 1 \/ packs_whole dims l slc ->
  exists c, send_count dims l slc = Some c.
Proof.
  unfold send_count. destruct (Z.eqb_spec dims 1) as [|Hd]; [eauto|].
  intros [H|(f & Hf & Hpos & Hall & Hsum)]; [contradiction|].
  rewrite Hf.
  replace (0 <? laik_slice_size (mkSlice dims (from slc) (to slc))) with true
    by (symmetry; apply Z.ltb_lt; exact Hpos).
  cbn [negb].
  rewrite (pack_loop_whole _ 0 Hall), Hsum, Z.eqb_refl. eauto.
Qed.

(** The test for the dummy buffer, on the count of a one-dimensional
    slice. *)
Lemma recv_drop_test slc :
  ((dims =? 1) && (0 <? mpi_bug) && (moved dims slc <? 1000))%bool
  = ((dims =? 1) && (0 <? mpi_bug)
     && (CInt.u64 (i0 (to slc) - i0 (from slc)) <? 1000))%bool.
Proof. unfold moved. destruct (dims =? 1); reflexivity. Qed.

(** One entry of the receive loop. *)
Lemma recv_step_served op st st' :
  recv_step mpi_bug myid dims elemsize phase task
            (phase <? count) (count <=? phase) op st = Some st' ->
  comms st' =
    comms st ++ map (recv_event mpi_bug dims phase)
                    (filter (serves_recv myid count phase) [op]) /\
  fromBase st' = fromBase st /\
  List.length (toBase st') = List.length (toBase st) /\
  toLayout st' = toLayout st /\ fromLayout st' = fromLayout st.
Proof.
  intros S. cbn [filter]. unfold serves_recv. fold task.
  unfold recv_step in S.
  destruct (Z.eqb_spec task (fromTask op)) as [Et1|Et1]; cbn [negb] in S.
  2:{ injection S as <-.
      replace (fromTask op =? task) with false
        by (symmetry; apply Z.eqb_neq; lia).
      cbn [andb map]. rewrite app_nil_r. auto 6. }
  replace (fromTask op =? task) with true by (symmetry; apply Z.eqb_eq; lia).
  cbn [andb].
  destruct (Z.ltb_spec phase count) as [Hp|Hp];
    [replace (count <=? phase) with false in S
       by (symmetry; apply Z.leb_gt; lia)
    |replace (count <=? phase) with true in S
       by (symmetry; apply Z.leb_le; lia)];
    destruct (Z.ltb_spec myid task) as [Hm|Hm];
    destruct (Z.ltb_spec task myid) as [Hm'|Hm']; try lia;
    cbn [andb] in S;
    try (injection S as <-; cbn [map]; rewrite app_nil_r; auto 6; fail);
    (destruct (Z.eqb_spec myid (fromTask op)); [discriminate|]); try lia;
    (destruct (r_mapNo op <? Z.of_nat (List.length (toBase st)));
       cbn [negb] in S; [|discriminate]);
    (destruct (r_mapNo op <? 0); [discriminate|]);
    unfold recv_event; cbn [map]; rewrite recv_drop_test;
    (destruct ((dims =? 1) && (0 <? mpi_bug)
               && (CInt.u64 (i0 (to (r_slc op)) - i0 (from (r_slc op)))
                   <? 1000))%bool;
     [|destruct (recv_count dims (toLayout st (r_mapNo op)) (r_slc op));
       [|discriminate]]);
    injection S as <-; cbn [comms fromBase toBase toLayout fromLayout];
    (split; [reflexivity|]); (split; [reflexivity|]);
    (split; [|split; reflexivity]);
    destruct (has_base _ _); auto using set_base_length.
Qed.

(** One entry of the send loop. *)
Lemma send_step_served op st st' :
  send_step myid dims elemsize phase task
            (count <=? phase) (phase <? count) op st = Some st' ->
  comms st' =
    comms st ++ map (Send phase) (filter (serves_send myid count phase) [op]) /\
  fromBase st' = fromBase st /\ toBase st' = toBase st /\
  toLayout st' = toLayout st /\ fromLayout st' = fromLayout st.
Proof.
  intros S. cbn [filter]. unfold serves_send. fold task.
  unfold send_step in S.
  destruct (Z.eqb_spec task (toTask op)) as [Et1|Et1]; cbn [negb] in S.
  2:{ injection S as <-.
      replace (toTask op =? task) with false
        by (symmetry; apply Z.eqb_neq; lia).
      cbn [andb map]. rewrite app_nil_r. auto 6. }
  replace (toTask op =? task) with true by (symmetry; apply Z.eqb_eq; lia).
  cbn [andb].
  destruct (Z.ltb_spec phase count) as [Hp|Hp];
    [replace (count <=? phase) with false in S
       by (symmetry; apply Z.leb_gt; lia)
    |replace (count <=? phase) with true in S
       by (symmetry; apply Z.leb_le; lia)];
    destruct (Z.ltb_spec myid task) as [Hm|Hm];
    destruct (Z.ltb_spec task myid) as [Hm'|Hm']; try lia;
    cbn [andb] in S;
    try (injection S as <-; cbn [map]; rewrite app_nil_r; auto 6; fail);
    (destruct (Z.eqb_spec myid (toTask op)); [discriminate|]); try lia;
    (destruct (s_mapNo op <? Z.of_nat (List.length (fromBase st)));
       cbn [negb] in S; [|discriminate]);
    (destruct (s_mapNo op <? 0); [discriminate|]);
    (destruct (has_base (fromBase st) (s_mapNo op)); cbn [negb] in S;
       [|discriminate]);
    (destruct (send_count dims (fromLayout st (s_mapNo op)) (s_slc op));
       [|discriminate]);
    injection S as <-; cbn [comms fromBase toBase toLayout fromLayout map];
    auto 6.
Qed.

Lemma recv_steps_served ops : forall st st',
  run_steps (recv_step mpi_bug myid dims elemsize phase task
                       (phase <? count) (count <=? phase)) ops st = Some st' ->
  comms st' =
    comms st ++ map (recv_event mpi_bug dims phase)
                    (filter (serves_recv myid count phase) ops) /\
  fromBase st' = fromBase st /\
  List.length (toBase st') = List.length (toBase st) /\
  toLayout st' = toLayout st /\ fromLayout st' = fromLayout st.
Proof.
  induction ops as [|op ops IH]; intros st st' E; cbn [run_steps] in E.
  - injection E as <-. cbn. rewrite app_nil_r. auto 6.
  - destruct (recv_step _ _ _ _ _ _ _ _ op st) as [st1|] eqn:S; [|discriminate].
    apply IH in E. destruct E as (Ec & Ef & Et & El & Em).
    apply recv_step_served in S. destruct S as (Sc & Sf & St & Sl & Sm).
    rewrite Ec, Sc, Ef, Sf, Et, St, El, Sl, Em, Sm, <- app_assoc.
    cbn [filter]. destruct (serves_recv myid count phase op);
      cbn [map app]; auto 6.
Qed.

Lemma send_steps_served ops : forall st st',
  run_steps (send_step myid dims elemsize phase task
                       (count <=? phase) (phase <? count)) ops st = Some st' ->
  comms st' =
    comms st ++ map (Send phase) (filter (serves_send myid count phase) ops) /\
  fromBase st' = fromBase st /\ toBase st' = toBase st /\
  toLayout st' = toLayout st /\ fromLayout st' = fromLayout st.
Proof.
  induction ops as [|op ops IH]; intros st st' E; cbn [run_steps] in E.
  - injection E as <-. cbn. rewrite app_nil_r. auto 6.
  - destruct (send_step _ _ _ _ _ _ _ op st) as [st1|] eqn:S; [|discriminate].
    apply IH in E. destruct E as (Ec & Ef & Et & El & Em).
    apply send_step_served in S. destruct S as (Sc & Sf & St & Sl & Sm).
    rewrite Ec, Sc, Ef, Sf, Et, St, El, Sl, Em, Sm, <- app_assoc.
    cbn [filter]. destruct (serves_send myid count phase op);
      cbn [map app]; auto 6.
Qed.

End MpiSchedule.
Section MpiTotal.

Import Mpi.

Variables (mpi_bug myid dims elemsize count phase : Z).

(** When the assertions hold for every entry, every phase goes through. *)
Lemma recv_steps_total (all : list recvTOp) ops : forall st n tl,
  (forall op, In op ops -> In op all) ->
  (forall op, In op all ->
     fromTask op <> myid /\ 0 <= r_mapNo op < Z.of_nat n /\
     (dims = 1 \/ unpacks_whole dims (tl (r_mapNo op)) (r_slc op))) ->
  List.length (toBase st) = n ->
  toLayout st = tl ->
  exists st',
    run_steps (recv_step mpi_bug myid dims elemsize phase
                         (phase_peer count phase)
                         (phase <? count) (count <=? phase)) ops st
      = Some st'.
Proof.
  induction ops as [|op ops IH]; intros st n tl Hin Hok Hlen Hl;
    cbn [run_steps].
  - eauto.
  - destruct (Hok op (Hin op (or_introl eq_refl))) as (Hp & Hm & Hu).
    assert (Hstep : exists st1,
      recv_step mpi_bug myid dims elemsize phase (phase_peer count phase)
                (phase <? count) (count <=? phase) op st = Some st1).
    { unfold recv_step.
      destruct (negb _); [eauto|].
      destruct (_ && _)%bool; [eauto|].
      destruct (_ && _)%bool; [eauto|].
      replace (myid =? fromTask op) with false
        by (symmetry; apply Z.eqb_neq; lia).
      rewrite Hlen.
      replace (r_mapNo op <? Z.of_nat n) with true
        by (symmetry; apply Z.ltb_lt; lia).
      cbn [negb].
      replace (r_mapNo op <? 0) with false by (symmetry; apply Z.ltb_ge; lia).
      destruct (_ && _)%bool; [eauto|].
      rewrite Hl. destruct (recv_count_whole dims _ _ Hu) as (c & ->). eauto. }
    destruct Hstep as (st1 & S). rewrite S.
    apply recv_step_served in S. destruct S as (_ & _ & St & Sl & _).
    apply (IH st1 n tl); auto; try congruence.
    intros o Ho. apply Hin. right. exact Ho.
Qed.

Lemma send_steps_total (all : list sendTOp) ops : forall st fb fl,
  (forall op, In op ops -> In op all) ->
  (forall op, In op all ->
     toTask op <> myid /\ 0 <= s_mapNo op < Z.of_nat (List.length fb) /\
     has_base fb (s_mapNo op) = true /\
     (dims = 1 \/ packs_whole dims (fl (s_mapNo op)) (s_slc op))) ->
  fromBase st = fb ->
  fromLayout st = fl ->
  exists st',
    run_steps (send_step myid dims elemsize phase (phase_peer count phase)
                         (count <=? phase) (phase <? count)) ops st
      = Some st'.
Proof.
  induction ops as [|op ops IH]; intros st fb fl Hin Hok Hfb Hfl;
    cbn [run_steps].
  - eauto.
  - destruct (Hok op (Hin op (or_introl eq_refl))) as (Hp & Hm & Hb & Hu).
    assert (Hstep : exists st1,
      send_step myid dims elemsize phase (phase_peer count phase)
                (count <=? phase) (phase <? count) op st = Some st1).
    { unfold send_step.
      destruct (negb _); [eauto|].
      destruct (_ && _)%bool; [eauto|].
      destruct (_ && _)%bool; [eauto|].
      replace (myid =? toTask op) with false
        by (symmetry; apply Z.eqb_neq; lia).
      rewrite Hfb.
      replace (s_mapNo op <? Z.of_nat (List.length fb)) with true
        by (symmetry; apply Z.ltb_lt; lia).
      cbn [negb].
      replace (s_mapNo op <? 0) with false by (symmetry; apply Z.ltb_ge; lia).
      rewrite Hb. cbn [negb].
      rewrite Hfl. destruct (send_count_whole dims _ _ Hu) as (c & ->). eauto. }
    destruct Hstep as (st1 & S). rewrite S.
    apply send_step_served in S. destruct S as (_ & Sf & _ & _ & Sl).
    apply (IH st1 fb fl); auto; try congruence.
    intros o Ho. apply Hin. right. exact Ho.
Qed.

End MpiTotal.

(** ** Buffers of a transition plan *)

(** C8 (failing input).  [laik_transplan_appendBuf] tests the pointer the
    wrong way round: it panics whenever [malloc] returns a buffer, as for
    a buffer of 64 bytes appended to a new plan; and when [malloc] returns
    a null pointer there, the null pointer is stored in the plan and its
    position is returned. *)
Theorem appendBuf_panics_on_success :
  (forall tp size realloc_ok buf,
     Mpi.laik_transplan_appendBuf tp size realloc_ok (Some buf)
       = Mpi.Panic msg_oom) /\
  Mpi.laik_transplan_appendBuf ex_plan 64 true (Some 4096)
    = Mpi.Panic msg_oom /\
  (exists tp' arr,
     Mpi.laik_transplan_appendBuf ex_plan 64 true None = Mpi.Returned 0 tp' /\
     Mpi.bufCount tp' = 1 /\ Mpi.buf tp' = Some arr /\ arr 0 = None).
Proof.
  split; [|split].
  - intros tp size realloc_ok b. unfold Mpi.laik_transplan_appendBuf.
    destruct (Mpi.bufCount tp =? Mpi.bufAllocCount tp);
      [destruct (Mpi.realloc _ _ _)|]; reflexivity.
  - reflexivity.
  - eexists. eexists. split; [reflexivity|]. cbn. auto.
Qed.

(** Whenever the array of buffers is there, a failed [malloc] goes
    unnoticed. *)
Lemma appendBuf_stores_null tp size realloc_ok :
  (Mpi.bufCount tp = Mpi.bufAllocCount tp /\ realloc_ok = true) \/
  (Mpi.bufCount tp <> Mpi.bufAllocCount tp /\ Mpi.buf tp <> None) ->
  exists tp' arr,
    Mpi.laik_transplan_appendBuf tp size realloc_ok None
      = Mpi.Returned (Mpi.bufCount tp) tp' /\
    Mpi.bufCount tp' = Mpi.bufCount tp + 1 /\
    Mpi.buf tp' = Some arr /\ arr (Mpi.bufCount tp) = None.
Proof.
  intros H. unfold Mpi.laik_transplan_appendBuf.
  destruct (Z.eqb_spec (Mpi.bufCount tp) (Mpi.bufAllocCount tp)) as [E|E].
  - destruct H as [[_ ->]|[H _]]; [|contradiction].
    unfold Mpi.realloc.
    destruct (Mpi.buf tp) as [f|]; eexists; eexists;
      (split; [reflexivity|]); cbn;
      (split; [reflexivity|]); (split; [reflexivity|]);
      unfold Mpi.upd; rewrite Z.eqb_refl; reflexivity.
  - destruct H as [[H _]|[_ H]]; [contradiction|].
    destruct (Mpi.buf tp) as [f|]; [|contradiction].
    eexists; eexists; (split; [reflexivity|]); cbn.
    split; [reflexivity|]. split; [reflexivity|].
    unfold Mpi.upd; rewrite Z.eqb_refl; reflexivity.
Qed.

(** The sibling [laik_transplan_appendAction] panics exactly when its
    allocation fails. *)
Lemma appendAction_panics_on_failure tp realloc_ok :
  (exists msg, Mpi.laik_transplan_appendAction tp realloc_ok = Mpi.Panic msg)
  <-> (Mpi.actionCount tp = Mpi.actionAllocCount tp /\ realloc_ok = false).
Proof.
  unfold Mpi.laik_transplan_appendAction.
  destruct (Z.eqb_spec (Mpi.actionCount tp) (Mpi.actionAllocCount tp)).
  - unfold Mpi.realloc. destruct realloc_ok.
    + split; [intros (msg & H); discriminate H|intros (_ & H); discriminate H].
    + split; [auto|intros _; eexists; reflexivity].
  - split; [|intros (H & _); contradiction].
    intros (msg & H). destruct (Mpi.action tp); discriminate H.
Qed.

(** ** The whole schedule *)

Section MpiRun.

Import Mpi.
Open Scope Z_scope.

Variables (mpi_bug myid dims elemsize count : Z) (t : Laik_Transition).

Lemma sends_of_app a b : sends_of (a ++ b) = sends_of a ++ sends_of b.
Proof.
  induction a as [|c a IH]; [reflexivity|].
  destruct c; cbn [app sends_of]; rewrite IH; reflexivity.
Qed.

Lemma recvs_of_app a b : recvs_of (a ++ b) = recvs_of a ++ recvs_of b.
Proof.
  induction a as [|c a IH]; [reflexivity|].
  destruct c; cbn [app recvs_of]; rewrite IH; reflexivity.
Qed.

Lemma elems_sent_app a b :
  elems_sent dims (a ++ b) = elems_sent dims a + elems_sent dims b.
Proof.
  unfold elems_sent. induction a as [|c a IH]; cbn [app fold_right]; lia.
Qed.

Lemma elems_received_app a b :
  elems_received dims (a ++ b)
  = elems_received dims a + elems_received dims b.
Proof.
  unfold elems_received. induction a as [|c a IH]; cbn [app fold_right]; lia.
Qed.

Lemma stat_counts_nil s : stat_counts dims elemsize s s [].
Proof.
  destruct s as [a|]; cbn; [|exact I].
  unfold elems_sent, elems_received. cbn. lia.
Qed.

Lemma stat_counts_app s0 s1 s2 d1 d2 :
  stat_counts dims elemsize s0 s1 d1 -> stat_counts dims elemsize s1 s2 d2 ->
  stat_counts dims elemsize s0 s2 (d1 ++ d2).
Proof.
  unfold stat_counts.
  destruct s0 as [a|], s1 as [b|], s2 as [c|]; try tauto.
  rewrite sends_of_app, recvs_of_app, elems_sent_app, elems_received_app,
    !length_app.
  intros (A1 & A2 & A3 & A4) (B1 & B2 & B3 & B4). lia.
Qed.

(** One entry of the receive loop: what it adds to the transfers and to
    the statistics. *)
Lemma recv_step_stat phase task lo hi op st st' :
  recv_step mpi_bug myid dims elemsize phase task lo hi op st = Some st' ->
  exists ev, comms st' = comms st ++ ev /\
             stat_counts dims elemsize (stat st) (stat st') ev.
Proof.
  unfold recv_step. intros H.
  destruct (negb _).
  { injection H as <-. exists []. rewrite app_nil_r.
    split; [reflexivity|apply stat_counts_nil]. }
  destruct (lo && _)%bool.
  { injection H as <-. exists []. rewrite app_nil_r.
    split; [reflexivity|apply stat_counts_nil]. }
  destruct (hi && _)%bool.
  { injection H as <-. exists []. rewrite app_nil_r.
    split; [reflexivity|apply stat_counts_nil]. }
  destruct (myid =? fromTask op); [discriminate|].
  destruct (negb _); [discriminate|].
  destruct (r_mapNo op <? 0); [discriminate|].
  destruct (_ && _)%bool.
  - injection H as <-; cbn [comms stat].
    eexists. split; [reflexivity|]. cbn.
    destruct (stat st) as [a|]; cbn; [|exact I].
    unfold elems_sent, elems_received. cbn. lia.
  - destruct (recv_count _ _ _) as [c|] eqn:Ec; [|discriminate].
    apply recv_count_moved in Ec. subst c.
    injection H as <-; cbn [comms stat].
    eexists. split; [reflexivity|].
    destruct (stat st) as [a|]; cbn; [|exact I].
    unfold elems_sent, elems_received. cbn. lia.
Qed.

Lemma send_step_stat phase task lo hi op st st' :
  send_step myid dims elemsize phase task lo hi op st = Some st' ->
  exists ev, comms st' = comms st ++ ev /\
             stat_counts dims elemsize (stat st) (stat st') ev.
Proof.
  unfold send_step. intros H.
  destruct (negb _).
  { injection H as <-. exists []. rewrite app_nil_r.
    split; [reflexivity|apply stat_counts_nil]. }
  destruct (lo && _)%bool.
  { injection H as <-. exists []. rewrite app_nil_r.
    split; [reflexivity|apply stat_counts_nil]. }
  destruct (hi && _)%bool.
  { injection H as <-. exists []. rewrite app_nil_r.
    split; [reflexivity|apply stat_counts_nil]. }
  destruct (myid =? toTask op); [discriminate|].
  destruct (negb _); [discriminate|].
  destruct (s_mapNo op <? 0); [discriminate|].
  destruct (negb _); [discriminate|].
  destruct (send_count _ _ _) as [c|] eqn:Ec; [|discriminate].
  apply send_count_moved in Ec. subst c.
  injection H as <-; cbn [comms stat].
  eexists. split; [reflexivity|].
  destruct (stat st) as [a|]; cbn; [|exact I].
  unfold elems_sent, elems_received. cbn. lia.
Qed.

Lemma run_steps_stat {A} (step : A -> ExecState -> option ExecState) ops :
  (forall op st st', step op st = Some st' ->
     exists ev, comms st' = comms st ++ ev /\
                stat_counts dims elemsize (stat st) (stat st') ev) ->
  forall st st',
    run_steps step ops st = Some st' ->
    exists ev, comms st' = comms st ++ ev /\
               stat_counts dims elemsize (stat st) (stat st') ev.
Proof.
  intros Hstep. induction ops as [|op ops IH]; intros st st' H;
    cbn [run_steps] in H.
  - injection H as <-. exists []. rewrite app_nil_r.
    split; [reflexivity|apply stat_counts_nil].
  - destruct (step op st) as [st1|] eqn:E; [|discriminate].
    destruct (Hstep _ _ _ E) as (e1 & C1 & S1).
    destruct (IH _ _ H) as (e2 & C2 & S2).
    exists (e1 ++ e2). rewrite C2, C1, app_assoc.
    split; [reflexivity|]. eapply stat_counts_app; eassumption.
Qed.

(** The phases from [phase] on: the transfers are those of the phases in
    turn, the statistics count them, and the mappings sent from stay as
    they are. *)
Lemma exec_phases_run n : forall phase st st',
  exec_phases n mpi_bug myid dims elemsize count phase t st = Some st' ->
  comms st' =
    comms st
    ++ flat_map (phase_comms mpi_bug myid dims count t)
                (map (fun k => phase + Z.of_nat k) (seq 0 n)) /\
  stat_counts dims elemsize (stat st) (stat st')
    (flat_map (phase_comms mpi_bug myid dims count t)
              (map (fun k => phase + Z.of_nat k) (seq 0 n))).
Proof.
  induction n as [|n IH]; intros phase st st' H; cbn [exec_phases] in H.
  - injection H as <-. cbn. rewrite app_nil_r.
    split; [reflexivity|apply stat_counts_nil].
  - destruct (exec_phase _ _ _ _ _ _ _ st) as [st1|] eqn:E; [|discriminate].
    destruct (IH _ _ _ H) as (C2 & S2).
    unfold exec_phase in E. fold (phase_peer count phase) in E.
    destruct (run_steps _ (recv t) st) as [st0|] eqn:R; [|discriminate].
    pose proof (recv_steps_served _ _ _ _ _ _ _ _ _ R) as (Rc & _ & _).
    pose proof (send_steps_served _ _ _ _ _ _ _ _ E) as (Sc & _ & _).
    destruct (run_steps_stat _ _
                (fun op s s' => recv_step_stat _ _ _ _ op s s') _ _ R)
      as (e1 & C1 & S1).
    destruct (run_steps_stat _ _
                (fun op s s' => send_step_stat _ _ _ _ op s s') _ _ E)
      as (e3 & C3 & S3).
    assert (E1 : e1 = map (recv_event mpi_bug dims phase)
                          (filter (serves_recv myid count phase) (recv t))).
    { apply (app_inv_head (comms st)). rewrite <- C1. exact Rc. }
    assert (E3 : e3 = map (Send phase)
                          (filter (serves_send myid count phase) (send t))).
    { apply (app_inv_head (comms st0)). rewrite <- C3. exact Sc. }
    subst e1 e3.
    cbn [seq map flat_map]. rewrite Z.add_0_r.
    rewrite <- seq_shift, map_map.
    assert (Em : map (fun k => phase + Z.of_nat (S k)) (seq 0 n)
                 = map (fun k => phase + 1 + Z.of_nat k) (seq 0 n)).
    { apply map_ext. intros k. lia. }
    rewrite Em. unfold phase_comms at 1 3.
    split.
    + rewrite C2, Sc, Rc, <- !app_assoc. reflexivity.
    + eapply stat_counts_app; [|exact S2].
      eapply stat_counts_app; eassumption.
Qed.

(** Every phase goes through when the assertions hold for each entry. *)
Lemma exec_phases_total n : forall phase st,
  entries_ok myid dims t st ->
  exists st',
    exec_phases n mpi_bug myid dims elemsize count phase t st = Some st'.
Proof.
  induction n as [|n IH]; intros phase st Hok; cbn [exec_phases].
  - eauto.
  - destruct Hok as (Hr & Hs).
    assert (Hph : exists st1,
      exec_phase mpi_bug myid dims elemsize count phase t st = Some st1 /\
      fromBase st1 = fromBase st /\
      List.length (toBase st1) = List.length (toBase st) /\
      toLayout st1 = toLayout st /\ fromLayout st1 = fromLayout st).
    { unfold exec_phase. fold (phase_peer count phase).
      destruct (recv_steps_total mpi_bug myid dims elemsize count phase
                  (recv t) (recv t) st (List.length (toBase st))
                  (toLayout st))
        as (st0 & R); auto.
      rewrite R.
      pose proof (recv_steps_served _ _ _ _ _ _ _ _ _ R)
        as (_ & Rf & Rl & Rt & Rm).
      destruct (send_steps_total myid dims elemsize count phase
                  (send t) (send t) st0 (fromBase st) (fromLayout st))
        as (st1 & S); auto.
      exists st1. split; [exact S|].
      pose proof (send_steps_served _ _ _ _ _ _ _ _ S)
        as (_ & Sf & St & Sl & Sm).
      rewrite Sf, St, Sl, Sm, Rf, Rl, Rt, Rm. auto. }
    destruct Hph as (st1 & -> & Hf & Hl & Ht & Hm).
    apply IH. split.
    + intros op Ho. rewrite Hl, Ht. apply Hr. exact Ho.
    + intros op Ho. rewrite Hf, Hm. apply Hs. exact Ho.
Qed.

(** The phase an entry is served in. *)
Lemma serves_send_phase phase op :
  0 <= phase < 2 * count ->
  serves_send myid count phase op = true <->
  (0 <= toTask op < count /\ toTask op <> myid /\
   phase = send_phase myid count (toTask op)).
Proof.
  intros Hp. unfold serves_send, send_phase, phase_peer.
  rewrite Bool.andb_true_iff, Z.eqb_eq.
  destruct (Z.ltb_spec phase count); destruct (Z.ltb_spec myid (toTask op));
    rewrite ?Z.ltb_lt; split; intros H1; lia.
Qed.

Lemma serves_recv_phase phase op :
  0 <= phase < 2 * count ->
  serves_recv myid count phase op = true <->
  (0 <= fromTask op < count /\ fromTask op <> myid /\
   phase = recv_phase myid count (fromTask op)).
Proof.
  intros Hp. unfold serves_recv, recv_phase, phase_peer.
  rewrite Bool.andb_true_iff, Z.eqb_eq.
  destruct (Z.ltb_spec phase count); destruct (Z.ltb_spec (fromTask op) myid);
    rewrite ?Z.ltb_lt; split; intros H1; lia.
Qed.

End MpiRun.

Section MpiEvents.

Import Mpi.
Open Scope Z_scope.

Variables (mpi_bug myid dims count : Z) (t : Laik_Transition).

Lemma in_phase_comms_send x ph op :
  In (Send ph op) (phase_comms mpi_bug myid dims count t x) <->
  x = ph /\ In op (send t) /\ serves_send myid count ph op = true.
Proof.
  unfold phase_comms. rewrite in_app_iff, !in_map_iff. split.
  - intros [(r & E & _)|(o & E & Ho)].
    + unfold recv_event in E. destruct (_ && _)%bool; discriminate.
    + injection E as -> ->. apply filter_In in Ho. tauto.
  - intros (-> & Ho & Hs). right. exists op. split; [reflexivity|].
    apply filter_In. auto.
Qed.

Lemma in_phase_comms_recv x ph op :
  In (Recv ph op) (phase_comms mpi_bug myid dims count t x) \/
  In (RecvDropped ph op) (phase_comms mpi_bug myid dims count t x) <->
  x = ph /\ In op (recv t) /\ serves_recv myid count ph op = true.
Proof.
  unfold phase_comms. rewrite !in_app_iff, !in_map_iff. split.
  - intros [[(r & E & Hr)|(o & E & _)]|[(r & E & Hr)|(o & E & _)]];
      try discriminate;
      unfold recv_event in E; destruct (_ && _)%bool; try discriminate;
      injection E as -> ->; apply filter_In in Hr; tauto.
  - intros (-> & Ho & Hs).
    assert (Hf : In op (filter (serves_recv myid count ph) (recv t)))
      by (apply filter_In; auto).
    destruct ((dims =? 1) && (0 <? mpi_bug)
              && (moved dims (r_slc op) <? 1000))%bool eqn:E.
    + right. left. exists op. unfold recv_event. rewrite E. auto.
    + left. left. exists op. unfold recv_event. rewrite E. auto.
Qed.

Lemma in_phases n ph :
  In ph (map (fun k => 0 + Z.of_nat k) (seq 0 n)) <-> 0 <= ph < Z.of_nat n.
Proof.
  rewrite in_map_iff. split.
  - intros (k & <- & Hk). apply in_seq in Hk. lia.
  - intros H. exists (Z.to_nat ph). split; [lia|]. apply in_seq. lia.
Qed.

End MpiEvents.

(** The example exchange passes the assertions of both loops. *)
Lemma ex_entries_ok : Mpi.entries_ok 1 1 ex_transition ex_exec.
Proof.
  split; intros op [<-|[<-|[]]]; cbn; repeat split; auto; lia.
Qed.

(** C6.  In the exec of the collective back end the transfers between
    processes run in [2N] phases ([N] the size of the group): the
    transfers of a run are those of the phases [0 .. 2N-1] in turn, in
    every phase the receives served before the sends served, each in the
    order of the transition.  In a phase [p < N] the process serves
    exactly the receive entries whose peer is [p] when [p] is lower than
    its own rank, and exactly the send entries whose peer is [p] when [p]
    is higher than its own rank; in a phase [p >= N] the peer is
    [2N-p-1] and the polarity is flipped: receives from a peer of higher
    rank, sends to a peer of lower rank.  When the assertions of the
    loops hold for every entry (no entry names the process itself, the
    map numbers are valid, the mappings sent from have memory and slices
    of more than one dimension are packed and unpacked whole), the run
    goes through all phases. *)
Theorem double_sweep_schedule :
  forall (mpi_bug myid dims elemsize count : Z)
         (t : Mpi.Laik_Transition) (st : Mpi.ExecState),
    0 <= myid ->
    (forall st',
       Mpi.exec_sendrecv mpi_bug myid dims elemsize count t st = Some st' ->
       Mpi.comms st' =
         Mpi.comms st
         ++ flat_map
              (fun phase =>
                 map (Mpi.recv_event mpi_bug dims phase)
                     (filter (Mpi.serves_recv myid count phase) (Mpi.recv t))
                 ++ map (Mpi.Send phase)
                        (filter (Mpi.serves_send myid count phase)
                                (Mpi.send t)))
              (map Z.of_nat (seq 0 (Z.to_nat (2 * count))))) /\
    (forall phase op,
       Mpi.serves_recv myid count phase op = true <->
       (phase < count /\ Mpi.fromTask op = phase /\ phase < myid) \/
       (count <= phase /\ Mpi.fromTask op = 2 * count - phase - 1 /\
        myid < 2 * count - phase - 1)) /\
    (forall phase op,
       Mpi.serves_send myid count phase op = true <->
       (phase < count /\ Mpi.toTask op = phase /\ myid < phase) \/
       (count <= phase /\ Mpi.toTask op = 2 * count - phase - 1 /\
        2 * count - phase - 1 < myid)) /\
    (Mpi.entries_ok myid dims t st ->
     exists st',
       Mpi.exec_sendrecv mpi_bug myid dims elemsize count t st = Some st').
Proof.
  intros mpi_bug myid dims elemsize count t st Hid.
  unfold Mpi.exec_sendrecv.
  replace (myid <? 0) with false by (symmetry; apply Z.ltb_ge; lia).
  split; [|split; [|split]].
  - intros st' E. apply exec_phases_run in E. destruct E as (C & _).
    rewrite C. reflexivity.
  - intros phase op. unfold Mpi.serves_recv, Mpi.phase_peer.
    rewrite Bool.andb_true_iff, Z.eqb_eq.
    destruct (Z.ltb_spec phase count); rewrite Z.ltb_lt; lia.
  - intros phase op. unfold Mpi.serves_send, Mpi.phase_peer.
    rewrite Bool.andb_true_iff, Z.eqb_eq.
    destruct (Z.ltb_spec phase count); rewrite Z.ltb_lt; lia.
  - apply exec_phases_total.
Qed.

(** The whole schedule of the example: task 1 of three receives from
    task 0 in phase 0, sends to task 2 in phase 2, then receives from
    task 2 in phase 3 and sends to task 0 in phase 5. *)
Lemma double_sweep_schedule_witness :
  0 <= 1 /\
  exists st',
    Mpi.exec_sendrecv 0 1 1 8 3 ex_transition ex_exec = Some st' /\
    Mpi.comms st' =
      [Mpi.Recv 0 (Mpi.mkRecv (ex_slice 0 4) 0 0);
       Mpi.Send 2 (Mpi.mkSend (ex_slice 6 8) 2 0);
       Mpi.Recv 3 (Mpi.mkRecv (ex_slice 8 12) 2 0);
       Mpi.Send 5 (Mpi.mkSend (ex_slice 4 6) 0 0)].
Proof.
  split; [lia|].
  destruct (double_sweep_schedule 0 1 1 8 3 ex_transition ex_exec
              ltac:(lia)) as (H & _ & _ & T).
  destruct (T ex_entries_ok) as (st' & E).
  exists st'. split; [exact E|].
  rewrite (H st' E). reflexivity.
Defined.

(** A task outside the group takes no part in the exchange. *)
Lemma exec_sendrecv_outside mpi_bug myid dims elemsize count t st :
  myid < 0 ->
  Mpi.exec_sendrecv mpi_bug myid dims elemsize count t st = Some st.
Proof.
  intros H. unfold Mpi.exec_sendrecv.
  replace (myid <? 0) with true by (symmetry; apply Z.ltb_lt; lia).
  reflexivity.
Qed.

(** With two dimensions the same exchange needs the layout to pack:
    without a [pack] function the first send fails its assertion, after
    the receive of phase 0 failed its own for want of [unpack]. *)
Example exec_needs_pack_example :
  Mpi.exec_sendrecv 0 1 2 8 3 ex_transition ex_exec = None /\
  Mpi.exec_sendrecv 0 1 2 8 3
    (Mpi.mkTransition [] (Mpi.send ex_transition)) ex_exec = None.
Proof. split; vm_compute; reflexivity. Qed.

(** Over the [2N] phases of the exec of the collective back end, a task
    of the group serves every entry of the transition whose peer is
    another task of the group, and each in exactly one phase: a send to a
    peer of higher rank in the first sweep, in the phase that has the
    rank of the peer, and a send to a peer of lower rank in the second
    sweep, in phase [2N-1-peer]; a receive from a peer of lower rank in
    the first sweep, in the phase that has the rank of the peer, and a
    receive from a peer of higher rank in the second sweep.  Entries for
    a peer outside the group are never served.  When the assertions of
    the loops hold for every entry (no entry names the task itself, the
    map numbers are valid, the mappings sent from have memory, and slices
    of more than one dimension are packed and unpacked whole by the
    layouts), the run goes through all phases. *)
Theorem exec_serves_each_entry_in_one_phase :
  forall (mpi_bug myid dims elemsize count : Z)
         (t : Mpi.Laik_Transition) (st : Mpi.ExecState),
    0 <= myid ->
    (forall st',
       Mpi.exec_sendrecv mpi_bug myid dims elemsize count t st = Some st' ->
       exists done,
         Mpi.comms st' = Mpi.comms st ++ done /\
         (forall ph op,
            In (Mpi.Send ph op) done <->
            In op (Mpi.send t) /\ 0 <= Mpi.toTask op < count /\
            Mpi.toTask op <> myid /\
            ph = send_phase myid count (Mpi.toTask op)) /\
         (forall ph op,
            In (Mpi.Recv ph op) done \/ In (Mpi.RecvDropped ph op) done <->
            In op (Mpi.recv t) /\ 0 <= Mpi.fromTask op < count /\
            Mpi.fromTask op <> myid /\
            ph = recv_phase myid count (Mpi.fromTask op))) /\
    (Mpi.entries_ok myid dims t st ->
     exists st',
       Mpi.exec_sendrecv mpi_bug myid dims elemsize count t st = Some st').
Proof.
  intros mpi_bug myid dims elemsize count t st Hid.
  unfold Mpi.exec_sendrecv.
  replace (myid <? 0) with false by (symmetry; apply Z.ltb_ge; lia).
  split.
  - intros st' E. apply exec_phases_run in E. destruct E as (C & _).
    eexists. split; [exact C|]. split.
    + intros ph op. rewrite in_flat_map. split.
      * intros (x & Hx & Hc). apply in_phases in Hx.
        apply in_phase_comms_send in Hc. destruct Hc as (-> & Ho & Hs).
        apply serves_send_phase in Hs; [tauto|lia].
      * intros (Ho & Hr & Hne & ->).
        assert (Hp : 0 <= send_phase myid count (Mpi.toTask op) < 2 * count)
          by (unfold send_phase; destruct (_ <? _); lia).
        exists (send_phase myid count (Mpi.toTask op)). split.
        { apply in_phases. lia. }
        apply in_phase_comms_send. split; [reflexivity|]. split; [exact Ho|].
        apply serves_send_phase; auto.
    + intros ph op.
      rewrite !in_flat_map. split.
      * intros [(x & Hx & Hc)|(x & Hx & Hc)]; apply in_phases in Hx;
          (assert (Hc' : x = ph /\ In op (Mpi.recv t) /\
                         Mpi.serves_recv myid count ph op = true)
             by (apply (in_phase_comms_recv mpi_bug myid dims count t);
                 auto));
          destruct Hc' as (-> & Ho & Hs);
          (apply serves_recv_phase in Hs; [tauto|lia]).
      * intros (Ho & Hr & Hne & ->).
        assert (Hp : 0 <= recv_phase myid count (Mpi.fromTask op) < 2 * count)
          by (unfold recv_phase; destruct (_ <? _); lia).
        assert (Hs : Mpi.serves_recv myid count
                       (recv_phase myid count (Mpi.fromTask op)) op = true)
          by (apply serves_recv_phase; auto).
        destruct (proj2 (in_phase_comms_recv mpi_bug myid dims count t
                           _ _ op) (conj eq_refl (conj Ho Hs))) as [H|H];
          [left|right];
          (exists (recv_phase myid count (Mpi.fromTask op));
           split; [apply in_phases; lia|exact H]).
  - apply exec_phases_total.
Qed.

(** Task 1 of three: the exchange of the example. *)
Lemma exec_serves_each_entry_in_one_phase_witness :
  exists st',
    Mpi.exec_sendrecv 0 1 1 8 3 ex_transition ex_exec = Some st' /\
    exists done,
      Mpi.comms st' = Mpi.comms ex_exec ++ done /\
      (forall ph op,
         In (Mpi.Send ph op) done <->
         In op (Mpi.send ex_transition) /\ 0 <= Mpi.toTask op < 3 /\
         Mpi.toTask op <> 1 /\ ph = send_phase 1 3 (Mpi.toTask op)).
Proof.
  eexists. split; [vm_compute; reflexivity|].
  destruct (exec_serves_each_entry_in_one_phase 0 1 1 8 3 ex_transition
              ex_exec ltac:(lia)) as (H & _).
  destruct (H _ eq_refl) as (done & C & Hs & _).
  exists done. split; [exact C|exact Hs].
Defined.

(** The statistics of a switch count exactly the transfers the schedule
    made: the number of sends and of receives into a mapping grows by the
    number of entries served, and the bytes by the elements of their
    slices times the size of an element.  A receive that went to the
    dummy buffer (with [mpi_bug] set) is not counted, and a switch
    without statistics stays without. *)
Theorem exec_statistics_count_transfers :
  forall (mpi_bug myid dims elemsize count : Z)
         (t : Mpi.Laik_Transition) (st st' : Mpi.ExecState),
    Mpi.exec_sendrecv mpi_bug myid dims elemsize count t st = Some st' ->
    exists done,
      Mpi.comms st' = Mpi.comms st ++ done /\
      stat_counts dims elemsize (Mpi.stat st) (Mpi.stat st') done.
Proof.
  intros mpi_bug myid dims elemsize count t st st' E.
  unfold Mpi.exec_sendrecv in E. destruct (myid <? 0).
  - injection E as <-. exists []. rewrite app_nil_r.
    split; [reflexivity|apply stat_counts_nil].
  - apply exec_phases_run in E. destruct E as (C & S).
    eexists. split; [exact C|exact S].
Qed.

Lemma exec_statistics_count_transfers_witness :
  exists st' done,
    Mpi.exec_sendrecv 0 1 1 8 3 ex_transition ex_exec_stat = Some st' /\
    Mpi.comms st' = Mpi.comms ex_exec_stat ++ done /\
    stat_counts 1 8 (Mpi.stat ex_exec_stat) (Mpi.stat st') done.
Proof.
  destruct (exec_statistics_count_transfers 0 1 1 8 3 ex_transition
              ex_exec_stat _ eq_refl) as (done & C & S).
  eexists. exists done. split; [reflexivity|]. split; [exact C|exact S].
Defined.

(** The example, computed: two sends and two receives of in all six and
    eight elements of eight bytes. *)
Example exec_statistics_example :
  option_map Mpi.stat
    (Mpi.exec_sendrecv 0 1 1 8 3 ex_transition ex_exec_stat)
  = Some (Some (Mpi.mkStat 2 32 2 64)).
Proof. vm_compute. reflexivity. Qed.

(** ** Switching the partitioning of a container *)

Section LocalCopy.

Import Data.

Lemma copy_cells_to h tb toStart fb fromStart n k :
  cells (copy_cells h tb toStart fb fromStart n) tb k =
    if (toStart <=? k) && (k <? toStart + n)
    then cells h fb (fromStart + (k - toStart))
    else cells h tb k.
Proof. unfold copy_cells. cbn [cells]. unfold upd. now rewrite Z.eqb_refl. Qed.

Lemma copy_cells_other h tb toStart fb fromStart n b :
  b <> tb -> cells (copy_cells h tb toStart fb fromStart n) b = cells h b.
Proof.
  intros H. unfold copy_cells. cbn [cells]. unfold upd.
  apply Z.eqb_neq in H. now rewrite H.
Qed.

Variables (esz : Z) (toMap fromMap : Laik_Mapping) (fb tb : Z).
Hypothesis to_base : base toMap = Some tb.

Let bt := i0 (baseIdx toMap).
Let bf := i0 (baseIdx fromMap).

(** One local slice is copied to its place in the new mapping. *)
Lemma copy_local_done s h h' :
  local_ok toMap fromMap s ->
  copy_local esz toMap fromMap fb s h = Done h' ->
  (i0 (from s) < i0 (to s) -> tb <> fb) /\
  cells h' fb = cells h fb /\
  (forall k,
     cells h' tb k =
       if (i0 (from s) - bt <=? k) && (k <? i0 (to s) - bt)
       then cells h fb (k + bt - bf)
       else cells h tb k).
Proof.
  intros ((Hf1 & Hf2 & Hf3 & Hf4) & (Ht1 & Ht2 & Ht3 & Ht4) & Hint) E.
  unfold copy_local in E. fold bt bf in E, Hf1, Ht1, Hf3, Ht3.
  rewrite (u64_small (i0 (to s) - i0 (from s))) in E by clia.
  rewrite (to_int_id (i0 (to s) - i0 (from s))) in E
    by (unfold CInt.is_int; clia).
  rewrite (u64_small (i0 (from s) - bf)) in E by clia.
  rewrite (u64_small (i0 (from s) - bt)) in E by clia.
  destruct (Z.ltb_spec 0 (i0 (to s) - i0 (from s))) as [Hpos|Hpos].
  - rewrite to_base in E.
    destruct (_ <=? CInt.INT_MAX); cbn [defined obind] in E; [|discriminate].
    destruct (Z.eqb_spec tb fb) as [|Hne]; cbn [negb defined obind] in E;
      [discriminate|].
    destruct (_ <=? cap h fb); cbn [defined obind] in E; [|discriminate].
    destruct (_ <=? cap h tb); cbn [defined obind] in E; [|discriminate].
    injection E as <-.
    split; [intros _; exact Hne|].
    split; [apply copy_cells_other; auto|].
    intros k. rewrite copy_cells_to.
    replace (i0 (from s) - bt + (i0 (to s) - i0 (from s)))
      with (i0 (to s) - bt) by lia.
    destruct (_ && _)%bool; [|reflexivity].
    f_equal. lia.
  - injection E as <-. split; [lia|]. split; [reflexivity|].
    intros k.
    destruct (Z.leb_spec (i0 (from s) - bt) k);
      destruct (Z.ltb_spec k (i0 (to s) - bt)); cbn [andb]; try reflexivity.
    lia.
Qed.

(** All local slices: every index of one of them holds, at its place in
    the new mapping, the value it has in the old mapping. *)
Lemma copy_locals_done l : forall h h',
  (forall s, In s l -> local_ok toMap fromMap s) ->
  copy_locals esz toMap fromMap fb l h = Done h' ->
  cells h' fb = cells h fb /\
  (forall k, cells h' tb k = cells h tb k
             \/ cells h' tb k = cells h fb (k + bt - bf)) /\
  (forall s i, In s l -> i0 (from s) <= i < i0 (to s) ->
     tb <> fb /\ cells h' tb (i - bt) = cells h fb (i - bf)).
Proof.
  induction l as [|s l IH]; intros h h' Hok E; cbn [copy_locals] in E.
  - injection E as <-. split; [reflexivity|]. split; [auto|].
    intros s i [].
  - destruct (copy_local esz toMap fromMap fb s h) as [h1| |] eqn:C;
      cbn [obind] in E; try discriminate.
    apply copy_local_done in C; [|apply Hok; left; reflexivity].
    destruct C as (Cne & Cf & Ct).
    apply IH in E; [|intros s' Hs'; apply Hok; right; exact Hs'].
    destruct E as (Ef & Ek & Ei).
    split; [congruence|]. split.
    + intros k. destruct (Ek k) as [Hk|Hk]; rewrite Hk.
      * rewrite Ct. destruct (_ && _)%bool; auto.
      * right. rewrite Cf. reflexivity.
    + intros s' i [<-|Hs'] Hi.
      * split; [apply Cne; lia|].
        destruct (Ek (i - bt)) as [Hk|Hk]; rewrite Hk.
        -- rewrite Ct.
           replace ((i0 (from s) - bt <=? i - bt) && (i - bt <? i0 (to s) - bt))%bool
             with true
             by (symmetry; apply andb_true_iff; split;
                 [apply Z.leb_le|apply Z.ltb_lt]; lia).
           f_equal. lia.
        -- rewrite Cf. f_equal. lia.
      * destruct (Ei s' i Hs' Hi) as (Hne & Hv).
        split; [exact Hne|]. rewrite Hv, Cf. reflexivity.
Qed.

End LocalCopy.

Section SingleBackend.

Import Data.

Lemma single_reds_keep d fromMap toMap fb l : forall h h',
  base fromMap = Some fb -> base toMap <> Some fb ->
  single_reds d fromMap toMap l h = Done h' ->
  cells h' fb = cells h fb.
Proof.
  induction l as [|r l IH]; intros h h' Hf Ht E; cbn [single_reds] in E.
  - injection E as <-. reflexivity.
  - destruct (single_red d fromMap toMap r h) as [h1| |] eqn:R;
      cbn [obind] in E; try discriminate.
    rewrite (IH h1 h' Hf Ht E). clear E IH.
    unfold single_red in R.
    destruct (dims d =? 1); cbn [assert obind] in R; [|discriminate].
    rewrite Hf in R.
    destruct (_ || _)%bool; cbn [assert obind] in R; [|discriminate].
    destruct (base toMap) as [tb|]; [|discriminate].
    destruct (_ <? _); cbn [assert obind] in R; [|discriminate].
    destruct (Z.eqb_spec tb fb); cbn [negb defined obind] in R;
      [discriminate|].
    destruct (_ <=? cap h fb); cbn [defined obind] in R; [|discriminate].
    destruct (_ <=? cap h tb); cbn [defined obind] in R; [|discriminate].
    injection R as <-. apply copy_cells_other. congruence.
Qed.

(** The single task back end leaves the active mapping as it is. *)
Lemma single_keeps_active_mapping : keeps_active_mapping laik_backend_single.
Proof.
  intros exec d t toMap h h' fromMap fb Hex E Ha Hf Ht.
  cbn in Hex. injection Hex as <-.
  unfold laik_single_execTransition in E. rewrite Ha in E.
  destruct (single_reds d fromMap toMap (red t) h) as [h1| |] eqn:R;
    cbn [obind] in E; try discriminate.
  destruct (recvCount t =? 0); cbn [assert obind] in E; [|discriminate].
  destruct (sendCount t =? 0); cbn [assert obind] in E; [|discriminate].
  injection E as <-. eapply single_reds_keep; eauto.
Qed.

End SingleBackend.

Section InitEntries.

Import Data.

Variables (d : Laik_Data) (toMap : Laik_Mapping) (tb : Z).
Hypothesis to_base : base toMap = Some tb.

(** An init entry changes the places it writes, and nothing else. *)
Lemma init_entry_other e h h' k :
  init_entry d toMap e h = Done h' ->
  ~ init_writes e k ->
  cells h' tb k = cells h tb k.
Proof.
  unfold init_entry, init_writes. intros E Hk.
  set (j0 := CInt.to_int (i0 (from (fst e)))) in *.
  set (hi := j0 + (i0 (to (fst e)) - CInt.u64 j0)) in *.
  cbv zeta in Hk.
  assert (F : forall sz mk,
    match init_value (snd e) with
    | None => Aborted
    | Some v =>
        if CInt.u64 j0 <? i0 (to (fst e)) then
          match base toMap with
          | None => Undef
          | Some tb =>
              defined (hi <=? CInt.INT_MAX) ;;
              defined ((0 <=? j0) && (hi * sz <=? cap h tb)) ;;
              Done (fill_cells h tb j0 hi (mk v))
          end
        else Done h
    end = Done h' -> cells h' tb k = cells h tb k).
  { intros sz mk F.
    destruct (init_value (snd e)) as [v|]; [|discriminate].
    destruct (CInt.u64 j0 <? i0 (to (fst e)));
      [|injection F as <-; reflexivity].
    rewrite to_base in F.
    destruct (hi <=? CInt.INT_MAX); cbn [defined obind] in F; [|discriminate].
    destruct (_ && _)%bool; cbn [defined obind] in F; [|discriminate].
    injection F as <-. unfold fill_cells. cbn [cells]. unfold upd.
    rewrite Z.eqb_refl.
    destruct (Z.leb_spec j0 k); cbn [andb]; [|reflexivity].
    destruct (Z.ltb_spec k hi); [|reflexivity].
    exfalso. apply Hk. lia. }
  destruct (type d); try discriminate; eapply F; exact E.
Qed.

Lemma init_entries_other l k : forall h h',
  init_entries d toMap l h = Done h' ->
  (forall e, In e l -> ~ init_writes e k) ->
  cells h' tb k = cells h tb k.
Proof.
  induction l as [|e l IH]; intros h h' E Hk; cbn [init_entries] in E.
  - injection E as <-. reflexivity.
  - destruct (init_entry d toMap e h) as [h1| |] eqn:E1; cbn [obind] in E;
      try discriminate.
    rewrite (IH h1 h' E) by (intros e' He'; apply Hk; right; exact He').
    eapply init_entry_other; [exact E1|]. apply Hk. left. reflexivity.
Qed.

(** [initMap] leaves every place alone that none of the init entries
    writes. *)
Lemma initMap_other t h h' k :
  initMap d t toMap h = Done h' ->
  (forall e, In e (init t) -> ~ init_writes e k) ->
  cells h' tb k = cells h tb k.
Proof.
  unfold initMap. intros E Hk.
  destruct (0 <? initCount t); cbn [assert obind] in E; [|discriminate].
  destruct (count toMap =? 0); [injection E as <-; reflexivity|].
  destruct (dims d =? 1); cbn [assert obind] in E; [|discriminate].
  eapply init_entries_other; eauto.
Qed.

End InitEntries.

(** What [laik_set_partitioning] keeps of the old values.  After the
    call has returned, the mapping [allocMap] made is the active one, and
    for every index [i] of a [local] slice of the computed transition
    whose place in the new mapping no init entry writes, the element
    stored for [i] in the new mapping is the one the old mapping held
    before the call.  The local slices are taken as parts of what the old
    and the new mapping hold, with an element count that fits an [int],
    and the back end as one that does not write the old mapping.  Where
    an init entry does write the place, the old value is lost. *)
Lemma local_values_survive_where_no_init :
  forall (laik_update_partitioning :
            Data.Laik_Partitioning -> Data.Laik_Partitioning)
         (laik_calc_transitionP :
            option Data.Laik_Partitioning -> Data.Laik_Partitioning ->
            Data.Laik_Transition)
         (backend : Data.Laik_Backend)
         (d d' : Data.Laik_Data) (p : Data.Laik_Partitioning)
         (malloc_res : option Z) (h h' : Data.Heap)
         (fromMap : Data.Laik_Mapping) (fb tb : Z)
         (s : Laik_Slice) (i : Z),
    let t := laik_calc_transitionP (Data.activePartitioning d)
                                   (laik_update_partitioning p) in
    let toMap := fst (Data.allocMap d (laik_update_partitioning p)
                                    malloc_res h) in
    Data.keeps_active_mapping backend ->
    Data.laik_set_partitioning laik_update_partitioning laik_calc_transitionP
                               backend d p malloc_res h = Data.Done (d', h') ->
    Data.activeMapping d = Some fromMap -> Data.base fromMap = Some fb ->
    Data.base toMap = Some tb ->
    (forall s', In s' (Data.local t) -> local_ok toMap fromMap s') ->
    (forall e, In e (Data.init t) ->
       ~ init_writes e (i - i0 (Data.baseIdx toMap))) ->
    In s (Data.local t) ->
    i0 (from s) <= i < i0 (to s) ->
    Data.activeMapping d' = Some toMap /\
    Data.cells h' tb (i - i0 (Data.baseIdx toMap))
    = Data.cells h fb (i - i0 (Data.baseIdx fromMap)).
Proof.
  intros upd_p calc backend d d' p malloc_res h h' fromMap fb tb s i t toMap
         Hkeep E Ha Hfb Htb Hok Hinit Hs Hi.
  unfold Data.laik_set_partitioning in E. fold t in E.
  destruct (Data.allocMap d (upd_p p) malloc_res h) as [toMap0 h1] eqn:A.
  cbn [fst] in toMap. subst toMap.
  destruct (Data.execTransition backend) as [exec|] eqn:X; [|discriminate].
  destruct (exec d t toMap0 h1) as [h2| |] eqn:R; cbn [Data.obind] in E;
    try discriminate.
  assert (Hlc : (0 <? Data.localCount t) = true).
  { apply Z.ltb_lt. unfold Data.localCount.
    destruct (Data.local t); [destruct Hs|cbn; lia]. }
  rewrite Hlc in E.
  destruct (Data.copyMap d t toMap0 (Data.activeMapping d) h2)
    as [h3| |] eqn:C; cbn [Data.obind] in E; try discriminate.
  destruct (if 0 <? Data.initCount t then Data.initMap d t toMap0 h3
            else Data.Done h3) as [h4| |] eqn:I; cbn [Data.obind] in E;
    try discriminate.
  injection E as <- <-. cbn [Data.activeMapping].
  split; [reflexivity|]. rewrite Ha. rewrite Ha in C.
  (* the init entries *)
  assert (H4 : Data.cells h4 tb (i - i0 (Data.baseIdx toMap0))
               = Data.cells h3 tb (i - i0 (Data.baseIdx toMap0))).
  { destruct (0 <? Data.initCount t); [|injection I as <-; reflexivity].
    eapply initMap_other; eauto. }
  (* the copy *)
  unfold Data.copyMap in C. rewrite Hlc in C. cbn [Data.assert Data.obind] in C.
  destruct (Data.data toMap0 =? Data.data fromMap);
    cbn [Data.assert Data.obind] in C; [|discriminate].
  destruct (Hok s Hs) as (Hsf & Hst & Hsi).
  assert (Hcnt : (Data.count toMap0 =? 0) = false).
  { apply Z.eqb_neq. destruct Hst as (H1 & _ & H3 & _). lia. }
  rewrite Hcnt, Hfb in C.
  destruct (Data.dims d =? 1); cbn [Data.assert Data.obind] in C;
    [|discriminate].
  apply (copy_locals_done (Data.elemsize d) toMap0 fromMap fb tb Htb) in C;
    [|exact Hok].
  destruct C as (_ & _ & Ci). destruct (Ci s i Hs Hi) as (Hne & Hv).
  (* the old mapping since the call *)
  assert (H2 : Data.cells h2 fb = Data.cells h1 fb).
  { eapply Hkeep; eauto. rewrite Htb. congruence. }
  assert (H1 : Data.cells h1 fb = Data.cells h fb).
  { unfold Data.allocMap in A.
    destruct (_ =? 0) in A; [injection A as <- <-; reflexivity|].
    destruct malloc_res as [blk|]; injection A as <- <-; [|reflexivity].
    cbn [Data.base] in Htb. injection Htb as ->.
    cbn [Data.cells]. unfold Data.upd.
    replace (fb =? tb) with false by (symmetry; apply Z.eqb_neq; lia).
    reflexivity. }
  unfold Data.freeMap. rewrite Hfb. cbn [Data.cells].
  rewrite H4, Hv, H2, H1. reflexivity.
Qed.

(** ** The switch in an example *)

(** C1 (failing input).  The task holds [4,8) in a mapping that starts
    at index 4, with the values 10, 11, 12, 13, and is switched to [2,8):
    the transition has the local slice [4,8) and the init entry [2,4)
    for a sum.  [laik_set_partitioning] returns with a new mapping that
    starts at index 2.  [copyMap] has put the four old values at the
    places 2 to 5 of the new block, where the indexes 4 to 7 belong; then
    [initMap] has written its zeros at the places 2 and 3, the global
    indexes of its entry, instead of the places 0 and 1.  So the local
    indexes 4 and 5 hold 0 and not their old values 10 and 11, while the
    indexes 2 and 3, which were to be initialized, hold nothing. *)
Theorem set_partitioning_init_overwrites_local :
  exists d' h',
    ex_set_partitioning_grow = Data.Done (d', h') /\
    Data.activeMapping ex_grow_data
      = Some (Data.mkMapping 0 0 4 (mkIndex 4 0 0) (Some 1)) /\
    Data.activeMapping d'
      = Some (Data.mkMapping 0 0 6 (mkIndex 2 0 0) (Some 2)) /\
    Data.local ex_grow = [ex_slice 4 8] /\
    map (fun i => Data.cells ex_heap 1 (i - 4)) [4; 5; 6; 7]
    = [Data.Raw [10]; Data.Raw [11]; Data.Raw [12]; Data.Raw [13]] /\
    map (fun i => Data.cells h' 2 (i - 2)) [2; 3; 4; 5; 6; 7]
    = [Data.Uninit; Data.Uninit; Data.DoubleVal 0; Data.DoubleVal 0;
       Data.Raw [12]; Data.Raw [13]] /\
    Data.cells h' 2 (4 - 2) <> Data.cells ex_heap 1 (4 - 4).
Proof.
  eexists. eexists. split; [vm_compute; reflexivity|].
  repeat (split; [reflexivity|]).
  cbn. discriminate.
Qed.

(** In that switch the local slice lies in both mappings, as the planner
    gives it; only the place of the index is one an init entry writes. *)
Example set_partitioning_grow_local_ok :
  local_ok (Data.mkMapping 0 0 6 (mkIndex 2 0 0) (Some 2)) ex_grow_map
           (ex_slice 4 8) /\
  init_writes (ex_slice 2 4, Data.LAIK_AB_Sum) (4 - 2).
Proof.
  unfold local_ok, Data.slice_in_map, init_writes. cbn.
  repeat split; try clia; vm_compute; congruence.
Qed.

(** Where no init entry writes the place, the old value is kept: index 3
    of the example is local; its value, at offset 3 of the old block, is
    found at offset 3 of the new block. *)
Example local_values_survive_example :
  match ex_set_partitioning with
  | Data.Done (d', h') =>
      Data.activeMapping d'
        = Some (Data.mkMapping 0 0 6 (mkIndex 0 0 0) (Some 2)) /\
      Data.cells h' 2 (3 - 0) = Data.cells ex_heap 1 (3 - 0)
  | _ => False
  end.
Proof.
  destruct ex_set_partitioning as [[d' h']| |] eqn:E;
    try (vm_compute in E; discriminate E).
  apply (local_values_survive_where_no_init
           (fun p => p) (fun _ _ => ex_local) Data.laik_backend_single
           ex_data d' (ex_borders 0 6) (Some 2) ex_heap h'
           ex_old_map 1 2 (ex_slice 0 4) 3).
  - exact single_keeps_active_mapping.
  - exact E.
  - reflexivity.
  - reflexivity.
  - reflexivity.
  - intros s' [<-|[]]. unfold local_ok, Data.slice_in_map. cbn. clia.
  - intros e [<-|[]]. unfold init_writes. cbn. vm_compute. intros [H1 H2].
    apply H1. reflexivity.
  - left. reflexivity.
  - cbn. lia.
Qed.

(** The same switch, computed: the local values are in the new block,
    followed by the two initial values. *)
Example set_partitioning_example :
  exists d' h',
    ex_set_partitioning = Data.Done (d', h') /\
    map (Data.cells h' 2) [0; 1; 2; 3; 4; 5]
    = [Data.Raw [10]; Data.Raw [11]; Data.Raw [12]; Data.Raw [13];
       Data.DoubleVal 0; Data.DoubleVal 0].
Proof. eexists. eexists. split; vm_compute; reflexivity. Qed.

(** When the new mapping does not start at index 0 the init entries are
    written past their places: here past the end of the new block. *)
Example set_partitioning_example_off :
  ex_set_partitioning_off = Data.Undef.
Proof. vm_compute. reflexivity. Qed.

(** ** Initial values of reductions *)

Set Warnings "-inexact-float".

(** C5 (failing input).  For an init entry with a Min reduction on a
    container of doubles, [initMap] writes 9e99 to the elements of the
    entry, which is far below the largest [double]; for Max it writes
    -9e99, far above the smallest.  (Sum and Prod get 0 and 1.)  For a
    container of floats the same constants are converted to [float], whose
    range they exceed.  Moreover the positions written are the global
    indexes of the entry, not the positions of these indexes in the
    mapping: with a mapping starting at index 4 the entry [4,6) is written
    to the places of the indexes 8 and 9. *)
Theorem init_min_is_not_type_max :
  (exists h',
     Data.initMap ex_data (ex_init Data.LAIK_AB_Min) ex_init_map ex_init_heap
       = Data.Done h' /\
     Data.cells h' 1 0 = Data.DoubleVal 9e99%float /\
     Data.cells h' 1 1 = Data.DoubleVal 9e99%float) /\
  (9e99 <? Data.DBL_MAX)%float = true /\
  (exists h',
     Data.initMap ex_data (ex_init Data.LAIK_AB_Max) ex_init_map ex_init_heap
       = Data.Done h' /\
     Data.cells h' 1 0 = Data.DoubleVal (-9e99)%float) /\
  (- Data.DBL_MAX <? -9e99)%float = true /\
  (Data.FLT_MAX <? 9e99)%float = true /\
  (exists h',
     Data.initMap ex_data ex_init_off ex_init_map_off ex_init_heap_off
       = Data.Done h' /\
     map (Data.cells h' 1) [0; 1; 2; 3; 4; 5]
     = [Data.Uninit; Data.Uninit; Data.Uninit; Data.Uninit;
        Data.DoubleVal 0%float; Data.DoubleVal 0%float]).
Proof.
  split; [eexists; split; [vm_compute; reflexivity|split; reflexivity]|].
  split; [reflexivity|].
  split; [eexists; split; [vm_compute; reflexivity|reflexivity]|].
  split; [reflexivity|]. split; [reflexivity|].
  eexists; split; vm_compute; reflexivity.
Qed.

(** The values for Sum and Prod are the identities of these
    operations. *)
Lemma init_sum_prod :
  Data.init_value Data.LAIK_AB_Sum = Some 0%float /\
  Data.init_value Data.LAIK_AB_Prod = Some 1%float.
Proof. split; reflexivity. Qed.

(** ** What the init entries and the single task back end write *)

Section InitValues.

Import Data.

Variables (d : Laik_Data) (toMap : Laik_Mapping) (tb : Z).
Hypothesis to_base : base toMap = Some tb.

(** One init entry: every place it writes holds the value of its
    reduction afterwards. *)
Lemma init_entry_at e h h' k :
  init_entry d toMap e h = Done h' ->
  init_writes e k ->
  init_cell (type d) (snd e) = Some (cells h' tb k).
Proof.
  unfold init_entry, init_writes, init_cell. intros E Hk.
  set (j0 := CInt.to_int (i0 (from (fst e)))) in *.
  set (hi := j0 + (i0 (to (fst e)) - CInt.u64 j0)) in *.
  cbv zeta in Hk.
  assert (F : forall sz mk,
    match init_value (snd e) with
    | None => Aborted
    | Some v =>
        if CInt.u64 j0 <? i0 (to (fst e)) then
          match base toMap with
          | None => Undef
          | Some tb =>
              defined (hi <=? CInt.INT_MAX) ;;
              defined ((0 <=? j0) && (hi * sz <=? cap h tb)) ;;
              Done (fill_cells h tb j0 hi (mk v))
          end
        else Done h
    end = Done h' ->
    exists v, init_value (snd e) = Some v /\ cells h' tb k = mk v).
  { intros sz mk F.
    destruct (init_value (snd e)) as [v|]; [|discriminate].
    exists v. split; [reflexivity|].
    destruct (Z.ltb_spec (CInt.u64 j0) (i0 (to (fst e)))) as [L|L]; [|lia].
    rewrite to_base in F.
    destruct (hi <=? CInt.INT_MAX); cbn [defined obind] in F; [|discriminate].
    destruct (_ && _)%bool; cbn [defined obind] in F; [|discriminate].
    injection F as <-. unfold fill_cells. cbn [cells]. unfold upd.
    rewrite Z.eqb_refl.
    replace (j0 <=? k) with true by (symmetry; apply Z.leb_le; lia).
    replace (k <? hi) with true by (symmetry; apply Z.ltb_lt; lia).
    reflexivity. }
  destruct (type d); try discriminate;
    destruct (F _ _ E) as (v & -> & ->); reflexivity.
Qed.

Lemma init_writes_dec l k :
  (exists e, In e l /\ init_writes e k) \/
  (forall e, In e l -> ~ init_writes e k).
Proof.
  induction l as [|e l IH].
  - right. intros e [].
  - destruct IH as [(e' & He & Hw)|IH].
    + left. exists e'. split; [right; exact He|exact Hw].
    + unfold init_writes in *.
      destruct (Z_le_dec (CInt.to_int (i0 (from (fst e)))) k) as [L1|L1];
        [destruct (Z_lt_dec k (CInt.to_int (i0 (from (fst e)))
                               + (i0 (to (fst e))
                                  - CInt.u64 (CInt.to_int (i0 (from (fst e)))))))
           as [L2|L2]|].
      * left. exists e. split; [left; reflexivity|]. cbv zeta. lia.
      * right. intros e' [<-|He']; [cbv zeta; lia|apply IH; exact He'].
      * right. intros e' [<-|He']; [cbv zeta; lia|apply IH; exact He'].
Qed.

(** All entries in turn: a place holds the value of the entries that
    write it, when these agree on the reduction. *)
Lemma init_entries_at l : forall h h' e k,
  init_entries d toMap l h = Done h' ->
  In e l -> init_writes e k ->
  (forall e', In e' l -> init_writes e' k -> snd e' = snd e) ->
  init_cell (type d) (snd e) = Some (cells h' tb k).
Proof.
  induction l as [|e0 l IH]; intros h h' e k E He Hw Hsame;
    cbn [init_entries] in E; [destruct He|].
  destruct (init_entry d toMap e0 h) as [h1| |] eqn:E1; cbn [obind] in E;
    try discriminate.
  destruct (init_writes_dec l k) as [(e' & He' & Hw')|Hnone].
  - rewrite <- (Hsame e' (or_intror He') Hw').
    apply (IH h1 h' e' k E He' Hw').
    intros e'' H1 H2.
    rewrite (Hsame e'' (or_intror H1) H2), (Hsame e' (or_intror He') Hw').
    reflexivity.
  - rewrite (init_entries_other d toMap tb to_base l k h1 h' E Hnone).
    destruct He as [->|He]; [|exfalso; exact (Hnone e He Hw)].
    eapply init_entry_at; eassumption.
Qed.

End InitValues.

Section SingleCopy.

Import Data.

Variables (d : Laik_Data) (fromMap toMap : Laik_Mapping) (fb tb : Z).
Hypothesis from_base : base fromMap = Some fb.
Hypothesis to_base : base toMap = Some tb.

Lemma single_red_at r h h' :
  single_red d fromMap toMap r h = Done h' ->
  tb <> fb /\
  cells h' fb = cells h fb /\
  forall k,
    cells h' tb k =
      if (0 <=? k) && (k <? red_count r) then cells h fb k else cells h tb k.
Proof.
  unfold single_red. intros R.
  destruct (dims d =? 1); cbn [assert obind] in R; [|discriminate].
  rewrite from_base in R.
  destruct (_ || _)%bool; cbn [assert obind] in R; [|discriminate].
  rewrite to_base in R.
  destruct (_ <? _); cbn [assert obind] in R; [|discriminate].
  destruct (Z.eqb_spec tb fb); cbn [negb defined obind] in R;
    [discriminate|].
  destruct (_ <=? cap h fb); cbn [defined obind] in R; [|discriminate].
  destruct (_ <=? cap h tb); cbn [defined obind] in R; [|discriminate].
  injection R as <-. split; [assumption|].
  split; [apply copy_cells_other; congruence|].
  intros k. rewrite copy_cells_to. unfold red_count.
  rewrite Z.add_0_l, Z.sub_0_r. reflexivity.
Qed.

Lemma single_reds_at l : forall h h',
  single_reds d fromMap toMap l h = Done h' ->
  cells h' fb = cells h fb /\
  forall k,
    ((exists r, In r l /\ 0 <= k < red_count r) ->
     cells h' tb k = cells h fb k) /\
    ((forall r, In r l -> ~ 0 <= k < red_count r) ->
     cells h' tb k = cells h tb k).
Proof.
  induction l as [|r l IH]; intros h h' E; cbn [single_reds] in E.
  - injection E as <-. split; [reflexivity|]. intros k. split.
    + intros (r & [] & _).
    + reflexivity.
  - destruct (single_red d fromMap toMap r h) as [h1| |] eqn:R;
      cbn [obind] in E; try discriminate.
    destruct (single_red_at _ _ _ R) as (Hne & Hf1 & Ht1).
    destruct (IH _ _ E) as (Hf & Hk).
    split; [rewrite Hf; exact Hf1|].
    intros k. destruct (Hk k) as (Hin & Hout).
    assert (Hdec : (exists r', In r' l /\ 0 <= k < red_count r') \/
                   (forall r', In r' l -> ~ 0 <= k < red_count r')).
    { clear. induction l as [|a l IHl]; [right; intros ? []|].
      destruct IHl as [(r' & H1 & H2)|IHl]; [left; exists r'; auto with datatypes|].
      destruct (Z_le_dec 0 k) as [L|L];
        [destruct (Z_lt_dec k (red_count a)) as [L2|L2]|].
      - left. exists a. split; [left; reflexivity|lia].
      - right. intros r' [<-|H]; [lia|apply IHl; exact H].
      - right. intros r' [<-|H]; [lia|apply IHl; exact H]. }
    split.
    + intros (r' & Hr' & Hk').
      destruct Hdec as [Hex|Hno].
      * rewrite (Hin Hex), Hf1. reflexivity.
      * rewrite (Hout Hno), Ht1.
        destruct Hr' as [<-|Hr']; [|exfalso; exact (Hno _ Hr' Hk')].
        replace (0 <=? k) with true by (symmetry; apply Z.leb_le; lia).
        replace (k <? red_count r) with true
          by (symmetry; apply Z.ltb_lt; lia).
        reflexivity.
    + intros Hno.
      rewrite (Hout (fun r' H => Hno r' (or_intror H))), Ht1.
      destruct (Z.leb_spec 0 k); cbn [andb]; [|reflexivity].
      destruct (Z.ltb_spec k (red_count r)); [|reflexivity].
      exfalso. apply (Hno r (or_introl eq_refl)). lia.
Qed.

End SingleCopy.

(** [initMap] stores, at every place an init entry writes, the value the
    code has for the reduction of the entry (0 for a sum, 1 for a
    product, 9e99 for a minimum, -9e99 for a maximum), as a [double] or a
    [float] by the type of the container; where several entries write the
    same place they are taken to name the same reduction.  The places are
    the values of the loop variable, that is the global indexes of the
    entry: the start of the mapping is not subtracted.  Every other
    element of the block is left as it was. *)
Theorem initMap_writes_identity_values :
  forall (d : Data.Laik_Data) (t : Data.Laik_Transition)
         (toMap : Data.Laik_Mapping) (tb : Z) (h h' : Data.Heap),
    Data.base toMap = Some tb ->
    Data.count toMap <> 0 ->
    Data.initMap d t toMap h = Data.Done h' ->
    (forall e k,
       In e (Data.init t) -> init_writes e k ->
       (forall e', In e' (Data.init t) -> init_writes e' k ->
                   snd e' = snd e) ->
       init_cell (Data.type d) (snd e) = Some (Data.cells h' tb k)) /\
    (forall e k,
       init_writes e k <->
       CInt.to_int (i0 (from (fst e))) <= k /\
       k - CInt.to_int (i0 (from (fst e)))
         < i0 (to (fst e)) - CInt.u64 (CInt.to_int (i0 (from (fst e))))) /\
    (forall k,
       (forall e, In e (Data.init t) -> ~ init_writes e k) ->
       Data.cells h' tb k = Data.cells h tb k).
Proof.
  intros d t toMap tb h h' Hb Hc E. split; [|split].
  - intros e k He Hw Hsame. unfold Data.initMap in E.
    destruct (0 <? Data.initCount t); cbn [Data.assert Data.obind] in E;
      [|discriminate].
    replace (Data.count toMap =? 0) with false in E
      by (symmetry; apply Z.eqb_neq; exact Hc).
    destruct (Data.dims d =? 1); cbn [Data.assert Data.obind] in E;
      [|discriminate].
    eapply init_entries_at; eassumption.
  - intros e k. unfold init_writes. cbv zeta. lia.
  - intros k Hk. eapply initMap_other; eassumption.
Qed.

(** The init entry [4,6) for a sum on a mapping that starts at index 4:
    the zeros are at the places 4 and 5 of the block. *)
Lemma initMap_writes_identity_values_witness :
  exists h',
    Data.initMap ex_data ex_init_off ex_init_map_off ex_init_heap_off
      = Data.Done h' /\
    init_cell Data.laik_Double Data.LAIK_AB_Sum = Some (Data.cells h' 1 5) /\
    Data.cells h' 1 0 = Data.Uninit.
Proof.
  eexists. split; [vm_compute; reflexivity|].
  destruct (initMap_writes_identity_values ex_data ex_init_off ex_init_map_off
              1 ex_init_heap_off _ eq_refl ltac:(cbn; lia) eq_refl)
    as (H1 & _ & H3).
  split.
  - apply (H1 (ex_slice 4 6, Data.LAIK_AB_Sum) 5).
    + left. reflexivity.
    + unfold init_writes. vm_compute. split; [discriminate|reflexivity].
    + intros e' [<-|[]] _. reflexivity.
  - reflexivity.
Defined.

(** The single task back end carries out a reduction entry as a plain
    copy: for every entry it copies the first [to - from] elements of the
    block of the active mapping to the beginning of the block of the new
    mapping, whatever the start of the slice and of the mappings.  After
    the call every element below the count of some entry is that of the
    old block, all others and the old block itself are unchanged.  The
    call returns only for a transition without sends and receives. *)
Theorem single_reduction_is_plain_copy :
  forall (d : Data.Laik_Data) (t : Data.Laik_Transition)
         (fromMap toMap : Data.Laik_Mapping) (fb tb : Z) (h h' : Data.Heap),
    Data.activeMapping d = Some fromMap ->
    Data.base fromMap = Some fb ->
    Data.base toMap = Some tb ->
    Data.laik_single_execTransition d t toMap h = Data.Done h' ->
    Data.sendCount t = 0 /\ Data.recvCount t = 0 /\
    Data.cells h' fb = Data.cells h fb /\
    (forall k,
       (exists r, In r (Data.red t) /\ 0 <= k < red_count r) ->
       Data.cells h' tb k = Data.cells h fb k) /\
    (forall k,
       (forall r, In r (Data.red t) -> ~ 0 <= k < red_count r) ->
       Data.cells h' tb k = Data.cells h tb k).
Proof.
  intros d t fromMap toMap fb tb h h' Ha Hf Ht E.
  unfold Data.laik_single_execTransition in E. rewrite Ha in E.
  destruct (Data.single_reds d fromMap toMap (Data.red t) h) as [h1| |] eqn:R;
    cbn [Data.obind] in E; try discriminate.
  destruct (Z.eqb_spec (Data.recvCount t) 0) as [Hr|Hr];
    cbn [Data.assert Data.obind] in E; [|discriminate].
  destruct (Z.eqb_spec (Data.sendCount t) 0) as [Hs|Hs];
    cbn [Data.assert Data.obind] in E; [|discriminate].
  injection E as <-.
  destruct (single_reds_at d fromMap toMap fb tb Hf Ht _ _ _ R) as (Hk & Hc).
  split; [exact Hs|]. split; [exact Hr|]. split; [exact Hk|].
  split; intros k; apply (Hc k).
Qed.

(** A reduction over [2,4) on a single task, from block 1 to block 2:
    the elements 0 and 1 are copied. *)
Lemma single_reduction_is_plain_copy_witness :
  exists h',
    Data.laik_single_execTransition ex_data ex_red ex_red_map ex_red_heap
      = Data.Done h' /\
    Data.cells h' 2 1 = Data.cells ex_red_heap 1 1 /\
    Data.cells h' 2 3 = Data.cells ex_red_heap 2 3.
Proof.
  eexists. split; [vm_compute; reflexivity|].
  destruct (single_reduction_is_plain_copy ex_data ex_red ex_old_map
              ex_red_map 1 2 ex_red_heap _ eq_refl eq_refl eq_refl eq_refl)
    as (_ & _ & _ & H1 & H2).
  split.
  - apply H1. exists (ex_slice 2 4, -1). split; [left; reflexivity|].
    vm_compute. split; [discriminate|reflexivity].
  - apply H2. intros r [<-|[]]. vm_compute. intros (_ & H). discriminate H.
Defined.

(** ** A failed allocation of the new mapping *)

(** [allocMap] does not look at what the allocation returns: when it
    fails, [laik_set_partitioning] goes on with a mapping that has
    elements but no memory.  If the call returns, that mapping is the
    active one afterwards; and when the transition has a local slice to
    copy from an old mapping with memory, [copyMap] copies to the null
    pointer, which leaves the defined behaviour of C.  The failure is
    reported nowhere. *)
Theorem set_partitioning_ignores_failed_allocation :
  forall (laik_update_partitioning :
            Data.Laik_Partitioning -> Data.Laik_Partitioning)
         (laik_calc_transitionP :
            option Data.Laik_Partitioning -> Data.Laik_Partitioning ->
            Data.Laik_Transition)
         (backend : Data.Laik_Backend) (d : Data.Laik_Data)
         (p : Data.Laik_Partitioning) (h : Data.Heap),
    let p' := laik_update_partitioning p in
    let t := laik_calc_transitionP (Data.activePartitioning d) p' in
    let m := fst (Data.allocMap d p' None h) in
    let run := Data.laik_set_partitioning laik_update_partitioning
                 laik_calc_transitionP backend d p None h in
    Data.base m = None /\ snd (Data.allocMap d p' None h) = h /\
    (forall d' h',
       run = Data.Done (d', h') ->
       Data.activeMapping d' = Some m /\ Data.activePartitioning d' = Some p') /\
    (forall exec h1 fromMap fb s rest,
       Data.count m <> 0 ->
       Data.execTransition backend = Some exec ->
       exec d t m h = Data.Done h1 ->
       Data.local t = s :: rest ->
       0 < CInt.to_int (CInt.u64 (i0 (to s) - i0 (from s))) ->
       Data.activeMapping d = Some fromMap ->
       Data.data fromMap = Data.id d ->
       Data.base fromMap = Some fb ->
       Data.dims d = 1 ->
       run = Data.Undef).
Proof.
  intros upd calc backend d p h p' t m run.
  assert (Ha : Data.allocMap d p' None h = (m, h) /\ Data.base m = None /\
               Data.data m = Data.id d).
  { unfold m, Data.allocMap. destruct (_ =? 0); cbn; auto. }
  destruct Ha as (Ha & Hb & Hd).
  split; [exact Hb|]. split; [rewrite Ha; reflexivity|].
  unfold run, Data.laik_set_partitioning. fold p'. rewrite Ha. fold t.
  split.
  - intros d' h' E.
    destruct (Data.execTransition backend) as [exec|]; [|discriminate].
    destruct (exec d t m h) as [h1| |]; cbn [Data.obind] in E;
      try discriminate.
    destruct (if 0 <? Data.localCount t then _ else _) as [h2| |];
      cbn [Data.obind] in E; try discriminate.
    destruct (if 0 <? Data.initCount t then _ else _) as [h3| |];
      cbn [Data.obind] in E; try discriminate.
    injection E as <- _. split; reflexivity.
  - intros exec h1 fromMap fb s rest Hc Hex E1 Hl Hs Hact Hdat Hfb Hdim.
    rewrite Hex, E1. cbn [Data.obind].
    assert (Hlc : (0 <? Data.localCount t) = true).
    { apply Z.ltb_lt. unfold Data.localCount. rewrite Hl.
      cbn [List.length]. lia. }
    rewrite Hlc. unfold Data.copyMap. rewrite Hlc, Hact.
    cbn [Data.assert Data.obind]. rewrite Hd, Hdat, Z.eqb_refl.
    cbn [Data.assert Data.obind].
    replace (Data.count m =? 0) with false
      by (symmetry; apply Z.eqb_neq; exact Hc).
    rewrite Hfb, Hdim. cbn [Z.eqb Pos.eqb Data.assert Data.obind].
    rewrite Hl. cbn [Data.copy_locals]. unfold Data.copy_local at 1.
    replace (0 <? CInt.to_int (CInt.u64 (i0 (to s) - i0 (from s)))) with true
      by (symmetry; apply Z.ltb_lt; exact Hs).
    rewrite Hb. reflexivity.
Qed.

(** The switch of the example when the allocation of the new block
    fails. *)
Lemma set_partitioning_ignores_failed_allocation_witness :
  Data.laik_set_partitioning (fun p => p) (fun _ _ => ex_local)
    Data.laik_backend_single ex_data (ex_borders 0 6) None ex_heap
  = Data.Undef.
Proof.
  destruct (set_partitioning_ignores_failed_allocation
              (fun p => p) (fun _ _ => ex_local) Data.laik_backend_single
              ex_data (ex_borders 0 6) ex_heap) as (_ & _ & _ & H).
  apply (H Data.laik_single_execTransition ex_heap ex_old_map 1
           (ex_slice 0 4) []).
  - vm_compute. discriminate.
  - reflexivity.
  - reflexivity.
  - reflexivity.
  - vm_compute. reflexivity.
  - reflexivity.
  - reflexivity.
  - reflexivity.
  - reflexivity.
Defined.
